(** * libmkvtag: a shallow embedding of the EBML codec, the Matroska tag
      model and the tag placement planner, with the properties checked
      against them.

    Conventions of the embedding.
    - A [uint8_t] is a [Z] in [0, 256); [uint32_t], [uint64_t], [int] and
      [int64_t] values are [Z] with the wrap-around written where the C code
      can wrap ([wrap64], [to_int32], [to_uint32]).
    - A [char *] is [option cstring]: [None] is the NULL pointer, [Some s]
      holds the characters before the terminating NUL.
    - A [dyn_buffer_t] is the list of its [size] valid bytes; memory
      allocation ([malloc], [calloc], [realloc], [str_dup]) always succeeds.
    - The singly linked lists of the tag model ([next] pointers) are lists.
    - A collection is a value; where a call frees the collection of the
      context, its argument says whether it is that collection ([Cached])
      or one the caller built ([Built]).
    - Loops over the children of an element take a [fuel] argument; running
      out of it is the outcome [OutOfFuel], apart from every result of the
      program. *)

From Stdlib Require Import ZArith List Lia Bool.
Import ListNotations.
Set Warnings "-register-all".
Local Open Scope Z_scope.

(* ------------------------------------------------------------------ *)
(** ** Error codes (mkvtag_error.h) *)

Inductive mkvtag_error : Set :=
| MKVTAG_OK
| MKVTAG_ERR_INVALID_ARG
| MKVTAG_ERR_NO_MEMORY
| MKVTAG_ERR_IO
| MKVTAG_ERR_NOT_OPEN
| MKVTAG_ERR_ALREADY_OPEN
| MKVTAG_ERR_READ_ONLY
| MKVTAG_ERR_NOT_EBML
| MKVTAG_ERR_NOT_MKV
| MKVTAG_ERR_CORRUPT
| MKVTAG_ERR_TRUNCATED
| MKVTAG_ERR_INVALID_VINT
| MKVTAG_ERR_VINT_OVERFLOW
| MKVTAG_ERR_NO_TAGS
| MKVTAG_ERR_TAG_NOT_FOUND
| MKVTAG_ERR_TAG_TOO_LARGE
| MKVTAG_ERR_NO_SPACE
| MKVTAG_ERR_WRITE_FAILED
| MKVTAG_ERR_SEEK_FAILED.

(** The numeric value of each code. *)
Definition error_code (e : mkvtag_error) : Z :=
  match e with
  | MKVTAG_OK => 0
  | MKVTAG_ERR_INVALID_ARG => -1
  | MKVTAG_ERR_NO_MEMORY => -2
  | MKVTAG_ERR_IO => -3
  | MKVTAG_ERR_NOT_OPEN => -4
  | MKVTAG_ERR_ALREADY_OPEN => -5
  | MKVTAG_ERR_READ_ONLY => -6
  | MKVTAG_ERR_NOT_EBML => -10
  | MKVTAG_ERR_NOT_MKV => -11
  | MKVTAG_ERR_CORRUPT => -12
  | MKVTAG_ERR_TRUNCATED => -13
  | MKVTAG_ERR_INVALID_VINT => -14
  | MKVTAG_ERR_VINT_OVERFLOW => -15
  | MKVTAG_ERR_NO_TAGS => -20
  | MKVTAG_ERR_TAG_NOT_FOUND => -21
  | MKVTAG_ERR_TAG_TOO_LARGE => -22
  | MKVTAG_ERR_NO_SPACE => -30
  | MKVTAG_ERR_WRITE_FAILED => -31
  | MKVTAG_ERR_SEEK_FAILED => -32
  end.

Definition is_ok (e : mkvtag_error) : bool :=
  match e with MKVTAG_OK => true | _ => false end.

(** A function [int f(..., T *out)]: the value on success, the code otherwise. *)
Inductive result (A : Type) : Type :=
| Ok (a : A)
| Err (e : mkvtag_error).
Arguments Ok {A} a.
Arguments Err {A} e.

Definition rbind {A B} (r : result A) (k : A -> result B) : result B :=
  match r with
  | Ok a => k a
  | Err e => Err e
  end.

(** What a run of a function with loops ends in: a result of the program, no
    fuel left, or a step the C standard leaves undefined. *)
Inductive outcome (A : Type) : Type :=
| Done (a : A)
| OutOfFuel
| Undefined.
Arguments Done {A} a.
Arguments OutOfFuel {A}.
Arguments Undefined {A}.

Definition obind {A B} (o : outcome A) (k : A -> outcome B) : outcome B :=
  match o with
  | Done a => k a
  | OutOfFuel => OutOfFuel
  | Undefined => Undefined
  end.

Declare Scope mkv_scope.
Delimit Scope mkv_scope with mkv.
Notation "x <- e ;; k" := (rbind e (fun x => k))
  (at level 61, e at next level, right associativity) : mkv_scope.
Notation "x <~ e ;; k" := (obind e (fun x => k))
  (at level 61, e at next level, right associativity) : mkv_scope.
Notation "' ( x , y ) <~ e ;; k" := (obind e (fun p => let '(x, y) := p in k))
  (at level 61, x name, y name, e at next level, right associativity) : mkv_scope.
Local Open Scope mkv_scope.

(* ------------------------------------------------------------------ *)
(** ** Machine integers *)

Definition wrap64 (z : Z) : Z := z mod 2 ^ 64.
Definition to_uint32 (z : Z) : Z := z mod 2 ^ 32.
(** Conversion to [int]: two's complement on 32 bits. *)
Definition to_int32 (z : Z) : Z := (z + 2 ^ 31) mod 2 ^ 32 - 2 ^ 31.
(** Conversion to [int64_t]: two's complement on 64 bits. *)
Definition to_int64 (z : Z) : Z := (z + 2 ^ 63) mod 2 ^ 64 - 2 ^ 63.
Definition to_uint8 (z : Z) : Z := Z.land z 255.

Definition zlen {A} (l : list A) : Z := Z.of_nat (length l).

(** A C string: the characters before the NUL. *)
Definition cstring : Type := list Z.
Definition strlen (s : cstring) : Z := zlen s.

(* ------------------------------------------------------------------ *)
(** ** Element IDs (ebml_ids.h) *)

Definition EBML_ID_EBML : Z := 0x1A45DFA3.
Definition EBML_ID_VERSION : Z := 0x4286.
Definition EBML_ID_READ_VERSION : Z := 0x42F7.
Definition EBML_ID_MAX_ID_LENGTH : Z := 0x42F2.
Definition EBML_ID_MAX_SIZE_LENGTH : Z := 0x42F3.
Definition EBML_ID_DOCTYPE : Z := 0x4282.
Definition EBML_ID_DOCTYPE_VERSION : Z := 0x4287.
Definition EBML_ID_DOCTYPE_READ_VER : Z := 0x4285.
Definition EBML_ID_VOID : Z := 0xEC.
Definition MKV_ID_SEGMENT : Z := 0x18538067.
Definition MKV_ID_SEEKHEAD : Z := 0x114D9B74.
Definition MKV_ID_SEEK : Z := 0x4DBB.
Definition MKV_ID_SEEK_ID : Z := 0x53AB.
Definition MKV_ID_SEEK_POSITION : Z := 0x53AC.
Definition MKV_ID_INFO : Z := 0x1549A966.
Definition MKV_ID_TRACKS : Z := 0x1654AE6B.
Definition MKV_ID_CLUSTER : Z := 0x1F43B675.
Definition MKV_ID_CUES : Z := 0x1C53BB6B.
Definition MKV_ID_CHAPTERS : Z := 0x1043A770.
Definition MKV_ID_ATTACHMENTS : Z := 0x1941A469.
Definition MKV_ID_TAGS : Z := 0x1254C367.
Definition MKV_ID_TAG : Z := 0x7373.
Definition MKV_ID_TARGETS : Z := 0x63C0.
Definition MKV_ID_TARGET_TYPE_VALUE : Z := 0x68CA.
Definition MKV_ID_TARGET_TYPE : Z := 0x63CA.
Definition MKV_ID_TAG_TRACK_UID : Z := 0x63C5.
Definition MKV_ID_TAG_EDITION_UID : Z := 0x63C9.
Definition MKV_ID_TAG_CHAPTER_UID : Z := 0x63C4.
Definition MKV_ID_TAG_ATTACHMENT_UID : Z := 0x63C6.
Definition MKV_ID_SIMPLE_TAG : Z := 0x67C8.
Definition MKV_ID_TAG_NAME : Z := 0x45A3.
Definition MKV_ID_TAG_LANGUAGE : Z := 0x447A.
Definition MKV_ID_TAG_LANGUAGE_BCP47 : Z := 0x447B.
Definition MKV_ID_TAG_DEFAULT : Z := 0x4484.
Definition MKV_ID_TAG_STRING : Z := 0x4487.
Definition MKV_ID_TAG_BINARY : Z := 0x4485.

(* ------------------------------------------------------------------ *)
(** ** VINT codec (ebml_vint.h, ebml_vint.c) *)

Definition EBML_VINT_MAX_1 : Z := 2 ^ 7 - 2.
Definition EBML_VINT_MAX_2 : Z := 2 ^ 14 - 2.
Definition EBML_VINT_MAX_3 : Z := 2 ^ 21 - 2.
Definition EBML_VINT_MAX_4 : Z := 2 ^ 28 - 2.
Definition EBML_VINT_MAX_5 : Z := 2 ^ 35 - 2.
Definition EBML_VINT_MAX_6 : Z := 2 ^ 42 - 2.
Definition EBML_VINT_MAX_7 : Z := 2 ^ 49 - 2.
Definition EBML_VINT_MAX_8 : Z := 2 ^ 56 - 2.

Definition EBML_VINT_UNKNOWN_1 : Z := 0xFF.
Definition EBML_VINT_UNKNOWN_2 : Z := 0x7FFF.
Definition EBML_VINT_UNKNOWN_3 : Z := 0x3FFFFF.
Definition EBML_VINT_UNKNOWN_4 : Z := 0x1FFFFFFF.
Definition EBML_VINT_UNKNOWN_5 : Z := 0x0FFFFFFFFF.
Definition EBML_VINT_UNKNOWN_6 : Z := 0x07FFFFFFFFFF.
Definition EBML_VINT_UNKNOWN_7 : Z := 0x03FFFFFFFFFFFF.
Definition EBML_VINT_UNKNOWN_8 : Z := 0x01FFFFFFFFFFFFFF.

Definition EBML_SIZE_UNKNOWN : Z := 2 ^ 64 - 1.

Definition ebml_vint_size (value : Z) : Z :=
  if value <=? EBML_VINT_MAX_1 then 1
  else if value <=? EBML_VINT_MAX_2 then 2
  else if value <=? EBML_VINT_MAX_3 then 3
  else if value <=? EBML_VINT_MAX_4 then 4
  else if value <=? EBML_VINT_MAX_5 then 5
  else if value <=? EBML_VINT_MAX_6 then 6
  else if value <=? EBML_VINT_MAX_7 then 7
  else if value <=? EBML_VINT_MAX_8 then 8
  else 0.

(** [b & m] read as a C condition. *)
Definition bit_set (b m : Z) : bool := negb (Z.land b m =? 0).

Definition ebml_vint_length (first_byte : Z) : Z :=
  if bit_set first_byte 0x80 then 1
  else if bit_set first_byte 0x40 then 2
  else if bit_set first_byte 0x20 then 3
  else if bit_set first_byte 0x10 then 4
  else if bit_set first_byte 0x08 then 5
  else if bit_set first_byte 0x04 then 6
  else if bit_set first_byte 0x02 then 7
  else if bit_set first_byte 0x01 then 8
  else 0.

(** One turn of [result = (result << 8) | data[i]] on a [uint64_t]. *)
Definition shift_in (r b : Z) : Z := wrap64 (Z.lor (Z.shiftl r 8) b).

(** [ebml_vint_decode(data, size, &value, &bytes_read)]: [data] holds the
    [size] bytes available; the result is [(value, bytes_read)]. *)
Definition ebml_vint_decode (data : list Z) : result (Z * Z) :=
  match data with
  | [] => Err MKVTAG_ERR_TRUNCATED
  | b0 :: rest =>
      let length := ebml_vint_length b0 in
      if length =? 0 then Err MKVTAG_ERR_INVALID_VINT
      else if zlen data <? length then Err MKVTAG_ERR_TRUNCATED
      else
        let mask := Z.shiftr 0xFF length in
        let r0 := Z.land b0 mask in
        Ok (fold_left shift_in (firstn (Z.to_nat (length - 1)) rest) r0, length)
  end.

(** [ebml_id_decode]: the marker bits stay in the value, on a [uint32_t]. *)
Definition ebml_id_decode (data : list Z) : result (Z * Z) :=
  match data with
  | [] => Err MKVTAG_ERR_TRUNCATED
  | b0 :: _ =>
      let length := ebml_vint_length b0 in
      if length =? 0 then Err MKVTAG_ERR_INVALID_VINT
      else if 4 <? length then Err MKVTAG_ERR_VINT_OVERFLOW
      else if zlen data <? length then Err MKVTAG_ERR_TRUNCATED
      else
        Ok (fold_left (fun r b => to_uint32 (Z.lor (Z.shiftl r 8) b))
                      (firstn (Z.to_nat length) data) 0, length)
  end.

(** The loop [for (i = n - 1; i >= 0; i--) { data[i] = value & 0xFF;
    value >>= 8; }]: the [n] low bytes of [value], most significant first. *)
Fixpoint store_be (n : nat) (value : Z) : list Z :=
  match n with
  | O => []
  | S n' => store_be n' (Z.shiftr value 8) ++ [Z.land value 0xFF]
  end.

(** [data[0] |= m]. *)
Definition or_first (m : Z) (data : list Z) : list Z :=
  match data with
  | [] => []
  | b :: rest => to_uint8 (Z.lor b m) :: rest
  end.

Definition vint_max (length : Z) : Z :=
  if length =? 1 then EBML_VINT_MAX_1
  else if length =? 2 then EBML_VINT_MAX_2
  else if length =? 3 then EBML_VINT_MAX_3
  else if length =? 4 then EBML_VINT_MAX_4
  else if length =? 5 then EBML_VINT_MAX_5
  else if length =? 6 then EBML_VINT_MAX_6
  else if length =? 7 then EBML_VINT_MAX_7
  else EBML_VINT_MAX_8.

Definition ebml_vint_encode_fixed (value length : Z) : result (list Z) :=
  if (length <? 1) || (8 <? length) then Err MKVTAG_ERR_INVALID_ARG
  else if vint_max length <? value then Err MKVTAG_ERR_VINT_OVERFLOW
  else Ok (or_first (Z.shiftr 0x80 (length - 1))
                    (store_be (Z.to_nat length) value)).

(** [ebml_vint_encode]: the bytes written; [bytes_written] is their number. *)
Definition ebml_vint_encode (value : Z) : result (list Z) :=
  let length := ebml_vint_size value in
  if length =? 0 then Err MKVTAG_ERR_VINT_OVERFLOW
  else ebml_vint_encode_fixed value length.

Definition ebml_id_size (id : Z) : Z :=
  if id <=? 0xFF then 1
  else if id <=? 0xFFFF then 2
  else if id <=? 0xFFFFFF then 3
  else 4.

Definition ebml_id_encode (id : Z) : result (list Z) :=
  if id =? 0 then Err MKVTAG_ERR_INVALID_VINT
  else Ok (store_be (Z.to_nat (ebml_id_size id)) id).

Definition ebml_vint_is_unknown (value length : Z) : bool :=
  if length =? 1 then value =? Z.land EBML_VINT_UNKNOWN_1 0x7F
  else if length =? 2 then value =? Z.land EBML_VINT_UNKNOWN_2 0x3FFF
  else if length =? 3 then value =? Z.land EBML_VINT_UNKNOWN_3 0x1FFFFF
  else if length =? 4 then value =? Z.land EBML_VINT_UNKNOWN_4 0x0FFFFFFF
  else if length =? 5 then value =? Z.land EBML_VINT_UNKNOWN_5 0x07FFFFFFFF
  else if length =? 6 then value =? Z.land EBML_VINT_UNKNOWN_6 0x03FFFFFFFFFF
  else if length =? 7 then value =? Z.land EBML_VINT_UNKNOWN_7 0x01FFFFFFFFFFFF
  else if length =? 8 then value =? Z.land EBML_VINT_UNKNOWN_8 0x00FFFFFFFFFFFFFF
  else false.

(* ------------------------------------------------------------------ *)
(** ** Element writers (ebml_writer.c)

    A writer appends to a [dyn_buffer_t]; the result is the buffer after the
    call.  When a writer fails its caller frees the buffer. *)

Definition uint_data_size (value : Z) : Z :=
  if value =? 0 then 0
  else if value <=? 0xFF then 1
  else if value <=? 0xFFFF then 2
  else if value <=? 0xFFFFFF then 3
  else if value <=? 0xFFFFFFFF then 4
  else if value <=? 0xFFFFFFFFFF then 5
  else if value <=? 0xFFFFFFFFFFFF then 6
  else if value <=? 0xFFFFFFFFFFFFFF then 7
  else 8.

Definition write_id (buf : list Z) (id : Z) : result (list Z) :=
  id_bytes <- ebml_id_encode id ;;
  Ok (buf ++ id_bytes).

Definition write_size (buf : list Z) (size : Z) : result (list Z) :=
  size_bytes <- ebml_vint_encode size ;;
  Ok (buf ++ size_bytes).

Definition ebml_write_master_element_header (buf : list Z) (id content_size : Z)
  : result (list Z) :=
  buf1 <- write_id buf id ;;
  write_size buf1 content_size.

Definition ebml_write_uint_element (buf : list Z) (id value : Z) : result (list Z) :=
  let data_size := uint_data_size value in
  let data_size := if data_size =? 0 then 1 else data_size in
  buf1 <- write_id buf id ;;
  buf2 <- write_size buf1 data_size ;;
  Ok (buf2 ++ store_be (Z.to_nat data_size) value).

(** The chain of tests that picks [data_size] in [ebml_write_int_element]. *)
Definition int_data_size (value : Z) : Z :=
  if value =? 0 then 1
  else if (-128 <=? value) && (value <=? 127) then 1
  else if (-32768 <=? value) && (value <=? 32767) then 2
  else if (-8388608 <=? value) && (value <=? 8388607) then 3
  else if (-2147483648 <=? value) && (value <=? 2147483647) then 4
  else 8.

Definition ebml_write_int_element (buf : list Z) (id value : Z) : result (list Z) :=
  let data_size := int_data_size value in
  buf1 <- write_id buf id ;;
  buf2 <- write_size buf1 data_size ;;
  let uval := wrap64 value in
  Ok (buf2 ++ store_be (Z.to_nat data_size) uval).

Definition ebml_write_string_element (buf : list Z) (id : Z) (str : option cstring)
  : result (list Z) :=
  match str with
  | None => Err MKVTAG_ERR_INVALID_ARG
  | Some s =>
      let str_len := strlen s in
      buf1 <- write_id buf id ;;
      buf2 <- write_size buf1 str_len ;;
      Ok (buf2 ++ s)
  end.

(** [data] points to at least [size] bytes when it is not NULL. *)
Definition ebml_write_binary_element (buf : list Z) (id : Z)
    (data : option (list Z)) (size : Z) : result (list Z) :=
  buf1 <- write_id buf id ;;
  buf2 <- write_size buf1 size ;;
  match data with
  | Some d => if 0 <? size then Ok (buf2 ++ firstn (Z.to_nat size) d) else Ok buf2
  | None => Ok buf2
  end.

(** The loop over [vint_len] of [ebml_write_void_element], [n] turns left. *)
Fixpoint void_size_loop (n : nat) (vint_len : Z) (buf : list Z) (total_size : Z)
  : result (list Z) :=
  match n with
  | O => Err MKVTAG_ERR_VINT_OVERFLOW
  | S n' =>
      let content_size := wrap64 (total_size - 1 - vint_len) in
      let needed := ebml_vint_size content_size in
      if (needed =? vint_len) || (needed <? vint_len) then
        size_bytes <- ebml_vint_encode_fixed content_size vint_len ;;
        Ok (buf ++ size_bytes ++ repeat 0 (Z.to_nat content_size))
      else void_size_loop n' (vint_len + 1) buf total_size
  end.

Definition ebml_write_void_element (buf : list Z) (total_size : Z) : result (list Z) :=
  if total_size <? 2 then Err MKVTAG_ERR_INVALID_ARG
  else void_size_loop 8 1 (buf ++ [EBML_ID_VOID]) total_size.

Definition ebml_master_header_size (id content_size : Z) : Z :=
  ebml_id_size id + ebml_vint_size content_size.

(* ------------------------------------------------------------------ *)
(** ** The tag model (mkvtag_types.h) *)

Definition MKVTAG_TARGET_ALBUM : Z := 50.

(** [binary] with [binary_size]: the bytes, [None] for a NULL pointer. *)
Inductive mkvtag_simple_tag : Type :=
  mk_simple_tag {
    st_name : option cstring;
    st_value : option cstring;
    st_binary : option (list Z);
    st_language : option cstring;
    st_is_default : Z;
    st_nested : list mkvtag_simple_tag
  }.

Record mkvtag_tag : Type :=
  mk_tag {
    target_type : Z;
    target_type_str : option cstring;
    track_uids : list Z;
    edition_uids : list Z;
    chapter_uids : list Z;
    attachment_uids : list Z;
    simple_tags : list mkvtag_simple_tag
  }.

Record mkvtag_collection : Type :=
  mk_collection {
    tags : list mkvtag_tag;
    count : Z
  }.

(* ------------------------------------------------------------------ *)
(** ** Serialization (mkv_tags.c) *)

(** [for (i = 0; i < n; i++) ebml_write_uint_element(&content, id, uids[i])]. *)
Fixpoint write_uids (content : list Z) (id : Z) (uids : list Z) : result (list Z) :=
  match uids with
  | [] => Ok content
  | u :: rest =>
      content1 <- ebml_write_uint_element content id u ;;
      write_uids content1 id rest
  end.

Fixpoint serialize_simple_tag (stag : mkvtag_simple_tag) (buf : list Z)
  : result (list Z) :=
  let content := [] in
  content <- match st_name stag with
             | Some _ => ebml_write_string_element content MKV_ID_TAG_NAME (st_name stag)
             | None => Ok content
             end ;;
  content <- match st_language stag with
             | Some _ => ebml_write_string_element content MKV_ID_TAG_LANGUAGE
                                                   (st_language stag)
             | None => Ok content
             end ;;
  content <- (if st_is_default stag =? 0
              then ebml_write_uint_element content MKV_ID_TAG_DEFAULT 0
              else Ok content) ;;
  content <- match st_value stag with
             | Some _ => ebml_write_string_element content MKV_ID_TAG_STRING
                                                   (st_value stag)
             | None => Ok content
             end ;;
  content <- match st_binary stag with
             | Some b => if 0 <? zlen b
                         then ebml_write_binary_element content MKV_ID_TAG_BINARY
                                                        (Some b) (zlen b)
                         else Ok content
             | None => Ok content
             end ;;
  content <- (fix nested_loop (nested : list mkvtag_simple_tag) (content : list Z)
                : result (list Z) :=
                match nested with
                | [] => Ok content
                | n :: rest =>
                    content1 <- serialize_simple_tag n content ;;
                    nested_loop rest content1
                end) (st_nested stag) content ;;
  buf1 <- ebml_write_master_element_header buf MKV_ID_SIMPLE_TAG (zlen content) ;;
  Ok (buf1 ++ content).

Definition serialize_targets (tag : mkvtag_tag) (buf : list Z) : result (list Z) :=
  let content := [] in
  content <- ebml_write_uint_element content MKV_ID_TARGET_TYPE_VALUE
                                     (wrap64 (target_type tag)) ;;
  content <- match target_type_str tag with
             | Some _ => ebml_write_string_element content MKV_ID_TARGET_TYPE
                                                   (target_type_str tag)
             | None => Ok content
             end ;;
  content <- write_uids content MKV_ID_TAG_TRACK_UID (track_uids tag) ;;
  content <- write_uids content MKV_ID_TAG_EDITION_UID (edition_uids tag) ;;
  content <- write_uids content MKV_ID_TAG_CHAPTER_UID (chapter_uids tag) ;;
  content <- write_uids content MKV_ID_TAG_ATTACHMENT_UID (attachment_uids tag) ;;
  buf1 <- ebml_write_master_element_header buf MKV_ID_TARGETS (zlen content) ;;
  Ok (buf1 ++ content).

(** [while (stag) { serialize_simple_tag(stag, &content); stag = stag->next; }]. *)
Fixpoint serialize_simple_tags (stags : list mkvtag_simple_tag) (content : list Z)
  : result (list Z) :=
  match stags with
  | [] => Ok content
  | s :: rest =>
      content1 <- serialize_simple_tag s content ;;
      serialize_simple_tags rest content1
  end.

Definition serialize_tag (tag : mkvtag_tag) (buf : list Z) : result (list Z) :=
  let content := [] in
  content <- serialize_targets tag content ;;
  content <- serialize_simple_tags (simple_tags tag) content ;;
  buf1 <- ebml_write_master_element_header buf MKV_ID_TAG (zlen content) ;;
  Ok (buf1 ++ content).

Fixpoint serialize_tag_list (l : list mkvtag_tag) (buf : list Z) : result (list Z) :=
  match l with
  | [] => Ok buf
  | t :: rest =>
      buf1 <- serialize_tag t buf ;;
      serialize_tag_list rest buf1
  end.

Definition mkv_tags_serialize (collection : mkvtag_collection) (buf : list Z)
  : result (list Z) :=
  serialize_tag_list (tags collection) buf.

(** The complete Tags element both [write_tags_at] and [try_append_tags]
    build: the Tags header, then the serialized content. *)
Definition build_tags_element (tags : mkvtag_collection) : result (list Z) :=
  content <- mkv_tags_serialize tags [] ;;
  tags_buf <- ebml_write_master_element_header [] MKV_ID_TAGS (zlen content) ;;
  Ok (tags_buf ++ content).

Definition mkv_tags_total_size (collection : mkvtag_collection) : Z :=
  match mkv_tags_serialize collection [] with
  | Ok content => ebml_master_header_size MKV_ID_TAGS (zlen content) + zlen content
  | Err _ => 0
  end.

(* ------------------------------------------------------------------ *)
(** ** The buffered stream (tag_common/file_io.h)

    The callers use [file_seek(handle, offset)], [file_read(handle, buf, n)],
    [file_write], [file_tell], [file_size] and [file_sync] of the tag_common
    library, which the sources do not hold; the repository's own file_io.c is
    an earlier version of it with other signatures. *)

(** Modelled from the spec: the buffered stream of section 4.A, which the
    sources hold only as the earlier file_io.c.  The handle is the content of
    the file, the logical position ([buffer_offset + buffer_pos]; the read
    buffer is a cache of the content and is not represented) and the
    [writable] flag. *)
Record file_handle : Type :=
  mk_file {
    fh_data : list Z;
    fh_pos : Z;
    fh_writable : bool
  }.

Definition set_pos (h : file_handle) (p : Z) : file_handle :=
  mk_file (fh_data h) p (fh_writable h).

(** Modelled from the spec: [tell]. *)
Definition file_tell (h : file_handle) : Z := fh_pos h.

(** Modelled from the spec: [size]. *)
Definition file_size (h : file_handle) : Z := zlen (fh_data h).

(** Modelled from the spec: [seek(offset, start)]; a negative target signals
    seek failure, a target past the end is accepted. *)
Definition file_seek (h : file_handle) (offset : Z) : mkvtag_error * file_handle :=
  if offset <? 0 then (MKVTAG_ERR_SEEK_FAILED, h)
  else (MKVTAG_OK, set_pos h offset).

(** Modelled from the spec: [read_exact(buf, n)]; a short read signals
    truncation, the position past the bytes that were read. *)
Definition file_read (h : file_handle) (n : Z) : mkvtag_error * list Z * file_handle :=
  let got := firstn (Z.to_nat n) (skipn (Z.to_nat (fh_pos h)) (fh_data h)) in
  let h' := set_pos h (fh_pos h + zlen got) in
  if zlen got =? n then (MKVTAG_OK, got, h') else (MKVTAG_ERR_TRUNCATED, got, h').

(** Modelled from the spec: [write(buf, n)] at the logical position; the file
    grows when the write passes its end (a gap before the position reads as
    zero bytes), and a read-only handle signals read-only. *)
Definition file_write (h : file_handle) (buf : list Z) : mkvtag_error * file_handle :=
  if negb (fh_writable h) then (MKVTAG_ERR_READ_ONLY, h)
  else
    let pos := Z.to_nat (fh_pos h) in
    let old := fh_data h in
    let before := firstn pos (old ++ repeat 0 (pos - length old)%nat) in
    let after := skipn (pos + length buf)%nat old in
    (MKVTAG_OK, mk_file (before ++ buf ++ after) (fh_pos h + zlen buf) true).

(** Modelled from the spec: [flush], the durability barrier. *)
Definition file_sync (h : file_handle) : mkvtag_error := MKVTAG_OK.

(* ------------------------------------------------------------------ *)
(** ** Element reader (ebml_reader.h, ebml_reader.c) *)

Record ebml_element : Type :=
  mk_element {
    id : Z;
    size : Z;
    data_offset : Z;
    end_offset : Z;
    size_length : Z;
    id_length : Z;
    is_unknown_size : bool
  }.

Definition ebml_read_element_header (h : file_handle)
  : result ebml_element * file_handle :=
  let '(err, b, h1) := file_read h 1 in
  if negb (is_ok err) then (Err MKVTAG_ERR_TRUNCATED, h1) else
  let id_length := ebml_vint_length (hd 0 b) in
  if (id_length =? 0) || (4 <? id_length) then (Err MKVTAG_ERR_INVALID_VINT, h1) else
  let '(err, rest, h2) :=
    if 1 <? id_length then file_read h1 (id_length - 1) else (MKVTAG_OK, [], h1) in
  if negb (is_ok err) then (Err MKVTAG_ERR_TRUNCATED, h2) else
  match ebml_id_decode (firstn (Z.to_nat id_length) (b ++ rest)) with
  | Err e => (Err e, h2)
  | Ok (elem_id, _) =>
      let '(err, sb, h3) := file_read h2 1 in
      if negb (is_ok err) then (Err MKVTAG_ERR_TRUNCATED, h3) else
      let size_length := ebml_vint_length (hd 0 sb) in
      if (size_length =? 0) || (8 <? size_length) then (Err MKVTAG_ERR_INVALID_VINT, h3) else
      let '(err, srest, h4) :=
        if 1 <? size_length then file_read h3 (size_length - 1) else (MKVTAG_OK, [], h3) in
      if negb (is_ok err) then (Err MKVTAG_ERR_TRUNCATED, h4) else
      match ebml_vint_decode (firstn (Z.to_nat size_length) (sb ++ srest)) with
      | Err e => (Err e, h4)
      | Ok (sz, _) =>
          let unknown := ebml_vint_is_unknown sz size_length in
          let elem_size := if unknown then EBML_SIZE_UNKNOWN else sz in
          let data_off := file_tell h4 in
          let end_off := if unknown then file_size h4 else data_off + elem_size in
          (Ok (mk_element elem_id elem_size data_off end_off size_length id_length unknown),
           h4)
      end
  end.

Definition ebml_peek_element_header (h : file_handle)
  : result ebml_element * file_handle :=
  let pos := file_tell h in
  let '(r, h1) := ebml_read_element_header h in
  (r, snd (file_seek h1 pos)).

Definition ebml_skip_element (h : file_handle) (element : ebml_element)
  : mkvtag_error * file_handle :=
  if is_unknown_size element then (MKVTAG_ERR_CORRUPT, h)
  else file_seek h (end_offset element).

Definition ebml_read_uint (h : file_handle) (element : ebml_element)
  : result Z * file_handle :=
  if 8 <? size element then (Err MKVTAG_ERR_VINT_OVERFLOW, h) else
  let '(err, h1) := file_seek h (data_offset element) in
  if negb (is_ok err) then (Err err, h1) else
  if size element =? 0 then (Ok 0, h1) else
  let '(err, buffer, h2) := file_read h1 (size element) in
  if negb (is_ok err) then (Err err, h2) else
  (Ok (fold_left shift_in buffer 0), h2).

(** The C string a [char] buffer holds: the characters before the first NUL. *)
Fixpoint c_str (buffer : list Z) : cstring :=
  match buffer with
  | [] => []
  | c :: rest => if c =? 0 then [] else c :: c_str rest
  end.

(** [ebml_read_string]: the result, the bytes the call stored from the start
    of [buffer] and the handle.  After a full read these are the content and
    the terminator; the loop that steps back over trailing NULs stores its
    NUL over one of them, or over the terminator, and changes no byte. *)
Definition ebml_read_string (h : file_handle) (element : ebml_element) (buffer_size : Z)
  : mkvtag_error * list Z * file_handle :=
  if buffer_size =? 0 then (MKVTAG_ERR_INVALID_ARG, [], h) else
  if buffer_size <=? size element then (MKVTAG_ERR_TAG_TOO_LARGE, [], h) else
  let '(err, h1) := file_seek h (data_offset element) in
  if negb (is_ok err) then (err, [], h1) else
  if size element =? 0 then (MKVTAG_OK, [0], h1) else
  let '(err, got, h2) := file_read h1 (size element) in
  if negb (is_ok err) then (err, got, h2) else
  (MKVTAG_OK, got ++ [0], h2).

(** The string of the allocated buffer, which is freed when the read fails. *)
Definition ebml_read_string_alloc (h : file_handle) (element : ebml_element)
  : result cstring * file_handle :=
  let alloc_size := wrap64 (size element + 1) in
  let '(err, stored, h1) := ebml_read_string h element alloc_size in
  if negb (is_ok err) then (Err err, h1) else (Ok (c_str stored), h1).

(** The result is the bytes read; [bytes_read] is their number. *)
Definition ebml_read_binary (h : file_handle) (element : ebml_element) (buffer_size : Z)
  : result (list Z) * file_handle :=
  let '(err, h1) := file_seek h (data_offset element) in
  if negb (is_ok err) then (Err err, h1) else
  let to_read := if size element <? buffer_size then size element else buffer_size in
  let '(err, buffer, h2) := file_read h1 to_read in
  if negb (is_ok err) then (Err err, h2) else
  (Ok buffer, h2).

(** [None] is [*data = NULL] with [*size = 0]. *)
Definition ebml_read_binary_alloc (h : file_handle) (element : ebml_element)
  : result (option (list Z)) * file_handle :=
  if size element =? 0 then (Ok None, h) else
  match ebml_read_binary h element (size element) with
  | (Err e, h1) => (Err e, h1)
  | (Ok buffer, h1) => (Ok (Some buffer), h1)
  end.

Definition ebml_at_element_end (h : file_handle) (parent : ebml_element) : bool :=
  end_offset parent <=? file_tell h.

(* ------------------------------------------------------------------ *)
(** ** The loop over the children of an element

    [while (!ebml_at_element_end(handle, parent)) {
       err = ebml_read_element_header(handle, &child);
       if (err != MKVTAG_OK) break;
       body
     }]
    The body ends the turn ([Continue]) or leaves the loop ([Break]). *)

Inductive loop_ctl (St : Type) : Type :=
| Continue (s : St)
| Break (s : St).
Arguments Continue {St} s.
Arguments Break {St} s.

Section Children.
Context {St : Type}.
Variable body : ebml_element -> St -> file_handle -> outcome (loop_ctl St * file_handle).

Fixpoint ebml_children (fuel : nat) (end_off : Z) (s : St) (h : file_handle)
  : outcome (St * file_handle) :=
  if end_off <=? file_tell h then Done (s, h)
  else
    match fuel with
    | O => OutOfFuel
    | S fuel' =>
        match ebml_read_element_header h with
        | (Err _, h1) => Done (s, h1)
        | (Ok child, h1) =>
            match body child s h1 with
            | Done (Continue s', h2) => ebml_children fuel' end_off s' h2
            | Done (Break s', h2) => Done (s', h2)
            | OutOfFuel => OutOfFuel
            | Undefined => Undefined
            end
        end
    end.
End Children.

(* ------------------------------------------------------------------ *)
(** ** Parsing (mkv_tags.c) *)

Definition set_target_type (t : mkvtag_tag) (v : Z) : mkvtag_tag :=
  mk_tag v (target_type_str t) (track_uids t) (edition_uids t) (chapter_uids t)
         (attachment_uids t) (simple_tags t).
Definition set_target_type_str (t : mkvtag_tag) (s : option cstring) : mkvtag_tag :=
  mk_tag (target_type t) s (track_uids t) (edition_uids t) (chapter_uids t)
         (attachment_uids t) (simple_tags t).
Definition set_track_uids (t : mkvtag_tag) (l : list Z) : mkvtag_tag :=
  mk_tag (target_type t) (target_type_str t) l (edition_uids t) (chapter_uids t)
         (attachment_uids t) (simple_tags t).
Definition set_edition_uids (t : mkvtag_tag) (l : list Z) : mkvtag_tag :=
  mk_tag (target_type t) (target_type_str t) (track_uids t) l (chapter_uids t)
         (attachment_uids t) (simple_tags t).
Definition set_chapter_uids (t : mkvtag_tag) (l : list Z) : mkvtag_tag :=
  mk_tag (target_type t) (target_type_str t) (track_uids t) (edition_uids t) l
         (attachment_uids t) (simple_tags t).
Definition set_attachment_uids (t : mkvtag_tag) (l : list Z) : mkvtag_tag :=
  mk_tag (target_type t) (target_type_str t) (track_uids t) (edition_uids t)
         (chapter_uids t) l (simple_tags t).
Definition set_simple_tags (t : mkvtag_tag) (l : list mkvtag_simple_tag) : mkvtag_tag :=
  mk_tag (target_type t) (target_type_str t) (track_uids t) (edition_uids t)
         (chapter_uids t) (attachment_uids t) l.

Definition set_name (s : mkvtag_simple_tag) (v : option cstring) : mkvtag_simple_tag :=
  mk_simple_tag v (st_value s) (st_binary s) (st_language s) (st_is_default s) (st_nested s).
Definition set_value (s : mkvtag_simple_tag) (v : option cstring) : mkvtag_simple_tag :=
  mk_simple_tag (st_name s) v (st_binary s) (st_language s) (st_is_default s) (st_nested s).
Definition set_binary (s : mkvtag_simple_tag) (v : option (list Z)) : mkvtag_simple_tag :=
  mk_simple_tag (st_name s) (st_value s) v (st_language s) (st_is_default s) (st_nested s).
Definition set_language (s : mkvtag_simple_tag) (v : option cstring) : mkvtag_simple_tag :=
  mk_simple_tag (st_name s) (st_value s) (st_binary s) v (st_is_default s) (st_nested s).
Definition set_is_default (s : mkvtag_simple_tag) (v : Z) : mkvtag_simple_tag :=
  mk_simple_tag (st_name s) (st_value s) (st_binary s) (st_language s) v (st_nested s).
Definition set_nested (s : mkvtag_simple_tag) (l : list mkvtag_simple_tag)
  : mkvtag_simple_tag :=
  mk_simple_tag (st_name s) (st_value s) (st_binary s) (st_language s) (st_is_default s) l.

(** [calloc(1, sizeof(mkvtag_tag_t))] and [calloc(1, sizeof(mkvtag_simple_tag_t))]. *)
Definition zero_tag : mkvtag_tag := mk_tag 0 None [] [] [] [] [].
Definition zero_simple_tag : mkvtag_simple_tag := mk_simple_tag None None None None 0 [].

(** A [uint64_t] read into one of the UID arrays of the tag: the value is
    appended when it was read. *)
Definition read_uid (h : file_handle) (child : ebml_element) (uids : list Z)
  : list Z * file_handle :=
  match ebml_read_uint h child with
  | (Ok uid, h1) => (uids ++ [uid], h1)
  | (Err _, h1) => (uids, h1)
  end.

(** One turn of the loop of [parse_targets].  The cast of the value to the
    enumeration [mkvtag_target_type_t] keeps its 32 low bits (an enumeration
    without negative constants is an [unsigned int]). *)
Definition parse_targets_child (child : ebml_element) (tag : mkvtag_tag)
    (h : file_handle) : outcome (loop_ctl mkvtag_tag * file_handle) :=
  let '(tag1, h1) :=
    if id child =? MKV_ID_TARGET_TYPE_VALUE then
      match ebml_read_uint h child with
      | (Ok val, h1) => (set_target_type tag (to_uint32 val), h1)
      | (Err _, h1) => (tag, h1)
      end
    else if id child =? MKV_ID_TARGET_TYPE then
      match ebml_read_string_alloc h child with
      | (Ok s, h1) => (set_target_type_str tag (Some s), h1)
      | (Err _, h1) => (tag, h1)
      end
    else if id child =? MKV_ID_TAG_TRACK_UID then
      let '(l, h1) := read_uid h child (track_uids tag) in (set_track_uids tag l, h1)
    else if id child =? MKV_ID_TAG_EDITION_UID then
      let '(l, h1) := read_uid h child (edition_uids tag) in (set_edition_uids tag l, h1)
    else if id child =? MKV_ID_TAG_CHAPTER_UID then
      let '(l, h1) := read_uid h child (chapter_uids tag) in (set_chapter_uids tag l, h1)
    else if id child =? MKV_ID_TAG_ATTACHMENT_UID then
      let '(l, h1) := read_uid h child (attachment_uids tag) in
      (set_attachment_uids tag l, h1)
    else (tag, h) in
  Done (Continue tag1, snd (ebml_skip_element h1 child)).

Definition parse_targets (fuel : nat) (h : file_handle) (targets_elem : ebml_element)
    (tag : mkvtag_tag) : outcome (mkvtag_error * mkvtag_tag * file_handle) :=
  let '(err, h0) := file_seek h (data_offset targets_elem) in
  if negb (is_ok err) then Done (err, tag, h0) else
  let tag0 := set_target_type tag MKVTAG_TARGET_ALBUM in
  '(tag1, h1) <~ ebml_children parse_targets_child fuel (end_offset targets_elem) tag0 h0 ;;
  Done (MKVTAG_OK, tag1, h1).

(** The cases of the switch of [parse_simple_tag] other than a nested
    SimpleTag. *)
Definition parse_simple_tag_leaf (child : ebml_element) (stag : mkvtag_simple_tag)
    (h : file_handle) : mkvtag_simple_tag * file_handle :=
  if id child =? MKV_ID_TAG_NAME then
    match ebml_read_string_alloc h child with
    | (Ok s, h1) => (set_name stag (Some s), h1)
    | (Err _, h1) => (stag, h1)
    end
  else if id child =? MKV_ID_TAG_STRING then
    match ebml_read_string_alloc h child with
    | (Ok s, h1) => (set_value stag (Some s), h1)
    | (Err _, h1) => (stag, h1)
    end
  else if id child =? MKV_ID_TAG_BINARY then
    match ebml_read_binary_alloc h child with
    | (Ok b, h1) => (set_binary stag b, h1)
    | (Err _, h1) => (stag, h1)
    end
  else if (id child =? MKV_ID_TAG_LANGUAGE) || (id child =? MKV_ID_TAG_LANGUAGE_BCP47) then
    match ebml_read_string_alloc h child with
    | (Ok s, h1) => (set_language stag (Some s), h1)
    | (Err _, h1) => (stag, h1)
    end
  else if id child =? MKV_ID_TAG_DEFAULT then
    match ebml_read_uint h child with
    | (Ok val, h1) => (set_is_default stag (to_int32 val), h1)
    | (Err _, h1) => (stag, h1)
    end
  else (stag, h).

(** [None] is the NULL result. *)
Fixpoint parse_simple_tag (fuel : nat) (h : file_handle) (simple_elem : ebml_element)
  : outcome (option mkvtag_simple_tag * file_handle) :=
  match fuel with
  | O => OutOfFuel
  | S fuel' =>
      let stag0 := set_is_default zero_simple_tag 1 in
      let '(err, h0) := file_seek h (data_offset simple_elem) in
      if negb (is_ok err) then Done (None, h0) else
      '(stag, h1) <~ ebml_children
          (fun child stag h =>
             '(stag1, h1) <~
               (if id child =? MKV_ID_SIMPLE_TAG then
                  '(nested, h1) <~ parse_simple_tag fuel' h child ;;
                  match nested with
                  | Some n => Done (set_nested stag (n :: st_nested stag), h1)
                  | None => Done (stag, h1)
                  end
                else Done (parse_simple_tag_leaf child stag h)) ;;
             Done (Continue stag1, snd (ebml_skip_element h1 child)))
          fuel' (end_offset simple_elem) stag0 h0 ;;
      Done (Some stag, h1)
  end.

(** One turn of the loop of [parse_tag]. *)
Definition parse_tag_child (fuel : nat) (child : ebml_element) (tag : mkvtag_tag)
    (h : file_handle) : outcome (loop_ctl mkvtag_tag * file_handle) :=
  '(tag1, h1) <~
    (if id child =? MKV_ID_TARGETS then
       r <~ parse_targets fuel h child tag ;;
       let '(_, tag1, h1) := r in Done (tag1, h1)
     else if id child =? MKV_ID_SIMPLE_TAG then
       '(stag, h1) <~ parse_simple_tag fuel h child ;;
       match stag with
       | Some s => Done (set_simple_tags tag (s :: simple_tags tag), h1)
       | None => Done (tag, h1)
       end
     else Done (tag, h)) ;;
  Done (Continue tag1, snd (ebml_skip_element h1 child)).

Definition parse_tag (fuel : nat) (h : file_handle) (tag_elem : ebml_element)
  : outcome (option mkvtag_tag * file_handle) :=
  let tag0 := set_target_type zero_tag MKVTAG_TARGET_ALBUM in
  let '(err, h0) := file_seek h (data_offset tag_elem) in
  if negb (is_ok err) then Done (None, h0) else
  '(tag, h1) <~ ebml_children (parse_tag_child fuel) fuel (end_offset tag_elem) tag0 h0 ;;
  Done (Some tag, h1).

(** One turn of the loop of [mkv_tags_parse]: a parsed Tag goes to the tail. *)
Definition mkv_tags_parse_child (fuel : nat) (child : ebml_element)
    (coll : mkvtag_collection) (h : file_handle)
  : outcome (loop_ctl mkvtag_collection * file_handle) :=
  '(coll1, h1) <~
    (if id child =? MKV_ID_TAG then
       '(tag, h1) <~ parse_tag fuel h child ;;
       match tag with
       | Some t => Done (mk_collection (tags coll ++ [t]) (count coll + 1), h1)
       | None => Done (coll, h1)
       end
     else Done (coll, h)) ;;
  Done (Continue coll1, snd (ebml_skip_element h1 child)).

Definition mkv_tags_parse (fuel : nat) (h : file_handle) (tags_element : ebml_element)
  : outcome (result mkvtag_collection * file_handle) :=
  let coll := mk_collection [] 0 in
  let '(err, h0) := file_seek h (data_offset tags_element) in
  if negb (is_ok err) then Done (Err err, h0) else
  '(coll1, h1) <~ ebml_children (mkv_tags_parse_child fuel) fuel
                                 (end_offset tags_element) coll h0 ;;
  Done (Ok coll1, h1).

(* ------------------------------------------------------------------ *)
(** ** The file structure record (mkv_parser.h)

    [mkv->handle] is the handle the context holds in [ctx->file]: the
    functions below take it, and give it back, beside the record. *)

Definition MKV_MAX_CACHED_ELEMENTS : Z := 32.

Record mkv_element_pos : Type :=
  mk_element_pos { pos_id : Z; pos_offset : Z; pos_size : Z }.

Record mkv_file : Type :=
  mk_mkv_file {
    ebml_version : Z;
    ebml_read_version : Z;
    doctype : list Z;
    doctype_version : Z;
    doctype_read_version : Z;
    segment_offset : Z;
    segment_data_offset : Z;
    segment_size : Z;
    segment_unknown_size : bool;
    elements : list mkv_element_pos;
    seekhead_offset : Z;
    info_offset : Z;
    tracks_offset : Z;
    cues_offset : Z;
    tags_offset : Z;
    chapters_offset : Z;
    attachments_offset : Z;
    clusters_offset : Z;
    void_offset : Z;
    void_size : Z
  }.

(** [doctype] is the array [char doctype[32]]. *)
Definition mkv_file_init : mkv_file :=
  mk_mkv_file 0 0 (repeat 0 32) 0 0 0 0 0 false [] (-1) (-1) (-1) (-1) (-1) (-1) (-1) (-1)
              (-1) 0.

Definition set_tags_offset (m : mkv_file) (v : Z) : mkv_file :=
  mk_mkv_file (ebml_version m) (ebml_read_version m) (doctype m) (doctype_version m)
    (doctype_read_version m) (segment_offset m) (segment_data_offset m) (segment_size m)
    (segment_unknown_size m) (elements m) (seekhead_offset m) (info_offset m)
    (tracks_offset m) (cues_offset m) v (chapters_offset m) (attachments_offset m)
    (clusters_offset m) (void_offset m) (void_size m).

Definition set_segment_size (m : mkv_file) (v : Z) : mkv_file :=
  mk_mkv_file (ebml_version m) (ebml_read_version m) (doctype m) (doctype_version m)
    (doctype_read_version m) (segment_offset m) (segment_data_offset m) v
    (segment_unknown_size m) (elements m) (seekhead_offset m) (info_offset m)
    (tracks_offset m) (cues_offset m) (tags_offset m) (chapters_offset m)
    (attachments_offset m) (clusters_offset m) (void_offset m) (void_size m).

(** [mkv->segment_data_offset + (int64_t)relative_position]: the cast and
    the sum of two [int64_t] wrap around. *)
Definition mkv_segment_to_absolute (mkv : mkv_file) (relative_position : Z) : Z :=
  to_int64 (segment_data_offset mkv + to_int64 relative_position).

Definition mkv_absolute_to_segment (mkv : mkv_file) (absolute_offset : Z) : Z :=
  wrap64 (absolute_offset - segment_data_offset mkv).

(* ------------------------------------------------------------------ *)
(** ** SeekHead update (mkv_seekhead.c) *)

(** [mkv_seekhead_build_entry]: a Seek element for [element_id] at the given
    position, appended to [buf]. *)
Definition mkv_seekhead_build_entry (buf : list Z) (element_id segment_relative_pos : Z)
  : result (list Z) :=
  let inner := [] in
  id_bytes <- ebml_id_encode element_id ;;
  inner <- ebml_write_binary_element inner MKV_ID_SEEK_ID (Some id_bytes) (zlen id_bytes) ;;
  inner <- ebml_write_uint_element inner MKV_ID_SEEK_POSITION segment_relative_pos ;;
  buf1 <- ebml_write_master_element_header buf MKV_ID_SEEK (zlen inner) ;;
  Ok (buf1 ++ inner).

(** [seek_id = (seek_id << 8) | id_buf[i]] over the bytes read, on a [uint32_t]. *)
Definition raw_id (id_buf : list Z) : Z :=
  fold_left (fun r b => to_uint32 (Z.lor (Z.shiftl r 8) b)) id_buf 0.

(** The locals of one Seek entry: [seek_id], [position_data_offset] and
    [position_data_size]. *)
Definition seek_locals : Type := (Z * Z * Z)%type.

(** One turn of the loop over the children of a Seek entry. *)
Definition seek_entry_child (child : ebml_element) (st : seek_locals) (h : file_handle)
  : outcome (loop_ctl seek_locals * file_handle) :=
  let '(seek_id, position_data_offset, position_data_size) := st in
  let '(st1, h1) :=
    if id child =? MKV_ID_SEEK_ID then
      match ebml_read_binary h child 4 with
      | (Ok id_buf, h1) =>
          if (0 <? zlen id_buf) && (zlen id_buf <=? 4)
          then ((raw_id id_buf, position_data_offset, position_data_size), h1)
          else (st, h1)
      | (Err _, h1) => (st, h1)
      end
    else if id child =? MKV_ID_SEEK_POSITION then
      ((seek_id, data_offset child, to_int32 (size child)), h)
    else (st, h) in
  Done (Continue st1, snd (ebml_skip_element h1 child)).

(** One turn of the loop over the SeekHead: the state is the SeekPosition
    field of the Tags entry once it is found, which ends the scan. *)
Definition seekhead_child (fuel : nat) (seek_elem : ebml_element)
    (found : option (Z * Z)) (h : file_handle)
  : outcome (loop_ctl (option (Z * Z)) * file_handle) :=
  if negb (id seek_elem =? MKV_ID_SEEK) then
    Done (Continue found, snd (ebml_skip_element h seek_elem))
  else
    '(st, h1) <~ ebml_children seek_entry_child fuel (end_offset seek_elem) (0, -1, 0) h ;;
    let '(seek_id, position_data_offset, position_data_size) := st in
    if (seek_id =? MKV_ID_TAGS) && (0 <=? position_data_offset) && (0 <? position_data_size)
    then Done (Break (Some (position_data_offset, position_data_size)), h1)
    else Done (Continue found, h1).

(** [pos_buf] has 8 bytes: a SeekPosition of more than 8 bytes makes the
    encoding loop write past it, which is [Undefined]. *)
Definition mkv_seekhead_update_tags (fuel : nat) (mkv : mkv_file) (h : file_handle)
    (new_tags_offset : Z) : outcome (mkvtag_error * file_handle) :=
  if seekhead_offset mkv <? 0 then Done (MKVTAG_OK, h) else
  let '(err, h0) := file_seek h (seekhead_offset mkv) in
  if negb (is_ok err) then Done (err, h0) else
  match ebml_read_element_header h0 with
  | (Err _, h1) => Done (MKVTAG_OK, h1)
  | (Ok seekhead, h1) =>
      if negb (id seekhead =? MKV_ID_SEEKHEAD) then Done (MKVTAG_OK, h1) else
      '(found, h2) <~ ebml_children (seekhead_child fuel) fuel (end_offset seekhead)
                                     None h1 ;;
      match found with
      | None => Done (MKVTAG_OK, h2)
      | Some (position_data_offset, position_data_size) =>
          let new_pos := mkv_absolute_to_segment mkv new_tags_offset in
          if 8 <? position_data_size then Undefined else
          let pos_buf := store_be (Z.to_nat position_data_size) new_pos in
          let val := Z.shiftr new_pos (8 * position_data_size) in
          if negb (val =? 0) then Done (MKVTAG_OK, h2) else
          let '(err, h3) := file_seek h2 position_data_offset in
          if negb (is_ok err) then Done (err, h3) else
          Done (file_write h3 pos_buf)
      end
  end.

(* ------------------------------------------------------------------ *)
(** ** String utilities (string_util.c) *)

Definition tolower (c : Z) : Z :=
  if (65 <=? c) && (c <=? 90) then c + 32 else c.

Fixpoint str_casecmp (a b : cstring) : Z :=
  match a, b with
  | x :: a', y :: b' =>
      let diff := tolower x - tolower y in
      if negb (diff =? 0) then diff else str_casecmp a' b'
  | _, _ => tolower (hd 0 a) - tolower (hd 0 b)
  end.

(** [str_copy]: the value returned and the string [dst] holds after the call
    ([None] when it was left alone).  string_util.c declares
    [str_copy(dst, src, dst_size)]; [mkvtag_read_tag_string] passes the size
    second, as the tag_common declaration has it. *)
Definition str_copy (dst_size : Z) (src : option cstring) : Z * option cstring :=
  if dst_size =? 0 then (-1, None)
  else
    match src with
    | None => (0, Some [])
    | Some s =>
        let src_len := strlen s in
        if dst_size <=? src_len
        then (-1, Some (firstn (Z.to_nat (dst_size - 1)) s))
        else (to_int32 src_len, Some s)
    end.

(* ------------------------------------------------------------------ *)
(** ** The context and the collection builder (mkvtag.c)

    [ctx->file] is dereferenced only while [is_open] is set: a closed context
    keeps a handle that nothing reads.  The pointer [ctx] itself is never
    NULL here. *)

Record mkvtag_context : Type :=
  mk_context {
    file : file_handle;
    mkv : mkv_file;
    is_open : bool;
    is_writable : bool;
    cached_tags : option mkvtag_collection
  }.

Definition set_file (ctx : mkvtag_context) (h : file_handle) : mkvtag_context :=
  mk_context h (mkv ctx) (is_open ctx) (is_writable ctx) (cached_tags ctx).
Definition set_mkv (ctx : mkvtag_context) (m : mkv_file) : mkvtag_context :=
  mk_context (file ctx) m (is_open ctx) (is_writable ctx) (cached_tags ctx).
Definition set_cached_tags (ctx : mkvtag_context) (c : option mkvtag_collection)
  : mkvtag_context :=
  mk_context (file ctx) (mkv ctx) (is_open ctx) (is_writable ctx) c.

Definition mkvtag_collection_create : mkvtag_collection := mk_collection [] 0.

(** The new tag goes to the end of the list; the result is the collection
    after the call. *)
Definition mkvtag_collection_add_tag (coll : mkvtag_collection) (type : Z)
  : mkvtag_collection :=
  mk_collection (tags coll ++ [set_target_type zero_tag type]) (count coll + 1).

(** The simple tag [mkvtag_tag_add_simple] and [mkvtag_simple_tag_add_nested]
    allocate. *)
Definition new_simple_tag (name : cstring) (value : option cstring) : mkvtag_simple_tag :=
  mk_simple_tag (Some name) value None None 1 [].

(** The tag after the call; a NULL [name] adds nothing. *)
Definition mkvtag_tag_add_simple (tag : mkvtag_tag) (name : option cstring)
    (value : option cstring) : mkvtag_tag :=
  match name with
  | None => tag
  | Some n => set_simple_tags tag (simple_tags tag ++ [new_simple_tag n value])
  end.

Definition mkvtag_simple_tag_add_nested (parent : mkvtag_simple_tag)
    (name : option cstring) (value : option cstring) : mkvtag_simple_tag :=
  match name with
  | None => parent
  | Some n => set_nested parent (st_nested parent ++ [new_simple_tag n value])
  end.

Definition mkvtag_simple_tag_set_language (simple_tag : mkvtag_simple_tag)
    (language : option cstring) : mkvtag_error * mkvtag_simple_tag :=
  match language with
  | None => (MKVTAG_ERR_INVALID_ARG, simple_tag)
  | Some l => (MKVTAG_OK, set_language simple_tag (Some l))
  end.

Definition mkvtag_tag_add_track_uid (tag : mkvtag_tag) (uid : Z) : mkvtag_error * mkvtag_tag :=
  (MKVTAG_OK, set_track_uids tag (track_uids tag ++ [uid])).

(* ------------------------------------------------------------------ *)
(** ** Tag reading (mkvtag.c) *)

Definition mkvtag_read_tags (fuel : nat) (ctx : mkvtag_context)
  : outcome (result mkvtag_collection * mkvtag_context) :=
  if negb (is_open ctx) then Done (Err MKVTAG_ERR_NOT_OPEN, ctx) else
  match cached_tags ctx with
  | Some c => Done (Ok c, ctx)
  | None =>
      if tags_offset (mkv ctx) <? 0 then Done (Err MKVTAG_ERR_NO_TAGS, ctx) else
      let '(err, h1) := file_seek (file ctx) (tags_offset (mkv ctx)) in
      if negb (is_ok err) then Done (Err err, set_file ctx h1) else
      match ebml_read_element_header h1 with
      | (Err e, h2) => Done (Err e, set_file ctx h2)
      | (Ok tags_element, h2) =>
          if negb (id tags_element =? MKV_ID_TAGS)
          then Done (Err MKVTAG_ERR_CORRUPT, set_file ctx h2)
          else
            '(r, h3) <~ mkv_tags_parse fuel h2 tags_element ;;
            match r with
            | Err e => Done (Err e, set_file ctx h3)
            | Ok collection =>
                Done (Ok collection, set_cached_tags (set_file ctx h3) (Some collection))
            end
      end
  end.

(** [stag->name && str_casecmp(stag->name, name) == 0]. *)
Definition name_matches (stag : mkvtag_simple_tag) (name : cstring) : bool :=
  match st_name stag with
  | Some n => str_casecmp n name =? 0
  | None => false
  end.

(** The search of [mkvtag_read_tag_string]: the value of the first simple tag,
    over the tags in order, whose name matches and whose value is not NULL. *)
Fixpoint find_simple_value (stags : list mkvtag_simple_tag) (name : cstring)
  : option cstring :=
  match stags with
  | [] => None
  | stag :: rest =>
      if name_matches stag name then
        match st_value stag with
        | Some v => Some v
        | None => find_simple_value rest name
        end
      else find_simple_value rest name
  end.

Fixpoint find_tag_value (l : list mkvtag_tag) (name : cstring) : option cstring :=
  match l with
  | [] => None
  | tag :: rest =>
      match find_simple_value (simple_tags tag) name with
      | Some v => Some v
      | None => find_tag_value rest name
      end
  end.

(** The result, the string the buffer [value] holds after the call ([None]
    when it was not written) and the context.  The buffer is not NULL. *)
Definition mkvtag_read_tag_string (fuel : nat) (ctx : mkvtag_context)
    (name : option cstring) (size : Z)
  : outcome (mkvtag_error * option cstring * mkvtag_context) :=
  match name with
  | None => Done (MKVTAG_ERR_INVALID_ARG, None, ctx)
  | Some name =>
      if size =? 0 then Done (MKVTAG_ERR_INVALID_ARG, None, ctx) else
      '(r, ctx1) <~ mkvtag_read_tags fuel ctx ;;
      match r with
      | Err e => Done (e, None, ctx1)
      | Ok tags_ =>
          match find_tag_value (tags tags_) name with
          | Some v =>
              let '(n, buffer) := str_copy size (Some v) in
              if n <? 0 then Done (MKVTAG_ERR_TAG_TOO_LARGE, buffer, ctx1)
              else Done (MKVTAG_OK, buffer, ctx1)
          | None => Done (MKVTAG_ERR_TAG_NOT_FOUND, None, ctx1)
          end
      end
  end.

(* ------------------------------------------------------------------ *)
(** ** Tag writing: the placement planner (mkvtag.c) *)

Definition write_tags_at (ctx : mkvtag_context) (offset available_space : Z)
    (tags_ : mkvtag_collection) : mkvtag_error * mkvtag_context :=
  match build_tags_element tags_ with
  | Err e => (e, ctx)
  | Ok tags_buf =>
      if available_space <? zlen tags_buf then (MKVTAG_ERR_NO_SPACE, ctx) else
      let '(err, h1) := file_seek (file ctx) offset in
      if negb (is_ok err) then (err, set_file ctx h1) else
      let '(err, h2) := file_write h1 tags_buf in
      if negb (is_ok err) then (err, set_file ctx h2) else
      let remaining := wrap64 (available_space - zlen tags_buf) in
      if 2 <=? remaining then
        match ebml_write_void_element [] remaining with
        | Err e => (e, set_file ctx h2)
        | Ok void_buf =>
            let '(err, h3) := file_write h2 void_buf in
            (err, set_file ctx h3)
        end
      else if remaining =? 1 then
        let '(err, h3) := file_write h2 [0] in
        (err, set_file ctx h3)
      else (MKVTAG_OK, set_file ctx h2)
  end.

(** [mkv_seekhead_update_tags(&ctx->mkv, offset)] with its result dropped, as
    the three strategies call it. *)
Definition update_seekhead (fuel : nat) (ctx : mkvtag_context) (offset : Z)
  : outcome mkvtag_context :=
  '(_, h) <~ mkv_seekhead_update_tags fuel (mkv ctx) (file ctx) offset ;;
  Done (set_file ctx h).

(** The space [try_replace_existing_tags] finds at the Tags element: its span
    and, when the element after it is a Void, that Void's span.  The result
    is [available] and the handle after the look. *)
Definition existing_slot (h2 : file_handle) (tags_off : Z) (existing_tags : ebml_element)
  : Z * file_handle :=
  let existing_end := end_offset existing_tags in
  let available := wrap64 (existing_end - tags_off) in
  let '(err, h3) := file_seek h2 existing_end in
  if is_ok err then
    match ebml_peek_element_header h3 with
    | (Ok next_elem, h4) =>
        if id next_elem =? EBML_ID_VOID
        then (wrap64 (available + wrap64 (end_offset next_elem - existing_end)), h4)
        else (available, h4)
    | (Err _, h4) => (available, h4)
    end
  else (available, h3).

Definition try_replace_existing_tags (fuel : nat) (ctx : mkvtag_context)
    (tags_ : mkvtag_collection) : outcome (mkvtag_error * mkvtag_context) :=
  if tags_offset (mkv ctx) <? 0 then Done (MKVTAG_ERR_NO_TAGS, ctx) else
  let '(err, h1) := file_seek (file ctx) (tags_offset (mkv ctx)) in
  if negb (is_ok err) then Done (err, set_file ctx h1) else
  match ebml_read_element_header h1 with
  | (Err e, h2) => Done (e, set_file ctx h2)
  | (Ok existing_tags, h2) =>
      let '(available, h4) := existing_slot h2 (tags_offset (mkv ctx)) existing_tags in
      let '(err, ctx1) :=
        write_tags_at (set_file ctx h4) (tags_offset (mkv ctx)) available tags_ in
      if is_ok err then
        ctx2 <~ update_seekhead fuel ctx1 (tags_offset (mkv ctx1)) ;;
        Done (MKVTAG_OK, ctx2)
      else Done (err, ctx1)
  end.

Definition try_replace_void (fuel : nat) (ctx : mkvtag_context)
    (tags_ : mkvtag_collection) : outcome (mkvtag_error * mkvtag_context) :=
  if (void_offset (mkv ctx) <? 0) || (void_size (mkv ctx) =? 0)
  then Done (MKVTAG_ERR_NO_SPACE, ctx) else
  let '(err, ctx1) :=
    write_tags_at ctx (void_offset (mkv ctx)) (void_size (mkv ctx)) tags_ in
  if is_ok err then
    let ctx2 := set_mkv ctx1 (set_tags_offset (mkv ctx1) (void_offset (mkv ctx1))) in
    ctx3 <~ update_seekhead fuel ctx2 (tags_offset (mkv ctx2)) ;;
    Done (MKVTAG_OK, ctx3)
  else Done (err, ctx1).

(** The step of [try_append_tags] that rewrites the size of the Segment in
    the bytes its VINT has. *)
Definition patch_segment_size (ctx : mkvtag_context) (tags_buf : list Z)
  : mkvtag_error * mkvtag_context :=
  let new_segment_size := wrap64 (segment_size (mkv ctx) + zlen tags_buf) in
  let size_offset := segment_offset (mkv ctx) + ebml_id_size MKV_ID_SEGMENT in
  let '(err, h1) := file_seek (file ctx) size_offset in
  if negb (is_ok err) then (err, set_file ctx h1) else
  let '(err, first_byte, h2) := file_read h1 1 in
  if negb (is_ok err) then (err, set_file ctx h2) else
  let current_size_len := ebml_vint_length (hd 0 first_byte) in
  match ebml_vint_encode_fixed new_segment_size current_size_len with
  | Err _ => (MKVTAG_ERR_NO_SPACE, set_file ctx h2)
  | Ok new_size_bytes =>
      let '(err, h3) := file_seek h2 size_offset in
      if negb (is_ok err) then (err, set_file ctx h3) else
      let '(err, h4) := file_write h3 new_size_bytes in
      if negb (is_ok err) then (err, set_file ctx h4) else
      (MKVTAG_OK, set_mkv (set_file ctx h4) (set_segment_size (mkv ctx) new_segment_size))
  end.

(** The step of [try_append_tags] that overwrites the old Tags element with
    a Void of the same span; its failures are dropped. *)
Definition void_out_old_tags (ctx : mkvtag_context) : mkvtag_context :=
  if 0 <=? tags_offset (mkv ctx) then
    let '(err, h1) := file_seek (file ctx) (tags_offset (mkv ctx)) in
    if is_ok err then
      match ebml_read_element_header h1 with
      | (Ok old_tags, h2) =>
          let old_total := wrap64 (end_offset old_tags - tags_offset (mkv ctx)) in
          if 2 <=? old_total then
            match ebml_write_void_element [] old_total with
            | Ok void_buf =>
                let h3 := snd (file_seek h2 (tags_offset (mkv ctx))) in
                set_file ctx (snd (file_write h3 void_buf))
            | Err _ => set_file ctx h2
            end
          else set_file ctx h2
      | (Err _, h2) => set_file ctx h2
      end
    else set_file ctx h1
  else ctx.

Definition try_append_tags (fuel : nat) (ctx : mkvtag_context)
    (tags_ : mkvtag_collection) : outcome (mkvtag_error * mkvtag_context) :=
  let segment_content_end :=
    if segment_unknown_size (mkv ctx) then file_size (file ctx)
    else segment_data_offset (mkv ctx) + to_int64 (segment_size (mkv ctx)) in
  match build_tags_element tags_ with
  | Err e => Done (e, ctx)
  | Ok tags_buf =>
      let '(err, ctx1) :=
        if negb (segment_unknown_size (mkv ctx)) then patch_segment_size ctx tags_buf
        else (MKVTAG_OK, ctx) in
      if negb (is_ok err) then Done (err, ctx1) else
      let '(err, h1) := file_seek (file ctx1) segment_content_end in
      if negb (is_ok err) then Done (err, set_file ctx1 h1) else
      let new_tags_offset := segment_content_end in
      let '(err, h2) := file_write h1 tags_buf in
      if negb (is_ok err) then Done (err, set_file ctx1 h2) else
      let err := file_sync h2 in
      if negb (is_ok err) then Done (err, set_file ctx1 h2) else
      let ctx2 := void_out_old_tags (set_file ctx1 h2) in
      let ctx3 := set_mkv ctx2 (set_tags_offset (mkv ctx2) new_tags_offset) in
      ctx4 <~ update_seekhead fuel ctx3 new_tags_offset ;;
      Done (file_sync (file ctx4), ctx4)
  end.

(** The collection a call is given, by its owner.  [mkvtag_read_tags] gives
    the caller [ctx->cached_tags] itself, a collection the context owns and
    frees ([Cached]: that pointer, valid or already freed); a collection made
    with [mkvtag_collection_create] and the builders is the caller's
    ([Built]). *)
Inductive collection_ptr : Type :=
| Built (c : mkvtag_collection)
| Cached.

(** [tags_] is [None] for a NULL collection.  Past its checks the call frees
    [ctx->cached_tags] and then, on every path, serializes [tags] before it
    returns (in [write_tags_at] or in [try_append_tags]): given the
    collection of the context it reads freed memory, which is [Undefined]. *)
Definition mkvtag_write_tags (fuel : nat) (ctx : mkvtag_context)
    (tags_ : option collection_ptr) : outcome (mkvtag_error * mkvtag_context) :=
  match tags_ with
  | None => Done (MKVTAG_ERR_INVALID_ARG, ctx)
  | Some p =>
      if negb (is_open ctx) then Done (MKVTAG_ERR_NOT_OPEN, ctx) else
      if negb (is_writable ctx) then Done (MKVTAG_ERR_READ_ONLY, ctx) else
      let ctx0 := set_cached_tags ctx None in
      match p with
      | Cached => Undefined
      | Built tags_ =>
          '(ok1, ctx1) <~
            (if 0 <=? tags_offset (mkv ctx0) then
               '(err, c) <~ try_replace_existing_tags fuel ctx0 tags_ ;;
               Done (is_ok err, c)
             else Done (false, ctx0)) ;;
          if ok1 then Done (file_sync (file ctx1), ctx1) else
          '(err, ctx2) <~ try_replace_void fuel ctx1 tags_ ;;
          if is_ok err then Done (file_sync (file ctx2), ctx2) else
          try_append_tags fuel ctx2 tags_
      end
  end.

(* ------------------------------------------------------------------ *)
(** ** Setting and removing a tag by name (mkvtag.c) *)

(** [src_stag->name ? src_stag->name : ""]. *)
Definition name_or_empty (stag : mkvtag_simple_tag) : cstring :=
  match st_name stag with
  | Some n => n
  | None => []
  end.

(** One turn of the loop that copies the simple tags of [src_tag] into
    [new_tag].  [new_stag] is the simple tag [mkvtag_tag_add_simple] has just
    put at the end of the list, so setting its language through the pointer
    sets it in the list. *)
Definition copy_simple_tag (album : bool) (name : cstring) (value : option cstring)
    (new_tag : mkvtag_tag) (src_stag : mkvtag_simple_tag) : mkvtag_tag :=
  if album && name_matches src_stag name then
    match value with
    | None => new_tag
    | Some _ => mkvtag_tag_add_simple new_tag (Some name) value
    end
  else
    let new_stag := new_simple_tag (name_or_empty src_stag) (st_value src_stag) in
    let new_stag :=
      match st_language src_stag with
      | Some l => snd (mkvtag_simple_tag_set_language new_stag (Some l))
      | None => new_stag
      end in
    set_simple_tags new_tag (simple_tags new_tag ++ [new_stag]).

(** The copy of one tag of the existing collection: the tag
    [mkvtag_collection_add_tag] allocates, then the target type string, the
    track UIDs and the simple tags. *)
Definition copy_tag (name : cstring) (value : option cstring) (src_tag : mkvtag_tag)
  : mkvtag_tag :=
  let new_tag := set_target_type zero_tag (target_type src_tag) in
  let new_tag :=
    match target_type_str src_tag with
    | Some s => set_target_type_str new_tag (Some s)
    | None => new_tag
    end in
  let new_tag :=
    if 0 <? zlen (track_uids src_tag) then set_track_uids new_tag (track_uids src_tag)
    else new_tag in
  fold_left (copy_simple_tag (target_type src_tag =? MKVTAG_TARGET_ALBUM) name value)
            (simple_tags src_tag) new_tag.

(** [found_anywhere]: an album-level tag of the existing collection has a
    simple tag of that name. *)
Definition found_anywhere (existing : mkvtag_collection) (name : cstring) : bool :=
  existsb (fun check =>
             (target_type check =? MKVTAG_TARGET_ALBUM)
             && existsb (fun s => name_matches s name) (simple_tags check))
          (tags existing).

(** The new simple tag added to the first album-level tag of the list;
    [None] when the list has no album-level tag. *)
Fixpoint add_to_first_album (l : list mkvtag_tag) (name : cstring) (value : option cstring)
  : option (list mkvtag_tag) :=
  match l with
  | [] => None
  | t :: rest =>
      if target_type t =? MKVTAG_TARGET_ALBUM
      then Some (mkvtag_tag_add_simple t (Some name) value :: rest)
      else option_map (cons t) (add_to_first_album rest name value)
  end.

(** The collection [mkvtag_set_tag_string] builds from what [mkvtag_read_tags]
    gave. *)
Definition working_collection (existing : result mkvtag_collection) (name : cstring)
    (value : option cstring) : mkvtag_collection :=
  match existing with
  | Ok existing =>
      let working :=
        fold_left (fun working src_tag =>
                     mk_collection (tags working ++ [copy_tag name value src_tag])
                                   (count working + 1))
                  (tags existing) mkvtag_collection_create in
      match value with
      | None => working
      | Some _ =>
          if found_anywhere existing name then working
          else
            match add_to_first_album (tags working) name value with
            | Some l => mk_collection l (count working)
            | None =>
                let album_tag := set_target_type zero_tag MKVTAG_TARGET_ALBUM in
                mk_collection
                  (tags working ++ [mkvtag_tag_add_simple album_tag (Some name) value])
                  (count working + 1)
            end
      end
  | Err _ =>
      let working := mkvtag_collection_create in
      match value with
      | None => working
      | Some _ =>
          let tag := set_target_type zero_tag MKVTAG_TARGET_ALBUM in
          mk_collection (tags working ++ [mkvtag_tag_add_simple tag (Some name) value])
                        (count working + 1)
      end
  end.

(** [existing] is the collection of the context; [working] is built by the
    call, which frees it after the write. *)
Definition mkvtag_set_tag_string (fuel : nat) (ctx : mkvtag_context)
    (name : option cstring) (value : option cstring)
  : outcome (mkvtag_error * mkvtag_context) :=
  match name with
  | None => Done (MKVTAG_ERR_INVALID_ARG, ctx)
  | Some name =>
      if negb (is_open ctx) then Done (MKVTAG_ERR_NOT_OPEN, ctx) else
      if negb (is_writable ctx) then Done (MKVTAG_ERR_READ_ONLY, ctx) else
      '(existing, ctx1) <~ mkvtag_read_tags fuel ctx ;;
      let working := working_collection existing name value in
      mkvtag_write_tags fuel ctx1 (Some (Built working))
  end.

Definition mkvtag_remove_tag (fuel : nat) (ctx : mkvtag_context) (name : option cstring)
  : outcome (mkvtag_error * mkvtag_context) :=
  mkvtag_set_tag_string fuel ctx name None.

(* ------------------------------------------------------------------ *)
(** ** Opening a file: the structure navigator (mkv_parser.c, mkvtag.c) *)

Definition set_ebml_header (m : mkv_file) (v rv : Z) (dt : list Z) (dv drv : Z) : mkv_file :=
  mk_mkv_file v rv dt dv drv (segment_offset m) (segment_data_offset m) (segment_size m)
    (segment_unknown_size m) (elements m) (seekhead_offset m) (info_offset m)
    (tracks_offset m) (cues_offset m) (tags_offset m) (chapters_offset m)
    (attachments_offset m) (clusters_offset m) (void_offset m) (void_size m).

Definition set_segment (m : mkv_file) (off data_off sz : Z) (unknown : bool) : mkv_file :=
  mk_mkv_file (ebml_version m) (ebml_read_version m) (doctype m) (doctype_version m)
    (doctype_read_version m) off data_off sz unknown (elements m) (seekhead_offset m)
    (info_offset m) (tracks_offset m) (cues_offset m) (tags_offset m) (chapters_offset m)
    (attachments_offset m) (clusters_offset m) (void_offset m) (void_size m).

Definition set_void (m : mkv_file) (off sz : Z) : mkv_file :=
  mk_mkv_file (ebml_version m) (ebml_read_version m) (doctype m) (doctype_version m)
    (doctype_read_version m) (segment_offset m) (segment_data_offset m) (segment_size m)
    (segment_unknown_size m) (elements m) (seekhead_offset m) (info_offset m)
    (tracks_offset m) (cues_offset m) (tags_offset m) (chapters_offset m)
    (attachments_offset m) (clusters_offset m) off sz.

Definition set_elements (m : mkv_file) (l : list mkv_element_pos) : mkv_file :=
  mk_mkv_file (ebml_version m) (ebml_read_version m) (doctype m) (doctype_version m)
    (doctype_read_version m) (segment_offset m) (segment_data_offset m) (segment_size m)
    (segment_unknown_size m) l (seekhead_offset m) (info_offset m)
    (tracks_offset m) (cues_offset m) (tags_offset m) (chapters_offset m)
    (attachments_offset m) (clusters_offset m) (void_offset m) (void_size m).

(** The switch of [mkv_store_element_offset], one test per field. *)
Definition mkv_store_element_offset (m : mkv_file) (id_ offset : Z) : mkv_file :=
  let pick (k old : Z) := if id_ =? k then offset else old in
  mk_mkv_file (ebml_version m) (ebml_read_version m) (doctype m) (doctype_version m)
    (doctype_read_version m) (segment_offset m) (segment_data_offset m) (segment_size m)
    (segment_unknown_size m) (elements m)
    (pick MKV_ID_SEEKHEAD (seekhead_offset m))
    (pick MKV_ID_INFO (info_offset m))
    (pick MKV_ID_TRACKS (tracks_offset m))
    (pick MKV_ID_CUES (cues_offset m))
    (pick MKV_ID_TAGS (tags_offset m))
    (pick MKV_ID_CHAPTERS (chapters_offset m))
    (pick MKV_ID_ATTACHMENTS (attachments_offset m))
    (if (id_ =? MKV_ID_CLUSTER) && (clusters_offset m <? 0) then offset
     else clusters_offset m)
    (void_offset m) (void_size m).

(** The first entry of the cache with that ID is overwritten. *)
Fixpoint cache_update (l : list mkv_element_pos) (id_ offset size_ : Z)
  : option (list mkv_element_pos) :=
  match l with
  | [] => None
  | e :: rest =>
      if pos_id e =? id_ then Some (mk_element_pos id_ offset size_ :: rest)
      else option_map (cons e) (cache_update rest id_ offset size_)
  end.

Definition mkv_cache_element (m : mkv_file) (id_ offset size_ : Z) : mkv_file :=
  if MKV_MAX_CACHED_ELEMENTS <=? zlen (elements m) then m
  else
    match cache_update (elements m) id_ offset size_ with
    | Some l => set_elements m l
    | None => set_elements m (elements m ++ [mk_element_pos id_ offset size_])
    end.

(** One turn of the loop of [mkv_parse_header]; the state holds the code the
    function returns when a child cannot be skipped. *)
Definition parse_header_child (child : ebml_element) (st : mkvtag_error * mkv_file)
    (h : file_handle) : outcome (loop_ctl (mkvtag_error * mkv_file) * file_handle) :=
  let m := snd st in
  let read_int (set : Z -> mkv_file) :=
    match ebml_read_uint h child with
    | (Ok val, h1) => (set (to_int32 val), h1)
    | (Err _, h1) => (m, h1)
    end in
  let '(m1, h1) :=
    if id child =? EBML_ID_VERSION then
      read_int (fun v => set_ebml_header m v (ebml_read_version m) (doctype m)
                           (doctype_version m) (doctype_read_version m))
    else if id child =? EBML_ID_READ_VERSION then
      read_int (fun v => set_ebml_header m (ebml_version m) v (doctype m)
                           (doctype_version m) (doctype_read_version m))
    else if id child =? EBML_ID_DOCTYPE then
      let '(_, stored, h1) := ebml_read_string h child 32 in
      (set_ebml_header m (ebml_version m) (ebml_read_version m)
         (stored ++ skipn (length stored) (doctype m))
         (doctype_version m) (doctype_read_version m), h1)
    else if id child =? EBML_ID_DOCTYPE_VERSION then
      read_int (fun v => set_ebml_header m (ebml_version m) (ebml_read_version m)
                           (doctype m) v (doctype_read_version m))
    else if id child =? EBML_ID_DOCTYPE_READ_VER then
      read_int (fun v => set_ebml_header m (ebml_version m) (ebml_read_version m)
                           (doctype m) (doctype_version m) v)
    else (m, h) in
  let '(err, h2) := ebml_skip_element h1 child in
  if negb (is_ok err) then Done (Break (err, m1), h2)
  else Done (Continue (MKVTAG_OK, m1), h2).

Definition str_matroska : cstring := [109; 97; 116; 114; 111; 115; 107; 97].
Definition str_webm : cstring := [119; 101; 98; 109].

(** [strcmp(a, b) != 0] on two strings. *)
Definition str_differs (a b : cstring) : bool :=
  negb (if list_eq_dec Z.eq_dec a b then true else false).

Definition mkv_parse_header (fuel : nat) (m : mkv_file) (h : file_handle)
  : outcome (mkvtag_error * mkv_file * file_handle) :=
  let '(err, h0) := file_seek h 0 in
  if negb (is_ok err) then Done (err, m, h0) else
  match ebml_read_element_header h0 with
  | (Err _, h1) => Done (MKVTAG_ERR_NOT_EBML, m, h1)
  | (Ok header, h1) =>
      if negb (id header =? EBML_ID_EBML) then Done (MKVTAG_ERR_NOT_EBML, m, h1) else
      let m0 := set_ebml_header m 1 1 (0 :: skipn 1 (doctype m)) 1 1 in
      '(st, h2) <~ ebml_children parse_header_child fuel (end_offset header)
                                  (MKVTAG_OK, m0) h1 ;;
      let '(err, m1) := st in
      if negb (is_ok err) then Done (err, m1, h2) else
      if str_differs (c_str (doctype m1)) str_matroska
         && str_differs (c_str (doctype m1)) str_webm
      then Done (MKVTAG_ERR_NOT_MKV, m1, h2)
      else Done (MKVTAG_OK, m1, h2)
  end.

(** One turn of the loop over a Seek entry in [mkv_parse_seekhead]; the state
    is [seek_id] and [seek_position]. *)
Definition parse_seek_child (child : ebml_element) (st : Z * Z) (h : file_handle)
  : outcome (loop_ctl (Z * Z) * file_handle) :=
  let '(seek_id, seek_position) := st in
  let '(st1, h1) :=
    if id child =? MKV_ID_SEEK_ID then
      match ebml_read_binary h child 4 with
      | (Ok id_buf, h1) =>
          if (0 <? zlen id_buf) && (zlen id_buf <=? 4)
          then ((raw_id id_buf, seek_position), h1)
          else (st, h1)
      | (Err _, h1) => (st, h1)
      end
    else if id child =? MKV_ID_SEEK_POSITION then
      match ebml_read_uint h child with
      | (Ok v, h1) => ((seek_id, v), h1)
      | (Err _, h1) => (st, h1)
      end
    else (st, h) in
  Done (Continue st1, snd (ebml_skip_element h1 child)).

(** One turn of the loop over the SeekHead in [mkv_parse_seekhead]. *)
Definition parse_seekhead_child (fuel : nat) (seek_elem : ebml_element) (m : mkv_file)
    (h : file_handle) : outcome (loop_ctl mkv_file * file_handle) :=
  if negb (id seek_elem =? MKV_ID_SEEK) then
    Done (Continue m, snd (ebml_skip_element h seek_elem))
  else
    '(st, h1) <~ ebml_children parse_seek_child fuel (end_offset seek_elem) (0, 0) h ;;
    let '(seek_id, seek_position) := st in
    if negb (seek_id =? 0) then
      let abs_offset := mkv_segment_to_absolute m seek_position in
      let m1 := mkv_store_element_offset m seek_id abs_offset in
      Done (Continue (mkv_cache_element m1 seek_id abs_offset 0), h1)
    else Done (Continue m, h1).

Definition mkv_parse_seekhead (fuel : nat) (m : mkv_file) (h : file_handle)
    (seekhead : ebml_element) : outcome (mkvtag_error * mkv_file * file_handle) :=
  let '(err, h0) := file_seek h (data_offset seekhead) in
  if negb (is_ok err) then Done (err, m, h0) else
  '(m1, h1) <~ ebml_children (parse_seekhead_child fuel) fuel (end_offset seekhead) m h0 ;;
  Done (MKVTAG_OK, m1, h1).

(** One turn of the loop of [mkv_scan_structure]; [elem_offset], the position
    before the header was read, is the start of the content less the bytes
    of the header. *)
Definition scan_structure_child (elem : ebml_element) (m : mkv_file) (h : file_handle)
  : outcome (loop_ctl mkv_file * file_handle) :=
  let elem_offset := data_offset elem - id_length elem - size_length elem in
  let m1 := mkv_store_element_offset m (id elem) elem_offset in
  let m2 :=
    if id elem =? EBML_ID_VOID then
      let total_size := wrap64 (wrap64 (data_offset elem - elem_offset) + size elem) in
      if (void_offset m1 <? 0) || (void_size m1 <? total_size)
      then set_void m1 elem_offset total_size
      else m1
    else m1 in
  if id elem =? MKV_ID_CLUSTER then Done (Break m2, h)
  else
    let '(err, h1) := ebml_skip_element h elem in
    if negb (is_ok err) then Done (Break m2, h1) else Done (Continue m2, h1).

Definition mkv_scan_structure (fuel : nat) (m : mkv_file) (h : file_handle)
  : outcome (mkvtag_error * mkv_file * file_handle) :=
  let '(err, h0) := file_seek h (segment_data_offset m) in
  if negb (is_ok err) then Done (err, m, h0) else
  let segment_end :=
    if segment_unknown_size m then file_size h0
    else segment_data_offset m + to_int64 (segment_size m) in
  '(m1, h1) <~ ebml_children scan_structure_child fuel segment_end m h0 ;;
  Done (MKVTAG_OK, m1, h1).

Definition mkv_parse_structure (fuel : nat) (m : mkv_file) (h : file_handle)
  : outcome (mkvtag_error * mkv_file * file_handle) :=
  match ebml_read_element_header h with
  | (Err _, h1) => Done (MKVTAG_ERR_NOT_MKV, m, h1)
  | (Ok segment, h1) =>
      if negb (id segment =? MKV_ID_SEGMENT) then Done (MKVTAG_ERR_NOT_MKV, m, h1) else
      let m0 := set_segment m (data_offset segment - id_length segment - size_length segment)
                            (data_offset segment) (size segment) (is_unknown_size segment) in
      r <~ mkv_scan_structure fuel m0 h1 ;;
      let '(err, m1, h2) := r in
      if negb (is_ok err) then Done (err, m1, h2) else
      if 0 <=? seekhead_offset m1 then
        let '(err, h3) := file_seek h2 (seekhead_offset m1) in
        if negb (is_ok err) then Done (err, m1, h3) else
        match ebml_read_element_header h3 with
        | (Ok seekhead, h4) =>
            if id seekhead =? MKV_ID_SEEKHEAD then
              r <~ mkv_parse_seekhead fuel m1 h4 seekhead ;;
              let '(_, m2, h5) := r in Done (MKVTAG_OK, m2, h5)
            else Done (MKVTAG_OK, m1, h4)
        | (Err _, h4) => Done (MKVTAG_OK, m1, h4)
        end
      else Done (MKVTAG_OK, m1, h2)
  end.

(** [calloc] of the context, then [mkv_file_init]. *)
Definition mkvtag_create : mkvtag_context :=
  mk_context (mk_file [] 0 false) mkv_file_init false false None.

(** [content] is what [file_open_rw] or [file_open_read] finds at [path]:
    [None] when the file cannot be opened. *)
Definition mkvtag_open_internal (fuel : nat) (ctx : mkvtag_context)
    (content : option (list Z)) (writable : bool)
  : outcome (mkvtag_error * mkvtag_context) :=
  if is_open ctx then Done (MKVTAG_ERR_ALREADY_OPEN, ctx) else
  match content with
  | None => Done (MKVTAG_ERR_IO, ctx)
  | Some data =>
      let h := mk_file data 0 writable in
      r <~ mkv_parse_header fuel mkv_file_init h ;;
      let '(err, m1, h1) := r in
      if negb (is_ok err) then Done (err, set_mkv (set_file ctx h1) m1) else
      r <~ mkv_parse_structure fuel m1 h1 ;;
      let '(err, m2, h2) := r in
      if negb (is_ok err) then Done (err, set_mkv (set_file ctx h2) m2) else
      Done (MKVTAG_OK, mk_context h2 m2 true writable (cached_tags ctx))
  end.

Definition mkvtag_open (fuel : nat) (ctx : mkvtag_context) (content : option (list Z)) :=
  mkvtag_open_internal fuel ctx content false.

Definition mkvtag_open_rw (fuel : nat) (ctx : mkvtag_context) (content : option (list Z)) :=
  mkvtag_open_internal fuel ctx content true.

Definition mkvtag_close (ctx : mkvtag_context) : mkvtag_context :=
  mk_context (file ctx) (mkv ctx) false false None.

(** * Functions of the interface that the library itself does not call

    [ebml_read_int] (ebml_reader.c), the element sizes of ebml_writer.c,
    [mkv_find_element] and [mkv_lookup_element] (mkv_parser.c), and the
    dynamic buffer of buffer.c. *)

(** One turn of [result = (result << 8) | buffer[i]] on an [int64_t]; the
    shift of a negative [result] is taken in two's complement, as GCC and
    Clang define it. *)
Definition shift_in_signed (r b : Z) : Z := to_int64 (Z.lor (Z.shiftl r 8) b).

(** [ebml_read_int] (ebml_reader.c): the value of at most 8 bytes, big
    endian, with the sign of the first byte; an empty element is 0. *)
Definition ebml_read_int (h : file_handle) (element : ebml_element)
  : result Z * file_handle :=
  if 8 <? size element then (Err MKVTAG_ERR_VINT_OVERFLOW, h) else
  let '(err, h1) := file_seek h (data_offset element) in
  if negb (is_ok err) then (Err err, h1) else
  if size element =? 0 then (Ok 0, h1) else
  let '(err, buffer, h2) := file_read h1 (size element) in
  if negb (is_ok err) then (Err err, h2) else
  let result := if bit_set (hd 0 buffer) 0x80 then -1 else 0 in
  (Ok (fold_left shift_in_signed buffer result), h2).

(** The sizes [ebml_uint_element_size], [ebml_string_element_size] and
    [ebml_binary_element_size] tell (ebml_writer.c); the sums are taken on a
    [size_t], and a NULL string counts as an empty one. *)
Definition ebml_uint_element_size (id value : Z) : Z :=
  let data_size := uint_data_size value in
  let data_size := if data_size =? 0 then 1 else data_size in
  wrap64 (ebml_id_size id + ebml_vint_size data_size + data_size).

Definition ebml_string_element_size (id : Z) (str : option cstring) : Z :=
  let str_len := match str with Some s => strlen s | None => 0 end in
  wrap64 (ebml_id_size id + ebml_vint_size str_len + str_len).

Definition ebml_binary_element_size (id data_size : Z) : Z :=
  wrap64 (ebml_id_size id + ebml_vint_size data_size + data_size).

(** [mkv_lookup_element]: the first entry of the cache with that ID; [None]
    is NULL. *)
Definition mkv_lookup_element (mkv : mkv_file) (id_ : Z) : option mkv_element_pos :=
  find (fun e => pos_id e =? id_) (elements mkv).

(** [mkv_find_element] (mkv_parser.c), on the handle of the record: the
    children of [parent] from the position of the handle on, up to the first
    one with the ID [target_id].  The loop returns on the first error, unlike
    the loops that break on it; both branches skip the element. *)
Fixpoint mkv_find_element (fuel : nat) (h : file_handle) (parent : ebml_element)
    (target_id : Z) : outcome (result ebml_element * file_handle) :=
  if ebml_at_element_end h parent then Done (Err MKVTAG_ERR_TAG_NOT_FOUND, h)
  else
    match fuel with
    | O => OutOfFuel
    | S fuel' =>
        match ebml_read_element_header h with
        | (Err e, h1) => Done (Err e, h1)
        | (Ok elem, h1) =>
            if id elem =? target_id then Done (Ok elem, h1)
            else if (id elem =? MKV_ID_CLUSTER) && negb (is_unknown_size elem) then
              let '(err, h2) := ebml_skip_element h1 elem in
              if negb (is_ok err) then Done (Err err, h2)
              else mkv_find_element fuel' h2 parent target_id
            else
              let '(err, h2) := ebml_skip_element h1 elem in
              if negb (is_ok err) then Done (Err err, h2)
              else mkv_find_element fuel' h2 parent target_id
        end
    end.

(** ** The dynamic buffer (buffer.c)

    [buf_data] is the bytes of [data] below [size], so that [size] is their
    number; the bytes from [size] to [capacity] hold nothing.  [alloc_ok]
    tells whether [malloc] or [realloc] gives the memory asked for.  The
    buffer is not NULL. *)

Definition BUFFER_DEFAULT_CAPACITY : Z := 256.

Definition BUFFER_GROWTH_FACTOR : Z := 2.

Record dyn_buffer : Type :=
  mk_buffer { buf_data : list Z; buf_capacity : Z }.

Definition buf_size (buf : dyn_buffer) : Z := zlen (buf_data buf).

(** [buffer_init]: a capacity of 0 asks for the default one. *)
Definition buffer_init (initial_capacity : Z) (alloc_ok : bool)
  : mkvtag_error * dyn_buffer :=
  let initial_capacity :=
    if initial_capacity =? 0 then BUFFER_DEFAULT_CAPACITY else initial_capacity in
  if alloc_ok then (MKVTAG_OK, mk_buffer [] initial_capacity)
  else (MKVTAG_ERR_NO_MEMORY, mk_buffer [] 0).

(** [buffer_reserve]: room for [additional] more bytes; the capacity is
    doubled, or set to what is needed when that is more. *)
Definition buffer_reserve (buf : dyn_buffer) (additional : Z) (alloc_ok : bool)
  : mkvtag_error * dyn_buffer :=
  let needed := wrap64 (buf_size buf + additional) in
  if needed <=? buf_capacity buf then (MKVTAG_OK, buf)
  else
    let new_capacity := wrap64 (buf_capacity buf * BUFFER_GROWTH_FACTOR) in
    let new_capacity := if new_capacity <? needed then needed else new_capacity in
    if alloc_ok then (MKVTAG_OK, mk_buffer (buf_data buf) new_capacity)
    else (MKVTAG_ERR_NO_MEMORY, buf).

(** [data] points to at least [size] bytes when it is not NULL.  A [memcpy]
    past the capacity is [Undefined]. *)
Definition buffer_append (buf : dyn_buffer) (data : option (list Z)) (size : Z)
    (alloc_ok : bool) : outcome (mkvtag_error * dyn_buffer) :=
  if size =? 0 then Done (MKVTAG_OK, buf)
  else
    match data with
    | None => Done (MKVTAG_ERR_INVALID_ARG, buf)
    | Some d =>
        let '(err, buf1) := buffer_reserve buf size alloc_ok in
        if negb (is_ok err) then Done (err, buf1)
        else if buf_capacity buf1 <? buf_size buf1 + size then Undefined
        else Done (MKVTAG_OK,
                   mk_buffer (buf_data buf1 ++ firstn (Z.to_nat size) d) (buf_capacity buf1))
    end.

Definition buffer_append_byte (buf : dyn_buffer) (byte : Z) (alloc_ok : bool)
  : outcome (mkvtag_error * dyn_buffer) :=
  buffer_append buf (Some [byte]) 1 alloc_ok.

Definition buffer_clear (buf : dyn_buffer) : dyn_buffer :=
  mk_buffer [] (buf_capacity buf).


(* ================================================================== *)
(** * Definitions the properties are stated with *)

(** The integers below [k], in order. *)
Definition zrange (k : nat) : list Z := map Z.of_nat (seq 0 k).

(** What decoding needs of the first byte of a VINT of [n] bytes whose
    leading data bits are [x]: the length is read back and the mask leaves
    the data bits. *)
Definition first_byte_ok (n x : Z) : bool :=
  let b := to_uint8 (Z.lor (Z.land x 0xFF) (Z.shiftr 0x80 (n - 1))) in
  (ebml_vint_length b =? n) && (Z.land b (Z.shiftr 0xFF n) =? x).

(** The specification's size of a signed integer: the least number of bytes,
    from 1 to 8, whose two's complement range holds [v]. *)
Definition min_int_size (v : Z) : Z :=
  if (- 2 ^ 7 <=? v) && (v <? 2 ^ 7) then 1
  else if (- 2 ^ 15 <=? v) && (v <? 2 ^ 15) then 2
  else if (- 2 ^ 23 <=? v) && (v <? 2 ^ 23) then 3
  else if (- 2 ^ 31 <=? v) && (v <? 2 ^ 31) then 4
  else if (- 2 ^ 39 <=? v) && (v <? 2 ^ 39) then 5
  else if (- 2 ^ 47 <=? v) && (v <? 2 ^ 47) then 6
  else if (- 2 ^ 55 <=? v) && (v <? 2 ^ 55) then 7
  else 8.

(** ** The bytes of an element, as a function of its content *)

Definition id_bytes (i : Z) : list Z := store_be (Z.to_nat (ebml_id_size i)) i.

Definition vint_bytes (n : Z) : list Z :=
  or_first (Z.shiftr 0x80 (ebml_vint_size n - 1))
           (store_be (Z.to_nat (ebml_vint_size n)) n).

Definition element_bytes (i : Z) (content : list Z) : list Z :=
  id_bytes i ++ vint_bytes (zlen content) ++ content.

(** The content of an unsigned integer element: at least one byte. *)
Definition uint_bytes (v : Z) : list Z :=
  store_be (Z.to_nat (if uint_data_size v =? 0 then 1 else uint_data_size v)) v.

Definition opt_string_bytes (i : Z) (s : option cstring) : list Z :=
  match s with
  | Some x => element_bytes i x
  | None => []
  end.

Definition opt_binary_bytes (i : Z) (b : option (list Z)) : list Z :=
  match b with
  | Some x => if 0 <? zlen x then element_bytes i x else []
  | None => []
  end.

Fixpoint simple_tag_content (st : mkvtag_simple_tag) : list Z :=
  opt_string_bytes MKV_ID_TAG_NAME (st_name st)
  ++ opt_string_bytes MKV_ID_TAG_LANGUAGE (st_language st)
  ++ (if st_is_default st =? 0 then element_bytes MKV_ID_TAG_DEFAULT (uint_bytes 0) else [])
  ++ opt_string_bytes MKV_ID_TAG_STRING (st_value st)
  ++ opt_binary_bytes MKV_ID_TAG_BINARY (st_binary st)
  ++ concat (map (fun n => element_bytes MKV_ID_SIMPLE_TAG (simple_tag_content n))
                 (st_nested st)).

Definition simple_tag_bytes (st : mkvtag_simple_tag) : list Z :=
  element_bytes MKV_ID_SIMPLE_TAG (simple_tag_content st).

Definition uids_bytes (i : Z) (uids : list Z) : list Z :=
  concat (map (fun u => element_bytes i (uint_bytes u)) uids).

Definition targets_content (t : mkvtag_tag) : list Z :=
  element_bytes MKV_ID_TARGET_TYPE_VALUE (uint_bytes (wrap64 (target_type t)))
  ++ opt_string_bytes MKV_ID_TARGET_TYPE (target_type_str t)
  ++ uids_bytes MKV_ID_TAG_TRACK_UID (track_uids t)
  ++ uids_bytes MKV_ID_TAG_EDITION_UID (edition_uids t)
  ++ uids_bytes MKV_ID_TAG_CHAPTER_UID (chapter_uids t)
  ++ uids_bytes MKV_ID_TAG_ATTACHMENT_UID (attachment_uids t).

Definition tag_content (t : mkvtag_tag) : list Z :=
  element_bytes MKV_ID_TARGETS (targets_content t)
  ++ concat (map simple_tag_bytes (simple_tags t)).

Definition tag_bytes (t : mkvtag_tag) : list Z :=
  element_bytes MKV_ID_TAG (tag_content t).

Definition collection_bytes (c : mkvtag_collection) : list Z :=
  concat (map tag_bytes (tags c)).

(** A size a VINT can hold. *)
Definition fits_vint (n : Z) : bool := n <=? EBML_VINT_MAX_8.

(** Every size the serializer has to write for the tag fits a VINT. *)
Definition tag_fits (t : mkvtag_tag) : bool :=
  fits_vint (zlen (tag_content t)).

Definition collection_fits (c : mkvtag_collection) : bool :=
  forallb tag_fits (tags c).

(** A collection with a simple tag, at any depth, whose name is NULL or
    empty. *)
Fixpoint simple_tag_nameless (st : mkvtag_simple_tag) : bool :=
  match st_name st with
  | None => true
  | Some [] => true
  | Some _ => existsb simple_tag_nameless (st_nested st)
  end.

Definition collection_nameless (c : mkvtag_collection) : bool :=
  existsb (fun t => existsb simple_tag_nameless (simple_tags t)) (tags c).

(** The size of an optional string, or of an optional binary value, fits. *)
Definition opt_string_fits (s : option cstring) : bool :=
  match s with
  | Some x => fits_vint (zlen x)
  | None => true
  end.

Definition opt_binary_fits (b : option (list Z)) : bool :=
  match b with
  | Some x => if 0 <? zlen x then fits_vint (zlen x) else true
  | None => true
  end.

(** ** Sample files

    The files of the examples are built the way the test suite of the
    repository builds its files: an EBML header, then a Segment of known
    size holding the children given. *)

Definition bytes_of (r : result (list Z)) : list Z :=
  match r with
  | Ok b => b
  | Err _ => []
  end.

(** An element with the given content. *)
Definition master (i : Z) (content : list Z) : list Z :=
  bytes_of (ebml_write_master_element_header [] i (zlen content)) ++ content.

Definition MKV_ID_TIMECODE_SCALE : Z := 0x2AD7B1.
Definition MKV_ID_MUXING_APP : Z := 0x4D80.
Definition MKV_ID_WRITING_APP : Z := 0x5741.

Definition str_test : cstring := [116; 101; 115; 116].

Definition sample_ebml_header : list Z :=
  let c := bytes_of (ebml_write_uint_element [] EBML_ID_VERSION 1) in
  let c := bytes_of (ebml_write_uint_element c EBML_ID_READ_VERSION 1) in
  let c := bytes_of (ebml_write_uint_element c EBML_ID_MAX_ID_LENGTH 4) in
  let c := bytes_of (ebml_write_uint_element c EBML_ID_MAX_SIZE_LENGTH 8) in
  let c := bytes_of (ebml_write_string_element c EBML_ID_DOCTYPE (Some str_matroska)) in
  let c := bytes_of (ebml_write_uint_element c EBML_ID_DOCTYPE_VERSION 4) in
  let c := bytes_of (ebml_write_uint_element c EBML_ID_DOCTYPE_READ_VER 2) in
  master EBML_ID_EBML c.

Definition sample_info : list Z :=
  let c := bytes_of (ebml_write_uint_element [] MKV_ID_TIMECODE_SCALE 1000000) in
  let c := bytes_of (ebml_write_string_element c MKV_ID_MUXING_APP (Some str_test)) in
  let c := bytes_of (ebml_write_string_element c MKV_ID_WRITING_APP (Some str_test)) in
  master MKV_ID_INFO c.

Definition sample_void (total_size : Z) : list Z :=
  bytes_of (ebml_write_void_element [] total_size).

Definition sample_file (segment_content : list Z) : list Z :=
  sample_ebml_header ++ master MKV_ID_SEGMENT segment_content.

(** A Tags element holding the collection. *)
Definition sample_tags (c : mkvtag_collection) : list Z :=
  bytes_of (build_tags_element c).

(** A SeekHead with one Seek entry per pair of an ID and a position. *)
Definition sample_seekhead (entries : list (Z * Z)) : list Z :=
  master MKV_ID_SEEKHEAD
    (fold_left (fun buf e => bytes_of (mkv_seekhead_build_entry buf (fst e) (snd e)))
               entries []).

(** The context [mkvtag_open_rw] gives on a file with that content. *)
Definition opened_rw (content : list Z) : mkvtag_context :=
  match mkvtag_open_rw (S (length content)) mkvtag_create (Some content) with
  | Done (_, ctx) => ctx
  | _ => mkvtag_create
  end.

Definition str_TITLE : cstring := [84; 73; 84; 76; 69].
Definition str_ARTIST : cstring := [65; 82; 84; 73; 83; 84].
Definition str_old : cstring := [111; 108; 100].
Definition str_new : cstring := [110; 101; 119].

(** A collection of one album-level tag with one simple tag. *)
Definition one_tag_collection (name value : cstring) : mkvtag_collection :=
  mk_collection [mk_tag 50 None [] [] [] [] [new_simple_tag name (Some value)]] 1.

(** The file of the counterexample to C6: its SeekHead says the Tags element
    is at position 1000 of the Segment, past the end of the file; the
    Segment also holds an Info element and a Void of 64 bytes. *)
Definition file_stale_seekhead : list Z :=
  sample_file (sample_seekhead [(MKV_ID_TAGS, 1000)] ++ sample_info ++ sample_void 64).

(** The context after opening [file_stale_seekhead], the collection written
    to it and the context Strategy 1 leaves. *)
Definition stale_ctx : mkvtag_context := opened_rw file_stale_seekhead.
Definition stale_tags : mkvtag_collection := one_tag_collection str_TITLE str_new.
Definition stale_after_strategy1 : mkvtag_context :=
  match try_replace_existing_tags 200 (set_cached_tags stale_ctx None) stale_tags with
  | Done (_, c) => c
  | _ => stale_ctx
  end.

(** A file whose Tags element holds one album-level tag with the simple tag
    ARTIST = old and no simple tag named TITLE, followed by a Void of 64
    bytes; and the context after opening it. *)
Definition file_with_artist : list Z :=
  sample_file (sample_info ++ sample_tags (one_tag_collection str_ARTIST str_old)
               ++ sample_void 64).
Definition artist_ctx : mkvtag_context := opened_rw file_with_artist.

(** A file whose SeekHead has two entries for the Tags element, the first
    one stale (position 1000 of the Segment) and the second one right
    (position 60): the Segment holds the SeekHead (34 bytes), an Info element
    (26 bytes), the Tags element (32 bytes, at position 106 of the file) and
    a Void of 64 bytes.  The context after opening it, the collection
    written to it, and the header and the slot Strategy 1 finds. *)
Definition file_two_tags_entries : list Z :=
  sample_file (sample_seekhead [(MKV_ID_TAGS, 1000); (MKV_ID_TAGS, 60)] ++ sample_info
               ++ sample_tags (one_tag_collection str_TITLE str_old) ++ sample_void 64).
Definition two_entries_ctx : mkvtag_context := opened_rw file_two_tags_entries.
Definition two_entries_header : result ebml_element * file_handle :=
  ebml_read_element_header (set_pos (file two_entries_ctx) 106).
Definition two_entries_element : ebml_element :=
  mk_element MKV_ID_TAGS 27 111 138 1 4 false.

(** ** The order of simple tags *)

(** The simple tag, the tag and the collection with every list of simple
    tags, nested ones too, in the opposite order. *)
Fixpoint mirror_simple_tag (st : mkvtag_simple_tag) : mkvtag_simple_tag :=
  mk_simple_tag (st_name st) (st_value st) (st_binary st) (st_language st)
                (st_is_default st) (rev (map mirror_simple_tag (st_nested st))).

Definition mirror_tag (t : mkvtag_tag) : mkvtag_tag :=
  mk_tag (target_type t) (target_type_str t) (track_uids t) (edition_uids t)
         (chapter_uids t) (attachment_uids t)
         (rev (map mirror_simple_tag (simple_tags t))).

Definition mirror_collection (c : mkvtag_collection) : mkvtag_collection :=
  mk_collection (map mirror_tag (tags c)) (count c).

Definition str_a : cstring := [97].
Definition str_b : cstring := [98].

(** One album-level tag with the simple tags TITLE = old and ARTIST = new, in
    that order, the second with the nested simple tags a = a and b = b, in
    that order; and a handle at the start of the Tags element written for
    it. *)
Definition ordered_collection : mkvtag_collection :=
  mk_collection
    [mk_tag 50 None [] [] [] []
       [new_simple_tag str_TITLE (Some str_old);
        mk_simple_tag (Some str_ARTIST) (Some str_new) None None 1
          [new_simple_tag str_a (Some str_a); new_simple_tag str_b (Some str_b)]]] 1.
Definition ordered_handle : file_handle := mk_file (sample_tags ordered_collection) 0 false.
Definition ordered_element : ebml_element := mk_element MKV_ID_TAGS 67 5 72 1 4 false.

(** The names of the simple tags of each tag, and of the nested simple tags
    of each simple tag of each tag. *)
Definition simple_tag_names (c : mkvtag_collection) : list (list (option cstring)) :=
  map (fun t => map st_name (simple_tags t)) (tags c).
Definition nested_names (c : mkvtag_collection) : list (list (list (option cstring))) :=
  map (fun t => map (fun s => map st_name (st_nested s)) (simple_tags t)) (tags c).

(** ** Files for the calls by name *)

(** A file whose Tags element holds one track-level tag (target type 30,
    track UID 1) with the simple tag TITLE = old, followed by a Void of 64
    bytes; and the context after opening it. *)
Definition track_title_collection : mkvtag_collection :=
  mk_collection [mk_tag 30 None [1] [] [] [] [new_simple_tag str_TITLE (Some str_old)]] 1.
Definition file_track_title : list Z :=
  sample_file (sample_info ++ sample_tags track_title_collection ++ sample_void 64).
Definition track_title_ctx : mkvtag_context := opened_rw file_track_title.

(** A file whose Tags element holds one album-level tag with a UID of each
    of the four kinds and two simple tags: TITLE = old, not default, with a
    nested simple tag a = a, and b with the binary payload 1 2 3; followed by
    a Void of 64 bytes.  The context after opening it, and the collection
    [mkv_tags_parse] reads from it. *)
Definition rich_collection : mkvtag_collection :=
  mk_collection
    [mk_tag 50 None [5] [7] [8] [9]
       [mk_simple_tag (Some str_TITLE) (Some str_old) None None 0
          [new_simple_tag str_a (Some str_a)];
        mk_simple_tag (Some str_b) None (Some [1; 2; 3]) None 1 []]] 1.
Definition file_rich : list Z :=
  sample_file (sample_info ++ sample_tags rich_collection ++ sample_void 64).
Definition rich_ctx : mkvtag_context := opened_rw file_rich.
Definition rich_parsed : mkvtag_collection := mirror_collection rich_collection.

(** What is left of [rich_collection] in the file after ARTIST = new was
    set. *)
Definition rich_after : mkvtag_collection :=
  mk_collection
    [mk_tag 50 None [5] [] [] []
       [new_simple_tag str_ARTIST (Some str_new);
        new_simple_tag str_TITLE (Some str_old);
        new_simple_tag str_b None]] 1.

(** The contexts after TITLE = new was set in [track_title_ctx] and after
    ARTIST = new was set in [rich_ctx]. *)
Definition track_title_after_set : mkvtag_context :=
  match mkvtag_set_tag_string 300 track_title_ctx (Some str_TITLE) (Some str_new) with
  | Done (_, c) => c
  | _ => track_title_ctx
  end.
Definition rich_after_set : mkvtag_context :=
  match mkvtag_set_tag_string 300 rich_ctx (Some str_ARTIST) (Some str_new) with
  | Done (_, c) => c
  | _ => rich_ctx
  end.

(** A simple tag as [mkvtag_tag_add_simple] leaves it: no binary payload,
    default, no nested simple tag. *)
Definition simple_tag_plain (s : mkvtag_simple_tag) : bool :=
  match st_binary s, st_nested s with
  | None, [] => st_is_default s =? 1
  | _, _ => false
  end.

(** A tag with no edition, chapter or attachment UID and plain simple tags
    only. *)
Definition tag_plain (t : mkvtag_tag) : bool :=
  match edition_uids t, chapter_uids t, attachment_uids t with
  | [], [], [] => forallb simple_tag_plain (simple_tags t)
  | _, _, _ => false
  end.

(** ** Reading the bytes that were written *)

(** The file content [d] has the bytes [bs] from position [p] on. *)
Definition holds (d : list Z) (p : Z) (bs : list Z) : Prop :=
  0 <= p /\ firstn (length bs) (skipn (Z.to_nat p) d) = bs.

(** An ID the reader reads back from the bytes [ebml_id_encode] writes for
    it: the first byte tells their number and decoding gives the ID. *)
Definition id_ok (i : Z) : bool :=
  (ebml_vint_length (hd 0 (id_bytes i)) =? ebml_id_size i)
  && match ebml_id_decode (id_bytes i) with
     | Ok (v, n) => (v =? i) && (n =? ebml_id_size i)
     | Err _ => false
     end.

(** The size of the header of an element and the element the reader finds
    at position [p], where [element_bytes i content] starts. *)
Definition header_size (i : Z) (content : list Z) : Z :=
  ebml_id_size i + ebml_vint_size (zlen content).

Definition element_at (i : Z) (content : list Z) (p : Z) : ebml_element :=
  mk_element i (zlen content) (p + header_size i content)
             (p + header_size i content + zlen content)
             (ebml_vint_size (zlen content)) (ebml_id_size i) false.

(** ** The children of an element, as items *)

(** What the serializer writes as a child of a master element. *)
Inductive item : Type :=
| IUint (i v : Z)
| IString (i : Z) (s : cstring)
| IBinary (i : Z) (b : list Z)
| ISimple (st : mkvtag_simple_tag)
| ITargets (t : mkvtag_tag)
| ITag (t : mkvtag_tag).

Definition item_id (x : item) : Z :=
  match x with
  | IUint i _ => i
  | IString i _ => i
  | IBinary i _ => i
  | ISimple _ => MKV_ID_SIMPLE_TAG
  | ITargets _ => MKV_ID_TARGETS
  | ITag _ => MKV_ID_TAG
  end.

Definition item_content (x : item) : list Z :=
  match x with
  | IUint _ v => uint_bytes v
  | IString _ s => s
  | IBinary _ b => b
  | ISimple st => simple_tag_content st
  | ITargets t => targets_content t
  | ITag t => tag_content t
  end.

Definition item_bytes (x : item) : list Z := element_bytes (item_id x) (item_content x).

Definition items_bytes (xs : list item) : list Z := concat (map item_bytes xs).

(** The body of a loop reads the item [x] wherever it is in the file [d]:
    run on the element the reader finds there, it makes the step [step] and
    leaves the handle at the end of the element. *)
Definition item_read {St : Type}
    (body : ebml_element -> St -> file_handle -> outcome (loop_ctl St * file_handle))
    (step : St -> item -> St) (d : list Z) (w : bool) (x : item) : Prop :=
  id_ok (item_id x) = true
  /\ fits_vint (zlen (item_content x)) = true
  /\ forall p s,
       holds d p (item_bytes x) ->
       body (element_at (item_id x) (item_content x) p) s
            (mk_file d (p + header_size (item_id x) (item_content x)) w)
       = Done (Continue (step s x), mk_file d (p + zlen (item_bytes x)) w).

Definition opt_item (i : Z) (s : option cstring) : list item :=
  match s with
  | Some x => [IString i x]
  | None => []
  end.

Definition targets_items (t : mkvtag_tag) : list item :=
  [IUint MKV_ID_TARGET_TYPE_VALUE (wrap64 (target_type t))]
  ++ opt_item MKV_ID_TARGET_TYPE (target_type_str t)
  ++ map (IUint MKV_ID_TAG_TRACK_UID) (track_uids t)
  ++ map (IUint MKV_ID_TAG_EDITION_UID) (edition_uids t)
  ++ map (IUint MKV_ID_TAG_CHAPTER_UID) (chapter_uids t)
  ++ map (IUint MKV_ID_TAG_ATTACHMENT_UID) (attachment_uids t).

Definition simple_tag_items (st : mkvtag_simple_tag) : list item :=
  opt_item MKV_ID_TAG_NAME (st_name st)
  ++ opt_item MKV_ID_TAG_LANGUAGE (st_language st)
  ++ (if st_is_default st =? 0 then [IUint MKV_ID_TAG_DEFAULT 0] else [])
  ++ opt_item MKV_ID_TAG_STRING (st_value st)
  ++ match st_binary st with
     | Some b => if 0 <? zlen b then [IBinary MKV_ID_TAG_BINARY b] else []
     | None => []
     end
  ++ map ISimple (st_nested st).

Definition tag_items (t : mkvtag_tag) : list item :=
  ITargets t :: map ISimple (simple_tags t).

(** The steps of the four loops of the parser, as functions of the item
    read. *)
Definition targets_step (tag : mkvtag_tag) (x : item) : mkvtag_tag :=
  match x with
  | IUint i v =>
      if i =? MKV_ID_TARGET_TYPE_VALUE then set_target_type tag (to_uint32 v)
      else if i =? MKV_ID_TAG_TRACK_UID then set_track_uids tag (track_uids tag ++ [v])
      else if i =? MKV_ID_TAG_EDITION_UID then set_edition_uids tag (edition_uids tag ++ [v])
      else if i =? MKV_ID_TAG_CHAPTER_UID then set_chapter_uids tag (chapter_uids tag ++ [v])
      else if i =? MKV_ID_TAG_ATTACHMENT_UID
           then set_attachment_uids tag (attachment_uids tag ++ [v])
      else tag
  | IString i s =>
      if i =? MKV_ID_TARGET_TYPE then set_target_type_str tag (Some s) else tag
  | _ => tag
  end.

Definition simple_step (stag : mkvtag_simple_tag) (x : item) : mkvtag_simple_tag :=
  match x with
  | IString i s =>
      if i =? MKV_ID_TAG_NAME then set_name stag (Some s)
      else if i =? MKV_ID_TAG_STRING then set_value stag (Some s)
      else if i =? MKV_ID_TAG_LANGUAGE then set_language stag (Some s)
      else stag
  | IBinary i b => if i =? MKV_ID_TAG_BINARY then set_binary stag (Some b) else stag
  | IUint i v => if i =? MKV_ID_TAG_DEFAULT then set_is_default stag (to_int32 v) else stag
  | ISimple n => set_nested stag (mirror_simple_tag n :: st_nested stag)
  | _ => stag
  end.

Definition tag_step (tag : mkvtag_tag) (x : item) : mkvtag_tag :=
  match x with
  | ITargets t =>
      fold_left targets_step (targets_items t) (set_target_type tag MKVTAG_TARGET_ALBUM)
  | ISimple s => set_simple_tags tag (mirror_simple_tag s :: simple_tags tag)
  | _ => tag
  end.

Definition collection_step (coll : mkvtag_collection) (x : item) : mkvtag_collection :=
  match x with
  | ITag t => mk_collection (tags coll ++ [mirror_tag t]) (count coll + 1)
  | _ => coll
  end.

(** ** Collections the parser reads back *)

(** A C string: no NUL among its characters. *)
Definition string_ok (s : cstring) : bool := forallb (fun c => negb (c =? 0)) s.

Definition opt_string_ok (s : option cstring) : bool :=
  match s with
  | Some x => string_ok x
  | None => true
  end.

(** A simple tag the parser reads back: its strings are C strings, its
    binary payload is absent or not empty, [is_default] is 0 or 1, and so
    for its nested simple tags. *)
Fixpoint simple_tag_valid (st : mkvtag_simple_tag) : bool :=
  opt_string_ok (st_name st) && opt_string_ok (st_value st)
  && opt_string_ok (st_language st)
  && match st_binary st with
     | Some b => 0 <? zlen b
     | None => true
     end
  && ((st_is_default st =? 0) || (st_is_default st =? 1))
  && forallb simple_tag_valid (st_nested st).

(** A UID is a [uint64_t]. *)
Definition uid_ok (u : Z) : bool := (0 <=? u) && (u <? 2 ^ 64).

(** A tag the parser reads back: the target type is a value of the
    enumeration, the UIDs are [uint64_t] values, the strings are C strings
    and the simple tags are valid. *)
Definition tag_valid (t : mkvtag_tag) : bool :=
  (0 <=? target_type t) && (target_type t <? 2 ^ 32)
  && opt_string_ok (target_type_str t)
  && forallb uid_ok (track_uids t) && forallb uid_ok (edition_uids t)
  && forallb uid_ok (chapter_uids t) && forallb uid_ok (attachment_uids t)
  && forallb simple_tag_valid (simple_tags t).

(** A collection the parser reads back: [count] is the number of tags, the
    tags are valid and every size fits a VINT. *)
Definition collection_valid (c : mkvtag_collection) : bool :=
  (count c =? zlen (tags c)) && forallb tag_valid (tags c) && collection_fits c.

(** [parse_simple_tag] reads the simple tag [n] back, mirrored, wherever it
    is in [d]. *)
Definition simple_tag_read (fuel : nat) (d : list Z) (w : bool) (n : mkvtag_simple_tag)
  : Prop :=
  forall p q,
    holds d p (simple_tag_bytes n) ->
    parse_simple_tag fuel (mk_file d q w) (element_at MKV_ID_SIMPLE_TAG (simple_tag_content n) p)
    = Done (Some (mirror_simple_tag n), mk_file d (p + zlen (simple_tag_bytes n)) w).
(* ------------------------------------------------------------------ *)
(** * Properties of runs: files, fuel, codes *)


(** [h'] is [h] at another position. *)
Definition same_file (h h' : file_handle) : Prop :=
  fh_data h' = fh_data h /\ fh_writable h' = fh_writable h.

(** A run that ended: the same run with more fuel ends the same way. *)
Definition ended {A} (o : outcome A) : Prop := o <> OutOfFuel.

(** [f] gives, for every fuel from [n] on, the outcome it gives at [n]. *)
Definition stable_from {A} (f : nat -> outcome A) (n : nat) : Prop :=
  forall m, (n <= m)%nat -> f m = f n.

(** Once [f] ends, more fuel gives the same outcome. *)
Definition monotone {A} (f : nat -> outcome A) : Prop :=
  forall n m, (n <= m)%nat -> ended (f n) -> f m = f n.

(** The body, run after the header of a child was read, ends with the file
    unchanged and not before the content of the child. *)
Definition body_lands {St : Type}
    (body : ebml_element -> St -> file_handle -> outcome (loop_ctl St * file_handle))
    (h0 : file_handle) (from : Z) : Prop :=
  forall child s h1,
    same_file h0 h1 ->
    fh_pos h1 = data_offset child ->
    from + 2 <= data_offset child <= file_size h0 ->
    0 <= size child ->
    end_offset child = (if is_unknown_size child then file_size h0
                        else data_offset child + size child) ->
    exists c h2, body child s h1 = Done (c, h2)
                 /\ same_file h0 h2 /\ data_offset child <= fh_pos h2.


(** The handle is not before the content of the child. *)
Definition past (child : ebml_element) (h : file_handle) : Prop :=
  data_offset child <= fh_pos h.

(** A reader leaves the same file, not before the content of the child when
    it started there. *)
Definition lands (child : ebml_element) (h h' : file_handle) : Prop :=
  same_file h h' /\ (past child h -> past child h').


(** The bytes left from [p] to the end of the file. *)
Definition rest_from (h : file_handle) (p : Z) : nat := Z.to_nat (file_size h - p).

(** What is known of a child whose header was read. *)
Definition child_shape (h0 : file_handle) (child : ebml_element) : Prop :=
  0 <= size child
  /\ end_offset child = (if is_unknown_size child then file_size h0
                         else data_offset child + size child).

(** The body of the loop of [parse_simple_tag], with the fuel of the nested
    calls. *)
Definition simple_tag_child (fuel : nat) (child : ebml_element) (stag : mkvtag_simple_tag)
    (h : file_handle) : outcome (loop_ctl mkvtag_simple_tag * file_handle) :=
  '(stag1, h1) <~
    (if id child =? MKV_ID_SIMPLE_TAG then
       '(nested, h1) <~ parse_simple_tag fuel h child ;;
       match nested with
       | Some n => Done (set_nested stag (n :: st_nested stag), h1)
       | None => Done (stag, h1)
       end
     else Done (parse_simple_tag_leaf child stag h)) ;;
  Done (Continue stag1, snd (ebml_skip_element h1 child)).

(** The outcome of [f] does not depend on the fuel once the run ends, and
    some fuel is enough for it to end. *)
Definition settles {A} (f : nat -> outcome A) : Prop :=
  monotone f /\ exists n, ended (f n).

(** A code other than TagNotFound. *)
Definition not_tag_not_found (e : mkvtag_error) : Prop := e <> MKVTAG_ERR_TAG_NOT_FOUND.

(** [data] with the bytes [bs] written over it from position [p]. *)
Definition patch (data : list Z) (p : Z) (bs : list Z) : list Z :=
  firstn (Z.to_nat p) data ++ bs ++ skipn (Z.to_nat p + length bs) data.

(** ** Proof tools *)

(** ** Induction over simple tags and their nested tags *)

Section SimpleTagInduction.
Variable P : mkvtag_simple_tag -> Prop.
Hypothesis step :
  forall n v b l d nested, Forall P nested -> P (mk_simple_tag n v b l d nested).

Fixpoint simple_tag_induction (st : mkvtag_simple_tag) : P st :=
  match st with
  | mk_simple_tag n v b l d nested =>
      step n v b l d nested
        ((fix all (ts : list mkvtag_simple_tag) : Forall P ts :=
            match ts with
            | [] => Forall_nil P
            | t :: rest => Forall_cons t (simple_tag_induction t) (all rest)
            end) nested)
  end.
End SimpleTagInduction.

(** [serialize_simple_tag] on [st] is its closed form. *)
Definition simple_tag_closed (st : mkvtag_simple_tag) : Prop :=
  forall buf,
    serialize_simple_tag st buf =
    if fits_vint (zlen (simple_tag_content st)) then Ok (buf ++ simple_tag_bytes st)
    else Err MKVTAG_ERR_VINT_OVERFLOW.

(** Comparisons that arithmetic decides. *)
Ltac decide_cmp :=
  repeat match goal with
         | |- context [?a <=? ?b] =>
             first [ rewrite (proj2 (Z.leb_le a b)) by lia
                   | rewrite (proj2 (Z.leb_gt a b)) by lia ]
         | |- context [?a <? ?b] =>
             first [ rewrite (proj2 (Z.ltb_lt a b)) by lia
                   | rewrite (proj2 (Z.ltb_ge a b)) by lia ]
         | |- context [?a =? ?b] =>
             first [ rewrite (proj2 (Z.eqb_eq a b)) by lia
                   | rewrite (proj2 (Z.eqb_neq a b)) by lia ]
         end.


(** Tests on IDs that are known. *)
Ltac id_tests :=
  repeat match goal with
         | |- context [?a =? ?b] =>
             let r := eval vm_compute in (a =? b) in
             match r with
             | true => change (a =? b) with true
             | false => change (a =? b) with false
             end
         end;
  cbn [orb andb]; cbv iota.

(** * Definitions the further properties are stated with *)

(** The IDs whose leading bits tell their length: the four ranges of the
    EBML ID classes. *)
Definition id_class (i : Z) : bool :=
  ((0x80 <=? i) && (i <=? 0xFF)) || ((0x4000 <=? i) && (i <=? 0x7FFF))
  || ((0x200000 <=? i) && (i <=? 0x3FFFFF)) || ((0x10000000 <=? i) && (i <=? 0x1FFFFFFF)).

(** The length [ebml_vint_length] reads off a byte, by the position of its
    leading bit. *)
Definition length_by_range (b : Z) : Z :=
  if 128 <=? b then 1 else if 64 <=? b then 2 else if 32 <=? b then 3
  else if 16 <=? b then 4 else if 8 <=? b then 5 else if 4 <=? b then 6
  else if 2 <=? b then 7 else if 1 <=? b then 8 else 0.

(** What encoding back needs of a first byte [b]: the marker put over its
    data bits gives [b]. *)
Definition first_byte_back (b : Z) : bool :=
  let n := ebml_vint_length b in
  (n =? 0)
  || (to_uint8 (Z.lor (Z.land (Z.land b (Z.shiftr 0xFF n)) 0xFF) (Z.shiftr 0x80 (n - 1))) =? b).

(** The data bits of a first byte [b] lie below the marker. *)
Definition data_bits_ok (b : Z) : bool :=
  let n := ebml_vint_length b in
  (0 <=? Z.land b (Z.shiftr 0xFF n)) && (Z.land b (Z.shiftr 0xFF n) <? 2 ^ (8 - n)).

(** The content of a signed integer element. *)
Definition int_bytes (v : Z) : list Z :=
  store_be (Z.to_nat (int_data_size v)) (wrap64 v).

(** The name of the title tag in lower case. *)
Definition str_title : cstring := [116; 105; 116; 108; 101].

(** The simple tags of the album-level tags of a list of tags, in order. *)
Definition album_simple_tags (l : list mkvtag_tag) : list mkvtag_simple_tag :=
  flat_map simple_tags (filter (fun t => target_type t =? MKVTAG_TARGET_ALBUM) l).

(** What the copy keeps of a simple tag. *)
Definition kept (s : mkvtag_simple_tag) : cstring * option cstring * option cstring :=
  (name_or_empty s, st_value s, st_language s).

(** The simple tags of [t] that setting or removing [name] leaves alone. *)
Definition other_than (name : cstring) (t : mkvtag_tag) (s : mkvtag_simple_tag) : bool :=
  negb ((target_type t =? MKVTAG_TARGET_ALBUM) && name_matches s name).

(** The copy of a simple tag that is not replaced. *)
Definition plain_copy (s : mkvtag_simple_tag) : mkvtag_simple_tag :=
  let new_stag := new_simple_tag (name_or_empty s) (st_value s) in
  match st_language s with
  | Some l => set_language new_stag (Some l)
  | None => new_stag
  end.

(** What one turn of the copy loop adds. *)
Definition copy_one (album : bool) (name : cstring) (value : option cstring)
    (s : mkvtag_simple_tag) : list mkvtag_simple_tag :=
  if album && name_matches s name then
    match value with
    | None => []
    | Some _ => [new_simple_tag name value]
    end
  else [plain_copy s].

(** What setting or removing [name] keeps of the tag [t] in its copy [t']:
    the target and, in order, the simple tags it leaves alone. *)
Definition copy_keeps (name : cstring) (t t' : mkvtag_tag) : Prop :=
  target_type t' = target_type t
  /\ target_type_str t' = target_type_str t
  /\ track_uids t' = track_uids t
  /\ map kept (filter (other_than name t) (simple_tags t'))
     = map kept (filter (other_than name t) (simple_tags t)).

(** A file whose Segment holds an Info element and a Void of 64 bytes, with
    no Tags element and no SeekHead; the context after opening it, after
    writing the collection TITLE = new to it, and after setting TITLE = new
    in it. *)
Definition file_fresh : list Z := sample_file (sample_info ++ sample_void 64).

Definition fresh_ctx : mkvtag_context := opened_rw file_fresh.

Definition fresh_after_write : mkvtag_context :=
  match mkvtag_write_tags 200 fresh_ctx (Some (Built (one_tag_collection str_TITLE str_new))) with
  | Done (_, c) => c
  | _ => fresh_ctx
  end.

Definition fresh_after_set : mkvtag_context :=
  match mkvtag_set_tag_string 200 fresh_ctx (Some str_TITLE) (Some str_new) with
  | Done (_, c) => c
  | _ => fresh_ctx
  end.

(** What the scan of the Segment and of the SeekHead keeps of the record:
    the document type, the place of the Segment and the bound of the
    cache. *)
Definition structure_kept (m0 m : mkv_file) : Prop :=
  doctype m = doctype m0
  /\ segment_offset m = segment_offset m0
  /\ segment_data_offset m = segment_data_offset m0
  /\ (zlen (elements m0) <= MKV_MAX_CACHED_ELEMENTS ->
      zlen (elements m) <= MKV_MAX_CACHED_ELEMENTS).

(** Elements one after the other, each given by its ID and its content. *)
Definition elements_bytes (l : list (Z * list Z)) : list Z :=
  concat (map (fun x => element_bytes (fst x) (snd x)) l).

(** The first element of the list with the ID [target], and the elements
    before it. *)
Fixpoint first_with (target : Z) (l : list (Z * list Z))
  : option (list (Z * list Z) * (Z * list Z)) :=
  match l with
  | [] => None
  | x :: rest =>
      if fst x =? target then Some ([], x)
      else match first_with target rest with
           | Some (before, y) => Some (x :: before, y)
           | None => None
           end
  end.

(** An element the reader reads back. *)
Definition element_ok (x : Z * list Z) : Prop :=
  0 < fst x < 2 ^ 32 /\ id_class (fst x) = true /\ zlen (snd x) <= 2 ^ 56 - 2.

(** The step of the loop over a Seek entry in [mkv_parse_seekhead], as a
    function of the item read. *)
Definition seek_step (st : Z * Z) (x : item) : Z * Z :=
  match x with
  | IBinary i b =>
      if i =? MKV_ID_SEEK_ID then
        if (0 <? zlen b) && (zlen b <=? 4) then (raw_id b, snd st) else st
      else st
  | IUint i v => if i =? MKV_ID_SEEK_POSITION then (fst st, v) else st
  | _ => st
  end.

(** The children of the Seek entry for the element [i] at the position
    [pos] of the Segment. *)
Definition seek_entry_items (i pos : Z) : list item :=
  [IBinary MKV_ID_SEEK_ID (id_bytes i); IUint MKV_ID_SEEK_POSITION pos].

(** [ctx'] has the flags and the cache of [ctx]. *)
Definition same_flags (ctx ctx' : mkvtag_context) : Prop :=
  is_open ctx' = is_open ctx /\ is_writable ctx' = is_writable ctx
  /\ cached_tags ctx' = cached_tags ctx.


(** What a context keeps when only its handle moved or its cache changed. *)
Definition file_kept (ctx ctx' : mkvtag_context) : Prop :=
  fh_data (file ctx') = fh_data (file ctx)
  /\ fh_writable (file ctx') = fh_writable (file ctx)
  /\ mkv ctx' = mkv ctx
  /\ is_open ctx' = is_open ctx
  /\ is_writable ctx' = is_writable ctx.

(* ================================================================== *)
(** * Properties *)

(** ** Bytes and machine integers *)

Lemma wrap64_small z : 0 <= z < 2 ^ 64 -> wrap64 z = z.
Proof. intros H. unfold wrap64. apply Z.mod_small. exact H. Qed.

Lemma zlen_nonneg {A} (l : list A) : 0 <= zlen l.
Proof. unfold zlen. lia. Qed.

Lemma zlen_app {A} (l1 l2 : list A) : zlen (l1 ++ l2) = zlen l1 + zlen l2.
Proof. unfold zlen. rewrite length_app. lia. Qed.

Lemma zlen_cons {A} (x : A) (l : list A) : zlen (x :: l) = 1 + zlen l.
Proof. unfold zlen. cbn [length]. lia. Qed.

Lemma zlen_nil {A} : zlen (@nil A) = 0.
Proof. reflexivity. Qed.

Lemma lor_shift_byte r b :
  0 <= r -> 0 <= b < 256 -> Z.lor (Z.shiftl r 8) b = r * 256 + b.
Proof.
  intros Hr Hb.
  rewrite Z.shiftl_mul_pow2 by lia.
  change (2 ^ 8) with 256.
  replace (r * 256) with (r * 2 ^ 8) by reflexivity.
  rewrite <- Z.shiftl_mul_pow2 by lia.
  assert (Hd : Z.land (Z.shiftl r 8) b = 0); [|rewrite Z.add_nocarry_lxor, Z.lxor_lor; auto].
  apply Z.bits_inj'. intros n Hn.
  rewrite Z.land_spec, Z.bits_0.
  destruct (Z.ltb_spec n 8).
  - rewrite Z.shiftl_spec_low by lia. reflexivity.
  - replace (Z.testbit b n) with false. apply andb_false_r.
    symmetry. apply Z.bits_above_log2; [lia|].
    destruct (Z.eq_dec b 0) as [->|]; [simpl; lia|].
    assert (Z.log2 b < 8); [|lia]. apply Z.log2_lt_pow2; lia.
Qed.

Lemma store_be_length n v : length (store_be n v) = n.
Proof.
  revert v. induction n; intros v; simpl; [reflexivity|].
  rewrite length_app, IHn. simpl. lia.
Qed.

Lemma land_255 v : Z.land v 0xFF = v mod 256.
Proof. change 0xFF with (Z.ones 8). rewrite Z.land_ones by lia. reflexivity. Qed.

Lemma shiftr_8 v : Z.shiftr v 8 = v / 256.
Proof. rewrite Z.shiftr_div_pow2 by lia. reflexivity. Qed.

(** [store_be], most significant byte first. *)
Lemma store_be_cons n v :
  store_be (S n) v = Z.land (Z.shiftr v (8 * Z.of_nat n)) 0xFF :: store_be n v.
Proof.
  revert v. induction n; intros v.
  - simpl. rewrite Z.shiftr_0_r. reflexivity.
  - change (store_be (S (S n)) v) with (store_be (S n) (Z.shiftr v 8) ++ [Z.land v 0xFF]).
    rewrite IHn. rewrite <- app_comm_cons. f_equal.
    rewrite Z.shiftr_shiftr by lia. f_equal. f_equal. lia.
Qed.

(** Reading back, byte by byte, what [store_be] stored. *)
Lemma fold_shift_in_store_be n v :
  0 <= v < 2 ^ 64 ->
  fold_left shift_in (store_be n v) (Z.shiftr v (8 * Z.of_nat n)) = v.
Proof.
  revert v. induction n; intros v Hv.
  - simpl. apply Z.shiftr_0_r.
  - change (store_be (S n) v) with (store_be n (Z.shiftr v 8) ++ [Z.land v 0xFF]).
    rewrite fold_left_app. cbn [fold_left].
    replace (Z.shiftr v (8 * Z.of_nat (S n))) with (Z.shiftr (Z.shiftr v 8) (8 * Z.of_nat n)).
    2:{ rewrite Z.shiftr_shiftr by lia. f_equal. lia. }
    rewrite IHn.
    2:{ rewrite shiftr_8. split. apply Z.div_pos; lia. apply Z.div_lt_upper_bound; lia. }
    unfold shift_in. rewrite lor_shift_byte.
    + rewrite shiftr_8, land_255. rewrite wrap64_small; [|rewrite Z.mul_comm, <- Z.div_mod; lia].
      rewrite Z.mul_comm. symmetry. apply Z.div_mod. lia.
    + rewrite shiftr_8. apply Z.div_pos; lia.
    + rewrite land_255. apply Z.mod_pos_bound. lia.
Qed.

(** ** The VINT codec *)

Lemma zrange_in k x : 0 <= x < Z.of_nat k -> In x (zrange k).
Proof.
  intros H. unfold zrange. apply in_map_iff. exists (Z.to_nat x). split; [lia|].
  apply in_seq. lia.
Qed.

Lemma first_byte_table :
  forallb (fun n => forallb (first_byte_ok (Z.of_nat n)) (zrange (2 ^ (8 - n))))
          (seq 1 8) = true.
Proof. vm_compute. reflexivity. Qed.

Lemma first_byte_spec n x :
  1 <= n <= 8 -> 0 <= x < 2 ^ (8 - n) ->
  let b := to_uint8 (Z.lor (Z.land x 0xFF) (Z.shiftr 0x80 (n - 1))) in
  ebml_vint_length b = n /\ Z.land b (Z.shiftr 0xFF n) = x.
Proof.
  intros Hn Hx.
  pose proof first_byte_table as T.
  rewrite forallb_forall in T.
  specialize (T (Z.to_nat n)).
  assert (Hin : In (Z.to_nat n) (seq 1 8)) by (apply in_seq; lia).
  specialize (T Hin). rewrite forallb_forall in T.
  specialize (T x).
  rewrite Z2Nat.id in T by lia.
  assert (Hx' : In x (zrange (2 ^ (8 - Z.to_nat n)))).
  { apply zrange_in. rewrite Nat2Z.inj_pow, Nat2Z.inj_sub by lia.
    rewrite Z2Nat.id by lia. simpl Z.of_nat. lia. }
  specialize (T Hx'). unfold first_byte_ok in T.
  apply andb_true_iff in T. destruct T as [T1 T2].
  split; [apply Z.eqb_eq, T1 | apply Z.eqb_eq, T2].
Qed.

Lemma vint_size_spec v :
  0 <= v <= EBML_VINT_MAX_8 ->
  1 <= ebml_vint_size v <= 8 /\ v <= vint_max (ebml_vint_size v)
  /\ v < 2 ^ (7 * ebml_vint_size v).
Proof.
  intros Hv. unfold ebml_vint_size, EBML_VINT_MAX_8 in *.
  repeat match goal with
         | |- context [?a <=? ?b] => destruct (Z.leb_spec a b)
         end;
    cbv [vint_max EBML_VINT_MAX_1 EBML_VINT_MAX_2 EBML_VINT_MAX_3 EBML_VINT_MAX_4
         EBML_VINT_MAX_5 EBML_VINT_MAX_6 EBML_VINT_MAX_7 EBML_VINT_MAX_8] in *;
    simpl; lia.
Qed.

Lemma leading_bits_bound v n :
  1 <= n <= 8 -> 0 <= v < 2 ^ (7 * n) ->
  0 <= Z.shiftr v (8 * (n - 1)) < 2 ^ (8 - n).
Proof.
  intros Hn Hv. rewrite Z.shiftr_div_pow2 by lia. split.
  - apply Z.div_pos; [lia|]. apply Z.pow_pos_nonneg; lia.
  - apply Z.div_lt_upper_bound; [apply Z.pow_pos_nonneg; lia|].
    rewrite <- Z.pow_add_r by lia. replace (8 * (n - 1) + (8 - n)) with (7 * n) by lia. lia.
Qed.

Lemma encode_fixed_ok v n :
  1 <= n <= 8 -> 0 <= v <= vint_max n ->
  ebml_vint_encode_fixed v n =
  Ok (or_first (Z.shiftr 0x80 (n - 1)) (store_be (Z.to_nat n) v)).
Proof.
  intros Hn Hv. unfold ebml_vint_encode_fixed.
  destruct (Z.ltb_spec n 1); [lia|]. destruct (Z.ltb_spec 8 n); [lia|].
  destruct (Z.ltb_spec (vint_max n) v); [lia|]. reflexivity.
Qed.

Lemma vint_max_lt n : 1 <= n <= 8 -> vint_max n < 2 ^ (7 * n).
Proof.
  intros Hn.
  assert (n = 1 \/ n = 2 \/ n = 3 \/ n = 4 \/ n = 5 \/ n = 6 \/ n = 7 \/ n = 8) as H by lia.
  repeat destruct H as [H|H]; subst n; vm_compute; reflexivity.
Qed.

(** Decoding the bytes [ebml_vint_encode_fixed] wrote, whatever follows them. *)
Lemma decode_encode_fixed v n :
  1 <= n <= 8 -> 0 <= v <= vint_max n ->
  exists bs, ebml_vint_encode_fixed v n = Ok bs /\ zlen bs = n
             /\ forall tail, ebml_vint_decode (bs ++ tail) = Ok (v, n).
Proof.
  intros Hn Hv.
  rewrite encode_fixed_ok by assumption.
  eexists. split; [reflexivity|].
  pose proof (vint_max_lt n Hn) as Hmax.
  assert (Hv64 : 0 <= v < 2 ^ 64).
  { split; [lia|]. apply Z.lt_le_trans with (2 ^ (7 * n)); [lia|].
    apply Z.pow_le_mono_r; lia. }
  destruct (Z.to_nat n) as [|k] eqn:Hk; [lia|].
  assert (Hkn : Z.of_nat k = n - 1) by lia.
  rewrite store_be_cons. rewrite Hkn.
  pose proof (leading_bits_bound v n Hn ltac:(lia)) as Hx.
  destruct (first_byte_spec n _ Hn Hx) as [Hlen Hmask].
  cbn [or_first].
  split.
  { unfold zlen. cbn [length]. rewrite store_be_length. lia. }
  intros tail. rewrite <- app_comm_cons.
  unfold ebml_vint_decode. cbv zeta.
  rewrite Hlen, Hmask.
  destruct (Z.eqb_spec n 0); [lia|].
  match goal with |- context [zlen ?l <? n] => destruct (Z.ltb_spec (zlen l) n) as [Hl|Hl] end.
  { unfold zlen in Hl. cbn [length] in Hl. rewrite length_app, store_be_length in Hl. lia. }
  replace (Z.to_nat (n - 1)) with k by lia.
  rewrite firstn_app, store_be_length, Nat.sub_diag, firstn_O, app_nil_r.
  rewrite firstn_all2 by (rewrite store_be_length; lia).
  rewrite <- Hkn. rewrite fold_shift_in_store_be by assumption. reflexivity.
Qed.

Lemma vint_max_closed n : 1 <= n <= 8 -> vint_max n = 2 ^ (7 * n) - 2.
Proof.
  intros Hn.
  assert (n = 1 \/ n = 2 \/ n = 3 \/ n = 4 \/ n = 5 \/ n = 6 \/ n = 7 \/ n = 8) as H by lia.
  repeat destruct H as [H|H]; subst n; vm_compute; reflexivity.
Qed.

(** The size [ebml_vint_size] picks is the least one that holds the value:
    no smaller length does. *)
Lemma vint_size_least v n :
  0 <= v <= 2 ^ 56 - 2 -> 1 <= n < ebml_vint_size v -> 2 ^ (7 * n) - 2 < v.
Proof.
  intros Hv Hn. unfold ebml_vint_size in Hn.
  cbv [EBML_VINT_MAX_1 EBML_VINT_MAX_2 EBML_VINT_MAX_3 EBML_VINT_MAX_4
       EBML_VINT_MAX_5 EBML_VINT_MAX_6 EBML_VINT_MAX_7 EBML_VINT_MAX_8] in Hn.
  repeat match type of Hn with
         | context [?a <=? ?b] => destruct (Z.leb_spec a b)
         end;
    try lia;
    assert (n = 1 \/ n = 2 \/ n = 3 \/ n = 4 \/ n = 5 \/ n = 6 \/ n = 7) as C by lia;
    repeat destruct C as [C|C]; subst n; try lia;
    match goal with
    | |- 2 ^ ?k - 2 < v => let x := eval vm_compute in (2 ^ k) in change (2 ^ k) with x
    end; lia.
Qed.

(** C7. For every [v] from 0 to 2^56 - 2, [ebml_vint_encode] succeeds, and
    [ebml_vint_decode] on the bytes it wrote gives back [v] and consumes
    [ebml_vint_size v] bytes, which is also the number of bytes written and
    is the minimal VINT length of [v]: a length from 1 to 8 that holds [v]
    ([v <= 2^(7n) - 2], the value of all ones being kept for the unknown
    size), while no smaller length holds it, [ebml_vint_encode_fixed]
    refusing each of them. *)
Theorem vint_roundtrip (v : Z) :
  0 <= v <= 2 ^ 56 - 2 ->
  (exists bs, ebml_vint_encode v = Ok bs
              /\ zlen bs = ebml_vint_size v
              /\ ebml_vint_decode bs = Ok (v, ebml_vint_size v))
  /\ 1 <= ebml_vint_size v <= 8
  /\ v <= 2 ^ (7 * ebml_vint_size v) - 2
  /\ (forall n, 1 <= n < ebml_vint_size v ->
        2 ^ (7 * n) - 2 < v
        /\ ebml_vint_encode_fixed v n = Err MKVTAG_ERR_VINT_OVERFLOW).
Proof.
  intros Hv.
  destruct (vint_size_spec v Hv) as (Hn & Hmax & _).
  split.
  { destruct (decode_encode_fixed v (ebml_vint_size v) Hn ltac:(lia))
      as (bs & He & Hl & Hd).
    exists bs. unfold ebml_vint_encode.
    destruct (Z.eqb_spec (ebml_vint_size v) 0); [lia|].
    split; [exact He|]. split; [exact Hl|].
    specialize (Hd []). rewrite app_nil_r in Hd. exact Hd. }
  split; [exact Hn|].
  split; [rewrite <- (vint_max_closed _ Hn); exact Hmax|].
  intros n Hlt. pose proof (vint_size_least v n Hv Hlt) as L.
  split; [exact L|].
  unfold ebml_vint_encode_fixed.
  destruct (Z.ltb_spec n 1); [lia|]. destruct (Z.ltb_spec 8 n); [lia|]. cbn [orb].
  rewrite (vint_max_closed n) by lia.
  destruct (Z.ltb_spec (2 ^ (7 * n) - 2) v); [reflexivity|lia].
Qed.

Lemma vint_roundtrip_witness :
  (exists bs, ebml_vint_encode 300 = Ok bs
              /\ zlen bs = ebml_vint_size 300
              /\ ebml_vint_decode bs = Ok (300, ebml_vint_size 300))
  /\ 1 <= ebml_vint_size 300 <= 8
  /\ 300 <= 2 ^ (7 * ebml_vint_size 300) - 2
  /\ (forall n, 1 <= n < ebml_vint_size 300 ->
        2 ^ (7 * n) - 2 < 300
        /\ ebml_vint_encode_fixed 300 n = Err MKVTAG_ERR_VINT_OVERFLOW).
Proof. apply (vint_roundtrip 300). lia. Defined.

(** ** The element writers, in closed form *)

Lemma id_bytes_length i : zlen (id_bytes i) = ebml_id_size i.
Proof.
  unfold id_bytes, zlen. rewrite store_be_length.
  unfold ebml_id_size. repeat destruct (_ <=? _); reflexivity.
Qed.

Lemma ebml_id_size_range i : 1 <= ebml_id_size i <= 4.
Proof. unfold ebml_id_size. repeat destruct (_ <=? _); lia. Qed.

Lemma or_first_length m l : length (or_first m l) = length l.
Proof. destruct l; reflexivity. Qed.

Lemma vint_bytes_length n :
  0 <= n <= EBML_VINT_MAX_8 -> zlen (vint_bytes n) = ebml_vint_size n.
Proof.
  intros Hn. destruct (vint_size_spec n Hn) as (Hs & _).
  unfold vint_bytes, zlen. rewrite or_first_length, store_be_length. lia.
Qed.

Lemma fits_vint_true n : fits_vint n = true <-> n <= EBML_VINT_MAX_8.
Proof. unfold fits_vint. apply Z.leb_le. Qed.

Lemma fits_vint_false n : fits_vint n = false <-> EBML_VINT_MAX_8 < n.
Proof. unfold fits_vint. apply Z.leb_gt. Qed.

Lemma write_id_ok buf i : i <> 0 -> write_id buf i = Ok (buf ++ id_bytes i).
Proof.
  intros Hi. unfold write_id, ebml_id_encode.
  destruct (Z.eqb_spec i 0); [contradiction|]. reflexivity.
Qed.

Lemma vint_size_overflow n : EBML_VINT_MAX_8 < n -> ebml_vint_size n = 0.
Proof.
  intros Hn. unfold ebml_vint_size, EBML_VINT_MAX_8 in *.
  cbv [EBML_VINT_MAX_1 EBML_VINT_MAX_2 EBML_VINT_MAX_3 EBML_VINT_MAX_4
       EBML_VINT_MAX_5 EBML_VINT_MAX_6 EBML_VINT_MAX_7].
  repeat match goal with
         | |- context [?a <=? ?b] => destruct (Z.leb_spec a b); [lia|]
         end.
  reflexivity.
Qed.

Lemma vint_encode_closed n :
  0 <= n ->
  ebml_vint_encode n =
  if fits_vint n then Ok (vint_bytes n) else Err MKVTAG_ERR_VINT_OVERFLOW.
Proof.
  intros Hn. unfold ebml_vint_encode.
  destruct (fits_vint n) eqn:Hf.
  - apply fits_vint_true in Hf.
    destruct (vint_size_spec n ltac:(lia)) as (Hs & Hmax & _).
    destruct (Z.eqb_spec (ebml_vint_size n) 0); [lia|].
    rewrite encode_fixed_ok by lia. reflexivity.
  - apply fits_vint_false in Hf. rewrite vint_size_overflow by assumption. reflexivity.
Qed.

Lemma write_size_closed buf n :
  0 <= n ->
  write_size buf n =
  if fits_vint n then Ok (buf ++ vint_bytes n) else Err MKVTAG_ERR_VINT_OVERFLOW.
Proof.
  intros Hn. unfold write_size. rewrite vint_encode_closed by assumption.
  destruct (fits_vint n); reflexivity.
Qed.

Lemma master_header_closed buf i n :
  i <> 0 -> 0 <= n ->
  ebml_write_master_element_header buf i n =
  if fits_vint n then Ok (buf ++ id_bytes i ++ vint_bytes n)
  else Err MKVTAG_ERR_VINT_OVERFLOW.
Proof.
  intros Hi Hn. unfold ebml_write_master_element_header.
  rewrite write_id_ok by assumption. cbn [rbind].
  rewrite write_size_closed by assumption. rewrite <- app_assoc. reflexivity.
Qed.

Lemma string_element_closed buf i s :
  i <> 0 ->
  ebml_write_string_element buf i (Some s) =
  if fits_vint (zlen s) then Ok (buf ++ element_bytes i s)
  else Err MKVTAG_ERR_VINT_OVERFLOW.
Proof.
  intros Hi. unfold ebml_write_string_element, strlen.
  rewrite write_id_ok by assumption. cbn [rbind].
  rewrite write_size_closed by apply zlen_nonneg.
  destruct (fits_vint (zlen s)); [|reflexivity].
  cbn [rbind]. unfold element_bytes. rewrite <- !app_assoc. reflexivity.
Qed.

Lemma uint_data_size_range v :
  1 <= (if uint_data_size v =? 0 then 1 else uint_data_size v) <= 8.
Proof.
  unfold uint_data_size. destruct (v =? 0); [simpl; lia|].
  repeat match goal with
         | |- context [?a <=? ?b] => destruct (a <=? b); [simpl; lia|]
         end.
  simpl. lia.
Qed.

Lemma uint_bytes_length v :
  zlen (uint_bytes v) = (if uint_data_size v =? 0 then 1 else uint_data_size v).
Proof.
  unfold uint_bytes, zlen. rewrite store_be_length.
  pose proof (uint_data_size_range v). lia.
Qed.

Lemma small_fits n : n <= 8 -> fits_vint n = true.
Proof. intros H. apply fits_vint_true. unfold EBML_VINT_MAX_8. lia. Qed.

Lemma uint_element_closed buf i v :
  i <> 0 ->
  ebml_write_uint_element buf i v = Ok (buf ++ element_bytes i (uint_bytes v)).
Proof.
  intros Hi. unfold ebml_write_uint_element. cbv zeta.
  pose proof (uint_data_size_range v) as Hr.
  rewrite write_id_ok by assumption. cbn [rbind].
  rewrite write_size_closed by lia. rewrite small_fits by lia. cbn [rbind].
  unfold element_bytes. rewrite uint_bytes_length. rewrite <- !app_assoc. reflexivity.
Qed.

Lemma binary_element_closed buf i b :
  i <> 0 -> 0 < zlen b ->
  ebml_write_binary_element buf i (Some b) (zlen b) =
  if fits_vint (zlen b) then Ok (buf ++ element_bytes i b)
  else Err MKVTAG_ERR_VINT_OVERFLOW.
Proof.
  intros Hi Hb. unfold ebml_write_binary_element.
  rewrite write_id_ok by assumption. cbn [rbind].
  rewrite write_size_closed by lia.
  destruct (fits_vint (zlen b)); [|reflexivity]. cbn [rbind].
  destruct (Z.ltb_spec 0 (zlen b)); [|lia].
  unfold zlen. rewrite Nat2Z.id, firstn_all.
  unfold element_bytes. rewrite <- !app_assoc. reflexivity.
Qed.

Lemma element_bytes_length i content :
  zlen (element_bytes i content)
  = zlen (id_bytes i) + zlen (vint_bytes (zlen content)) + zlen content.
Proof. unfold element_bytes. rewrite !zlen_app. lia. Qed.

Lemma element_bytes_ge i content : zlen content <= zlen (element_bytes i content).
Proof.
  rewrite element_bytes_length.
  pose proof (zlen_nonneg (id_bytes i)). pose proof (zlen_nonneg (vint_bytes (zlen content))).
  lia.
Qed.

Lemma rbind_if {A B} (c : bool) (x : A) (e : mkvtag_error) (k : A -> result B) :
  rbind (if c then Ok x else Err e) k = if c then k x else Err e.
Proof. destruct c; reflexivity. Qed.


(** ** Serialization, in closed form *)

Lemma simple_tag_content_eq st :
  simple_tag_content st =
  opt_string_bytes MKV_ID_TAG_NAME (st_name st)
  ++ opt_string_bytes MKV_ID_TAG_LANGUAGE (st_language st)
  ++ (if st_is_default st =? 0 then element_bytes MKV_ID_TAG_DEFAULT (uint_bytes 0) else [])
  ++ opt_string_bytes MKV_ID_TAG_STRING (st_value st)
  ++ opt_binary_bytes MKV_ID_TAG_BINARY (st_binary st)
  ++ concat (map simple_tag_bytes (st_nested st)).
Proof. destruct st; reflexivity. Qed.

Lemma serialize_simple_tag_eq st buf :
  serialize_simple_tag st buf =
  (content <- match st_name st with
              | Some _ => ebml_write_string_element [] MKV_ID_TAG_NAME (st_name st)
              | None => Ok []
              end ;;
   content <- match st_language st with
              | Some _ => ebml_write_string_element content MKV_ID_TAG_LANGUAGE
                                                    (st_language st)
              | None => Ok content
              end ;;
   content <- (if st_is_default st =? 0
               then ebml_write_uint_element content MKV_ID_TAG_DEFAULT 0
               else Ok content) ;;
   content <- match st_value st with
              | Some _ => ebml_write_string_element content MKV_ID_TAG_STRING
                                                    (st_value st)
              | None => Ok content
              end ;;
   content <- match st_binary st with
              | Some b => if 0 <? zlen b
                          then ebml_write_binary_element content MKV_ID_TAG_BINARY
                                                         (Some b) (zlen b)
                          else Ok content
              | None => Ok content
              end ;;
   content <- serialize_simple_tags (st_nested st) content ;;
   buf1 <- ebml_write_master_element_header buf MKV_ID_SIMPLE_TAG (zlen content) ;;
   Ok (buf1 ++ content)).
Proof. destruct st; reflexivity. Qed.

Lemma concat_map_ge {A} (f : A -> list Z) (l : list A) (x : A) :
  In x l -> zlen (f x) <= zlen (concat (map f l)).
Proof.
  induction l as [|y l IH]; intros Hin; [contradiction|].
  cbn [map concat]. rewrite zlen_app.
  pose proof (zlen_nonneg (f y)). pose proof (zlen_nonneg (concat (map f l))).
  destruct Hin as [->|Hin]; [lia|]. specialize (IH Hin). lia.
Qed.

Lemma simple_tag_bytes_ge st : zlen (simple_tag_content st) <= zlen (simple_tag_bytes st).
Proof. apply element_bytes_ge. Qed.

(** The sizes of the parts of a simple tag are below the size of its content. *)
Lemma content_ge_parts st :
  (forall s, st_name st = Some s -> zlen s <= zlen (simple_tag_content st))
  /\ (forall s, st_language st = Some s -> zlen s <= zlen (simple_tag_content st))
  /\ (forall s, st_value st = Some s -> zlen s <= zlen (simple_tag_content st))
  /\ (forall b, st_binary st = Some b -> 0 < zlen b -> zlen b <= zlen (simple_tag_content st))
  /\ (forall n, In n (st_nested st) ->
                zlen (simple_tag_content n) <= zlen (simple_tag_content st)).
Proof.
  rewrite simple_tag_content_eq. rewrite !zlen_app.
  pose proof (zlen_nonneg (opt_string_bytes MKV_ID_TAG_NAME (st_name st))).
  pose proof (zlen_nonneg (opt_string_bytes MKV_ID_TAG_LANGUAGE (st_language st))).
  pose proof (zlen_nonneg (opt_string_bytes MKV_ID_TAG_STRING (st_value st))).
  pose proof (zlen_nonneg (opt_binary_bytes MKV_ID_TAG_BINARY (st_binary st))).
  pose proof (zlen_nonneg (if st_is_default st =? 0
                           then element_bytes MKV_ID_TAG_DEFAULT (uint_bytes 0) else [])).
  pose proof (zlen_nonneg (concat (map simple_tag_bytes (st_nested st)))).
  repeat split.
  - intros s Hs. rewrite Hs in *. cbn [opt_string_bytes] in *.
    pose proof (element_bytes_ge MKV_ID_TAG_NAME s). lia.
  - intros s Hs. rewrite Hs in *. cbn [opt_string_bytes] in *.
    pose proof (element_bytes_ge MKV_ID_TAG_LANGUAGE s). lia.
  - intros s Hs. rewrite Hs in *. cbn [opt_string_bytes] in *.
    pose proof (element_bytes_ge MKV_ID_TAG_STRING s). lia.
  - intros b Hb Hpos. rewrite Hb in *. cbn [opt_binary_bytes] in *.
    destruct (Z.ltb_spec 0 (zlen b)); [|lia].
    pose proof (element_bytes_ge MKV_ID_TAG_BINARY b). lia.
  - intros n Hn. pose proof (concat_map_ge simple_tag_bytes _ _ Hn).
    pose proof (simple_tag_bytes_ge n). lia.
Qed.


Lemma serialize_simple_tags_closed l :
  Forall simple_tag_closed l ->
  forall content,
    serialize_simple_tags l content =
    if forallb (fun n => fits_vint (zlen (simple_tag_content n))) l
    then Ok (content ++ concat (map simple_tag_bytes l))
    else Err MKVTAG_ERR_VINT_OVERFLOW.
Proof.
  induction 1 as [|n l Hn Hl IH]; intros content.
  - cbn. rewrite app_nil_r. reflexivity.
  - cbn [serialize_simple_tags forallb map concat]. rewrite Hn.
    destruct (fits_vint (zlen (simple_tag_content n))); [|reflexivity].
    cbn [rbind andb]. rewrite IH. rewrite <- app_assoc. reflexivity.
Qed.

Lemma forallb_fits_nested st :
  fits_vint (zlen (simple_tag_content st)) = true ->
  forallb (fun n => fits_vint (zlen (simple_tag_content n))) (st_nested st) = true.
Proof.
  intros F. apply forallb_forall. intros n Hn. apply fits_vint_true.
  apply fits_vint_true in F.
  destruct (content_ge_parts st) as (_ & _ & _ & _ & Hg). specialize (Hg n Hn). lia.
Qed.

Lemma step_string content i s :
  i <> 0 ->
  match s with
  | Some _ => ebml_write_string_element content i s
  | None => Ok content
  end =
  if opt_string_fits s then Ok (content ++ opt_string_bytes i s)
  else Err MKVTAG_ERR_VINT_OVERFLOW.
Proof.
  intros Hi. destruct s as [s|]; cbn [opt_string_fits opt_string_bytes].
  - apply string_element_closed. exact Hi.
  - rewrite app_nil_r. reflexivity.
Qed.

Lemma step_binary content i b :
  i <> 0 ->
  match b with
  | Some x => if 0 <? zlen x
              then ebml_write_binary_element content i (Some x) (zlen x)
              else Ok content
  | None => Ok content
  end =
  if opt_binary_fits b then Ok (content ++ opt_binary_bytes i b)
  else Err MKVTAG_ERR_VINT_OVERFLOW.
Proof.
  intros Hi. destruct b as [b|]; cbn [opt_binary_fits opt_binary_bytes].
  - destruct (Z.ltb_spec 0 (zlen b)).
    + apply binary_element_closed; assumption.
    + rewrite app_nil_r. reflexivity.
  - rewrite app_nil_r. reflexivity.
Qed.

Lemma step_default content d :
  (if d =? 0 then ebml_write_uint_element content MKV_ID_TAG_DEFAULT 0 else Ok content) =
  Ok (content ++ (if d =? 0 then element_bytes MKV_ID_TAG_DEFAULT (uint_bytes 0) else [])).
Proof.
  destruct (d =? 0).
  - apply uint_element_closed. discriminate.
  - rewrite app_nil_r. reflexivity.
Qed.

Lemma parts_fit st :
  fits_vint (zlen (simple_tag_content st)) = true ->
  opt_string_fits (st_name st) = true
  /\ opt_string_fits (st_language st) = true
  /\ opt_string_fits (st_value st) = true
  /\ opt_binary_fits (st_binary st) = true.
Proof.
  intros F. apply fits_vint_true in F.
  destruct (content_ge_parts st) as (Hn & Hl & Hv & Hb & _).
  repeat split.
  - destruct (st_name st) as [s|]; [|reflexivity].
    apply fits_vint_true. specialize (Hn s eq_refl). lia.
  - destruct (st_language st) as [s|]; [|reflexivity].
    apply fits_vint_true. specialize (Hl s eq_refl). lia.
  - destruct (st_value st) as [s|]; [|reflexivity].
    apply fits_vint_true. specialize (Hv s eq_refl). lia.
  - destruct (st_binary st) as [b|]; [|reflexivity]. cbn [opt_binary_fits].
    destruct (Z.ltb_spec 0 (zlen b)); [|reflexivity].
    apply fits_vint_true. specialize (Hb b eq_refl ltac:(lia)). lia.
Qed.

Lemma serialize_simple_tag_closed st : simple_tag_closed st.
Proof.
  induction st as [n v b l d nested IH] using simple_tag_induction.
  intros buf. rewrite serialize_simple_tag_eq.
  set (st := mk_simple_tag n v b l d nested).
  pose proof (parts_fit st) as Hparts.
  pose proof (forallb_fits_nested st) as Hnested.
  unfold simple_tag_bytes, element_bytes.
  rewrite simple_tag_content_eq in *.
  cbn [st_name st_language st_is_default st_value st_binary st_nested st] in *.
  rewrite step_string by discriminate. rewrite rbind_if.
  rewrite step_string by discriminate. rewrite rbind_if.
  rewrite step_default. cbn [rbind].
  rewrite step_string by discriminate. rewrite rbind_if.
  rewrite step_binary by discriminate. rewrite rbind_if.
  rewrite (serialize_simple_tags_closed nested IH). rewrite rbind_if.
  rewrite master_header_closed by (try discriminate; apply zlen_nonneg).
  rewrite rbind_if.
  cbn [app]. rewrite <- !app_assoc.
  match goal with
  | |- _ = (if ?c then _ else _) => destruct c eqn:F
  end.
  - destruct (Hparts eq_refl) as (-> & -> & -> & ->). rewrite (Hnested eq_refl).
    reflexivity.
  - repeat match goal with
           | |- context [if ?c then _ else _] => destruct c
           end; reflexivity.
Qed.

Lemma write_uids_closed content i uids :
  i <> 0 -> write_uids content i uids = Ok (content ++ uids_bytes i uids).
Proof.
  intros Hi. revert content. induction uids as [|u uids IH]; intros content.
  - cbn. rewrite app_nil_r. reflexivity.
  - cbn [write_uids]. rewrite uint_element_closed by assumption. cbn [rbind].
    rewrite IH. unfold uids_bytes. cbn [map concat]. rewrite <- app_assoc. reflexivity.
Qed.

Lemma targets_str_fits t :
  fits_vint (zlen (targets_content t)) = true ->
  opt_string_fits (target_type_str t) = true.
Proof.
  intros F. apply fits_vint_true in F.
  destruct (target_type_str t) as [s|] eqn:Hs; [|reflexivity].
  apply fits_vint_true. unfold targets_content in F. rewrite Hs in F.
  cbn [opt_string_bytes] in F. rewrite !zlen_app in F.
  pose proof (element_bytes_ge MKV_ID_TARGET_TYPE s).
  repeat match goal with
         | H : context [zlen ?l] |- _ =>
             lazymatch goal with
             | _ : 0 <= zlen l |- _ => fail
             | _ => pose proof (zlen_nonneg l)
             end
         end.
  lia.
Qed.

Lemma serialize_targets_closed t buf :
  serialize_targets t buf =
  if fits_vint (zlen (targets_content t))
  then Ok (buf ++ element_bytes MKV_ID_TARGETS (targets_content t))
  else Err MKVTAG_ERR_VINT_OVERFLOW.
Proof.
  pose proof (targets_str_fits t) as Hstr.
  unfold serialize_targets, element_bytes, targets_content in *.
  rewrite uint_element_closed by discriminate. cbn [rbind].
  rewrite step_string by discriminate. rewrite rbind_if.
  destruct (opt_string_fits (target_type_str t)) eqn:Fs.
  2:{ destruct (fits_vint _) eqn:F; [|reflexivity]. specialize (Hstr eq_refl). discriminate. }
  clear Hstr.
  do 4 (rewrite write_uids_closed by discriminate; cbn [rbind]).
  rewrite master_header_closed by (try discriminate; apply zlen_nonneg).
  rewrite rbind_if. cbn [app]. rewrite <- !app_assoc. reflexivity.
Qed.

Lemma tag_parts_fit t :
  fits_vint (zlen (tag_content t)) = true ->
  fits_vint (zlen (targets_content t)) = true
  /\ forallb (fun n => fits_vint (zlen (simple_tag_content n))) (simple_tags t) = true.
Proof.
  intros F. apply fits_vint_true in F. unfold tag_content in F. rewrite zlen_app in F.
  pose proof (element_bytes_ge MKV_ID_TARGETS (targets_content t)).
  pose proof (zlen_nonneg (element_bytes MKV_ID_TARGETS (targets_content t))).
  pose proof (zlen_nonneg (concat (map simple_tag_bytes (simple_tags t)))).
  split.
  - apply fits_vint_true. lia.
  - apply forallb_forall. intros n Hn. apply fits_vint_true.
    pose proof (concat_map_ge simple_tag_bytes _ _ Hn).
    pose proof (simple_tag_bytes_ge n). lia.
Qed.

Lemma serialize_tag_closed t buf :
  serialize_tag t buf =
  if tag_fits t then Ok (buf ++ tag_bytes t) else Err MKVTAG_ERR_VINT_OVERFLOW.
Proof.
  pose proof (tag_parts_fit t) as Hparts.
  unfold serialize_tag, tag_fits, tag_bytes, element_bytes, tag_content in *.
  rewrite serialize_targets_closed. rewrite rbind_if.
  rewrite serialize_simple_tags_closed
    by (apply Forall_forall; intros; apply serialize_simple_tag_closed).
  rewrite rbind_if.
  rewrite master_header_closed by (try discriminate; apply zlen_nonneg).
  rewrite rbind_if. cbn [app]. rewrite <- !app_assoc.
  match goal with
  | |- _ = (if ?c then _ else _) => destruct c eqn:F
  end.
  - destruct (Hparts eq_refl) as (-> & ->). reflexivity.
  - repeat match goal with
           | |- context [if ?c then _ else _] => destruct c
           end; reflexivity.
Qed.

Lemma serialize_tag_list_closed l buf :
  serialize_tag_list l buf =
  if forallb tag_fits l then Ok (buf ++ concat (map tag_bytes l))
  else Err MKVTAG_ERR_VINT_OVERFLOW.
Proof.
  revert buf. induction l as [|t l IH]; intros buf.
  - cbn. rewrite app_nil_r. reflexivity.
  - cbn [serialize_tag_list forallb map concat]. rewrite serialize_tag_closed.
    destruct (tag_fits t); [|reflexivity]. cbn [rbind andb].
    rewrite IH. rewrite <- app_assoc. reflexivity.
Qed.

(** The serializer in closed form, allocation being taken to succeed:
    the bytes of every tag in order ([collection_bytes]), or [VintOverflow]
    when the content of a tag is larger than the largest size a VINT holds.
    The names are never looked at. *)
Lemma serialize_closed_form (c : mkvtag_collection) (buf : list Z) :
  mkv_tags_serialize c buf =
  if collection_fits c then Ok (buf ++ collection_bytes c)
  else Err MKVTAG_ERR_VINT_OVERFLOW.
Proof.
  unfold mkv_tags_serialize, collection_fits, collection_bytes.
  generalize (tags c) as l. intros l. revert buf.
  induction l as [|t l IH]; intros buf.
  - cbn. rewrite app_nil_r. reflexivity.
  - cbn [serialize_tag_list forallb map concat]. rewrite serialize_tag_closed.
    destruct (tag_fits t); [|reflexivity]. cbn [rbind andb].
    rewrite IH. rewrite <- app_assoc. reflexivity.
Qed.

(** C4, at the failing input.  A collection whose one simple tag has a NULL
    name is serialized successfully, the SimpleTag element written without
    the TagName element (ID 0x45 0xA3) that the comment of
    [serialize_simple_tag] calls required; and one whose simple tag has an
    empty name is serialized successfully too, with a TagName of size 0. *)
Theorem serialize_accepts_nameless :
  let absent := mk_collection
      [mk_tag 50 None [] [] [] [] [mk_simple_tag None (Some [120]) None None 1 []]] 1 in
  let empty := mk_collection
      [mk_tag 50 None [] [] [] [] [mk_simple_tag (Some []) (Some [120]) None None 1 []]] 1 in
  collection_nameless absent = true
  /\ mkv_tags_serialize absent []
     = Ok [0x73; 0x73; 0x8E; 0x63; 0xC0; 0x84; 0x68; 0xCA; 0x81; 50;
           0x67; 0xC8; 0x84; 0x44; 0x87; 0x81; 120]
  /\ collection_nameless empty = true
  /\ mkv_tags_serialize empty []
     = Ok [0x73; 0x73; 0x91; 0x63; 0xC0; 0x84; 0x68; 0xCA; 0x81; 50;
           0x67; 0xC8; 0x87; 0x45; 0xA3; 0x80; 0x44; 0x87; 0x81; 120].
Proof. vm_compute. repeat split; reflexivity. Qed.

(** ** The signed integer writer *)


(** C5, at the failing input.  The value 2^31 fits 5 bytes of two's
    complement, and [ebml_write_int_element] writes it on 8: the element is
    the ID, the size byte 0x88 and eight content bytes; likewise 2^39, which
    fits 6, and 2^47, which fits 7.  For every value the size picked is the
    least one inside the 32-bit range and 8 outside it. *)
Theorem int_element_skips_5_6_7 :
  (forall v, int_data_size v
             = if (- 2 ^ 31 <=? v) && (v <? 2 ^ 31) then min_int_size v else 8)
  /\ min_int_size (2 ^ 31) = 5
  /\ int_data_size (2 ^ 31) = 8
  /\ ebml_write_int_element [] MKV_ID_TAG_DEFAULT (2 ^ 31)
     = Ok [0x44; 0x84; 0x88; 0; 0; 0; 0; 0x80; 0; 0; 0]
  /\ min_int_size (2 ^ 39) = 6 /\ int_data_size (2 ^ 39) = 8
  /\ min_int_size (2 ^ 47) = 7 /\ int_data_size (2 ^ 47) = 8.
Proof.
  split.
  { intros v.
    unfold int_data_size, min_int_size.
    repeat match goal with
           | |- context [2 ^ ?k] =>
               let x := eval vm_compute in (2 ^ k) in change (2 ^ k) with x
           end.
    assert (v < -2147483648 \/ -2147483648 <= v < -8388608 \/ -8388608 <= v < -32768
            \/ -32768 <= v < -128 \/ -128 <= v < 0 \/ v = 0 \/ 0 < v < 128
            \/ 128 <= v < 32768 \/ 32768 <= v < 8388608 \/ 8388608 <= v < 2147483648
            \/ 2147483648 <= v) as H by lia.
    repeat destruct H as [H|H]; decide_cmp; reflexivity. }
  vm_compute. repeat split; reflexivity.
Qed.

(** ** The planner *)

(** C6, as amended.  The planner on an open writable context, given a
    collection the caller built.  When the file has no Tags element recorded
    Strategy 1 is not attempted and the planner starts at Strategy 2.  When
    Strategy 1 is attempted and succeeds, the result is the result of the
    flush.  Whatever code Strategy 1 fails with, NoSpace or not, the planner
    goes on to Strategy 2; when Strategy 2 succeeds the result is the result
    of the flush, and whatever code Strategy 2 fails with the planner goes on
    to Strategy 3, whose outcome is the outcome of the planner.  No code of
    a failed Strategy 1 or 2 is returned. *)
Theorem write_tags_falls_through (fuel : nat) (ctx : mkvtag_context)
    (tags_ : mkvtag_collection) :
  is_open ctx = true ->
  is_writable ctx = true ->
  let ctx0 := set_cached_tags ctx None in
  let from_strategy2 := fun c1 : mkvtag_context =>
    '(e2, c2) <~ try_replace_void fuel c1 tags_ ;;
    if is_ok e2 then Done (file_sync (file c2), c2)
    else try_append_tags fuel c2 tags_ in
  (tags_offset (mkv ctx) < 0 ->
   mkvtag_write_tags fuel ctx (Some (Built tags_)) = from_strategy2 ctx0)
  /\ (0 <= tags_offset (mkv ctx) ->
      (forall c1,
         try_replace_existing_tags fuel ctx0 tags_ = Done (MKVTAG_OK, c1) ->
         mkvtag_write_tags fuel ctx (Some (Built tags_)) = Done (file_sync (file c1), c1))
      /\ (forall e1 c1,
            try_replace_existing_tags fuel ctx0 tags_ = Done (e1, c1) ->
            e1 <> MKVTAG_OK ->
            mkvtag_write_tags fuel ctx (Some (Built tags_)) = from_strategy2 c1)
      /\ (try_replace_existing_tags fuel ctx0 tags_ = Undefined ->
          mkvtag_write_tags fuel ctx (Some (Built tags_)) = Undefined)
      /\ (try_replace_existing_tags fuel ctx0 tags_ = OutOfFuel ->
          mkvtag_write_tags fuel ctx (Some (Built tags_)) = OutOfFuel))
  /\ (forall c1 c2,
        try_replace_void fuel c1 tags_ = Done (MKVTAG_OK, c2) ->
        from_strategy2 c1 = Done (file_sync (file c2), c2))
  /\ (forall c1 e2 c2,
        try_replace_void fuel c1 tags_ = Done (e2, c2) ->
        e2 <> MKVTAG_OK ->
        from_strategy2 c1 = try_append_tags fuel c2 tags_)
  /\ (forall c1 e1 c2 e2 c3 e3,
        0 <= tags_offset (mkv ctx) ->
        try_replace_existing_tags fuel ctx0 tags_ = Done (e1, c1) -> e1 <> MKVTAG_OK ->
        try_replace_void fuel c1 tags_ = Done (e2, c2) -> e2 <> MKVTAG_OK ->
        try_append_tags fuel c2 tags_ = Done (e3, c3) ->
        mkvtag_write_tags fuel ctx (Some (Built tags_)) = Done (e3, c3)).
Proof.
  intros Hopen Hw ctx0 from_strategy2.
  assert (W : mkvtag_write_tags fuel ctx (Some (Built tags_))
              = ('(ok1, ctx1) <~
                   (if 0 <=? tags_offset (mkv ctx) then
                      '(err, c) <~ try_replace_existing_tags fuel ctx0 tags_ ;;
                      Done (is_ok err, c)
                    else Done (false, ctx0)) ;;
                 if ok1 then Done (file_sync (file ctx1), ctx1)
                 else from_strategy2 ctx1)).
  { unfold mkvtag_write_tags. rewrite Hopen, Hw. reflexivity. }
  assert (F2 : forall c1 e2 c2, try_replace_void fuel c1 tags_ = Done (e2, c2) ->
                 from_strategy2 c1
                 = if is_ok e2 then Done (file_sync (file c2), c2)
                   else try_append_tags fuel c2 tags_).
  { intros c1 e2 c2 E. unfold from_strategy2. rewrite E. reflexivity. }
  assert (Bad : forall e, e <> MKVTAG_OK -> is_ok e = false).
  { intros e He. destruct e; try reflexivity. contradiction. }
  split.
  { intros Hneg. rewrite W. destruct (Z.leb_spec 0 (tags_offset (mkv ctx))); [lia|].
    reflexivity. }
  split.
  { intros Hpos. rewrite W. destruct (Z.leb_spec 0 (tags_offset (mkv ctx))); [|lia].
    split; [|split; [|split]].
    - intros c1 E. rewrite E. reflexivity.
    - intros e1 c1 E He. rewrite E. cbn [obind]. rewrite (Bad e1 He). reflexivity.
    - intros E. rewrite E. reflexivity.
    - intros E. rewrite E. reflexivity. }
  split.
  { intros c1 c2 E. rewrite (F2 c1 _ c2 E). reflexivity. }
  split.
  { intros c1 e2 c2 E He. rewrite (F2 c1 e2 c2 E), (Bad e2 He). reflexivity. }
  intros c1 e1 c2 e2 c3 e3 Hpos E1 He1 E2 He2 E3.
  rewrite W. destruct (Z.leb_spec 0 (tags_offset (mkv ctx))); [|lia].
  rewrite E1. cbn [obind]. rewrite (Bad e1 He1), (F2 c1 e2 c2 E2), (Bad e2 He2). exact E3.
Qed.

Lemma write_tags_falls_through_witness :
  is_open stale_ctx = true
  /\ is_writable stale_ctx = true
  /\ mkvtag_write_tags 200 stale_ctx (Some (Built stale_tags)) =
     ('(e2, c2) <~ try_replace_void 200 stale_after_strategy1 stale_tags ;;
      if is_ok e2 then Done (file_sync (file c2), c2)
      else try_append_tags 200 c2 stale_tags).
Proof.
  assert (Ho : is_open stale_ctx = true) by (vm_compute; reflexivity).
  assert (Hw : is_writable stale_ctx = true) by (vm_compute; reflexivity).
  split; [exact Ho|]. split; [exact Hw|].
  destruct (write_tags_falls_through 200 stale_ctx stale_tags Ho Hw)
    as (_ & H & _).
  destruct H as (_ & H & _).
  - vm_compute. intros H. discriminate H.
  - apply (H MKVTAG_ERR_TRUNCATED stale_after_strategy1).
    + vm_compute. reflexivity.
    + discriminate.
Defined.

(** C6, counterexample.  The file opens; its SeekHead puts the Tags element
    past the end of the file, so Strategy 1 fails with Truncated, which is
    not NoSpace; the planner still runs Strategy 2 and returns success, the
    Tags element now in the place of the Void. *)
Lemma write_tags_hides_truncated :
  is_open stale_ctx = true
  /\ is_writable stale_ctx = true
  /\ tags_offset (mkv stale_ctx) = 1045
  /\ file_size (file stale_ctx) = 155
  /\ try_replace_existing_tags 200 (set_cached_tags stale_ctx None) stale_tags
     = Done (MKVTAG_ERR_TRUNCATED, stale_after_strategy1)
  /\ exists c', mkvtag_write_tags 200 stale_ctx (Some (Built stale_tags))
                = Done (MKVTAG_OK, c')
                /\ tags_offset (mkv c') = void_offset (mkv stale_ctx).
Proof.
  do 5 (split; [vm_compute; reflexivity|]).
  eexists. split; vm_compute; reflexivity.
Qed.
(* ------------------------------------------------------------------ *)
(** * The file layer and the loops over it *)

(** ** Seeks, reads and the header reader *)

Lemma same_file_refl h : same_file h h.
Proof. split; reflexivity. Qed.

Lemma same_file_trans h1 h2 h3 : same_file h1 h2 -> same_file h2 h3 -> same_file h1 h3.
Proof. intros [A B] [C D]. split; congruence. Qed.

Lemma same_file_size h h' : same_file h h' -> file_size h' = file_size h.
Proof. intros [A _]. unfold file_size. rewrite A. reflexivity. Qed.

Lemma file_seek_spec h off e h' :
  file_seek h off = (e, h') ->
  same_file h h'
  /\ ((e = MKVTAG_OK /\ 0 <= off /\ fh_pos h' = off)
      \/ (e = MKVTAG_ERR_SEEK_FAILED /\ off < 0 /\ h' = h)).
Proof.
  unfold file_seek. destruct (Z.ltb_spec off 0); intros E; inversion E; subst.
  - split; [apply same_file_refl|]. right. auto.
  - split; [split; reflexivity|]. left. auto.
Qed.

Lemma file_seek_ok h off : 0 <= off -> file_seek h off = (MKVTAG_OK, set_pos h off).
Proof. intros H. unfold file_seek. destruct (Z.ltb_spec off 0); [lia|reflexivity]. Qed.

Lemma file_read_spec h n e got h' :
  file_read h n = (e, got, h') ->
  same_file h h'
  /\ fh_pos h' = fh_pos h + zlen got
  /\ got = firstn (Z.to_nat n) (skipn (Z.to_nat (fh_pos h)) (fh_data h))
  /\ ((e = MKVTAG_OK /\ zlen got = n) \/ (e = MKVTAG_ERR_TRUNCATED /\ zlen got <> n)).
Proof.
  unfold file_read. cbv zeta.
  destruct (Z.eqb_spec (zlen (firstn (Z.to_nat n)
             (skipn (Z.to_nat (fh_pos h)) (fh_data h)))) n);
    intros E; inversion E; subst; (split; [split; reflexivity|]);
    (split; [reflexivity|]); (split; [reflexivity|]); auto.
Qed.

Lemma read_within h n got :
  0 <= fh_pos h ->
  got = firstn (Z.to_nat n) (skipn (Z.to_nat (fh_pos h)) (fh_data h)) ->
  0 < zlen got -> fh_pos h + zlen got <= file_size h.
Proof.
  intros Hp -> Hl. unfold zlen, file_size in *.
  rewrite length_firstn, length_skipn in *. unfold zlen. lia.
Qed.

Lemma shift_in_nonneg r b : 0 <= shift_in r b < 2 ^ 64.
Proof. unfold shift_in, wrap64. apply Z.mod_pos_bound. lia. Qed.

Lemma fold_shift_in_nonneg l r : 0 <= r -> 0 <= fold_left shift_in l r.
Proof.
  revert r. induction l as [|b l IH]; intros r Hr; cbn [fold_left]; [exact Hr|].
  apply IH. apply shift_in_nonneg.
Qed.

Lemma vint_decode_nonneg data v n : ebml_vint_decode data = Ok (v, n) -> 0 <= v.
Proof.
  unfold ebml_vint_decode. destruct data as [|b0 rest]; [discriminate|]. cbv zeta.
  destruct (_ =? 0); [discriminate|]. destruct (_ <? _); [discriminate|].
  intros E. inversion E; subst. apply fold_shift_in_nonneg.
  apply Z.land_nonneg. right. apply Z.shiftr_nonneg. lia.
Qed.

Lemma vint_length_range b : 0 <= ebml_vint_length b <= 8.
Proof. unfold ebml_vint_length. repeat destruct (bit_set _ _); lia. Qed.

(** What a header read leaves: the same file, further on; after a success
    the position is the start of the content, at least two bytes on and
    inside the file. *)
Lemma read_header_spec h r h' :
  ebml_read_element_header h = (r, h') ->
  0 <= fh_pos h ->
  same_file h h' /\ fh_pos h <= fh_pos h'
  /\ match r with
     | Ok e =>
         fh_pos h' = data_offset e
         /\ fh_pos h + 2 <= data_offset e <= file_size h
         /\ 0 <= size e
         /\ end_offset e = (if is_unknown_size e then file_size h
                            else data_offset e + size e)
         /\ data_offset e - id_length e - size_length e = fh_pos h
     | Err _ => True
     end.
Proof.
  unfold ebml_read_element_header. intros E Hpos.
  destruct (file_read h 1) as [[e1 b] h1] eqn:R1.
  apply file_read_spec in R1. destruct R1 as (S1 & P1 & G1 & C1).
  pose proof (zlen_nonneg b) as Nb.
  destruct C1 as [[-> L1]|[-> L1]]; cbn [is_ok negb] in E.
  2:{ inversion E; subst. repeat split; try apply S1; lia. }
  pose proof (vint_length_range (hd 0 b)) as Rid.
  destruct (Z.eqb_spec (ebml_vint_length (hd 0 b)) 0) as [Z0|Z0]; cbn [orb] in E.
  { inversion E; subst. repeat split; try apply S1; lia. }
  destruct (Z.ltb_spec 4 (ebml_vint_length (hd 0 b))) as [Z4|Z4].
  { inversion E; subst. repeat split; try apply S1; lia. }
  set (idl := ebml_vint_length (hd 0 b)) in *.
  destruct (if 1 <? idl then file_read h1 (idl - 1) else (MKVTAG_OK, [], h1))
    as [[e2 rest] h2] eqn:R2.
  assert (H2 : same_file h1 h2 /\ fh_pos h2 = fh_pos h1 + zlen rest
               /\ (e2 = MKVTAG_OK -> zlen rest = idl - 1)
               /\ (e2 <> MKVTAG_OK -> e2 = MKVTAG_ERR_TRUNCATED)
               /\ (0 < zlen rest -> fh_pos h1 + zlen rest <= file_size h1)).
  { destruct (Z.ltb_spec 1 idl).
    - apply file_read_spec in R2. destruct R2 as (S2 & P2 & G2 & C2).
      split; [exact S2|]. split; [exact P2|].
      split; [destruct C2 as [[? ?]|[? ?]]; [auto|intros; congruence]|].
      split; [destruct C2 as [[? ?]|[? ?]]; [intros; congruence|auto]|].
      intros. eapply read_within; eauto. lia.
    - inversion R2; subst. rewrite zlen_nil.
      repeat split; try reflexivity; try lia. intros; congruence. }
  destruct H2 as (S2 & P2 & L2 & T2 & W2).
  pose proof (zlen_nonneg rest) as Nr.
  assert (W1 : fh_pos h + 1 <= file_size h) by (rewrite <- L1; eapply read_within; eauto; lia).
  pose proof (same_file_size _ _ S1) as Z1. pose proof (same_file_size _ _ S2) as Z2.
  destruct e2; cbn [is_ok negb] in E;
    try (specialize (T2 ltac:(discriminate)); discriminate);
    try (inversion E; subst; repeat split;
         try apply (same_file_trans _ _ _ S1 S2); lia).
  specialize (L2 eq_refl).
  destruct (ebml_id_decode _) as [[elem_id ?]|?] eqn:Did.
  2:{ inversion E; subst. repeat split; try apply (same_file_trans _ _ _ S1 S2); lia. }
  destruct (file_read h2 1) as [[e3 sb] h3] eqn:R3.
  apply file_read_spec in R3. destruct R3 as (S3 & P3 & G3 & C3).
  pose proof (zlen_nonneg sb) as Nsb.
  pose proof (same_file_size _ _ S3) as Z3.
  pose proof (same_file_trans _ _ _ (same_file_trans _ _ _ S1 S2) S3) as S13.
  destruct C3 as [[-> L3]|[-> L3]]; cbn [is_ok negb] in E.
  2:{ inversion E; subst. repeat split; try apply S13; lia. }
  pose proof (vint_length_range (hd 0 sb)) as Rsz.
  destruct (Z.eqb_spec (ebml_vint_length (hd 0 sb)) 0) as [Y0|Y0]; cbn [orb] in E.
  { inversion E; subst. repeat split; try apply S13; lia. }
  destruct (Z.ltb_spec 8 (ebml_vint_length (hd 0 sb))) as [Y8|Y8].
  { inversion E; subst. repeat split; try apply S13; lia. }
  set (szl := ebml_vint_length (hd 0 sb)) in *.
  destruct (if 1 <? szl then file_read h3 (szl - 1) else (MKVTAG_OK, [], h3))
    as [[e4 srest] h4] eqn:R4.
  assert (H4 : same_file h3 h4 /\ fh_pos h4 = fh_pos h3 + zlen srest
               /\ (e4 = MKVTAG_OK -> zlen srest = szl - 1)
               /\ (e4 <> MKVTAG_OK -> e4 = MKVTAG_ERR_TRUNCATED)
               /\ (0 < zlen srest -> fh_pos h3 + zlen srest <= file_size h3)).
  { destruct (Z.ltb_spec 1 szl).
    - apply file_read_spec in R4. destruct R4 as (S4 & P4 & G4 & C4).
      split; [exact S4|]. split; [exact P4|].
      split; [destruct C4 as [[? ?]|[? ?]]; [auto|intros; congruence]|].
      split; [destruct C4 as [[? ?]|[? ?]]; [intros; congruence|auto]|].
      intros. eapply read_within; eauto. lia.
    - inversion R4; subst. rewrite zlen_nil.
      repeat split; try reflexivity; try lia. intros; congruence. }
  destruct H4 as (S4 & P4 & L4 & T4 & W4).
  pose proof (zlen_nonneg srest) as Nsr.
  assert (W3 : fh_pos h2 + 1 <= file_size h2) by (rewrite <- L3; eapply read_within; eauto; lia).
  pose proof (same_file_size _ _ S4) as Z4'.
  pose proof (same_file_trans _ _ _ S13 S4) as S14.
  destruct e4; cbn [is_ok negb] in E;
    try (specialize (T4 ltac:(discriminate)); discriminate);
    try (inversion E; subst; repeat split; try apply S14; lia).
  specialize (L4 eq_refl).
  destruct (ebml_vint_decode _) as [[sz ?]|?] eqn:Dsz.
  2:{ inversion E; subst. repeat split; try apply S14; lia. }
  apply vint_decode_nonneg in Dsz.
  inversion E; subst. cbn [data_offset size end_offset is_unknown_size id_length size_length].
  unfold file_tell.
  assert (file_size h' = file_size h) by (apply same_file_size; exact S14).
  repeat split; try apply S14; try lia.
  - destruct (ebml_vint_is_unknown sz szl); [unfold EBML_SIZE_UNKNOWN; lia | lia].
  - destruct (ebml_vint_is_unknown sz szl); [congruence | reflexivity].
Qed.


(** ** Fuel *)

Lemma ended_done {A} (a : A) : ended (Done a).
Proof. discriminate. Qed.

Lemma ended_undefined {A} : ended (@Undefined A).
Proof. discriminate. Qed.

Lemma obind_ended {A B} (o : outcome A) (k : A -> outcome B) :
  ended (obind o k) -> ended o.
Proof. unfold ended. destruct o; cbn [obind]; intros H; [discriminate | exfalso; apply H; reflexivity | discriminate]. Qed.

Section ChildrenFuel.
Context {St : Type}.
Variables body body' : ebml_element -> St -> file_handle
                       -> outcome (loop_ctl St * file_handle).
Hypothesis body_mono :
  forall child s h, ended (body child s h) -> body' child s h = body child s h.

Lemma children_mono n m end_off s h :
  (n <= m)%nat ->
  ended (ebml_children body n end_off s h) ->
  ebml_children body' m end_off s h = ebml_children body n end_off s h.
Proof.
  revert m s h. induction n as [|n IH]; intros m s h Hnm He.
  - destruct m; cbn [ebml_children] in *; destruct (end_off <=? file_tell h);
      try reflexivity; exfalso; apply He; reflexivity.
  - destruct m as [|m]; [lia|]. cbn [ebml_children] in *.
    destruct (end_off <=? file_tell h); [reflexivity|].
    destruct (ebml_read_element_header h) as [[child|e] h1]; [|reflexivity].
    assert (Hb : ended (body child s h1)).
    { intros Hb. rewrite Hb in He. apply He. reflexivity. }
    rewrite (body_mono _ _ _ Hb).
    destruct (body child s h1) as [[[s'|s'] h2]| |]; try reflexivity.
    apply IH; [lia|exact He].
Qed.
End ChildrenFuel.

Section ChildrenTotal.
Context {St : Type}.
Variable body : ebml_element -> St -> file_handle -> outcome (loop_ctl St * file_handle).
Variable h0 : file_handle.

Lemma children_total n end_off s h :
  same_file h0 h -> 0 <= fh_pos h ->
  (Z.to_nat (file_size h0 - fh_pos h) < n)%nat ->
  body_lands body h0 (fh_pos h) ->
  exists s' h', ebml_children body n end_off s h = Done (s', h')
                /\ same_file h0 h' /\ fh_pos h <= fh_pos h'.
Proof.
  revert s h. induction n as [|n IH]; intros s h Hs Hp Hn Hb; [lia|].
  cbn [ebml_children]. destruct (end_off <=? file_tell h).
  { exists s, h. repeat split; try apply Hs; lia. }
  destruct (ebml_read_element_header h) as [[child|e] h1] eqn:R.
  - apply read_header_spec in R; [|exact Hp].
    destruct R as (S1 & P1 & Pd & Rg & Sz & En & _).
    pose proof (same_file_size _ _ Hs) as Zs.
    destruct (Hb child s h1) as (c & h2 & Eb & S2 & P2); try lia.
    { eapply same_file_trans; eauto. }
    { rewrite En, Zs. reflexivity. }
    rewrite Eb. destruct c as [s'|s'].
    + destruct (IH s' h2) as (s'' & h' & E' & S' & P'); try assumption; try lia.
      { intros child' t h3 A B C D F. apply Hb; try assumption. lia. }
      exists s'', h'. repeat split; try apply S'; try assumption. lia.
    + exists s', h2. repeat split; try apply S2. lia.
  - apply read_header_spec in R; [|exact Hp].
    destruct R as (S1 & P1 & _).
    exists s, h1. repeat split; try apply (same_file_trans _ _ _ Hs S1). exact P1.
Qed.
End ChildrenTotal.

(** ** Where the readers leave the handle *)

Lemma lands_refl child h : lands child h h.
Proof. split; [apply same_file_refl|auto]. Qed.

Lemma lands_trans child h1 h2 h3 :
  lands child h1 h2 -> lands child h2 h3 -> lands child h1 h3.
Proof. intros [A B] [C D]. split; [eapply same_file_trans; eauto|auto]. Qed.

Lemma seek_data_lands child h e h' :
  file_seek h (data_offset child) = (e, h') -> lands child h h'.
Proof.
  intros E. apply file_seek_spec in E. destruct E as (S & [(_ & _ & P)|(_ & _ & ->)]).
  - split; [exact S|]. intros _. unfold past. lia.
  - apply lands_refl.
Qed.

Lemma read_lands child h n e got h' :
  file_read h n = (e, got, h') -> lands child h h'.
Proof.
  intros E. apply file_read_spec in E. destruct E as (S & P & _).
  split; [exact S|]. unfold past. pose proof (zlen_nonneg got). lia.
Qed.

Lemma skip_lands child h e h' :
  ebml_skip_element h child = (e, h') ->
  0 <= size child ->
  (is_unknown_size child = false -> end_offset child = data_offset child + size child) ->
  lands child h h'.
Proof.
  unfold ebml_skip_element. intros E Hs He.
  destruct (is_unknown_size child).
  - inversion E; subst. apply lands_refl.
  - apply file_seek_spec in E. destruct E as (S & [(_ & _ & P)|(_ & _ & ->)]).
    + split; [exact S|]. intros _. unfold past. specialize (He eq_refl). lia.
    + apply lands_refl.
Qed.

Lemma read_uint_lands child h r h' :
  ebml_read_uint h child = (r, h') -> lands child h h'.
Proof.
  unfold ebml_read_uint. destruct (8 <? size child).
  { intros E; inversion E; subst. apply lands_refl. }
  destruct (file_seek h (data_offset child)) as [e1 h1] eqn:S1.
  apply seek_data_lands in S1.
  destruct (negb (is_ok e1)).
  { intros E; inversion E; subst. exact S1. }
  destruct (size child =? 0).
  { intros E; inversion E; subst. exact S1. }
  destruct (file_read h1 (size child)) as [[e2 buffer] h2] eqn:R2.
  apply (read_lands child) in R2.
  destruct (negb (is_ok e2)); intros E; inversion E; subst;
    eapply lands_trans; eauto.
Qed.

Lemma read_string_lands child h n e stored h' :
  ebml_read_string h child n = (e, stored, h') -> lands child h h'.
Proof.
  unfold ebml_read_string. destruct (n =? 0).
  { intros E; inversion E; subst. apply lands_refl. }
  destruct (n <=? size child).
  { intros E; inversion E; subst. apply lands_refl. }
  destruct (file_seek h (data_offset child)) as [e1 h1] eqn:S1.
  apply seek_data_lands in S1.
  destruct (negb (is_ok e1)).
  { intros E; inversion E; subst. exact S1. }
  destruct (size child =? 0).
  { intros E; inversion E; subst. exact S1. }
  destruct (file_read h1 (size child)) as [[e2 buffer] h2] eqn:R2.
  apply (read_lands child) in R2.
  destruct (negb (is_ok e2)); intros E; inversion E; subst;
    eapply lands_trans; eauto.
Qed.

Lemma read_string_alloc_lands child h r h' :
  ebml_read_string_alloc h child = (r, h') -> lands child h h'.
Proof.
  unfold ebml_read_string_alloc. cbv zeta.
  destruct (ebml_read_string h child _) as [[e stored] h1] eqn:R.
  apply read_string_lands in R.
  destruct (negb (is_ok e)); intros E; inversion E; subst; exact R.
Qed.

Lemma read_binary_lands child h n r h' :
  ebml_read_binary h child n = (r, h') -> lands child h h'.
Proof.
  unfold ebml_read_binary.
  destruct (file_seek h (data_offset child)) as [e1 h1] eqn:S1.
  apply seek_data_lands in S1.
  destruct (negb (is_ok e1)).
  { intros E; inversion E; subst. exact S1. }
  destruct (file_read h1 _) as [[e2 buffer] h2] eqn:R2.
  apply (read_lands child) in R2.
  destruct (negb (is_ok e2)); intros E; inversion E; subst;
    eapply lands_trans; eauto.
Qed.

Lemma read_binary_alloc_lands child h r h' :
  ebml_read_binary_alloc h child = (r, h') -> lands child h h'.
Proof.
  unfold ebml_read_binary_alloc. destruct (size child =? 0).
  { intros E; inversion E; subst. apply lands_refl. }
  destruct (ebml_read_binary h child (size child)) as [[b|e] h1] eqn:R;
    apply read_binary_lands in R; intros E; inversion E; subst; exact R.
Qed.

Lemma read_uid_lands child h uids l h' :
  read_uid h child uids = (l, h') -> lands child h h'.
Proof.
  unfold read_uid. destruct (ebml_read_uint h child) as [[v|e] h1] eqn:R;
    apply read_uint_lands in R; intros E; inversion E; subst; exact R.
Qed.

(** ** The parsers end *)

Lemma rest_from_same h h' p : same_file h h' -> rest_from h' p = rest_from h p.
Proof. intros S. unfold rest_from. rewrite (same_file_size _ _ S). reflexivity. Qed.

Lemma skip_lands' h0 child h e h' :
  child_shape h0 child -> ebml_skip_element h child = (e, h') -> lands child h h'.
Proof.
  intros [Hs He] E. eapply skip_lands; eauto.
  intros U. rewrite U in He. exact He.
Qed.

Lemma snd_skip_lands h0 child h :
  child_shape h0 child -> lands child h (snd (ebml_skip_element h child)).
Proof.
  intros Hc. destruct (ebml_skip_element h child) as [e h'] eqn:E.
  eapply skip_lands'; eauto.
Qed.

(** *** parse_targets *)

Lemma parse_targets_child_lands h0 child tag h :
  child_shape h0 child ->
  exists tag' h', parse_targets_child child tag h = Done (Continue tag', h')
                  /\ lands child h h'.
Proof.
  intros Hc. unfold parse_targets_child.
  repeat match goal with
         | |- context [if ?c then _ else _] => destruct c
         end;
    repeat match goal with
           | |- context [ebml_read_uint ?h ?c] =>
               let E := fresh "E" in
               destruct (ebml_read_uint h c) as [[?|?] ?] eqn:E;
               apply read_uint_lands in E
           | |- context [ebml_read_string_alloc ?h ?c] =>
               let E := fresh "E" in
               destruct (ebml_read_string_alloc h c) as [[?|?] ?] eqn:E;
               apply read_string_alloc_lands in E
           | |- context [read_uid ?h ?c ?l] =>
               let E := fresh "E" in
               destruct (read_uid h c l) as [? ?] eqn:E;
               apply read_uid_lands in E
           end;
    do 2 eexists; (split; [reflexivity|]);
    try (eapply lands_trans; [eassumption|]); apply (snd_skip_lands h0); exact Hc.
Qed.

Lemma body_lands_of {St} (body : ebml_element -> St -> file_handle
                                 -> outcome (loop_ctl St * file_handle)) h0 from :
  (forall child s h1, same_file h0 h1 -> fh_pos h1 = data_offset child ->
                      from + 2 <= data_offset child <= file_size h0 ->
                      child_shape h0 child ->
                      exists c h2, body child s h1 = Done (c, h2) /\ lands child h1 h2) ->
  body_lands body h0 from.
Proof.
  intros Hb child s h1 S P R Sz En.
  destruct (Hb child s h1 S P R (conj Sz En)) as (c & h2 & E & [S2 L]).
  exists c, h2. split; [exact E|]. split; [eapply same_file_trans; eauto|].
  apply L. unfold past. lia.
Qed.

(** A loop over the children of [elem], entered by a seek to its content. *)
Lemma children_after_seek {St} (body : ebml_element -> St -> file_handle
                                       -> outcome (loop_ctl St * file_handle))
      fuel h elem h0 s :
  file_seek h (data_offset elem) = (MKVTAG_OK, h0) ->
  (rest_from h (data_offset elem) < fuel)%nat ->
  (forall child s h1, same_file h h1 -> fh_pos h1 = data_offset child ->
                      data_offset elem + 2 <= data_offset child <= file_size h ->
                      child_shape h child ->
                      exists c h2, body child s h1 = Done (c, h2) /\ lands child h1 h2) ->
  exists s' h', ebml_children body fuel (end_offset elem) s h0 = Done (s', h')
                /\ lands elem h h'.
Proof.
  intros Sk Hf Hb. apply file_seek_spec in Sk.
  destruct Sk as (S0 & [(_ & Hd & P0)|(? & _)]); [|discriminate].
  destruct (children_total body h0 fuel (end_offset elem) s h0) as (s' & h' & E & S' & P').
  - apply same_file_refl.
  - lia.
  - rewrite P0. unfold rest_from in Hf. rewrite (same_file_size _ _ S0). exact Hf.
  - apply body_lands_of. intros child t h1 S1 Pc R C. rewrite P0 in R.
    rewrite (same_file_size _ _ S0) in R.
    destruct (Hb child t h1) as (c & h2 & Eb & L); try assumption.
    + eapply same_file_trans; eauto.
    + destruct C as [C1 C2]. split; [exact C1|].
      rewrite C2, (same_file_size _ _ S0). reflexivity.
    + exists c, h2. auto.
  - exists s', h'. split; [exact E|]. split; [eapply same_file_trans; eauto|].
    intros _. unfold past. lia.
Qed.

Lemma parse_targets_total fuel h elem tag :
  (rest_from h (data_offset elem) < fuel)%nat ->
  exists e tag' h', parse_targets fuel h elem tag = Done (e, tag', h') /\ lands elem h h'.
Proof.
  intros Hf. unfold parse_targets.
  destruct (file_seek h (data_offset elem)) as [e0 h0] eqn:Sk.
  destruct e0; cbn [is_ok negb];
    try (do 3 eexists; split; [reflexivity|]; eapply seek_data_lands; eauto).
  destruct (children_after_seek parse_targets_child fuel h elem h0
              (set_target_type tag MKVTAG_TARGET_ALBUM) Sk Hf)
    as (s' & h' & E & L).
  { intros child s h1 _ _ _ C. destruct (parse_targets_child_lands h child s h1 C)
      as (t' & h2 & Eb & Lb). eauto. }
  rewrite E. cbn [obind]. do 3 eexists. split; [reflexivity|exact L].
Qed.

Lemma parse_targets_mono h elem tag : monotone (fun fuel => parse_targets fuel h elem tag).
Proof.
  intros n m Hnm He. unfold parse_targets in *.
  destruct (file_seek h (data_offset elem)) as [e0 h0].
  destruct (negb (is_ok e0)); [reflexivity|].
  apply obind_ended in He.
  rewrite (children_mono parse_targets_child parse_targets_child
             (fun _ _ _ _ => eq_refl) n m _ _ _ Hnm He).
  reflexivity.
Qed.

(** *** parse_simple_tag *)

Lemma parse_simple_tag_leaf_lands child stag h stag' h' :
  parse_simple_tag_leaf child stag h = (stag', h') -> lands child h h'.
Proof.
  unfold parse_simple_tag_leaf.
  repeat match goal with
         | |- context [if ?c then _ else _] => destruct c
         end;
    repeat match goal with
           | |- context [ebml_read_uint ?h ?c] =>
               let E := fresh "E" in
               destruct (ebml_read_uint h c) as [[?|?] ?] eqn:E;
               apply read_uint_lands in E
           | |- context [ebml_read_string_alloc ?h ?c] =>
               let E := fresh "E" in
               destruct (ebml_read_string_alloc h c) as [[?|?] ?] eqn:E;
               apply read_string_alloc_lands in E
           | |- context [ebml_read_binary_alloc ?h ?c] =>
               let E := fresh "E" in
               destruct (ebml_read_binary_alloc h c) as [[?|?] ?] eqn:E;
               apply read_binary_alloc_lands in E
           end;
    intros X; inversion X; subst; try assumption; apply lands_refl.
Qed.

Lemma parse_simple_tag_eq fuel h elem :
  parse_simple_tag (S fuel) h elem =
  let '(err, h0) := file_seek h (data_offset elem) in
  if negb (is_ok err) then Done (None, h0) else
  '(stag, h1) <~ ebml_children (simple_tag_child fuel) fuel (end_offset elem)
                               (set_is_default zero_simple_tag 1) h0 ;;
  Done (Some stag, h1).
Proof. reflexivity. Qed.

Lemma parse_simple_tag_total fuel :
  forall h elem,
    (rest_from h (data_offset elem) + 1 < fuel)%nat ->
    exists r h', parse_simple_tag fuel h elem = Done (r, h') /\ lands elem h h'.
Proof.
  induction fuel as [|fuel IH]; intros h elem Hf; [lia|].
  rewrite parse_simple_tag_eq.
  destruct (file_seek h (data_offset elem)) as [e0 h0] eqn:Sk.
  destruct e0; cbn [is_ok negb];
    try (do 2 eexists; split; [reflexivity|]; eapply seek_data_lands; eauto).
  destruct (children_after_seek (simple_tag_child fuel) fuel h elem h0
              (set_is_default zero_simple_tag 1) Sk ltac:(lia))
    as (s' & h' & E & L).
  { intros child s h1 S1 Pc R C. unfold simple_tag_child.
    destruct (id child =? MKV_ID_SIMPLE_TAG).
    - destruct (IH h1 child) as (r & h2 & E2 & L2).
      { rewrite (rest_from_same _ _ _ S1). unfold rest_from in *. lia. }
      rewrite E2. cbn [obind].
      destruct r; cbn [obind]; do 2 eexists; (split; [reflexivity|]);
        (eapply lands_trans; [exact L2|]); apply (snd_skip_lands h); exact C.
    - destruct (parse_simple_tag_leaf child s h1) as [s1 h2] eqn:E2.
      apply parse_simple_tag_leaf_lands in E2. cbn [obind].
      do 2 eexists. split; [reflexivity|].
      eapply lands_trans; [exact E2|]. apply (snd_skip_lands h); exact C. }
  rewrite E. cbn [obind]. do 2 eexists. split; [reflexivity|exact L].
Qed.

Lemma parse_simple_tag_mono h elem : monotone (fun fuel => parse_simple_tag fuel h elem).
Proof.
  intros n. revert h elem. induction n as [|n IH]; intros h elem m Hnm He.
  { exfalso. apply He. reflexivity. }
  destruct m as [|m]; [lia|]. cbv beta in *.
  rewrite !parse_simple_tag_eq in *.
  destruct (file_seek h (data_offset elem)) as [e0 h0].
  destruct (negb (is_ok e0)); [reflexivity|].
  apply obind_ended in He.
  rewrite (children_mono (simple_tag_child n) (simple_tag_child m)) with (n := n);
    [reflexivity| |lia|exact He].
  intros child s h1 Hb. unfold simple_tag_child in *.
  destruct (id child =? MKV_ID_SIMPLE_TAG); [|reflexivity].
  apply obind_ended in Hb. apply obind_ended in Hb.
  rewrite (IH h1 child m ltac:(lia) Hb). reflexivity.
Qed.

(** *** parse_tag and mkv_tags_parse *)

Lemma parse_tag_child_lands fuel h0 child tag h :
  child_shape h0 child -> same_file h0 h ->
  (rest_from h0 (data_offset child) + 1 < fuel)%nat ->
  exists c h', parse_tag_child fuel child tag h = Done (c, h') /\ lands child h h'.
Proof.
  intros C S Hf. unfold parse_tag_child.
  destruct (id child =? MKV_ID_TARGETS).
  - destruct (parse_targets_total fuel h child tag) as (e & t' & h1 & E & L).
    { rewrite (rest_from_same _ _ _ S). lia. }
    rewrite E. cbn [obind]. do 2 eexists. split; [reflexivity|].
    eapply lands_trans; [exact L|]. apply (snd_skip_lands h0); exact C.
  - destruct (id child =? MKV_ID_SIMPLE_TAG).
    + destruct (parse_simple_tag_total fuel h child) as (r & h1 & E & L).
      { rewrite (rest_from_same _ _ _ S). lia. }
      rewrite E. cbn [obind].
      destruct r; cbn [obind]; do 2 eexists; (split; [reflexivity|]);
        (eapply lands_trans; [exact L|]); apply (snd_skip_lands h0); exact C.
    + cbn [obind]. do 2 eexists. split; [reflexivity|].
      apply (snd_skip_lands h0); exact C.
Qed.

Lemma parse_tag_child_mono child tag h :
  monotone (fun fuel => parse_tag_child fuel child tag h).
Proof.
  intros n m Hnm He. unfold parse_tag_child in *.
  destruct (id child =? MKV_ID_TARGETS).
  - apply obind_ended in He. apply obind_ended in He.
    rewrite (parse_targets_mono h child tag n m Hnm He). reflexivity.
  - destruct (id child =? MKV_ID_SIMPLE_TAG); [|reflexivity].
    apply obind_ended in He. apply obind_ended in He.
    rewrite (parse_simple_tag_mono h child n m Hnm He). reflexivity.
Qed.

Lemma parse_tag_total fuel h elem :
  (rest_from h (data_offset elem) + 1 < fuel)%nat ->
  exists r h', parse_tag fuel h elem = Done (r, h') /\ lands elem h h'.
Proof.
  intros Hf. unfold parse_tag.
  destruct (file_seek h (data_offset elem)) as [e0 h0] eqn:Sk.
  destruct e0; cbn [is_ok negb];
    try (do 2 eexists; split; [reflexivity|]; eapply seek_data_lands; eauto).
  destruct (children_after_seek (parse_tag_child fuel) fuel h elem h0
              (set_target_type zero_tag MKVTAG_TARGET_ALBUM) Sk ltac:(lia))
    as (s' & h' & E & L).
  { intros child s h1 S1 Pc R C. apply (parse_tag_child_lands fuel h); try assumption.
    unfold rest_from in *. lia. }
  rewrite E. cbn [obind]. do 2 eexists. split; [reflexivity|exact L].
Qed.

Lemma parse_tag_mono h elem : monotone (fun fuel => parse_tag fuel h elem).
Proof.
  intros n m Hnm He. unfold parse_tag in *.
  destruct (file_seek h (data_offset elem)) as [e0 h0].
  destruct (negb (is_ok e0)); [reflexivity|].
  apply obind_ended in He.
  rewrite (children_mono (parse_tag_child n) (parse_tag_child m)) with (n := n);
    [reflexivity| |lia|exact He].
  intros child s h1 Hb. apply (parse_tag_child_mono child s h1 n m Hnm Hb).
Qed.

Lemma mkv_tags_parse_child_mono child coll h :
  monotone (fun fuel => mkv_tags_parse_child fuel child coll h).
Proof.
  intros n m Hnm He. unfold mkv_tags_parse_child in *.
  destruct (id child =? MKV_ID_TAG); [|reflexivity].
  apply obind_ended in He. apply obind_ended in He.
  rewrite (parse_tag_mono h child n m Hnm He). reflexivity.
Qed.

Lemma mkv_tags_parse_total fuel h elem :
  (rest_from h (data_offset elem) + 1 < fuel)%nat ->
  exists r h', mkv_tags_parse fuel h elem = Done (r, h') /\ lands elem h h'.
Proof.
  intros Hf. unfold mkv_tags_parse.
  destruct (file_seek h (data_offset elem)) as [e0 h0] eqn:Sk.
  destruct e0; cbn [is_ok negb];
    try (do 2 eexists; split; [reflexivity|]; eapply seek_data_lands; eauto).
  destruct (children_after_seek (mkv_tags_parse_child fuel) fuel h elem h0
              (mk_collection [] 0) Sk ltac:(lia))
    as (s' & h' & E & L).
  { intros child s h1 S1 Pc R C. unfold mkv_tags_parse_child.
    destruct (id child =? MKV_ID_TAG).
    - destruct (parse_tag_total fuel h1 child) as (r & h2 & E2 & L2).
      { rewrite (rest_from_same _ _ _ S1). unfold rest_from in *. lia. }
      rewrite E2. cbn [obind].
      destruct r; cbn [obind]; do 2 eexists; (split; [reflexivity|]);
        (eapply lands_trans; [exact L2|]); apply (snd_skip_lands h); exact C.
    - cbn [obind]. do 2 eexists. split; [reflexivity|].
      apply (snd_skip_lands h); exact C. }
  rewrite E. cbn [obind]. do 2 eexists. split; [reflexivity|exact L].
Qed.

Lemma mkv_tags_parse_mono h elem : monotone (fun fuel => mkv_tags_parse fuel h elem).
Proof.
  intros n m Hnm He. unfold mkv_tags_parse in *.
  destruct (file_seek h (data_offset elem)) as [e0 h0].
  destruct (negb (is_ok e0)); [reflexivity|].
  apply obind_ended in He.
  rewrite (children_mono (mkv_tags_parse_child n) (mkv_tags_parse_child m)) with (n := n);
    [reflexivity| |lia|exact He].
  intros child s h1 Hb. apply (mkv_tags_parse_child_mono child s h1 n m Hnm Hb).
Qed.

(** *** The SeekHead scan *)

Lemma seek_entry_child_lands h0 child st h :
  child_shape h0 child ->
  exists st' h', seek_entry_child child st h = Done (Continue st', h') /\ lands child h h'.
Proof.
  intros C. unfold seek_entry_child. destruct st as [[a b] c].
  destruct (id child =? MKV_ID_SEEK_ID).
  - destruct (ebml_read_binary h child 4) as [[buf|e] h1] eqn:E;
      apply read_binary_lands in E;
      [destruct (_ && _)|];
      do 2 eexists; (split; [reflexivity|]);
      (eapply lands_trans; [exact E|]); apply (snd_skip_lands h0); exact C.
  - destruct (id child =? MKV_ID_SEEK_POSITION);
      do 2 eexists; (split; [reflexivity|]); apply (snd_skip_lands h0); exact C.
Qed.

Lemma seekhead_child_lands fuel h0 seek_elem found h :
  child_shape h0 seek_elem -> same_file h0 h -> fh_pos h = data_offset seek_elem ->
  0 <= data_offset seek_elem ->
  (rest_from h0 (data_offset seek_elem) < fuel)%nat ->
  exists c h', seekhead_child fuel seek_elem found h = Done (c, h') /\ lands seek_elem h h'.
Proof.
  intros C S P Hd Hf. unfold seekhead_child.
  destruct (negb (id seek_elem =? MKV_ID_SEEK)).
  { do 2 eexists. split; [reflexivity|]. apply (snd_skip_lands h0); exact C. }
  destruct (children_total seek_entry_child h0 fuel (end_offset seek_elem) (0, -1, 0) h)
    as (st & h1 & E & S1 & P1); try assumption; try lia.
  { rewrite P. exact Hf. }
  { apply body_lands_of. intros child t h2 S2 _ _ C2.
    destruct (seek_entry_child_lands h0 child t h2 C2) as (t' & h3 & E3 & L3). eauto. }
  rewrite E. cbn [obind]. destruct st as [[a b] c].
  destruct (_ && _); do 2 eexists; (split; [reflexivity|]);
    (split; [destruct S as [A B]; destruct S1 as [A1 B1]; split; congruence|]);
    intros _; unfold past; lia.
Qed.

Lemma seekhead_child_mono seek_elem found h :
  monotone (fun fuel => seekhead_child fuel seek_elem found h).
Proof.
  intros n m Hnm He. unfold seekhead_child in *.
  destruct (negb (id seek_elem =? MKV_ID_SEEK)); [reflexivity|].
  apply obind_ended in He.
  rewrite (children_mono seek_entry_child seek_entry_child
             (fun _ _ _ _ => eq_refl) n m _ _ _ Hnm He).
  reflexivity.
Qed.

Lemma seekhead_update_total fuel m h off :
  (S (Z.to_nat (file_size h)) < fuel)%nat ->
  ended (mkv_seekhead_update_tags fuel m h off).
Proof.
  intros Hf. unfold mkv_seekhead_update_tags.
  destruct (seekhead_offset m <? 0); [apply ended_done|].
  destruct (file_seek h (seekhead_offset m)) as [e0 h0] eqn:Sk.
  apply file_seek_spec in Sk. destruct Sk as (S0 & [(-> & Ho & P0)|(-> & _ & _)]);
    cbn [is_ok negb]; [|apply ended_done].
  destruct (ebml_read_element_header h0) as [[seekhead|e] h1] eqn:R; [|apply ended_done].
  apply read_header_spec in R; [|lia]. destruct R as (S1 & P1 & Pd & Rg & Sz & En & _).
  destruct (negb (id seekhead =? MKV_ID_SEEKHEAD)); [apply ended_done|].
  pose proof (same_file_size _ _ S0) as Z0.
  destruct (children_total (seekhead_child fuel) h fuel (end_offset seekhead) None h1)
    as (st & h2 & E & S2 & P2).
  - eapply same_file_trans; eauto.
  - lia.
  - unfold rest_from in *. lia.
  - apply body_lands_of. intros child t h3 S3 P3 R3 C3.
    apply (seekhead_child_lands fuel h); try assumption; try lia.
    unfold rest_from. lia.
  - rewrite E. cbn [obind]. destruct st as [[pdo pds]|]; [|apply ended_done].
    destruct (8 <? pds); [apply ended_undefined|].
    destruct (negb (_ =? 0)); [apply ended_done|].
    destruct (file_seek h2 pdo) as [e3 h3]. destruct (negb (is_ok e3)); apply ended_done.
Qed.

Lemma seekhead_update_mono m h off :
  monotone (fun fuel => mkv_seekhead_update_tags fuel m h off).
Proof.
  intros n k Hnk He. unfold mkv_seekhead_update_tags in *.
  destruct (seekhead_offset m <? 0); [reflexivity|].
  destruct (file_seek h (seekhead_offset m)) as [e0 h0].
  destruct (negb (is_ok e0)); [reflexivity|].
  destruct (ebml_read_element_header h0) as [[seekhead|e] h1]; [|reflexivity].
  destruct (negb (id seekhead =? MKV_ID_SEEKHEAD)); [reflexivity|].
  apply obind_ended in He.
  rewrite (children_mono (seekhead_child n) (seekhead_child k)) with (n := n);
    [reflexivity| |lia|exact He].
  intros child s h2 Hb. apply (seekhead_child_mono child s h2 n k Hnk Hb).
Qed.


(** ** Enough fuel *)

Lemma settles_done {A} (a : A) : settles (fun _ => Done a).
Proof.
  split; [intros n m _ _; reflexivity|]. exists O. apply ended_done.
Qed.

Lemma settles_undefined {A} : settles (fun _ => @Undefined A).
Proof.
  split; [intros n m _ _; reflexivity|]. exists O. apply ended_undefined.
Qed.

Lemma settles_of_mono {A} (f : nat -> outcome A) n :
  monotone f -> ended (f n) -> settles f.
Proof. intros Hm He. split; [exact Hm|]. exists n. exact He. Qed.

(** From the fuel that was enough on, the outcome is the same. *)
Lemma settles_stable {A} (f : nat -> outcome A) :
  settles f -> exists n, ended (f n) /\ stable_from f n.
Proof.
  intros (Hm & n & He). exists n. split; [exact He|].
  intros m Hnm. apply Hm; assumption.
Qed.

(** A result computed with some fuel is the result with any more fuel. *)
Lemma settles_from {A} (f : nat -> outcome A) n a :
  settles f -> f n = Done a -> forall m, (n <= m)%nat -> f m = Done a.
Proof.
  intros (Hm & _) E m Hnm. rewrite <- E. apply Hm; [exact Hnm|].
  rewrite E. apply ended_done.
Qed.

Lemma settles_bind {A B} (f : nat -> outcome A) (k : nat -> A -> outcome B) :
  settles f -> (forall a, settles (fun n => k n a)) ->
  settles (fun n => obind (f n) (k n)).
Proof.
  intros (Mf & n1 & E1) Hk. split.
  - intros n m Hnm He. cbv beta in *.
    pose proof (obind_ended _ _ He) as Ef.
    rewrite (Mf n m Hnm Ef).
    destruct (f n) as [a| |]; cbn [obind] in *; try reflexivity.
    destruct (Hk a) as (Mk & _). apply (Mk n m Hnm He).
  - destruct (f n1) as [a| |] eqn:F1.
    + destruct (Hk a) as (Mk & n2 & E2).
      exists (Nat.max n1 n2). cbv beta.
      rewrite (Mf n1 (Nat.max n1 n2)) by (try lia; rewrite F1; apply ended_done).
      rewrite F1. cbn [obind].
      rewrite (Mk n2 (Nat.max n1 n2)) by (try lia; exact E2). exact E2.
    + exfalso. apply E1. reflexivity.
    + exists n1. cbv beta. rewrite F1. apply ended_undefined.
Qed.

Lemma settles_ext {A} (f g : nat -> outcome A) :
  (forall n, f n = g n) -> settles g -> settles f.
Proof.
  intros H (Mg & n & E). split.
  - intros a b Hab He. rewrite !H. apply Mg; [exact Hab|]. rewrite <- H. exact He.
  - exists n. rewrite H. exact E.
Qed.

Lemma seekhead_update_settles m h off :
  settles (fun fuel => mkv_seekhead_update_tags fuel m h off).
Proof.
  apply settles_of_mono with (n := S (S (Z.to_nat (file_size h)))).
  - apply seekhead_update_mono.
  - apply seekhead_update_total. lia.
Qed.

Lemma update_seekhead_settles ctx off :
  settles (fun fuel => update_seekhead fuel ctx off).
Proof.
  unfold update_seekhead.
  apply (settles_bind (fun fuel => mkv_seekhead_update_tags fuel (mkv ctx) (file ctx) off)
                      (fun _ p => let '(_, h) := p in Done (set_file ctx h))).
  - apply seekhead_update_settles.
  - intros [e h]. apply settles_done.
Qed.

Lemma mkv_tags_parse_settles h elem :
  settles (fun fuel => mkv_tags_parse fuel h elem).
Proof.
  apply settles_of_mono with (n := S (S (rest_from h (data_offset elem)))).
  - apply mkv_tags_parse_mono.
  - destruct (mkv_tags_parse_total (S (S (rest_from h (data_offset elem)))) h elem)
      as (r & h' & E & _); [lia|].
    rewrite E. apply ended_done.
Qed.

Lemma read_tags_settles ctx : settles (fun fuel => mkvtag_read_tags fuel ctx).
Proof.
  unfold mkvtag_read_tags.
  destruct (negb (is_open ctx)); [apply settles_done|].
  destruct (cached_tags ctx); [apply settles_done|].
  destruct (tags_offset (mkv ctx) <? 0); [apply settles_done|].
  destruct (file_seek (file ctx) (tags_offset (mkv ctx))) as [e h1].
  destruct (negb (is_ok e)); [apply settles_done|].
  destruct (ebml_read_element_header h1) as [[el|e1] h2]; [|apply settles_done].
  destruct (negb (id el =? MKV_ID_TAGS)); [apply settles_done|].
  apply (settles_bind (fun fuel => mkv_tags_parse fuel h2 el)
           (fun _ p => let '(r, h3) := p in
                       match r with
                       | Err e => Done (Err e, set_file ctx h3)
                       | Ok collection =>
                           Done (Ok collection,
                                 set_cached_tags (set_file ctx h3) (Some collection))
                       end)).
  - apply mkv_tags_parse_settles.
  - intros [[c|e2] h3]; apply settles_done.
Qed.

Lemma try_replace_existing_settles ctx tags_ :
  settles (fun fuel => try_replace_existing_tags fuel ctx tags_).
Proof.
  unfold try_replace_existing_tags.
  destruct (tags_offset (mkv ctx) <? 0); [apply settles_done|].
  destruct (file_seek (file ctx) (tags_offset (mkv ctx))) as [e h1].
  destruct (negb (is_ok e)); [apply settles_done|].
  destruct (ebml_read_element_header h1) as [[el|e1] h2]; [|apply settles_done].
  destruct (existing_slot h2 (tags_offset (mkv ctx)) el) as [available h4].
  destruct (write_tags_at _ _ _ _) as [err ctx1].
  destruct (is_ok err); [|apply settles_done].
  apply (settles_bind (fun fuel => update_seekhead fuel ctx1 (tags_offset (mkv ctx1)))
                      (fun _ ctx2 => Done (MKVTAG_OK, ctx2))).
  - apply update_seekhead_settles.
  - intros c. apply settles_done.
Qed.

Lemma try_replace_void_settles ctx tags_ :
  settles (fun fuel => try_replace_void fuel ctx tags_).
Proof.
  unfold try_replace_void.
  destruct (_ || _); [apply settles_done|].
  destruct (write_tags_at _ _ _ _) as [err ctx1].
  destruct (is_ok err); [|apply settles_done].
  cbv zeta.
  apply (settles_bind
           (fun fuel => update_seekhead fuel
              (set_mkv ctx1 (set_tags_offset (mkv ctx1) (void_offset (mkv ctx1))))
              (tags_offset (mkv (set_mkv ctx1 (set_tags_offset (mkv ctx1)
                                                  (void_offset (mkv ctx1)))))))
           (fun _ ctx3 => Done (MKVTAG_OK, ctx3))).
  - apply update_seekhead_settles.
  - intros c. apply settles_done.
Qed.

Lemma try_append_settles ctx tags_ :
  settles (fun fuel => try_append_tags fuel ctx tags_).
Proof.
  unfold try_append_tags. cbv zeta.
  destruct (build_tags_element tags_) as [tags_buf|e]; [|apply settles_done].
  destruct (if negb (segment_unknown_size (mkv ctx)) then _ else _) as [err ctx1].
  destruct (negb (is_ok err)); [apply settles_done|].
  destruct (file_seek _ _) as [e1 h1].
  destruct (negb (is_ok e1)); [apply settles_done|].
  destruct (file_write h1 tags_buf) as [e2 h2].
  destruct (negb (is_ok e2)); [apply settles_done|].
  destruct (negb (is_ok (file_sync h2))); [apply settles_done|].
  match goal with
  | |- settles (fun fuel => obind (update_seekhead fuel ?c ?o) ?k) =>
      apply (settles_bind (fun fuel => update_seekhead fuel c o) (fun _ => k))
  end.
  - apply update_seekhead_settles.
  - intros c. apply settles_done.
Qed.

Lemma write_tags_settles ctx tags_ :
  settles (fun fuel => mkvtag_write_tags fuel ctx tags_).
Proof.
  unfold mkvtag_write_tags.
  destruct tags_ as [tags_|]; [|apply settles_done].
  destruct (negb (is_open ctx)); [apply settles_done|].
  destruct (negb (is_writable ctx)); [apply settles_done|].
  cbv zeta.
  destruct tags_ as [tags_|]; [|apply settles_undefined].
  set (ctx0 := set_cached_tags ctx None).
  apply (settles_bind
           (fun fuel => if 0 <=? tags_offset (mkv ctx0)
                        then '(err, c) <~ try_replace_existing_tags fuel ctx0 tags_ ;;
                             Done (is_ok err, c)
                        else Done (false, ctx0))
           (fun fuel p => let '(ok1, ctx1) := p in
                          if ok1 then Done (file_sync (file ctx1), ctx1) else
                          '(err, ctx2) <~ try_replace_void fuel ctx1 tags_ ;;
                          if is_ok err then Done (file_sync (file ctx2), ctx2)
                          else try_append_tags fuel ctx2 tags_)).
  - destruct (0 <=? tags_offset (mkv ctx0)); [|apply settles_done].
    apply (settles_bind (fun fuel => try_replace_existing_tags fuel ctx0 tags_)
                        (fun _ p => let '(err, c) := p in Done (is_ok err, c))).
    + apply try_replace_existing_settles.
    + intros [e c]. apply settles_done.
  - intros [ok1 ctx1]. destruct ok1; [apply settles_done|].
    apply (settles_bind (fun fuel => try_replace_void fuel ctx1 tags_)
             (fun fuel p => let '(err, ctx2) := p in
                            if is_ok err then Done (file_sync (file ctx2), ctx2)
                            else try_append_tags fuel ctx2 tags_)).
    + apply try_replace_void_settles.
    + intros [err ctx2]. destruct (is_ok err); [apply settles_done|].
      apply try_append_settles.
Qed.

Lemma set_tag_string_settles ctx name value :
  settles (fun fuel => mkvtag_set_tag_string fuel ctx name value).
Proof.
  unfold mkvtag_set_tag_string.
  destruct name as [name|]; [|apply settles_done].
  destruct (negb (is_open ctx)); [apply settles_done|].
  destruct (negb (is_writable ctx)); [apply settles_done|].
  apply (settles_bind (fun fuel => mkvtag_read_tags fuel ctx)
           (fun fuel p => let '(existing, ctx1) := p in
                          mkvtag_write_tags fuel ctx1
                            (Some (Built (working_collection existing name value))))).
  - apply read_tags_settles.
  - intros [existing ctx1]. apply write_tags_settles.
Qed.


Lemma read_tag_string_settles ctx name size :
  settles (fun fuel => mkvtag_read_tag_string fuel ctx name size).
Proof.
  unfold mkvtag_read_tag_string.
  destruct name as [name|]; [|apply settles_done].
  destruct (size =? 0); [apply settles_done|].
  match goal with
  | |- settles (fun fuel => obind (mkvtag_read_tags fuel ctx) ?k) =>
      apply (settles_bind (fun fuel => mkvtag_read_tags fuel ctx) (fun _ => k))
  end.
  - apply read_tags_settles.
  - intros [[c|e] ctx1]; [|apply settles_done].
    destruct (find_tag_value (tags c) name); [|apply settles_done].
    destruct (str_copy size _) as [n buffer].
    destruct (n <? 0); apply settles_done.
Qed.

(** ** The codes the write path returns *)

Lemma seek_code h off e h' : file_seek h off = (e, h') -> not_tag_not_found e.
Proof.
  unfold file_seek. destruct (off <? 0); intros E; inversion E; discriminate.
Qed.

Lemma read_code h n e got h' : file_read h n = (e, got, h') -> not_tag_not_found e.
Proof.
  unfold file_read. cbv zeta. destruct (_ =? _); intros E; inversion E; discriminate.
Qed.

Lemma write_code h buf e h' : file_write h buf = (e, h') -> not_tag_not_found e.
Proof.
  unfold file_write. destruct (negb _); intros E; inversion E; discriminate.
Qed.

Lemma id_decode_code data e : ebml_id_decode data = Err e -> not_tag_not_found e.
Proof.
  unfold ebml_id_decode. destruct data; [intros E; inversion E; discriminate|].
  cbv zeta. repeat destruct (_ : bool); intros E; inversion E; discriminate.
Qed.

Lemma vint_decode_code data e : ebml_vint_decode data = Err e -> not_tag_not_found e.
Proof.
  unfold ebml_vint_decode. destruct data; [intros E; inversion E; discriminate|].
  cbv zeta. repeat destruct (_ : bool); intros E; inversion E; discriminate.
Qed.

Lemma read_header_code h e h' :
  ebml_read_element_header h = (Err e, h') -> not_tag_not_found e.
Proof.
  unfold ebml_read_element_header.
  destruct (file_read h 1) as [[e1 b] h1].
  destruct (negb (is_ok e1)); [intros E; inversion E; discriminate|].
  destruct (_ || _); [intros E; inversion E; discriminate|].
  destruct (if 1 <? _ then _ else _) as [[e2 rest] h2].
  destruct (negb (is_ok e2)); [intros E; inversion E; discriminate|].
  destruct (ebml_id_decode _) as [[elem_id ?]|e3] eqn:D1.
  2:{ intros E; inversion E; subst. eapply id_decode_code; eauto. }
  destruct (file_read h2 1) as [[e4 sb] h3].
  destruct (negb (is_ok e4)); [intros E; inversion E; discriminate|].
  destruct (_ || _); [intros E; inversion E; discriminate|].
  destruct (if 1 <? _ then _ else _) as [[e5 srest] h4].
  destruct (negb (is_ok e5)); [intros E; inversion E; discriminate|].
  destruct (ebml_vint_decode _) as [[sz ?]|e6] eqn:D2.
  - intros E; inversion E.
  - intros E; inversion E; subst. eapply vint_decode_code; eauto.
Qed.

Lemma encode_fixed_code v n e :
  ebml_vint_encode_fixed v n = Err e -> not_tag_not_found e.
Proof.
  unfold ebml_vint_encode_fixed. repeat destruct (_ : bool); intros E; inversion E; discriminate.
Qed.

Lemma void_loop_code n l buf total e :
  void_size_loop n l buf total = Err e -> not_tag_not_found e.
Proof.
  revert l. induction n as [|n IH]; intros l; cbn [void_size_loop].
  - intros E; inversion E; discriminate.
  - cbv zeta. destruct (_ || _); [|apply IH].
    destruct (ebml_vint_encode_fixed _ _) eqn:F; cbn [rbind]; intros E; inversion E; subst.
    eapply encode_fixed_code; eauto.
Qed.

Lemma void_code buf total e :
  ebml_write_void_element buf total = Err e -> not_tag_not_found e.
Proof.
  unfold ebml_write_void_element. destruct (_ <? _).
  - intros E; inversion E; discriminate.
  - apply void_loop_code.
Qed.

Lemma build_tags_code tags_ e : build_tags_element tags_ = Err e -> not_tag_not_found e.
Proof.
  unfold build_tags_element, mkv_tags_serialize. rewrite serialize_tag_list_closed.
  destruct (forallb _ _); cbn [rbind].
  - rewrite master_header_closed by (try discriminate; apply zlen_nonneg).
    destruct (fits_vint _); cbn [rbind]; intros E; inversion E; discriminate.
  - intros E; inversion E; discriminate.
Qed.

Lemma write_tags_at_code ctx off av tags_ e c :
  write_tags_at ctx off av tags_ = (e, c) -> not_tag_not_found e.
Proof.
  unfold write_tags_at.
  destruct (build_tags_element tags_) as [tags_buf|e0] eqn:B.
  2:{ intros E; inversion E; subst. eapply build_tags_code; eauto. }
  destruct (_ <? _); [intros E; inversion E; discriminate|].
  destruct (file_seek _ _) as [e1 h1] eqn:S1. apply seek_code in S1.
  destruct (negb (is_ok e1)); [intros E; inversion E; subst; exact S1|].
  destruct (file_write h1 tags_buf) as [e2 h2] eqn:W2. apply write_code in W2.
  destruct (negb (is_ok e2)); [intros E; inversion E; subst; exact W2|].
  cbv zeta. destruct (2 <=? _).
  - destruct (ebml_write_void_element _ _) as [void_buf|e3] eqn:V.
    + destruct (file_write h2 void_buf) as [e4 h3] eqn:W4. apply write_code in W4.
      intros E; inversion E; subst; exact W4.
    + intros E; inversion E; subst. eapply void_code; eauto.
  - destruct (_ =? 1).
    + destruct (file_write h2 [0]) as [e4 h3] eqn:W4. apply write_code in W4.
      intros E; inversion E; subst; exact W4.
    + intros E; inversion E; discriminate.
Qed.

Lemma try_replace_existing_code fuel ctx tags_ e c :
  try_replace_existing_tags fuel ctx tags_ = Done (e, c) -> not_tag_not_found e.
Proof.
  unfold try_replace_existing_tags.
  destruct (_ <? 0); [intros E; inversion E; discriminate|].
  destruct (file_seek _ _) as [e1 h1] eqn:S1. apply seek_code in S1.
  destruct (negb (is_ok e1)); [intros E; inversion E; subst; exact S1|].
  destruct (ebml_read_element_header h1) as [[el|e2] h2] eqn:R.
  2:{ intros E; inversion E; subst. eapply read_header_code; eauto. }
  destruct (existing_slot _ _ _) as [available h4].
  destruct (write_tags_at _ _ _ _) as [err ctx1] eqn:W. apply write_tags_at_code in W.
  destruct (is_ok err).
  - destruct (update_seekhead _ _ _); cbn [obind]; intros E; inversion E; discriminate.
  - intros E; inversion E; subst; exact W.
Qed.

Lemma try_replace_void_code fuel ctx tags_ e c :
  try_replace_void fuel ctx tags_ = Done (e, c) -> not_tag_not_found e.
Proof.
  unfold try_replace_void.
  destruct (_ || _); [intros E; inversion E; discriminate|].
  destruct (write_tags_at _ _ _ _) as [err ctx1] eqn:W. apply write_tags_at_code in W.
  destruct (is_ok err).
  - cbv zeta. destruct (update_seekhead _ _ _); cbn [obind]; intros E; inversion E; discriminate.
  - intros E; inversion E; subst; exact W.
Qed.

Lemma patch_segment_size_code ctx tags_buf e c :
  patch_segment_size ctx tags_buf = (e, c) -> not_tag_not_found e.
Proof.
  unfold patch_segment_size. cbv zeta.
  destruct (file_seek _ _) as [e1 h1] eqn:S1. apply seek_code in S1.
  destruct (negb (is_ok e1)); [intros E; inversion E; subst; exact S1|].
  destruct (file_read h1 1) as [[e2 fb] h2] eqn:R2. apply read_code in R2.
  destruct (negb (is_ok e2)); [intros E; inversion E; subst; exact R2|].
  destruct (ebml_vint_encode_fixed _ _); [|intros E; inversion E; discriminate].
  destruct (file_seek h2 _) as [e3 h3] eqn:S3. apply seek_code in S3.
  destruct (negb (is_ok e3)); [intros E; inversion E; subst; exact S3|].
  destruct (file_write h3 _) as [e4 h4] eqn:W4. apply write_code in W4.
  destruct (negb (is_ok e4)); intros E; inversion E; subst; [exact W4|discriminate].
Qed.

Lemma try_append_code fuel ctx tags_ e c :
  try_append_tags fuel ctx tags_ = Done (e, c) -> not_tag_not_found e.
Proof.
  unfold try_append_tags. cbv zeta.
  destruct (build_tags_element tags_) as [tags_buf|e0] eqn:B.
  2:{ intros E; inversion E; subst. eapply build_tags_code; eauto. }
  destruct (if negb (segment_unknown_size (mkv ctx)) then _ else _) as [err ctx1] eqn:P.
  assert (Hp : not_tag_not_found err).
  { destruct (negb (segment_unknown_size (mkv ctx))).
    - eapply patch_segment_size_code; eauto.
    - inversion P; discriminate. }
  destruct (negb (is_ok err)); [intros E; inversion E; subst; exact Hp|].
  destruct (file_seek _ _) as [e1 h1] eqn:S1. apply seek_code in S1.
  destruct (negb (is_ok e1)); [intros E; inversion E; subst; exact S1|].
  destruct (file_write h1 tags_buf) as [e2 h2] eqn:W2. apply write_code in W2.
  destruct (negb (is_ok e2)); [intros E; inversion E; subst; exact W2|].
  unfold file_sync. cbn [is_ok negb].
  destruct (update_seekhead _ _ _); cbn [obind]; intros E; inversion E; discriminate.
Qed.

Lemma write_tags_code fuel ctx tags_ e c :
  mkvtag_write_tags fuel ctx tags_ = Done (e, c) -> not_tag_not_found e.
Proof.
  unfold mkvtag_write_tags.
  destruct tags_ as [tags_|]; [|intros E; inversion E; discriminate].
  destruct (negb (is_open ctx)); [intros E; inversion E; discriminate|].
  destruct (negb (is_writable ctx)); [intros E; inversion E; discriminate|].
  cbv zeta. unfold file_sync.
  destruct tags_ as [tags_|]; [|discriminate].
  destruct (if 0 <=? _ then _ else _) as [[ok1 ctx1]| |]; cbn [obind];
    try discriminate.
  destruct ok1; [intros E; inversion E; discriminate|].
  destruct (try_replace_void fuel ctx1 tags_) as [[err ctx2]| |]; cbn [obind];
    try discriminate.
  destruct (is_ok err); [intros E; inversion E; discriminate|].
  apply try_append_code.
Qed.

(* ------------------------------------------------------------------ *)
(** * Writes inside the file *)

Lemma patch_length data p bs :
  0 <= p -> p + zlen bs <= zlen data -> zlen (patch data p bs) = zlen data.
Proof.
  unfold patch, zlen. intros Hp Hl.
  rewrite !length_app, length_firstn, length_skipn. lia.
Qed.

Lemma patch_nil data p : patch data p [] = data.
Proof.
  unfold patch. cbn [app length]. rewrite Nat.add_0_r. apply firstn_skipn.
Qed.

Lemma patch_app data p a b :
  0 <= p -> p + zlen a <= zlen data ->
  patch (patch data p a) (p + zlen a) b = patch data p (a ++ b).
Proof.
  unfold patch, zlen. intros Hp Hl.
  assert (L : length (firstn (Z.to_nat p) data) = Z.to_nat p).
  { rewrite length_firstn. lia. }
  replace (Z.to_nat (p + Z.of_nat (length a))) with (Z.to_nat p + length a)%nat by lia.
  rewrite (app_assoc (firstn _ data) a).
  rewrite firstn_app.
  rewrite length_app, L.
  replace (Z.to_nat p + length a - (Z.to_nat p + length a))%nat with O by lia.
  rewrite firstn_O, app_nil_r.
  rewrite firstn_all2 by (rewrite length_app, L; lia).
  rewrite skipn_app, length_app, L.
  rewrite (skipn_all2 (firstn _ data ++ a)) by (rewrite length_app, L; lia).
  cbn [app].
  replace (Z.to_nat p + length a + length b - (Z.to_nat p + length a))%nat
    with (length b) by lia.
  rewrite skipn_skipn.
  rewrite <- !app_assoc. rewrite length_app.
  do 3 f_equal. f_equal. lia.
Qed.

Lemma file_write_inside h bs :
  fh_writable h = true -> 0 <= fh_pos h -> fh_pos h <= file_size h ->
  file_write h bs
  = (MKVTAG_OK, mk_file (patch (fh_data h) (fh_pos h) bs) (fh_pos h + zlen bs) true).
Proof.
  intros Hw Hp Hl. unfold file_write, patch. rewrite Hw. cbn [negb].
  unfold file_size, zlen in Hl.
  replace (Z.to_nat (fh_pos h) - length (fh_data h))%nat with O by lia.
  cbn [repeat]. rewrite app_nil_r. reflexivity.
Qed.

(** The test of the loop of [ebml_write_void_element]: the size needs no
    more than [n] bytes. *)
Lemma vint_size_le c n :
  1 <= n <= 8 -> 0 <= c <= EBML_VINT_MAX_8 ->
  (ebml_vint_size c =? n) || (ebml_vint_size c <? n) = (c <=? vint_max n).
Proof.
  intros Hn Hc.
  assert (n = 1 \/ n = 2 \/ n = 3 \/ n = 4 \/ n = 5 \/ n = 6 \/ n = 7 \/ n = 8) as H by lia.
  unfold ebml_vint_size.
  cbv [EBML_VINT_MAX_1 EBML_VINT_MAX_2 EBML_VINT_MAX_3 EBML_VINT_MAX_4
       EBML_VINT_MAX_5 EBML_VINT_MAX_6 EBML_VINT_MAX_7 EBML_VINT_MAX_8] in *.
  repeat destruct H as [H|H]; subst n; cbv [vint_max Z.eqb Pos.eqb
       EBML_VINT_MAX_1 EBML_VINT_MAX_2 EBML_VINT_MAX_3 EBML_VINT_MAX_4
       EBML_VINT_MAX_5 EBML_VINT_MAX_6 EBML_VINT_MAX_7 EBML_VINT_MAX_8];
    repeat match goal with
           | |- context [?a <=? ?b] => destruct (Z.leb_spec a b); try lia
           end; reflexivity.
Qed.

Lemma vint_max_range n : 1 <= n <= 8 -> 126 <= vint_max n <= EBML_VINT_MAX_8.
Proof.
  intros Hn.
  assert (n = 1 \/ n = 2 \/ n = 3 \/ n = 4 \/ n = 5 \/ n = 6 \/ n = 7 \/ n = 8) as H by lia.
  repeat destruct H as [H|H]; subst n; vm_compute; split; discriminate.
Qed.

Lemma void_size_loop_ok k n buf total :
  Z.of_nat k + n = 9 -> 1 <= n <= 8 ->
  0 <= total - 1 - n <= EBML_VINT_MAX_8 ->
  exists b, void_size_loop k n buf total = Ok (buf ++ b) /\ zlen b = total - 1.
Proof.
  revert n. induction k as [|k IH]; intros n Hk Hn Hc; [lia|].
  cbn [void_size_loop]. cbv zeta.
  assert (W : wrap64 (total - 1 - n) = total - 1 - n).
  { apply wrap64_small. unfold EBML_VINT_MAX_8 in Hc. lia. }
  rewrite W. rewrite vint_size_le by assumption.
  destruct (Z.leb_spec (total - 1 - n) (vint_max n)) as [Hle|Hgt].
  - rewrite encode_fixed_ok by lia. cbn [rbind].
    eexists. split; [reflexivity|].
    rewrite zlen_app. unfold zlen at 1 2.
    rewrite or_first_length, store_be_length, repeat_length. lia.
  - pose proof (vint_max_range n Hn) as R.
    assert (n <> 8).
    { intros ->. change (vint_max 8) with EBML_VINT_MAX_8 in Hgt. lia. }
    apply IH; lia.
Qed.

Lemma void_element_ok buf total :
  2 <= total <= EBML_VINT_MAX_8 + 2 ->
  exists b, ebml_write_void_element buf total = Ok (buf ++ b) /\ zlen b = total.
Proof.
  intros Ht. unfold ebml_write_void_element.
  destruct (Z.ltb_spec total 2); [lia|].
  destruct (void_size_loop_ok 8 1 (buf ++ [EBML_ID_VOID]) total) as (b & E & L);
    [reflexivity|lia|lia|].
  exists (EBML_ID_VOID :: b). rewrite E, <- app_assoc. split; [reflexivity|].
  rewrite zlen_cons. lia.
Qed.

(** ** The slot and the SeekHead update *)

Lemma peek_same h r h' :
  ebml_peek_element_header h = (r, h') -> 0 <= fh_pos h -> same_file h h'.
Proof.
  unfold ebml_peek_element_header. cbv zeta.
  destruct (ebml_read_element_header h) as [r1 h1] eqn:R. intros E Hp.
  inversion E; subst. apply read_header_spec in R; [|exact Hp].
  destruct R as (S1 & _).
  destruct (file_seek h1 (file_tell h)) as [e2 h2] eqn:Sk. cbn [snd].
  apply file_seek_spec in Sk. destruct Sk as (S2 & _).
  eapply same_file_trans; eauto.
Qed.

Lemma existing_slot_same h2 off el available h4 :
  existing_slot h2 off el = (available, h4) -> same_file h2 h4.
Proof.
  unfold existing_slot. cbv zeta.
  destruct (file_seek h2 (end_offset el)) as [e h3] eqn:Sk.
  apply file_seek_spec in Sk. destruct Sk as (S3 & [(-> & Ho & P3)|(-> & _ & _)]);
    cbn [is_ok].
  - destruct (ebml_peek_element_header h3) as [[next|e1] h5] eqn:Pk;
      apply peek_same in Pk; try lia.
    + destruct (_ =? _); intros E; inversion E; subst; eapply same_file_trans; eauto.
    + intros E; inversion E; subst; eapply same_file_trans; eauto.
  - intros E; inversion E; subst. exact S3.
Qed.

(** What [write_tags_at] does when the element fits a slot inside the file:
    the slot is rewritten, the element first and then the padding. *)
Lemma write_tags_at_fits ctx off S tags_ tags_buf :
  fh_writable (file ctx) = true ->
  0 <= off -> off + S <= file_size (file ctx) ->
  S <= EBML_VINT_MAX_8 + 2 ->
  build_tags_element tags_ = Ok tags_buf ->
  zlen tags_buf <= S ->
  exists padding,
    zlen padding = S - zlen tags_buf
    /\ (padding = [] \/ padding = [0]
        \/ ebml_write_void_element [] (S - zlen tags_buf) = Ok padding)
    /\ write_tags_at ctx off S tags_
       = (MKVTAG_OK,
          set_file ctx (mk_file (patch (fh_data (file ctx)) off (tags_buf ++ padding))
                                (off + S) true)).
Proof.
  intros Hw Ho Hs Hm B Hfit. unfold write_tags_at. rewrite B.
  pose proof (zlen_nonneg tags_buf) as Hn.
  destruct (Z.ltb_spec S (zlen tags_buf)); [lia|].
  rewrite file_seek_ok by exact Ho. cbn [is_ok negb].
  rewrite file_write_inside; cbn [set_pos fh_writable fh_pos fh_data];
    [|exact Hw|exact Ho|unfold file_size in *; cbn [fh_data set_pos]; lia].
  cbn [is_ok negb]. cbv zeta.
  assert (W : wrap64 (S - zlen tags_buf) = S - zlen tags_buf).
  { apply wrap64_small. unfold EBML_VINT_MAX_8 in Hm. lia. }
  rewrite W.
  assert (L1 : zlen (patch (fh_data (file ctx)) off tags_buf) = zlen (fh_data (file ctx))).
  { apply patch_length; unfold file_size in Hs; lia. }
  destruct (Z.leb_spec 2 (S - zlen tags_buf)) as [H2|H2].
  - destruct (void_element_ok [] (S - zlen tags_buf)) as (b & E & L); [lia|].
    cbn [app] in E. rewrite E. exists b. split; [exact L|]. split; [auto|].
    rewrite file_write_inside; cbn [fh_writable fh_pos fh_data];
      [|reflexivity|lia|unfold file_size in *; cbn [fh_data set_pos]; lia].
    rewrite patch_app by (unfold file_size in Hs; lia).
    do 3 f_equal. lia.
  - destruct (Z.eqb_spec (S - zlen tags_buf) 1) as [H1|H1].
    + exists [0]. split; [rewrite H1; reflexivity|]. split; [auto|].
      rewrite file_write_inside; cbn [fh_writable fh_pos fh_data];
        [|reflexivity|lia|unfold file_size in *; cbn [fh_data set_pos]; lia].
      rewrite patch_app by (unfold file_size in Hs; lia).
      do 3 f_equal. change (zlen [0]) with 1. lia.
    + exists []. split; [change (zlen (@nil Z)) with 0; lia|]. split; [auto|].
      rewrite app_nil_r. do 3 f_equal. lia.
Qed.


(* ------------------------------------------------------------------ *)
(** * The copy of the existing collection *)

Lemma tag_plain_add t s :
  tag_plain t = true -> simple_tag_plain s = true ->
  tag_plain (set_simple_tags t (simple_tags t ++ [s])) = true.
Proof.
  unfold tag_plain. cbn [set_simple_tags edition_uids chapter_uids attachment_uids simple_tags].
  destruct (edition_uids t), (chapter_uids t), (attachment_uids t); try discriminate.
  intros Ht Hs. rewrite forallb_app, Ht. cbn [forallb]. rewrite Hs. reflexivity.
Qed.

Lemma add_simple_plain t name value :
  tag_plain t = true -> tag_plain (mkvtag_tag_add_simple t name value) = true.
Proof.
  intros Ht. destruct name as [n|]; cbn [mkvtag_tag_add_simple]; [|exact Ht].
  apply tag_plain_add; [exact Ht|reflexivity].
Qed.

Lemma copy_simple_tag_plain album name value t s :
  tag_plain t = true -> tag_plain (copy_simple_tag album name value t s) = true.
Proof.
  intros Ht. unfold copy_simple_tag.
  destruct (album && name_matches s name).
  - destruct value; [apply add_simple_plain|]; exact Ht.
  - apply tag_plain_add; [exact Ht|]. destruct (st_language s); reflexivity.
Qed.

Lemma fold_copy_plain album name value l t :
  tag_plain t = true ->
  tag_plain (fold_left (copy_simple_tag album name value) l t) = true.
Proof.
  revert t. induction l as [|s l IH]; intros t Ht; cbn [fold_left]; [exact Ht|].
  apply IH. apply copy_simple_tag_plain. exact Ht.
Qed.

Lemma copy_tag_plain name value src : tag_plain (copy_tag name value src) = true.
Proof.
  unfold copy_tag. cbv zeta. apply fold_copy_plain.
  destruct (target_type_str src), (0 <? zlen (track_uids src)); reflexivity.
Qed.

Lemma add_to_first_album_plain l name value l' :
  forallb tag_plain l = true -> add_to_first_album l name value = Some l' ->
  forallb tag_plain l' = true.
Proof.
  revert l'. induction l as [|t l IH]; intros l' Hl; cbn [add_to_first_album]; [discriminate|].
  cbn [forallb] in Hl. apply andb_prop in Hl. destruct Hl as [Ht Hl].
  destruct (target_type t =? MKVTAG_TARGET_ALBUM).
  - intros E. injection E as <-. cbn [forallb].
    apply andb_true_intro. split; [exact (add_simple_plain t (Some name) value Ht)|exact Hl].
  - destruct (add_to_first_album l name value) as [r|]; cbn [option_map]; [|discriminate].
    intros E. injection E as <-. cbn [forallb].
    apply andb_true_intro. split; [exact Ht|apply IH; [exact Hl|reflexivity]].
Qed.

(** Whatever the existing collection, every tag of the collection
    [mkvtag_set_tag_string] writes is plain. *)
Lemma working_collection_plain existing name value :
  forallb tag_plain (tags (working_collection existing name value)) = true.
Proof.
  unfold working_collection. destruct existing as [existing|e].
  - cbv zeta.
    match goal with
    | |- context [fold_left ?f ?l ?c0] =>
        assert (H : forallb tag_plain (tags (fold_left f l c0)) = true)
    end.
    { assert (H0 : forallb tag_plain (tags mkvtag_collection_create) = true) by reflexivity.
      revert H0. generalize mkvtag_collection_create.
      induction (tags existing) as [|t l IH]; intros c Hc; cbn [fold_left]; [exact Hc|].
      apply IH. cbn [tags]. rewrite forallb_app, Hc. cbn [forallb].
      rewrite copy_tag_plain. reflexivity. }
    destruct value as [v|]; [|exact H].
    destruct (found_anywhere existing name); [exact H|].
    destruct (add_to_first_album _ name (Some v)) as [l|] eqn:A.
    + cbn [tags]. eapply add_to_first_album_plain; eauto.
    + cbn [tags]. rewrite forallb_app, H. reflexivity.
  - destruct value; reflexivity.
Qed.

(* ------------------------------------------------------------------ *)
(** * Removing a tag *)

(** C10.  On an open writable context, [mkvtag_remove_tag] is
    [mkvtag_set_tag_string] with a NULL value; whenever it returns, the code
    returned is not TagNotFound, and it is the result of the planner
    [mkvtag_write_tags] run on the working collection built from what
    [mkvtag_read_tags] gave, whether or not a simple tag of that name
    exists, a collection the call built itself; and it does return once the
    fuel is enough: from some fuel on the run is not cut short and always
    ends the same way.  (Allocation is
    taken to succeed, as everywhere in the model.) *)
Theorem remove_tag_never_not_found (ctx : mkvtag_context) (name : cstring) :
  is_open ctx = true ->
  is_writable ctx = true ->
  (forall fuel, mkvtag_remove_tag fuel ctx (Some name)
                = mkvtag_set_tag_string fuel ctx (Some name) None)
  /\ (forall fuel e c,
        mkvtag_remove_tag fuel ctx (Some name) = Done (e, c) ->
        e <> MKVTAG_ERR_TAG_NOT_FOUND
        /\ exists existing ctx1,
             mkvtag_read_tags fuel ctx = Done (existing, ctx1)
             /\ mkvtag_write_tags fuel ctx1
                  (Some (Built (working_collection existing name None)))
                = Done (e, c))
  /\ (exists n, mkvtag_remove_tag n ctx (Some name) <> OutOfFuel
                /\ forall m, (n <= m)%nat ->
                     mkvtag_remove_tag m ctx (Some name)
                     = mkvtag_remove_tag n ctx (Some name)).
Proof.
  intros Hopen Hw. split; [reflexivity|]. split.
  - intros fuel e c. unfold mkvtag_remove_tag, mkvtag_set_tag_string.
    rewrite Hopen, Hw. cbn [negb].
    destruct (mkvtag_read_tags fuel ctx) as [[existing ctx1]| |] eqn:R;
      cbn [obind]; try discriminate.
    intros E. split.
    + exact (write_tags_code _ _ _ _ _ E).
    + exists existing, ctx1. split; [reflexivity|exact E].
  - destruct (settles_stable _ (set_tag_string_settles ctx (Some name) None)) as [n [En Sn]].
    exists n. split; [exact En|exact Sn].
Qed.

Lemma remove_tag_never_not_found_witness :
  is_open artist_ctx = true
  /\ is_writable artist_ctx = true
  /\ (forall fuel e c,
        mkvtag_remove_tag fuel artist_ctx (Some str_TITLE) = Done (e, c) ->
        e <> MKVTAG_ERR_TAG_NOT_FOUND)
  /\ exists c, mkvtag_remove_tag 200 artist_ctx (Some str_TITLE) = Done (MKVTAG_OK, c).
Proof.
  assert (Ho : is_open artist_ctx = true) by (vm_compute; reflexivity).
  assert (Hw : is_writable artist_ctx = true) by (vm_compute; reflexivity).
  split; [exact Ho|]. split; [exact Hw|]. split.
  - intros fuel e c E.
    exact (proj1 (proj1 (proj2 (remove_tag_never_not_found artist_ctx str_TITLE Ho Hw))
                   fuel e c E)).
  - eexists. vm_compute. reflexivity.
Defined.
(* ------------------------------------------------------------------ *)
(** * The order of the simple tags read *)

(** C2.  The code at the failing input: the Tags element holds one Tag whose
    SimpleTag children are, in file order, TITLE and ARTIST, the second with
    the nested children a and b, in file order.  For every fuel from 100 on,
    [mkv_tags_parse] gives the collection with the simple tags in the
    opposite order, ARTIST first, and the nested ones too, b first. *)
Theorem mkv_tags_parse_reverses_order :
  fh_data ordered_handle
  = [18; 84; 195; 103; 195; 115; 115; 192; 99; 192; 132; 104; 202; 129; 50;
     103; 200; 142; 69; 163; 133; 84; 73; 84; 76; 69; 68; 135; 131; 111; 108; 100;
     103; 200; 165; 69; 163; 134; 65; 82; 84; 73; 83; 84; 68; 135; 131; 110; 101; 119;
     103; 200; 136; 69; 163; 129; 97; 68; 135; 129; 97;
     103; 200; 136; 69; 163; 129; 98; 68; 135; 129; 98]
  /\ ebml_read_element_header ordered_handle = (Ok ordered_element, set_pos ordered_handle 5)
  /\ (forall fuel, (100 <= fuel)%nat ->
        mkv_tags_parse fuel (set_pos ordered_handle 5) ordered_element
        = Done (Ok (mirror_collection ordered_collection), set_pos ordered_handle 72))
  /\ simple_tag_names (mirror_collection ordered_collection)
     = [[Some str_ARTIST; Some str_TITLE]]
  /\ nested_names (mirror_collection ordered_collection)
     = [[[Some str_b; Some str_a]; []]].
Proof.
  split; [vm_compute; reflexivity|]. split; [vm_compute; reflexivity|]. split.
  - intros fuel Hf.
    apply (settles_from
             (fun n => mkv_tags_parse n (set_pos ordered_handle 5) ordered_element) 100);
      [apply mkv_tags_parse_settles|vm_compute; reflexivity|exact Hf].
  - split; vm_compute; reflexivity.
Qed.

(** C3.  The code at the failing input: [ordered_collection] is serialized
    and wrapped in a Tags header; parsing the bytes gives, for every fuel
    from 100 on, the collection with every list of simple tags in the
    opposite order, which is not the collection that was serialized. *)
Theorem roundtrip_reverses_order :
  exists content,
    mkv_tags_serialize ordered_collection [] = Ok content
    /\ build_tags_element ordered_collection
       = Ok ([18; 84; 195; 103; 195] ++ content)
    /\ ebml_read_element_header (mk_file ([18; 84; 195; 103; 195] ++ content) 0 false)
       = (Ok ordered_element, mk_file ([18; 84; 195; 103; 195] ++ content) 5 false)
    /\ (forall fuel, (100 <= fuel)%nat ->
          mkv_tags_parse fuel (mk_file ([18; 84; 195; 103; 195] ++ content) 5 false)
                         ordered_element
          = Done (Ok (mirror_collection ordered_collection),
                  mk_file ([18; 84; 195; 103; 195] ++ content) 72 false))
    /\ simple_tag_names ordered_collection = [[Some str_TITLE; Some str_ARTIST]]
    /\ simple_tag_names (mirror_collection ordered_collection)
       = [[Some str_ARTIST; Some str_TITLE]]
    /\ mirror_collection ordered_collection <> ordered_collection.
Proof.
  exists (skipn 5 (sample_tags ordered_collection)).
  split; [vm_compute; reflexivity|]. split; [vm_compute; reflexivity|].
  split; [vm_compute; reflexivity|]. split.
  - intros fuel Hf.
    apply (settles_from
             (fun n => mkv_tags_parse n
                         (mk_file ([18; 84; 195; 103; 195]
                                   ++ skipn 5 (sample_tags ordered_collection)) 5 false)
                         ordered_element) 100);
      [apply mkv_tags_parse_settles|vm_compute; reflexivity|exact Hf].
  - split; [vm_compute; reflexivity|]. split; [vm_compute; reflexivity|].
    intros H. apply (f_equal simple_tag_names) in H. vm_compute in H. discriminate H.
Qed.
(* ------------------------------------------------------------------ *)
(** * Setting a tag by name *)

(** C1.  The code at the failing input: the file holds a track-level tag
    with TITLE = old.  Setting TITLE = new succeeds, for every fuel from 300
    on, and adds an album-level tag; reading TITLE afterwards with a buffer
    of 256 bytes succeeds and puts the value old of the track-level tag in
    the buffer, not the value that was set. *)
Theorem read_after_set_finds_track_value :
  is_open track_title_ctx = true
  /\ is_writable track_title_ctx = true
  /\ (exists c, mkvtag_read_tags 300 track_title_ctx = Done (Ok track_title_collection, c))
  /\ (forall fuel, (300 <= fuel)%nat ->
        mkvtag_set_tag_string fuel track_title_ctx (Some str_TITLE) (Some str_new)
        = Done (MKVTAG_OK, track_title_after_set))
  /\ (exists c, mkvtag_read_tags 300 track_title_after_set
                = Done (Ok (mk_collection
                              (tags track_title_collection
                               ++ tags (one_tag_collection str_TITLE str_new)) 2), c))
  /\ (exists c, forall fuel, (300 <= fuel)%nat ->
        mkvtag_read_tag_string fuel track_title_after_set (Some str_TITLE) 256
        = Done (MKVTAG_OK, Some str_old, c))
  /\ str_old <> str_new.
Proof.
  split; [vm_compute; reflexivity|]. split; [vm_compute; reflexivity|].
  split; [eexists; vm_compute; reflexivity|]. split.
  { intros fuel Hf.
    apply (settles_from
             (fun n => mkvtag_set_tag_string n track_title_ctx (Some str_TITLE)
                         (Some str_new)) 300);
      [apply set_tag_string_settles|vm_compute; reflexivity|exact Hf]. }
  split; [eexists; vm_compute; reflexivity|]. split; [|discriminate].
  assert (E : exists c, mkvtag_read_tag_string 300 track_title_after_set (Some str_TITLE) 256
                        = Done (MKVTAG_OK, Some str_old, c))
    by (eexists; vm_compute; reflexivity).
  destruct E as [c E]. exists c. intros fuel Hf.
  apply (settles_from
           (fun n => mkvtag_read_tag_string n track_title_after_set (Some str_TITLE) 256)
           300); [apply read_tag_string_settles|exact E|exact Hf].
Qed.

(** C8.  The code at the failing input: the file holds an album-level tag
    with a track, an edition, a chapter and an attachment UID, a simple tag
    TITLE that is not default and has a nested simple tag, and a simple tag
    b with a binary payload ([rich_parsed] is what is read from it).  Setting
    ARTIST = new succeeds, for every fuel from 300 on; the collection it
    writes, and the one read from the file afterwards ([rich_after]), have
    the track UID but none of the other three, TITLE as default and without
    its nested simple tag, and b without its binary payload.  It is so for
    every file: whatever collection was read, every tag of the collection
    written is plain, with no edition, chapter or attachment UID and simple
    tags that are default and have no binary payload and no nested simple
    tag. *)
Theorem set_tag_string_drops_fields :
  (forall existing name value,
     forallb tag_plain (tags (working_collection existing name value)) = true)
  /\ (exists c, mkvtag_read_tags 300 rich_ctx = Done (Ok rich_parsed, c))
  /\ working_collection (Ok rich_parsed) str_ARTIST (Some str_new)
     = mirror_collection rich_after
  /\ (forall fuel, (300 <= fuel)%nat ->
        mkvtag_set_tag_string fuel rich_ctx (Some str_ARTIST) (Some str_new)
        = Done (MKVTAG_OK, rich_after_set))
  /\ (exists c, mkvtag_read_tags 300 rich_after_set = Done (Ok rich_after, c))
  /\ map edition_uids (tags rich_parsed) = [[7]]
  /\ map edition_uids (tags rich_after) = [[]]
  /\ map (fun t => map st_is_default (simple_tags t)) (tags rich_parsed) = [[1; 0]]
  /\ map (fun t => map st_is_default (simple_tags t)) (tags rich_after) = [[1; 1; 1]].
Proof.
  split; [apply working_collection_plain|].
  split; [eexists; vm_compute; reflexivity|]. split; [vm_compute; reflexivity|].
  split.
  { intros fuel Hf.
    apply (settles_from
             (fun n => mkvtag_set_tag_string n rich_ctx (Some str_ARTIST) (Some str_new))
             300); [apply set_tag_string_settles|vm_compute; reflexivity|exact Hf]. }
  split; [eexists; vm_compute; reflexivity|].
  do 3 (split; [vm_compute; reflexivity|]). vm_compute. reflexivity.
Qed.
(* ------------------------------------------------------------------ *)
(** * Reading back what was written *)

Lemma holds_app d p a b :
  holds d p (a ++ b) -> holds d p a /\ holds d (p + zlen a) b.
Proof.
  unfold holds, zlen. intros [Hp H]. rewrite length_app in H.
  split; (split; [lia|]).
  - apply (f_equal (firstn (length a))) in H.
    rewrite firstn_firstn in H. rewrite firstn_app, firstn_all in H.
    replace (Nat.min (length a) (length a + length b)) with (length a) in H by lia.
    replace (length a - length a)%nat with O in H by lia.
    rewrite firstn_O, app_nil_r in H. exact H.
  - apply (f_equal (skipn (length a))) in H.
    rewrite skipn_firstn_comm in H. rewrite skipn_app, skipn_all in H.
    replace (length a - length a)%nat with O in H by lia.
    replace (length a + length b - length a)%nat with (length b) in H by lia.
    cbn [skipn app] in H. rewrite skipn_skipn in H.
    replace (Z.to_nat (p + Z.of_nat (length a))) with (length a + Z.to_nat p)%nat by lia.
    exact H.
Qed.

Lemma holds_length d p bs : holds d p bs -> 0 < zlen bs -> p + zlen bs <= zlen d.
Proof.
  unfold holds, zlen. intros [Hp H] Hl. apply (f_equal (@length Z)) in H.
  rewrite length_firstn, length_skipn in H. lia.
Qed.

Lemma holds_read d p bs w :
  holds d p bs ->
  file_read (mk_file d p w) (zlen bs) = (MKVTAG_OK, bs, mk_file d (p + zlen bs) w).
Proof.
  intros [Hp H]. unfold file_read. cbn [fh_pos fh_data]. cbv zeta.
  replace (Z.to_nat (zlen bs)) with (length bs) by (unfold zlen; lia).
  rewrite H. rewrite Z.eqb_refl. reflexivity.
Qed.

Lemma holds_seek d p w off :
  0 <= off -> file_seek (mk_file d p w) off = (MKVTAG_OK, mk_file d off w).
Proof. intros H. rewrite file_seek_ok by exact H. reflexivity. Qed.

Lemma vint_not_unknown n len :
  1 <= len <= 8 -> 0 <= n <= vint_max len -> ebml_vint_is_unknown n len = false.
Proof.
  intros Hl [_ Hn].
  assert (len = 1 \/ len = 2 \/ len = 3 \/ len = 4 \/ len = 5 \/ len = 6 \/ len = 7
          \/ len = 8) as H by lia.
  repeat destruct H as [H|H]; subst len; unfold ebml_vint_is_unknown;
    cbn [Z.eqb Pos.eqb]; apply Z.eqb_neq; intros E; rewrite E in Hn;
    apply Z.leb_le in Hn; vm_compute in Hn; discriminate Hn.
Qed.

Lemma vint_bytes_first n :
  0 <= n <= EBML_VINT_MAX_8 ->
  exists sb srest, vint_bytes n = sb :: srest
                   /\ ebml_vint_length sb = ebml_vint_size n
                   /\ zlen srest = ebml_vint_size n - 1.
Proof.
  intros Hn. destruct (vint_size_spec n Hn) as (Hs & _ & Hb).
  unfold vint_bytes.
  destruct (Z.to_nat (ebml_vint_size n)) as [|k] eqn:K; [lia|].
  rewrite store_be_cons. cbn [or_first].
  do 2 eexists. split; [reflexivity|]. split.
  - replace (8 * Z.of_nat k) with (8 * (ebml_vint_size n - 1)) by lia.
    apply (first_byte_spec (ebml_vint_size n)); [lia|].
    apply leading_bits_bound; lia.
  - unfold zlen. rewrite store_be_length. lia.
Qed.

Lemma vint_bytes_decode n :
  0 <= n <= EBML_VINT_MAX_8 -> ebml_vint_decode (vint_bytes n) = Ok (n, ebml_vint_size n).
Proof.
  intros Hn. destruct (vint_size_spec n Hn) as (Hs & Hm & _).
  destruct (decode_encode_fixed n (ebml_vint_size n) Hs ltac:(lia)) as (bs & E & _ & D).
  rewrite encode_fixed_ok in E by lia. inversion E; subst bs.
  specialize (D []). rewrite app_nil_r in D. exact D.
Qed.

Lemma firstn_zlen {A} (l : list A) : firstn (Z.to_nat (zlen l)) l = l.
Proof. unfold zlen. rewrite Nat2Z.id. apply firstn_all. Qed.

(** The reader finds the element that was written. *)
Lemma read_header_holds d p w i content :
  id_ok i = true -> fits_vint (zlen content) = true ->
  holds d p (element_bytes i content) ->
  ebml_read_element_header (mk_file d p w)
  = (Ok (element_at i content p), mk_file d (p + header_size i content) w).
Proof.
  intros Hid Hfit H.
  apply fits_vint_true in Hfit. pose proof (zlen_nonneg content) as Hc.
  unfold id_ok in Hid. apply andb_prop in Hid. destruct Hid as [Hl Hd].
  apply Z.eqb_eq in Hl.
  destruct (ebml_id_decode (id_bytes i)) as [[v k]|] eqn:D; [|discriminate].
  apply andb_prop in Hd. destruct Hd as [Hv Hk].
  apply Z.eqb_eq in Hv. apply Z.eqb_eq in Hk. subst v k.
  pose proof (ebml_id_size_range i) as Hr.
  pose proof (id_bytes_length i) as Li.
  destruct (vint_bytes_first (zlen content)) as (sb & srest & Vs & Vl & Vr); [lia|].
  pose proof (vint_size_spec (zlen content) ltac:(lia)) as (Sr & Sm & _).
  unfold element_bytes in H.
  destruct (id_bytes i) as [|b0 irest] eqn:I; [unfold zlen in Li; cbn in Li; lia|].
  cbn [hd] in Hl. rewrite zlen_cons in Li.
  change (b0 :: irest) with ([b0] ++ irest) in H. rewrite <- app_assoc in H.
  apply holds_app in H. destruct H as [H0 H]. change (zlen [b0]) with 1 in H.
  apply holds_app in H. destruct H as [H1 H].
  rewrite Vs in H. change (sb :: srest) with ([sb] ++ srest) in H.
  rewrite <- app_assoc in H.
  apply holds_app in H. destruct H as [H2 H]. change (zlen [sb]) with 1 in H.
  apply holds_app in H. destruct H as [H3 _].
  unfold ebml_read_element_header.
  change 1 with (zlen [b0]) at 1. rewrite (holds_read _ _ _ _ H0). cbn [is_ok negb hd].
  change (zlen [b0]) with 1. rewrite Hl.
  destruct (Z.eqb_spec (ebml_id_size i) 0); [lia|].
  destruct (Z.ltb_spec 4 (ebml_id_size i)); [lia|]. cbn [orb].
  assert (R1 : (if 1 <? ebml_id_size i
                then file_read (mk_file d (p + 1) w) (ebml_id_size i - 1)
                else (MKVTAG_OK, [], mk_file d (p + 1) w))
               = (MKVTAG_OK, irest, mk_file d (p + ebml_id_size i) w)).
  { destruct (Z.ltb_spec 1 (ebml_id_size i)).
    - replace (ebml_id_size i - 1) with (zlen irest) by lia.
      rewrite (holds_read _ _ _ _ H1). do 2 f_equal. lia.
    - assert (zlen irest = 0) by lia. destruct irest; [|rewrite zlen_cons in *;
        pose proof (zlen_nonneg irest); lia].
      do 2 f_equal. lia. }
  rewrite R1. cbn [is_ok negb].
  replace (firstn (Z.to_nat (ebml_id_size i)) ([b0] ++ irest)) with (b0 :: irest).
  2:{ cbn [app]. replace (ebml_id_size i) with (zlen (b0 :: irest))
        by (rewrite zlen_cons; lia).
      symmetry. apply firstn_zlen. }
  rewrite D.
  replace (p + ebml_id_size i) with (p + 1 + zlen irest) by lia.
  change 1 with (zlen [sb]) at 2. rewrite (holds_read _ _ _ _ H2). cbn [is_ok negb hd].
  change (zlen [sb]) with 1. rewrite Vl.
  destruct (Z.eqb_spec (ebml_vint_size (zlen content)) 0); [lia|].
  destruct (Z.ltb_spec 8 (ebml_vint_size (zlen content))); [lia|]. cbn [orb].
  set (q := p + 1 + zlen irest + 1) in *.
  assert (R2 : (if 1 <? ebml_vint_size (zlen content)
                then file_read (mk_file d q w) (ebml_vint_size (zlen content) - 1)
                else (MKVTAG_OK, [], mk_file d q w))
               = (MKVTAG_OK, srest, mk_file d (p + header_size i content) w)).
  { unfold header_size, q. destruct (Z.ltb_spec 1 (ebml_vint_size (zlen content))).
    - replace (ebml_vint_size (zlen content) - 1) with (zlen srest) by lia.
      rewrite (holds_read _ _ _ _ H3). do 2 f_equal. lia.
    - assert (zlen srest = 0) by lia. destruct srest; [|rewrite zlen_cons in *;
        pose proof (zlen_nonneg srest); lia].
      do 2 f_equal. lia. }
  rewrite R2. cbn [is_ok negb].
  replace (firstn (Z.to_nat (ebml_vint_size (zlen content))) ([sb] ++ srest))
    with (vint_bytes (zlen content)).
  2:{ rewrite Vs. cbn [app]. replace (ebml_vint_size (zlen content)) with (zlen (sb :: srest))
        by (rewrite zlen_cons; lia).
      symmetry. apply firstn_zlen. }
  rewrite vint_bytes_decode by lia.
  rewrite vint_not_unknown by lia.
  unfold element_at, file_tell. cbn [fh_pos]. reflexivity.
Qed.

Lemma element_bytes_size i content :
  fits_vint (zlen content) = true ->
  zlen (element_bytes i content) = header_size i content + zlen content.
Proof.
  intros Hfit. apply fits_vint_true in Hfit. pose proof (zlen_nonneg content).
  rewrite element_bytes_length, id_bytes_length, vint_bytes_length by lia.
  reflexivity.
Qed.

Lemma header_size_pos i content :
  fits_vint (zlen content) = true -> 2 <= header_size i content.
Proof.
  intros Hfit. apply fits_vint_true in Hfit. pose proof (zlen_nonneg content).
  unfold header_size. pose proof (ebml_id_size_range i).
  pose proof (vint_size_spec (zlen content) ltac:(lia)). lia.
Qed.

Section ChildrenOfItems.
Context {St : Type}.
Variable body : ebml_element -> St -> file_handle -> outcome (loop_ctl St * file_handle).
Variable step : St -> item -> St.
Variable d : list Z.
Variable w : bool.

(** The loop over the children of an element whose content is the bytes of
    the items [xs] makes the steps of the items, in order. *)
Lemma children_items xs :
  Forall (item_read body step d w) xs ->
  forall fuel p s,
    (length xs < fuel)%nat ->
    holds d p (items_bytes xs) ->
    ebml_children body fuel (p + zlen (items_bytes xs)) s (mk_file d p w)
    = Done (fold_left step xs s, mk_file d (p + zlen (items_bytes xs)) w).
Proof.
  induction 1 as [|x xs Hx Hxs IH]; intros fuel p s Hf H.
  - unfold items_bytes. cbn [map concat fold_left]. change (zlen (@nil Z)) with 0.
    rewrite Z.add_0_r. destruct fuel; cbn [ebml_children file_tell fh_pos];
      rewrite Z.leb_refl; reflexivity.
  - destruct Hx as (Hid & Hfit & Hb).
    unfold items_bytes in *. cbn [map concat fold_left] in *.
    apply holds_app in H. destruct H as [H1 H2].
    pose proof (element_bytes_size (item_id x) (item_content x) Hfit) as Lx.
    pose proof (header_size_pos (item_id x) (item_content x) Hfit) as Lh.
    pose proof (zlen_nonneg (item_content x)) as Lc.
    fold (item_bytes x) in *.
    pose proof (zlen_nonneg (concat (map item_bytes xs))) as Lr.
    destruct fuel as [|fuel]; [cbn in Hf; lia|].
    cbn [ebml_children file_tell fh_pos]. rewrite zlen_app.
    destruct (Z.leb_spec (p + (zlen (item_bytes x) + zlen (concat (map item_bytes xs)))) p);
      [lia|].
    rewrite (read_header_holds d p w _ _ Hid Hfit H1).
    rewrite (Hb p s H1).
    replace (p + (zlen (item_bytes x) + zlen (concat (map item_bytes xs))))
      with (p + zlen (item_bytes x) + zlen (concat (map item_bytes xs))) by lia.
    apply IH; [cbn [length] in Hf; lia|exact H2].
Qed.
End ChildrenOfItems.

(** ** The leaves *)

Lemma shiftr_small v n : 0 <= v < 2 ^ n -> 0 <= n -> Z.shiftr v n = 0.
Proof.
  intros Hv Hn. rewrite Z.shiftr_div_pow2 by lia. apply Z.div_small. exact Hv.
Qed.

Lemma uint_bytes_decode v :
  0 <= v < 2 ^ 64 -> fold_left shift_in (uint_bytes v) 0 = v.
Proof.
  intros Hv. unfold uint_bytes.
  set (k := if uint_data_size v =? 0 then 1 else uint_data_size v).
  assert (Hk : 1 <= k <= 8) by apply uint_data_size_range.
  assert (Hb : v < 2 ^ (8 * k)).
  { unfold k, uint_data_size.
    repeat match goal with
           | |- context [?a =? ?b] => destruct (Z.eqb_spec a b); [simpl; lia|]
           | |- context [?a <=? ?b] => destruct (Z.leb_spec a b); [simpl; lia|]
           end.
    simpl. lia. }
  rewrite <- (fold_shift_in_store_be (Z.to_nat k) v Hv) at 2.
  rewrite shiftr_small; [reflexivity| |lia].
  rewrite Z2Nat.id by lia. lia.
Qed.

Lemma read_uint_holds d q w i v p :
  0 <= v < 2 ^ 64 ->
  holds d p (element_bytes i (uint_bytes v)) ->
  fits_vint (zlen (uint_bytes v)) = true ->
  ebml_read_uint (mk_file d q w) (element_at i (uint_bytes v) p)
  = (Ok v, mk_file d (p + zlen (element_bytes i (uint_bytes v))) w).
Proof.
  intros Hv H Hfit. rewrite (element_bytes_size _ _ Hfit).
  pose proof (header_size_pos i (uint_bytes v) Hfit) as Lh.
  unfold element_bytes in H. rewrite app_assoc in H.
  apply holds_app in H. destruct H as [[Hp _] H].
  rewrite zlen_app, id_bytes_length, vint_bytes_length in H
    by (apply fits_vint_true in Hfit; pose proof (zlen_nonneg (uint_bytes v)); lia).
  fold (header_size i (uint_bytes v)) in H.
  unfold ebml_read_uint, element_at. cbn [size data_offset].
  pose proof (uint_bytes_length v) as L. pose proof (uint_data_size_range v) as R.
  destruct (Z.ltb_spec 8 (zlen (uint_bytes v))); [lia|].
  rewrite holds_seek by lia. cbn [is_ok negb].
  destruct (Z.eqb_spec (zlen (uint_bytes v)) 0); [lia|].
  rewrite (holds_read _ _ _ _ H). cbn [is_ok negb].
  rewrite uint_bytes_decode by exact Hv. do 2 f_equal. lia.
Qed.

(** A string with no NUL in it. *)
Lemma c_str_app s :
  forallb (fun c => negb (c =? 0)) s = true -> c_str (s ++ [0]) = s.
Proof.
  induction s as [|c s IH]; cbn [forallb app c_str]; [reflexivity|].
  intros H. apply andb_prop in H. destruct H as [Hc Hs].
  destruct (c =? 0); [discriminate|]. rewrite IH by exact Hs. reflexivity.
Qed.

Lemma read_string_holds d q w i s p :
  forallb (fun c => negb (c =? 0)) s = true ->
  holds d p (element_bytes i s) ->
  fits_vint (zlen s) = true ->
  ebml_read_string_alloc (mk_file d q w) (element_at i s p)
  = (Ok s, mk_file d (p + zlen (element_bytes i s)) w).
Proof.
  intros Hs H Hfit. rewrite (element_bytes_size _ _ Hfit).
  pose proof (header_size_pos i s Hfit) as Lh.
  pose proof (zlen_nonneg s) as Ls.
  assert (Hm : zlen s <= EBML_VINT_MAX_8) by (apply fits_vint_true; exact Hfit).
  unfold element_bytes in H. rewrite app_assoc in H.
  apply holds_app in H. destruct H as [[Hp _] H].
  rewrite zlen_app, id_bytes_length, vint_bytes_length in H by lia.
  fold (header_size i s) in H.
  unfold ebml_read_string_alloc, ebml_read_string, element_at. cbn [size data_offset].
  rewrite wrap64_small by (unfold EBML_VINT_MAX_8 in Hm; lia).
  destruct (Z.eqb_spec (zlen s + 1) 0); [lia|].
  destruct (Z.leb_spec (zlen s + 1) (zlen s)); [lia|].
  rewrite holds_seek by lia. cbn [is_ok negb].
  destruct (Z.eqb_spec (zlen s) 0) as [E|E].
  - cbn [is_ok negb c_str]. change (0 =? 0) with true. cbv iota.
    destruct s; [|rewrite zlen_cons in E; pose proof (zlen_nonneg s); lia].
    do 2 f_equal. change (zlen (@nil Z)) with 0. lia.
  - rewrite (holds_read _ _ _ _ H). cbn [is_ok negb].
    rewrite c_str_app by exact Hs. do 2 f_equal. lia.
Qed.

Lemma read_binary_holds d q w i b p :
  0 < zlen b ->
  holds d p (element_bytes i b) ->
  fits_vint (zlen b) = true ->
  ebml_read_binary_alloc (mk_file d q w) (element_at i b p)
  = (Ok (Some b), mk_file d (p + zlen (element_bytes i b)) w).
Proof.
  intros Hb H Hfit. rewrite (element_bytes_size _ _ Hfit).
  pose proof (header_size_pos i b Hfit) as Lh.
  assert (Hm : zlen b <= EBML_VINT_MAX_8) by (apply fits_vint_true; exact Hfit).
  unfold element_bytes in H. rewrite app_assoc in H.
  apply holds_app in H. destruct H as [[Hp _] H].
  rewrite zlen_app, id_bytes_length, vint_bytes_length in H by lia.
  fold (header_size i b) in H.
  unfold ebml_read_binary_alloc, ebml_read_binary, element_at. cbn [size data_offset].
  destruct (Z.eqb_spec (zlen b) 0); [lia|].
  rewrite holds_seek by lia. cbn [is_ok negb].
  rewrite Z.ltb_irrefl.
  rewrite (holds_read _ _ _ _ H). cbn [is_ok negb]. do 2 f_equal. lia.
Qed.

(** Skipping the element the reader found leaves the handle at its end. *)
Lemma skip_holds d q w i content p :
  0 <= p -> fits_vint (zlen content) = true ->
  snd (ebml_skip_element (mk_file d q w) (element_at i content p))
  = mk_file d (p + zlen (element_bytes i content)) w.
Proof.
  intros Hp Hfit. rewrite (element_bytes_size _ _ Hfit).
  pose proof (header_size_pos i content Hfit). pose proof (zlen_nonneg content).
  unfold ebml_skip_element, element_at. cbn [is_unknown_size end_offset].
  rewrite holds_seek by lia. cbn [snd]. f_equal. lia.
Qed.


(** ** The content of each master element is the bytes of its items *)

Lemma items_bytes_app xs ys : items_bytes (xs ++ ys) = items_bytes xs ++ items_bytes ys.
Proof. unfold items_bytes. rewrite map_app, concat_app. reflexivity. Qed.

Lemma opt_item_bytes i s : items_bytes (opt_item i s) = opt_string_bytes i s.
Proof. destruct s; cbn; [apply app_nil_r|reflexivity]. Qed.

Lemma uid_items_bytes i uids : items_bytes (map (IUint i) uids) = uids_bytes i uids.
Proof.
  unfold items_bytes, uids_bytes. rewrite map_map. reflexivity.
Qed.

Lemma targets_items_bytes t : items_bytes (targets_items t) = targets_content t.
Proof.
  unfold targets_items, targets_content.
  rewrite !items_bytes_app, opt_item_bytes, !uid_items_bytes.
  unfold items_bytes. cbn [map concat]. rewrite app_nil_r. reflexivity.
Qed.

Lemma simple_tag_items_bytes st : items_bytes (simple_tag_items st) = simple_tag_content st.
Proof.
  unfold simple_tag_items. rewrite simple_tag_content_eq.
  rewrite !items_bytes_app, !opt_item_bytes.
  f_equal. f_equal. f_equal.
  { destruct (st_is_default st =? 0); cbn; [rewrite app_nil_r|]; reflexivity. }
  f_equal. f_equal.
  { unfold opt_binary_bytes. destruct (st_binary st) as [b|]; [|reflexivity].
    destruct (0 <? zlen b); cbn; [rewrite app_nil_r|]; reflexivity. }
  unfold items_bytes. rewrite map_map. reflexivity.
Qed.

Lemma tag_items_bytes t : items_bytes (tag_items t) = tag_content t.
Proof.
  unfold tag_items, tag_content, items_bytes. cbn [map concat].
  rewrite map_map. reflexivity.
Qed.

Lemma collection_items_bytes c : items_bytes (map ITag (tags c)) = collection_bytes c.
Proof. unfold items_bytes, collection_bytes. rewrite map_map. reflexivity. Qed.

Lemma id_element_at i content p : id (element_at i content p) = i.
Proof. reflexivity. Qed.

(** ** Sizes *)

Lemma item_bytes_pos x : 0 < zlen (item_bytes x).
Proof.
  unfold item_bytes. rewrite element_bytes_length, id_bytes_length.
  pose proof (ebml_id_size_range (item_id x)).
  pose proof (zlen_nonneg (vint_bytes (zlen (item_content x)))).
  pose proof (zlen_nonneg (item_content x)). lia.
Qed.

Lemma items_count xs : zlen xs <= zlen (items_bytes xs).
Proof.
  induction xs as [|x xs IH]; [apply Z.le_refl|].
  change (items_bytes (x :: xs)) with (item_bytes x ++ items_bytes xs).
  rewrite zlen_cons, zlen_app. pose proof (item_bytes_pos x). lia.
Qed.

Lemma item_in_bytes x xs : In x xs -> zlen (item_bytes x) <= zlen (items_bytes xs).
Proof.
  induction xs as [|y xs IH]; [contradiction|].
  change (items_bytes (y :: xs)) with (item_bytes y ++ items_bytes xs).
  rewrite zlen_app. intros [->|H].
  - pose proof (zlen_nonneg (items_bytes xs)). lia.
  - specialize (IH H). pose proof (zlen_nonneg (item_bytes y)). lia.
Qed.

(** The items of a content that fits fit. *)
Lemma items_fit xs x :
  fits_vint (zlen (items_bytes xs)) = true -> In x xs ->
  fits_vint (zlen (item_content x)) = true
  /\ zlen (item_bytes x) <= zlen (items_bytes xs).
Proof.
  intros Hfit Hin. pose proof (item_in_bytes x xs Hin) as H.
  split; [|exact H]. apply fits_vint_true in Hfit. apply fits_vint_true.
  pose proof (element_bytes_ge (item_id x) (item_content x)). unfold item_bytes in H. lia.
Qed.

(** ** Targets *)

Lemma targets_reads_uint d w i v :
  In i [MKV_ID_TARGET_TYPE_VALUE; MKV_ID_TAG_TRACK_UID; MKV_ID_TAG_EDITION_UID;
        MKV_ID_TAG_CHAPTER_UID; MKV_ID_TAG_ATTACHMENT_UID] ->
  0 <= v < 2 ^ 64 ->
  item_read parse_targets_child targets_step d w (IUint i v).
Proof.
  intros Hi Hv.
  assert (Hfit : fits_vint (zlen (uint_bytes v)) = true).
  { apply fits_vint_true. rewrite uint_bytes_length.
    pose proof (uint_data_size_range v). unfold EBML_VINT_MAX_8. lia. }
  split; [|split; [exact Hfit|]].
  { cbn [item_id]. cbn [In] in Hi.
    repeat destruct Hi as [<-|Hi]; try contradiction; vm_compute; reflexivity. }
  intros p s H. cbn [item_id item_content] in *. unfold item_bytes in *.
  cbn [item_id item_content] in *.
  unfold parse_targets_child. rewrite id_element_at.
  pose proof (read_uint_holds d (p + header_size i (uint_bytes v)) w i v p Hv H Hfit) as R.
  destruct H as [Hp _].
  cbn [In] in Hi.
  repeat destruct Hi as [<-|Hi]; try contradiction; id_tests;
    unfold read_uid; rewrite R; cbn [targets_step]; id_tests;
    rewrite skip_holds by assumption; reflexivity.
Qed.

Lemma targets_reads_string d w s :
  string_ok s = true -> fits_vint (zlen s) = true ->
  item_read parse_targets_child targets_step d w (IString MKV_ID_TARGET_TYPE s).
Proof.
  intros Hs Hfit. split; [vm_compute; reflexivity|]. split; [exact Hfit|].
  intros p t H. unfold item_bytes in *. cbn [item_id item_content] in *.
  unfold parse_targets_child. rewrite id_element_at. id_tests.
  rewrite (read_string_holds d _ w _ s p Hs H Hfit).
  destruct H as [Hp _]. cbn [targets_step]. id_tests.
  rewrite skip_holds by assumption. reflexivity.
Qed.

Lemma holds_content d p i content :
  holds d p (element_bytes i content) -> fits_vint (zlen content) = true ->
  0 <= p /\ holds d (p + header_size i content) content.
Proof.
  intros H Hfit. unfold element_bytes in H. rewrite app_assoc in H.
  apply holds_app in H. destruct H as [[Hp _] H]. split; [exact Hp|].
  apply fits_vint_true in Hfit. pose proof (zlen_nonneg content).
  rewrite zlen_app, id_bytes_length, vint_bytes_length in H by lia. exact H.
Qed.

Lemma forallb_In {A} (f : A -> bool) l x : forallb f l = true -> In x l -> f x = true.
Proof. intros H Hin. rewrite forallb_forall in H. apply H. exact Hin. Qed.

Lemma uid_ok_range u : uid_ok u = true -> 0 <= u < 2 ^ 64.
Proof. unfold uid_ok. intros H. apply andb_prop in H. destruct H. lia. Qed.

Lemma tag_valid_parts t :
  tag_valid t = true ->
  0 <= target_type t < 2 ^ 32
  /\ opt_string_ok (target_type_str t) = true
  /\ forallb uid_ok (track_uids t) = true /\ forallb uid_ok (edition_uids t) = true
  /\ forallb uid_ok (chapter_uids t) = true /\ forallb uid_ok (attachment_uids t) = true
  /\ forallb simple_tag_valid (simple_tags t) = true.
Proof.
  unfold tag_valid. intros H.
  repeat match type of H with
         | _ && _ = true => let H' := fresh in apply andb_prop in H; destruct H as [H H']
         end.
  repeat split; try assumption; lia.
Qed.

Lemma targets_items_read d w t :
  tag_valid t = true -> fits_vint (zlen (targets_content t)) = true ->
  Forall (item_read parse_targets_child targets_step d w) (targets_items t).
Proof.
  intros Hv Hfit. destruct (tag_valid_parts t Hv) as (Ht & Hs & H1 & H2 & H3 & H4 & _).
  rewrite <- targets_items_bytes in Hfit.
  apply Forall_forall. intros x Hin.
  pose proof (items_fit _ _ Hfit Hin) as [Fx _].
  unfold targets_items in Hin.
  repeat (apply in_app_or in Hin; destruct Hin as [Hin|Hin]).
  - destruct Hin as [<-|[]]. apply targets_reads_uint; [cbn; auto|].
    rewrite wrap64_small by lia. lia.
  - destruct (target_type_str t) as [s|]; [|contradiction].
    destruct Hin as [<-|[]]. apply targets_reads_string; assumption.
  - apply in_map_iff in Hin. destruct Hin as (u & <- & Hu).
    apply targets_reads_uint; [cbn; auto|]. apply uid_ok_range. exact (forallb_In _ _ _ H1 Hu).
  - apply in_map_iff in Hin. destruct Hin as (u & <- & Hu).
    apply targets_reads_uint; [cbn; auto|]. apply uid_ok_range. exact (forallb_In _ _ _ H2 Hu).
  - apply in_map_iff in Hin. destruct Hin as (u & <- & Hu).
    apply targets_reads_uint; [cbn; auto|]. apply uid_ok_range. exact (forallb_In _ _ _ H3 Hu).
  - apply in_map_iff in Hin. destruct Hin as (u & <- & Hu).
    apply targets_reads_uint; [cbn; auto 6|]. apply uid_ok_range. exact (forallb_In _ _ _ H4 Hu).
Qed.

Lemma parse_targets_holds fuel d q w t p g :
  tag_valid t = true -> fits_vint (zlen (targets_content t)) = true ->
  holds d p (element_bytes MKV_ID_TARGETS (targets_content t)) ->
  zlen (targets_content t) < Z.of_nat fuel ->
  parse_targets fuel (mk_file d q w) (element_at MKV_ID_TARGETS (targets_content t) p) g
  = Done (MKVTAG_OK,
          fold_left targets_step (targets_items t) (set_target_type g MKVTAG_TARGET_ALBUM),
          mk_file d (p + zlen (element_bytes MKV_ID_TARGETS (targets_content t))) w).
Proof.
  intros Hv Hfit H Hf.
  destruct (holds_content _ _ _ _ H Hfit) as [Hp Hc].
  pose proof (header_size_pos MKV_ID_TARGETS (targets_content t) Hfit) as Lh.
  unfold parse_targets, element_at. cbn [data_offset end_offset].
  rewrite holds_seek by lia. cbn [is_ok negb].
  rewrite (element_bytes_size _ _ Hfit).
  rewrite <- targets_items_bytes in *.
  replace (p + (header_size MKV_ID_TARGETS (items_bytes (targets_items t))
                + zlen (items_bytes (targets_items t))))
    with (p + header_size MKV_ID_TARGETS (items_bytes (targets_items t))
          + zlen (items_bytes (targets_items t))) by lia.
  rewrite (children_items parse_targets_child targets_step d w).
  - reflexivity.
  - rewrite targets_items_bytes in Hfit. apply targets_items_read; assumption.
  - pose proof (items_count (targets_items t)). unfold zlen in *. lia.
  - exact Hc.
Qed.

(** ** What the steps of the Targets loop add up to *)

Lemma fold_track_uids us g :
  fold_left targets_step (map (IUint MKV_ID_TAG_TRACK_UID) us) g
  = set_track_uids g (track_uids g ++ us).
Proof.
  revert g. induction us as [|u us IH]; intros g; cbn [map fold_left].
  - destruct g. cbn. rewrite app_nil_r. reflexivity.
  - rewrite IH. cbn [targets_step]. id_tests. destruct g. cbn.
    rewrite <- app_assoc. reflexivity.
Qed.

Lemma fold_edition_uids us g :
  fold_left targets_step (map (IUint MKV_ID_TAG_EDITION_UID) us) g
  = set_edition_uids g (edition_uids g ++ us).
Proof.
  revert g. induction us as [|u us IH]; intros g; cbn [map fold_left].
  - destruct g. cbn. rewrite app_nil_r. reflexivity.
  - rewrite IH. cbn [targets_step]. id_tests. destruct g. cbn.
    rewrite <- app_assoc. reflexivity.
Qed.

Lemma fold_chapter_uids us g :
  fold_left targets_step (map (IUint MKV_ID_TAG_CHAPTER_UID) us) g
  = set_chapter_uids g (chapter_uids g ++ us).
Proof.
  revert g. induction us as [|u us IH]; intros g; cbn [map fold_left].
  - destruct g. cbn. rewrite app_nil_r. reflexivity.
  - rewrite IH. cbn [targets_step]. id_tests. destruct g. cbn.
    rewrite <- app_assoc. reflexivity.
Qed.

Lemma fold_attachment_uids us g :
  fold_left targets_step (map (IUint MKV_ID_TAG_ATTACHMENT_UID) us) g
  = set_attachment_uids g (attachment_uids g ++ us).
Proof.
  revert g. induction us as [|u us IH]; intros g; cbn [map fold_left].
  - destruct g. cbn. rewrite app_nil_r. reflexivity.
  - rewrite IH. cbn [targets_step]. id_tests. destruct g. cbn.
    rewrite <- app_assoc. reflexivity.
Qed.

Lemma to_uint32_small v : 0 <= v < 2 ^ 32 -> to_uint32 v = v.
Proof. intros H. unfold to_uint32. apply Z.mod_small. exact H. Qed.

Lemma targets_fold t g :
  0 <= target_type t < 2 ^ 32 ->
  fold_left targets_step (targets_items t) g
  = mk_tag (target_type t)
           (match target_type_str t with
            | Some s => Some s
            | None => target_type_str g
            end)
           (track_uids g ++ track_uids t) (edition_uids g ++ edition_uids t)
           (chapter_uids g ++ chapter_uids t) (attachment_uids g ++ attachment_uids t)
           (simple_tags g).
Proof.
  intros Ht. unfold targets_items. rewrite !fold_left_app.
  rewrite fold_attachment_uids, fold_chapter_uids, fold_edition_uids, fold_track_uids.
  cbn [fold_left targets_step]. id_tests.
  rewrite wrap64_small by lia. rewrite to_uint32_small by exact Ht.
  destruct (target_type_str t) as [s|]; cbn [opt_item fold_left targets_step]; id_tests;
    destruct g; reflexivity.
Qed.


(** ** Simple tags *)

Lemma simple_reads_string fuel d w i s :
  In i [MKV_ID_TAG_NAME; MKV_ID_TAG_STRING; MKV_ID_TAG_LANGUAGE] ->
  string_ok s = true -> fits_vint (zlen s) = true ->
  item_read (simple_tag_child fuel) simple_step d w (IString i s).
Proof.
  intros Hi Hs Hfit. split; [|split; [exact Hfit|]].
  { cbn [item_id]. cbn [In] in Hi.
    repeat destruct Hi as [<-|Hi]; try contradiction; vm_compute; reflexivity. }
  intros p t H. unfold item_bytes in *. cbn [item_id item_content] in *.
  pose proof (read_string_holds d (p + header_size i s) w i s p Hs H Hfit) as R.
  destruct H as [Hp _].
  unfold simple_tag_child, parse_simple_tag_leaf. rewrite !id_element_at.
  cbn [In] in Hi.
  repeat destruct Hi as [<-|Hi]; try contradiction; id_tests;
    rewrite R; cbn [obind simple_step]; id_tests;
    rewrite skip_holds by assumption; reflexivity.
Qed.

Lemma simple_reads_default fuel d w :
  item_read (simple_tag_child fuel) simple_step d w (IUint MKV_ID_TAG_DEFAULT 0).
Proof.
  assert (Hfit : fits_vint (zlen (uint_bytes 0)) = true) by (vm_compute; reflexivity).
  split; [vm_compute; reflexivity|]. split; [exact Hfit|].
  intros p t H. unfold item_bytes in *. cbn [item_id item_content] in *.
  pose proof (read_uint_holds d (p + header_size MKV_ID_TAG_DEFAULT (uint_bytes 0)) w
                MKV_ID_TAG_DEFAULT 0 p ltac:(lia) H Hfit) as R.
  destruct H as [Hp _].
  unfold simple_tag_child, parse_simple_tag_leaf. rewrite !id_element_at. id_tests.
  rewrite R. cbn [obind simple_step]. id_tests.
  rewrite skip_holds by assumption. reflexivity.
Qed.

Lemma simple_reads_binary fuel d w b :
  0 < zlen b -> fits_vint (zlen b) = true ->
  item_read (simple_tag_child fuel) simple_step d w (IBinary MKV_ID_TAG_BINARY b).
Proof.
  intros Hb Hfit. split; [vm_compute; reflexivity|]. split; [exact Hfit|].
  intros p t H. unfold item_bytes in *. cbn [item_id item_content] in *.
  pose proof (read_binary_holds d (p + header_size MKV_ID_TAG_BINARY b) w
                MKV_ID_TAG_BINARY b p Hb H Hfit) as R.
  destruct H as [Hp _].
  unfold simple_tag_child, parse_simple_tag_leaf. rewrite !id_element_at. id_tests.
  rewrite R. cbn [obind simple_step]. id_tests.
  rewrite skip_holds by assumption. reflexivity.
Qed.


Lemma simple_reads_nested fuel d w n :
  simple_tag_read fuel d w n -> fits_vint (zlen (simple_tag_content n)) = true ->
  item_read (simple_tag_child fuel) simple_step d w (ISimple n).
Proof.
  intros Hn Hfit. split; [vm_compute; reflexivity|]. split; [exact Hfit|].
  intros p t H. unfold item_bytes in *. cbn [item_id item_content] in *.
  unfold simple_tag_child. rewrite !id_element_at. id_tests.
  rewrite (Hn p _ H). cbn [obind simple_step].
  destruct H as [Hp _]. rewrite skip_holds by assumption. reflexivity.
Qed.

Lemma simple_tag_valid_eq st :
  simple_tag_valid st =
  opt_string_ok (st_name st) && opt_string_ok (st_value st)
  && opt_string_ok (st_language st)
  && match st_binary st with
     | Some b => 0 <? zlen b
     | None => true
     end
  && ((st_is_default st =? 0) || (st_is_default st =? 1))
  && forallb simple_tag_valid (st_nested st).
Proof. destruct st; reflexivity. Qed.

Lemma simple_tag_valid_parts st :
  simple_tag_valid st = true ->
  opt_string_ok (st_name st) = true /\ opt_string_ok (st_value st) = true
  /\ opt_string_ok (st_language st) = true
  /\ match st_binary st with
     | Some b => 0 < zlen b
     | None => True
     end
  /\ (st_is_default st = 0 \/ st_is_default st = 1)
  /\ forallb simple_tag_valid (st_nested st) = true.
Proof.
  rewrite simple_tag_valid_eq. intros H.
  repeat match type of H with
         | _ && _ = true => let H' := fresh in apply andb_prop in H; destruct H as [H H']
         end.
  repeat split; try assumption.
  - destruct (st_binary st); [lia|exact I].
  - apply orb_prop in H1. destruct H1 as [E|E]; apply Z.eqb_eq in E; auto.
Qed.

Lemma simple_tag_items_read fuel d w st :
  simple_tag_valid st = true -> fits_vint (zlen (simple_tag_content st)) = true ->
  Forall (simple_tag_read fuel d w) (st_nested st) ->
  Forall (item_read (simple_tag_child fuel) simple_step d w) (simple_tag_items st).
Proof.
  intros Hv Hfit Hn.
  destruct (simple_tag_valid_parts st Hv) as (H1 & H2 & H3 & H4 & H5 & H6).
  rewrite <- simple_tag_items_bytes in Hfit.
  apply Forall_forall. intros x Hin.
  pose proof (items_fit _ _ Hfit Hin) as [Fx _].
  unfold simple_tag_items in Hin.
  repeat (apply in_app_or in Hin; destruct Hin as [Hin|Hin]).
  - destruct (st_name st) as [s|]; [|contradiction].
    destruct Hin as [<-|[]]. apply simple_reads_string; [cbn; auto|assumption..].
  - destruct (st_language st) as [s|]; [|contradiction].
    destruct Hin as [<-|[]]. apply simple_reads_string; [cbn; auto|assumption..].
  - destruct (st_is_default st =? 0); [|contradiction].
    destruct Hin as [<-|[]]. apply simple_reads_default.
  - destruct (st_value st) as [s|]; [|contradiction].
    destruct Hin as [<-|[]]. apply simple_reads_string; [cbn; auto|assumption..].
  - destruct (st_binary st) as [b|]; [|contradiction].
    destruct (Z.ltb_spec 0 (zlen b)); [|contradiction].
    destruct Hin as [<-|[]]. apply simple_reads_binary; assumption.
  - apply in_map_iff in Hin. destruct Hin as (n & <- & Hin).
    apply simple_reads_nested; [|exact Fx].
    rewrite Forall_forall in Hn. apply Hn. exact Hin.
Qed.

Lemma fold_nested ns stag :
  fold_left simple_step (map ISimple ns) stag
  = set_nested stag (rev (map mirror_simple_tag ns) ++ st_nested stag).
Proof.
  revert stag. induction ns as [|n ns IH]; intros stag; cbn [map fold_left rev].
  - destruct stag. reflexivity.
  - rewrite IH. cbn [simple_step]. destruct stag. cbn.
    rewrite <- app_assoc. reflexivity.
Qed.

Lemma mirror_simple_tag_eq st :
  mirror_simple_tag st
  = mk_simple_tag (st_name st) (st_value st) (st_binary st) (st_language st)
                  (st_is_default st) (rev (map mirror_simple_tag (st_nested st))).
Proof. destruct st; reflexivity. Qed.

(** What the steps of the SimpleTag loop add up to. *)
Lemma simple_fold st :
  simple_tag_valid st = true ->
  fold_left simple_step (simple_tag_items st) (set_is_default zero_simple_tag 1)
  = mirror_simple_tag st.
Proof.
  intros Hv. destruct (simple_tag_valid_parts st Hv) as (_ & _ & _ & Hb & Hd & _).
  rewrite mirror_simple_tag_eq. unfold simple_tag_items. rewrite !fold_left_app, fold_nested.
  destruct st as [n v b l dflt nested]. cbn [st_name st_value st_binary st_language
                                             st_is_default st_nested] in *.
  assert (Eb : match b with
               | Some b0 => if 0 <? zlen b0 then [IBinary MKV_ID_TAG_BINARY b0] else []
               | None => []
               end = match b with Some b0 => [IBinary MKV_ID_TAG_BINARY b0] | None => [] end).
  { destruct b as [b0|]; [|reflexivity]. destruct (Z.ltb_spec 0 (zlen b0)); [reflexivity|lia]. }
  rewrite Eb. clear Eb Hb.
  destruct Hd as [-> | ->]; destruct n, l, v, b;
    cbn [opt_item fold_left simple_step]; id_tests; cbn; rewrite ?app_nil_r; reflexivity.
Qed.

Lemma nested_in_items n st : In n (st_nested st) -> In (ISimple n) (simple_tag_items st).
Proof.
  intros H. unfold simple_tag_items. repeat (apply in_or_app; right).
  apply in_map. exact H.
Qed.

(** [parse_simple_tag] on the bytes written for a valid simple tag gives
    the simple tag with its nested simple tags mirrored. *)
Lemma parse_simple_tag_holds st :
  forall fuel d w,
    simple_tag_valid st = true ->
    fits_vint (zlen (simple_tag_content st)) = true ->
    zlen (simple_tag_bytes st) < Z.of_nat fuel ->
    simple_tag_read fuel d w st.
Proof.
  induction st as [n v b l dflt nested IH] using simple_tag_induction.
  intros fuel d w Hv Hfit Hf.
  set (st := mk_simple_tag n v b l dflt nested) in *.
  destruct fuel as [|f]; [pose proof (zlen_nonneg (simple_tag_bytes st)); lia|].
  intros p q H. unfold simple_tag_bytes in *.
  destruct (holds_content _ _ _ _ H Hfit) as [Hp Hc].
  pose proof (header_size_pos MKV_ID_SIMPLE_TAG (simple_tag_content st) Hfit) as Lh.
  pose proof (element_bytes_size MKV_ID_SIMPLE_TAG _ Hfit) as Ls.
  rewrite parse_simple_tag_eq. unfold element_at. cbn [data_offset end_offset].
  rewrite holds_seek by lia. cbn [is_ok negb].
  rewrite Ls. rewrite <- simple_tag_items_bytes in *.
  replace (p + (header_size MKV_ID_SIMPLE_TAG (items_bytes (simple_tag_items st))
                + zlen (items_bytes (simple_tag_items st))))
    with (p + header_size MKV_ID_SIMPLE_TAG (items_bytes (simple_tag_items st))
          + zlen (items_bytes (simple_tag_items st))) by lia.
  rewrite (children_items (simple_tag_child f) simple_step d w).
  - cbn [obind]. rewrite simple_fold by exact Hv. reflexivity.
  - rewrite simple_tag_items_bytes in Hfit.
    apply simple_tag_items_read; [exact Hv|exact Hfit|].
    destruct (simple_tag_valid_parts st Hv) as (_ & _ & _ & _ & _ & Hn).
    apply Forall_forall. intros x Hx.
    rewrite Forall_forall in IH.
    rewrite <- simple_tag_items_bytes in Hfit.
    destruct (items_fit _ _ Hfit (nested_in_items x st Hx)) as [Fx Lx].
    apply IH; [exact Hx|exact (forallb_In _ _ _ Hn Hx)|exact Fx|].
    unfold item_bytes in Lx. cbn [item_id item_content] in Lx.
    unfold simple_tag_bytes. lia.
  - pose proof (items_count (simple_tag_items st)). unfold zlen in *. lia.
  - exact Hc.
Qed.


(** ** Tags *)

Lemma tag_reads_targets fuel d w t :
  tag_valid t = true -> fits_vint (zlen (targets_content t)) = true ->
  zlen (targets_content t) < Z.of_nat fuel ->
  item_read (parse_tag_child fuel) tag_step d w (ITargets t).
Proof.
  intros Hv Hfit Hf. split; [vm_compute; reflexivity|]. split; [exact Hfit|].
  intros p g H. unfold item_bytes in *. cbn [item_id item_content] in *.
  unfold parse_tag_child. rewrite !id_element_at. id_tests.
  rewrite (parse_targets_holds fuel d _ w t p g Hv Hfit H Hf). cbn [obind tag_step].
  destruct H as [Hp _]. rewrite skip_holds by assumption. reflexivity.
Qed.

Lemma tag_reads_simple fuel d w s :
  simple_tag_read fuel d w s -> fits_vint (zlen (simple_tag_content s)) = true ->
  item_read (parse_tag_child fuel) tag_step d w (ISimple s).
Proof.
  intros Hs Hfit. split; [vm_compute; reflexivity|]. split; [exact Hfit|].
  intros p g H. unfold item_bytes in *. cbn [item_id item_content] in *.
  unfold parse_tag_child. rewrite !id_element_at. id_tests.
  rewrite (Hs p _ H). cbn [obind tag_step].
  destruct H as [Hp _]. rewrite skip_holds by assumption. reflexivity.
Qed.

Lemma fold_simple_tags ss g :
  fold_left tag_step (map ISimple ss) g
  = set_simple_tags g (rev (map mirror_simple_tag ss) ++ simple_tags g).
Proof.
  revert g. induction ss as [|s ss IH]; intros g; cbn [map fold_left rev].
  - destruct g. reflexivity.
  - rewrite IH. cbn [tag_step]. destruct g. cbn. rewrite <- app_assoc. reflexivity.
Qed.

(** What the steps of the Tag loop add up to. *)
Lemma tag_fold t :
  tag_valid t = true ->
  fold_left tag_step (tag_items t) (set_target_type zero_tag MKVTAG_TARGET_ALBUM)
  = mirror_tag t.
Proof.
  intros Hv. destruct (tag_valid_parts t Hv) as (Ht & _).
  unfold tag_items. cbn [fold_left tag_step]. rewrite fold_simple_tags.
  rewrite targets_fold by exact Ht. unfold mirror_tag.
  destruct t as [tt ts u1 u2 u3 u4 ss]. cbn. rewrite app_nil_r.
  destruct ts; reflexivity.
Qed.

Lemma parse_tag_holds fuel d w t p q :
  tag_valid t = true -> tag_fits t = true ->
  zlen (tag_bytes t) < Z.of_nat fuel ->
  holds d p (tag_bytes t) ->
  parse_tag fuel (mk_file d q w) (element_at MKV_ID_TAG (tag_content t) p)
  = Done (Some (mirror_tag t), mk_file d (p + zlen (tag_bytes t)) w).
Proof.
  intros Hv Hfit Hf H. unfold tag_fits, tag_bytes in *.
  destruct (holds_content _ _ _ _ H Hfit) as [Hp Hc].
  pose proof (header_size_pos MKV_ID_TAG (tag_content t) Hfit) as Lh.
  pose proof (element_bytes_size MKV_ID_TAG _ Hfit) as Ls.
  unfold parse_tag, element_at. cbn [data_offset end_offset].
  rewrite holds_seek by lia. cbn [is_ok negb].
  rewrite Ls. rewrite <- tag_items_bytes in *.
  replace (p + (header_size MKV_ID_TAG (items_bytes (tag_items t))
                + zlen (items_bytes (tag_items t))))
    with (p + header_size MKV_ID_TAG (items_bytes (tag_items t))
          + zlen (items_bytes (tag_items t))) by lia.
  rewrite (children_items (parse_tag_child fuel) tag_step d w).
  - cbn [obind]. rewrite tag_fold by exact Hv. reflexivity.
  - apply Forall_forall. intros x Hx.
    destruct (items_fit _ _ Hfit Hx) as [Fx Lx].
    destruct (tag_valid_parts t Hv) as (_ & _ & _ & _ & _ & _ & Hss).
    destruct Hx as [<-|Hx].
    + unfold item_bytes in Lx. cbn [item_id item_content] in *.
      pose proof (element_bytes_ge MKV_ID_TARGETS (targets_content t)).
      apply tag_reads_targets; [exact Hv|exact Fx|lia].
    + apply in_map_iff in Hx. destruct Hx as (s & <- & Hs).
      unfold item_bytes in Lx. cbn [item_id item_content] in *.
      apply tag_reads_simple; [|exact Fx].
      apply parse_simple_tag_holds; [exact (forallb_In _ _ _ Hss Hs)|exact Fx|].
      unfold simple_tag_bytes. lia.
  - pose proof (items_count (tag_items t)). unfold zlen in *. lia.
  - exact Hc.
Qed.

(** ** The collection *)

Lemma collection_reads_tag fuel d w t :
  tag_valid t = true -> tag_fits t = true ->
  zlen (tag_bytes t) < Z.of_nat fuel ->
  item_read (mkv_tags_parse_child fuel) collection_step d w (ITag t).
Proof.
  intros Hv Hfit Hf. split; [vm_compute; reflexivity|]. split; [exact Hfit|].
  intros p c H. unfold item_bytes in *. cbn [item_id item_content] in *.
  unfold mkv_tags_parse_child. rewrite !id_element_at. id_tests.
  rewrite (parse_tag_holds fuel d w t p _ Hv Hfit Hf H). cbn [obind collection_step].
  destruct H as [Hp _]. rewrite skip_holds by assumption. reflexivity.
Qed.

Lemma collection_fold ts c :
  fold_left collection_step (map ITag ts) c
  = mk_collection (tags c ++ map mirror_tag ts) (count c + zlen ts).
Proof.
  revert c. induction ts as [|t ts IH]; intros c; cbn [map fold_left].
  - destruct c. cbn. rewrite app_nil_r, Z.add_0_r. reflexivity.
  - rewrite IH. cbn [collection_step tags count]. rewrite <- app_assoc, zlen_cons.
    f_equal. lia.
Qed.

Lemma collection_valid_parts c :
  collection_valid c = true ->
  count c = zlen (tags c) /\ forallb tag_valid (tags c) = true
  /\ forallb tag_fits (tags c) = true.
Proof.
  unfold collection_valid, collection_fits. intros H.
  apply andb_prop in H. destruct H as [H H3]. apply andb_prop in H. destruct H as [H1 H2].
  apply Z.eqb_eq in H1. auto.
Qed.

(** [mkv_tags_parse] on the Tags element written for a valid collection
    gives the collection mirrored. *)
Lemma mkv_tags_parse_holds fuel d w c p q :
  collection_valid c = true ->
  fits_vint (zlen (collection_bytes c)) = true ->
  zlen (collection_bytes c) < Z.of_nat fuel ->
  holds d p (element_bytes MKV_ID_TAGS (collection_bytes c)) ->
  mkv_tags_parse fuel (mk_file d q w) (element_at MKV_ID_TAGS (collection_bytes c) p)
  = Done (Ok (mirror_collection c),
          mk_file d (p + zlen (element_bytes MKV_ID_TAGS (collection_bytes c))) w).
Proof.
  intros Hv Hfit Hf H.
  destruct (collection_valid_parts c Hv) as (Hn & Hts & Hfs).
  destruct (holds_content _ _ _ _ H Hfit) as [Hp Hc].
  pose proof (header_size_pos MKV_ID_TAGS (collection_bytes c) Hfit) as Lh.
  pose proof (element_bytes_size MKV_ID_TAGS _ Hfit) as Ls.
  unfold mkv_tags_parse, element_at. cbn [data_offset end_offset].
  rewrite holds_seek by lia. cbn [is_ok negb].
  rewrite Ls. rewrite <- collection_items_bytes in *.
  replace (p + (header_size MKV_ID_TAGS (items_bytes (map ITag (tags c)))
                + zlen (items_bytes (map ITag (tags c)))))
    with (p + header_size MKV_ID_TAGS (items_bytes (map ITag (tags c)))
          + zlen (items_bytes (map ITag (tags c)))) by lia.
  rewrite (children_items (mkv_tags_parse_child fuel) collection_step d w).
  - cbn [obind]. rewrite collection_fold. cbn [tags count app].
    unfold mirror_collection. rewrite Hn. reflexivity.
  - apply Forall_forall. intros x Hx.
    destruct (items_fit _ _ Hfit Hx) as [Fx Lx].
    apply in_map_iff in Hx. destruct Hx as (t & <- & Ht).
    unfold item_bytes in Lx. cbn [item_id item_content] in *.
    apply collection_reads_tag;
      [exact (forallb_In _ _ _ Hts Ht)|exact (forallb_In _ _ _ Hfs Ht)|].
    unfold tag_bytes. lia.
  - pose proof (items_count (map ITag (tags c))). unfold zlen in *. lia.
  - exact Hc.
Qed.

(* ------------------------------------------------------------------ *)
(** * The round trip *)

Lemma holds_middle pre bs post : holds (pre ++ bs ++ post) (zlen pre) bs.
Proof.
  unfold holds, zlen. split; [lia|]. rewrite Nat2Z.id.
  rewrite skipn_app, skipn_all, Nat.sub_diag. cbn [skipn app].
  rewrite firstn_app, firstn_all, Nat.sub_diag, firstn_O, app_nil_r. reflexivity.
Qed.

(** The Tags element [build_tags_element] writes. *)
Lemma build_tags_closed c bytes :
  build_tags_element c = Ok bytes ->
  collection_fits c = true /\ fits_vint (zlen (collection_bytes c)) = true
  /\ bytes = element_bytes MKV_ID_TAGS (collection_bytes c).
Proof.
  unfold build_tags_element, mkv_tags_serialize. rewrite serialize_tag_list_closed.
  fold (collection_fits c). destruct (collection_fits c); cbn [rbind]; [|discriminate].
  cbn [app]. fold (collection_bytes c).
  rewrite master_header_closed by (try discriminate; apply zlen_nonneg).
  destruct (fits_vint (zlen (collection_bytes c))); cbn [rbind]; [|discriminate].
  intros E. inversion E. unfold element_bytes. cbn [app]. auto.
Qed.

Lemma mirror_simple_tag_involutive st : mirror_simple_tag (mirror_simple_tag st) = st.
Proof.
  induction st as [n v b l dflt nested IH] using simple_tag_induction.
  cbn [mirror_simple_tag st_name st_value st_binary st_language st_is_default st_nested].
  f_equal. rewrite map_rev, rev_involutive, map_map.
  induction IH as [|x xs Hx _ IHxs]; cbn [map]; [reflexivity|].
  rewrite Hx, IHxs. reflexivity.
Qed.

Lemma mirror_collection_involutive c : mirror_collection (mirror_collection c) = c.
Proof.
  destruct c as [ts n]. unfold mirror_collection. cbn [tags count]. f_equal.
  rewrite map_map. induction ts as [|t ts IH]; cbn [map]; [reflexivity|].
  rewrite IH. f_equal. destruct t as [tt s u1 u2 u3 u4 ss]. unfold mirror_tag. cbn.
  f_equal. rewrite map_rev, rev_involutive, map_map.
  clear. induction ss as [|x xs IHxs]; cbn [map]; [reflexivity|].
  rewrite mirror_simple_tag_involutive, IHxs. reflexivity.
Qed.

(** The round trip, for every valid collection: the Tags element written
    for [c], wherever it lies in a file, is read back as [c] with every list
    of simple tags, nested ones too, in the opposite order; a second round
    trip gives [c] back. *)
Theorem parse_serialize_mirror (c : mkvtag_collection) (bytes pre post : list Z)
    (w : bool) (fuel : nat) :
  collection_valid c = true ->
  build_tags_element c = Ok bytes ->
  zlen bytes <= Z.of_nat fuel ->
  exists elem,
    ebml_read_element_header (mk_file (pre ++ bytes ++ post) (zlen pre) w)
    = (Ok elem, mk_file (pre ++ bytes ++ post) (data_offset elem) w)
    /\ id elem = MKV_ID_TAGS
    /\ mkv_tags_parse fuel (mk_file (pre ++ bytes ++ post) (data_offset elem) w) elem
       = Done (Ok (mirror_collection c),
               mk_file (pre ++ bytes ++ post) (zlen pre + zlen bytes) w)
    /\ mirror_collection (mirror_collection c) = c.
Proof.
  intros Hv B Hf. destruct (build_tags_closed c bytes B) as (_ & Hfit & ->).
  pose proof (holds_middle pre (element_bytes MKV_ID_TAGS (collection_bytes c)) post) as H.
  exists (element_at MKV_ID_TAGS (collection_bytes c) (zlen pre)).
  split; [|split; [reflexivity|split; [|apply mirror_collection_involutive]]].
  - apply read_header_holds; [vm_compute; reflexivity|exact Hfit|exact H].
  - apply mkv_tags_parse_holds; [exact Hv|exact Hfit| |exact H].
    pose proof (element_bytes_size MKV_ID_TAGS _ Hfit).
    pose proof (header_size_pos MKV_ID_TAGS _ Hfit). lia.
Qed.

Lemma parse_serialize_mirror_witness :
  collection_valid ordered_collection = true
  /\ exists elem,
       ebml_read_element_header (mk_file (sample_tags ordered_collection) 0 false)
       = (Ok elem, mk_file (sample_tags ordered_collection) (data_offset elem) false)
       /\ mkv_tags_parse 72 (mk_file (sample_tags ordered_collection) (data_offset elem) false)
                         elem
          = Done (Ok (mirror_collection ordered_collection),
                  mk_file (sample_tags ordered_collection) 72 false).
Proof.
  assert (Hv : collection_valid ordered_collection = true) by (vm_compute; reflexivity).
  split; [exact Hv|].
  destruct (parse_serialize_mirror ordered_collection (sample_tags ordered_collection)
              [] [] false 72 Hv)
    as (elem & R & _ & P & _).
  - vm_compute. reflexivity.
  - vm_compute. intros H. discriminate H.
  - exists elem. cbn [app] in R, P. rewrite app_nil_r in R, P.
    split; [exact R|exact P].
Defined.

(* ------------------------------------------------------------------ *)
(** * Termination, the Void writer and the size of the Tags element *)

(** The parser of the Tags element never reaches a step that C leaves
    undefined. *)
Lemma mkv_tags_parse_defined fuel h elem : mkv_tags_parse fuel h elem <> Undefined.
Proof.
  intros U.
  set (big := Nat.max fuel (S (S (rest_from h (data_offset elem))))).
  destruct (mkv_tags_parse_total big h elem) as (r1 & h1 & E1 & _); [unfold big; lia|].
  assert (Eq : mkv_tags_parse big h elem = mkv_tags_parse fuel h elem).
  { apply (mkv_tags_parse_mono h elem fuel big); [unfold big; lia|].
    rewrite U. apply ended_undefined. }
  rewrite U, E1 in Eq. discriminate Eq.
Qed.

Lemma read_tags_defined fuel ctx : mkvtag_read_tags fuel ctx <> Undefined.
Proof.
  unfold mkvtag_read_tags.
  destruct (negb (is_open ctx)); [discriminate|].
  destruct (cached_tags ctx); [discriminate|].
  destruct (tags_offset (mkv ctx) <? 0); [discriminate|].
  destruct (file_seek _ _) as [err h1].
  destruct (negb (is_ok err)); [discriminate|].
  destruct (ebml_read_element_header h1) as [[elem|e] h2]; [|discriminate].
  destruct (negb (id elem =? MKV_ID_TAGS)); [discriminate|].
  pose proof (mkv_tags_parse_defined fuel h2 elem) as D.
  destruct (mkv_tags_parse fuel h2 elem) as [[r h3]| |]; cbn [obind];
    [destruct r; discriminate|discriminate|contradiction].
Qed.

Lemma read_tag_string_defined fuel ctx name size_ :
  mkvtag_read_tag_string fuel ctx name size_ <> Undefined.
Proof.
  unfold mkvtag_read_tag_string.
  destruct name as [name|]; [|discriminate].
  destruct (size_ =? 0); [discriminate|].
  pose proof (read_tags_defined fuel ctx) as D.
  destruct (mkvtag_read_tags fuel ctx) as [[r c1]| |]; cbn [obind];
    [|discriminate|contradiction].
  destruct r as [c|e]; [|discriminate].
  destruct (find_tag_value (tags c) name); [|discriminate].
  destruct (str_copy size_ _) as [n b]. destruct (n <? 0); discriminate.
Qed.

(** Every call that walks the file ends, whatever the file holds: for
    reading the tags, reading a tag by name, writing a collection and
    setting or removing a tag by name, some fuel is enough for the run to
    reach its result or a step that C leaves undefined, and from the fuel
    that is enough on the outcome does not change.  The two reads never reach
    an undefined step.  [mkvtag_write_tags] given the collection of the
    context does, on every open writable context: it reads the collection
    after it freed it. *)
Theorem tag_calls_terminate (ctx : mkvtag_context) (name value : option cstring)
    (size_ : Z) (tags_ : option collection_ptr) :
  settles (fun fuel => mkvtag_read_tags fuel ctx)
  /\ settles (fun fuel => mkvtag_read_tag_string fuel ctx name size_)
  /\ settles (fun fuel => mkvtag_write_tags fuel ctx tags_)
  /\ settles (fun fuel => mkvtag_set_tag_string fuel ctx name value)
  /\ settles (fun fuel => mkvtag_remove_tag fuel ctx name)
  /\ (forall fuel, mkvtag_read_tags fuel ctx <> Undefined)
  /\ (forall fuel, mkvtag_read_tag_string fuel ctx name size_ <> Undefined)
  /\ (is_open ctx = true -> is_writable ctx = true ->
      forall fuel, mkvtag_write_tags fuel ctx (Some Cached) = Undefined).
Proof.
  split; [apply read_tags_settles|]. split; [apply read_tag_string_settles|].
  split; [apply write_tags_settles|]. split; [apply set_tag_string_settles|].
  split; [apply set_tag_string_settles|].
  split; [intros fuel; apply read_tags_defined|].
  split; [intros fuel; apply read_tag_string_defined|].
  intros Ho Hw fuel. unfold mkvtag_write_tags. rewrite Ho, Hw. reflexivity.
Qed.

(** [ebml_write_void_element] fills exactly the size asked for, from 2 bytes
    to 2^56: the ID 0xEC, a size and zero bytes. *)
Theorem void_element_fills (buf : list Z) (total : Z) :
  2 <= total <= 2 ^ 56 ->
  exists b, ebml_write_void_element buf total = Ok (buf ++ EBML_ID_VOID :: b)
            /\ zlen (EBML_ID_VOID :: b) = total.
Proof.
  intros Ht. unfold ebml_write_void_element.
  destruct (Z.ltb_spec total 2); [lia|].
  destruct (void_size_loop_ok 8 1 (buf ++ [EBML_ID_VOID]) total) as (b & E & L);
    [reflexivity|lia|unfold EBML_VINT_MAX_8; lia|].
  exists b. rewrite E, <- app_assoc. split; [reflexivity|].
  rewrite zlen_cons. lia.
Qed.

Lemma void_element_fills_witness :
  exists b, ebml_write_void_element [] 129 = Ok ([] ++ EBML_ID_VOID :: b)
            /\ zlen (EBML_ID_VOID :: b) = 129.
Proof. apply (void_element_fills [] 129). lia. Defined.

(** [mkv_tags_total_size] is the number of bytes of the Tags element that is
    written. *)
Theorem total_size_is_written (c : mkvtag_collection) (bytes : list Z) :
  build_tags_element c = Ok bytes -> mkv_tags_total_size c = zlen bytes.
Proof.
  intros B. destruct (build_tags_closed c bytes B) as (Hc & Hfit & ->).
  unfold mkv_tags_total_size, mkv_tags_serialize. rewrite serialize_tag_list_closed.
  fold (collection_fits c). rewrite Hc. cbn [app]. fold (collection_bytes c).
  rewrite (element_bytes_size _ _ Hfit). reflexivity.
Qed.

Lemma total_size_is_written_witness :
  mkv_tags_total_size ordered_collection = zlen (sample_tags ordered_collection).
Proof.
  apply (total_size_is_written ordered_collection (sample_tags ordered_collection)).
  vm_compute. reflexivity.
Defined.

(** [mkv_tags_parse] leaves the file as it is, whatever fuel it ended on. *)
Lemma mkv_tags_parse_same fuel h elem r h' :
  mkv_tags_parse fuel h elem = Done (r, h') -> same_file h h'.
Proof.
  intros E.
  set (big := Nat.max fuel (S (S (rest_from h (data_offset elem))))).
  destruct (mkv_tags_parse_total big h elem) as (r1 & h1 & E1 & L1); [unfold big; lia|].
  assert (Eq : mkv_tags_parse big h elem = mkv_tags_parse fuel h elem).
  { apply (mkv_tags_parse_mono h elem fuel big); [unfold big; lia|].
    rewrite E. apply ended_done. }
  rewrite E, E1 in Eq. inversion Eq; subst. exact (proj1 L1).
Qed.

Lemma file_kept_refl ctx : file_kept ctx ctx.
Proof. repeat split. Qed.

Lemma file_kept_set_file ctx h : same_file (file ctx) h -> file_kept ctx (set_file ctx h).
Proof. intros [A B]. repeat split; assumption. Qed.

Lemma file_kept_trans a b c : file_kept a b -> file_kept b c -> file_kept a c.
Proof.
  intros (A1 & A2 & A3 & A4 & A5) (B1 & B2 & B3 & B4 & B5). repeat split; congruence.
Qed.

Lemma read_tags_keeps fuel ctx r ctx1 :
  mkvtag_read_tags fuel ctx = Done (r, ctx1) ->
  file_kept ctx ctx1
  /\ match r with
     | Ok c => cached_tags ctx1 = Some c
     | Err _ => cached_tags ctx1 = cached_tags ctx
     end.
Proof.
  unfold mkvtag_read_tags.
  destruct (negb (is_open ctx)).
  { intros E; inversion E; subst. split; [apply file_kept_refl|reflexivity]. }
  destruct (cached_tags ctx) as [c|] eqn:Hc.
  { intros E; inversion E; subst. split; [apply file_kept_refl|exact Hc]. }
  destruct (Z.ltb_spec (tags_offset (mkv ctx)) 0) as [Hneg|Hpos].
  { intros E; inversion E; subst. split; [apply file_kept_refl|exact Hc]. }
  rewrite file_seek_ok by exact Hpos. cbn [is_ok negb].
  destruct (ebml_read_element_header (set_pos (file ctx) (tags_offset (mkv ctx))))
    as [[elem|e] h2] eqn:R.
  2:{ intros E; inversion E; subst. apply read_header_spec in R; [|exact Hpos].
      destruct R as ([A B] & _). split; [|exact Hc].
      apply file_kept_set_file. split; assumption. }
  apply read_header_spec in R; [|exact Hpos]. destruct R as ([A B] & _).
  cbn [fh_data fh_writable set_pos] in A, B.
  assert (S2 : same_file (file ctx) h2) by (split; assumption).
  destruct (negb (id elem =? MKV_ID_TAGS)).
  { intros E; inversion E; subst. split; [|exact Hc]. apply file_kept_set_file. exact S2. }
  destruct (mkv_tags_parse fuel h2 elem) as [[r3 h3]| |] eqn:P; cbn [obind];
    try discriminate.
  apply mkv_tags_parse_same in P.
  pose proof (same_file_trans _ _ _ S2 P) as S3.
  destruct r3 as [c|e]; intros E; inversion E; subst.
  - split; [|reflexivity]. destruct S3 as [A3 B3]. repeat split; assumption.
  - split; [|exact Hc]. apply file_kept_set_file. exact S3.
Qed.

(** Reading never changes the file: whatever [mkvtag_read_tags] and
    [mkvtag_read_tag_string] return, the bytes of the file, its mode, the
    record of its structure and the flags of the context are what they were,
    and the cache changes only when a collection was parsed.  On a context
    that is not open for writing, [mkvtag_write_tags],
    [mkvtag_set_tag_string] and [mkvtag_remove_tag] fail and leave the
    context as it is: MKVTAG_ERR_READ_ONLY on an open context, unless an
    argument is NULL. *)
Theorem reading_keeps_file (ctx : mkvtag_context) (fuel : nat) :
  (forall r ctx1,
     mkvtag_read_tags fuel ctx = Done (r, ctx1) ->
     file_kept ctx ctx1
     /\ match r with
        | Ok c => cached_tags ctx1 = Some c
        | Err _ => cached_tags ctx1 = cached_tags ctx
        end)
  /\ (forall name size_ e buffer ctx1,
        mkvtag_read_tag_string fuel ctx name size_ = Done (e, buffer, ctx1) ->
        file_kept ctx ctx1)
  /\ (is_writable ctx = false ->
      forall c name value,
        (exists e, mkvtag_write_tags fuel ctx c = Done (e, ctx) /\ e <> MKVTAG_OK
                   /\ (is_open ctx = true -> c <> None -> e = MKVTAG_ERR_READ_ONLY))
        /\ (exists e, mkvtag_set_tag_string fuel ctx name value = Done (e, ctx)
                      /\ e <> MKVTAG_OK
                      /\ (is_open ctx = true -> name <> None -> e = MKVTAG_ERR_READ_ONLY))
        /\ (exists e, mkvtag_remove_tag fuel ctx name = Done (e, ctx)
                      /\ e <> MKVTAG_OK
                      /\ (is_open ctx = true -> name <> None -> e = MKVTAG_ERR_READ_ONLY))).
Proof.
  split; [intros r ctx1 E; exact (read_tags_keeps fuel ctx r ctx1 E)|].
  split.
  - intros name size_ e buffer ctx1. unfold mkvtag_read_tag_string.
    destruct name as [name|]; [|intros E; inversion E; subst; apply file_kept_refl].
    destruct (size_ =? 0); [intros E; inversion E; subst; apply file_kept_refl|].
    destruct (mkvtag_read_tags fuel ctx) as [[r c1]| |] eqn:R; cbn [obind];
      try discriminate.
    apply read_tags_keeps in R. destruct R as [K _].
    destruct r as [c|e0]; [|intros E; inversion E; subst; exact K].
    destruct (find_tag_value (tags c) name) as [v|];
      [|intros E; inversion E; subst; exact K].
    destruct (str_copy size_ (Some v)) as [n b].
    destruct (n <? 0); intros E; inversion E; subst; exact K.
  - intros Hw c name value. unfold mkvtag_remove_tag, mkvtag_set_tag_string, mkvtag_write_tags.
    rewrite Hw. cbn [negb].
    destruct (is_open ctx); cbn [negb].
    + split; [|split].
      * destruct c; eexists; (split; [reflexivity|]); (split; [discriminate|]);
          intros _ N; [reflexivity|contradiction].
      * destruct name; eexists; (split; [reflexivity|]); (split; [discriminate|]);
          intros _ N; [reflexivity|contradiction].
      * destruct name; eexists; (split; [reflexivity|]); (split; [discriminate|]);
          intros _ N; [reflexivity|contradiction].
    + split; [|split].
      * destruct c; eexists; (split; [reflexivity|]); (split; [discriminate|]);
          intros N; discriminate N.
      * destruct name; eexists; (split; [reflexivity|]); (split; [discriminate|]);
          intros N; discriminate N.
      * destruct name; eexists; (split; [reflexivity|]); (split; [discriminate|]);
          intros N; discriminate N.
Qed.


Lemma length_table :
  forallb (fun b => (ebml_vint_length b =? length_by_range b) && first_byte_back b)
          (zrange 256) = true.
Proof. vm_compute. reflexivity. Qed.

Lemma vint_length_by_range b : 0 <= b < 256 -> ebml_vint_length b = length_by_range b.
Proof.
  intros H. pose proof length_table as T. rewrite forallb_forall in T.
  specialize (T b (zrange_in 256 b ltac:(lia))).
  apply andb_true_iff in T. apply Z.eqb_eq. apply T.
Qed.

Lemma first_byte_back_spec b :
  0 <= b < 256 -> ebml_vint_length b <> 0 ->
  to_uint8 (Z.lor (Z.land (Z.land b (Z.shiftr 0xFF (ebml_vint_length b))) 0xFF)
                  (Z.shiftr 0x80 (ebml_vint_length b - 1))) = b.
Proof.
  intros H Hn. pose proof length_table as T. rewrite forallb_forall in T.
  specialize (T b (zrange_in 256 b ltac:(lia))).
  apply andb_true_iff in T. destruct T as [_ T]. unfold first_byte_back in T.
  apply orb_true_iff in T. destruct T as [T|T]; [apply Z.eqb_eq in T; contradiction|].
  apply Z.eqb_eq. exact T.
Qed.

Lemma lor_shift_byte_any r b :
  0 <= b < 256 -> Z.lor (Z.shiftl r 8) b = r * 256 + b.
Proof.
  intros Hb.
  assert (Hd : Z.land (Z.shiftl r 8) b = 0).
  { apply Z.bits_inj'. intros n Hn.
    rewrite Z.land_spec, Z.bits_0.
    destruct (Z.ltb_spec n 8).
    - rewrite Z.shiftl_spec_low by lia. reflexivity.
    - replace (Z.testbit b n) with false. apply andb_false_r.
      symmetry. apply Z.bits_above_log2; [lia|].
      destruct (Z.eq_dec b 0) as [->|]; [simpl; lia|].
      assert (Z.log2 b < 8); [|lia]. apply Z.log2_lt_pow2; lia. }
  rewrite <- Z.lxor_lor by exact Hd. rewrite <- Z.add_nocarry_lxor by exact Hd.
  rewrite Z.shiftl_mul_pow2 by lia. reflexivity.
Qed.

(** The bytes of [store_be] are bytes. *)
Lemma store_be_bytes n v : Forall (fun b => 0 <= b < 256) (store_be n v).
Proof.
  revert v. induction n; intros v; cbn [store_be]; [constructor|].
  apply Forall_app. split; [apply IHn|]. constructor; [|constructor].
  rewrite land_255. apply Z.mod_pos_bound. lia.
Qed.

(** The big-endian value of [store_be n v], read with any step that adds a
    byte below the value so far. *)
Lemma fold_raw_store_be n v :
  0 <= v < 2 ^ 32 ->
  fold_left (fun r b => to_uint32 (Z.lor (Z.shiftl r 8) b)) (store_be n v)
            (Z.shiftr v (8 * Z.of_nat n)) = v.
Proof.
  revert v. induction n; intros v Hv.
  - simpl. apply Z.shiftr_0_r.
  - change (store_be (S n) v) with (store_be n (Z.shiftr v 8) ++ [Z.land v 0xFF]).
    rewrite fold_left_app. cbn [fold_left].
    replace (Z.shiftr v (8 * Z.of_nat (S n))) with (Z.shiftr (Z.shiftr v 8) (8 * Z.of_nat n)).
    2:{ rewrite Z.shiftr_shiftr by lia. f_equal. lia. }
    rewrite IHn.
    2:{ rewrite shiftr_8. split. apply Z.div_pos; lia. apply Z.div_lt_upper_bound; lia. }
    rewrite lor_shift_byte_any by (rewrite land_255; apply Z.mod_pos_bound; lia).
    rewrite shiftr_8, land_255. unfold to_uint32.
    rewrite Z.mul_comm, <- Z.div_mod by lia. apply Z.mod_small. lia.
Qed.

(** The first byte of the bytes of an ID. *)
Lemma id_first_byte i :
  0 < i < 2 ^ 32 ->
  exists b0 rest,
    store_be (Z.to_nat (ebml_id_size i)) i = b0 :: rest
    /\ zlen rest = ebml_id_size i - 1
    /\ b0 = i / 2 ^ (8 * (ebml_id_size i - 1))
    /\ 0 < b0 < 256.
Proof.
  intros H.
  assert (Hn : 1 <= ebml_id_size i <= 4).
  { unfold ebml_id_size.
    repeat match goal with |- context [?a <=? ?b] => destruct (Z.leb_spec a b) end; lia. }
  destruct (Z.to_nat (ebml_id_size i)) as [|k] eqn:Hk; [lia|].
  assert (Hkn : Z.of_nat k = ebml_id_size i - 1) by lia.
  rewrite store_be_cons. eexists. eexists. split; [reflexivity|].
  split. { unfold zlen. rewrite store_be_length. exact Hkn. }
  rewrite Hkn, Z.shiftr_div_pow2, land_255 by lia.
  assert (B : 0 < i / 2 ^ (8 * (ebml_id_size i - 1)) < 256).
  { revert Hn. unfold ebml_id_size.
    repeat match goal with |- context [?a <=? ?b] => destruct (Z.leb_spec a b) end;
      intros _; cbn.
    - rewrite Z.div_1_r. lia.
    - split. apply Z.div_str_pos; lia. apply Z.div_lt_upper_bound; lia.
    - split. apply Z.div_str_pos; lia. apply Z.div_lt_upper_bound; lia.
    - split. apply Z.div_str_pos; lia. apply Z.div_lt_upper_bound; lia. }
  split; [apply Z.mod_small; lia|].
  rewrite Z.mod_small by lia. exact B.
Qed.

Lemma id_class_length i :
  0 < i < 2 ^ 32 ->
  id_class i = (length_by_range (i / 2 ^ (8 * (ebml_id_size i - 1))) =? ebml_id_size i).
Proof.
  intros H. unfold id_class, ebml_id_size, length_by_range.
  destruct (Z.leb_spec i 0xFF).
  { cbn. rewrite Z.div_1_r.
    repeat match goal with |- context [?a <=? ?b] => destruct (Z.leb_spec a b) end;
      cbn; try lia; reflexivity. }
  destruct (Z.leb_spec i 0xFFFF).
  { change (2 ^ (8 * (2 - 1))) with 256.
    assert (A : forall k, (k <=? i / 256) = (k * 256 <=? i)).
    { intros k. destruct (Z.leb_spec k (i / 256)), (Z.leb_spec (k * 256) i); try reflexivity.
      - exfalso. assert (i / 256 < k) by (apply Z.div_lt_upper_bound; lia). lia.
      - exfalso. assert (k <= i / 256) by (apply Z.div_le_lower_bound; lia). lia. }
    rewrite !A.
    repeat match goal with |- context [?a <=? ?b] => destruct (Z.leb_spec a b) end;
      cbn; try lia; reflexivity. }
  destruct (Z.leb_spec i 0xFFFFFF).
  { change (2 ^ (8 * (3 - 1))) with 65536.
    assert (A : forall k, (k <=? i / 65536) = (k * 65536 <=? i)).
    { intros k. destruct (Z.leb_spec k (i / 65536)), (Z.leb_spec (k * 65536) i); try reflexivity.
      - exfalso. assert (i / 65536 < k) by (apply Z.div_lt_upper_bound; lia). lia.
      - exfalso. assert (k <= i / 65536) by (apply Z.div_le_lower_bound; lia). lia. }
    rewrite !A.
    repeat match goal with |- context [?a <=? ?b] => destruct (Z.leb_spec a b) end;
      cbn; try lia; reflexivity. }
  change (2 ^ (8 * (4 - 1))) with 16777216.
  assert (A : forall k, (k <=? i / 16777216) = (k * 16777216 <=? i)).
  { intros k. destruct (Z.leb_spec k (i / 16777216)), (Z.leb_spec (k * 16777216) i);
      try reflexivity.
    - exfalso. assert (i / 16777216 < k) by (apply Z.div_lt_upper_bound; lia). lia.
    - exfalso. assert (k <= i / 16777216) by (apply Z.div_le_lower_bound; lia). lia. }
  rewrite !A.
  repeat match goal with |- context [?a <=? ?b] => destruct (Z.leb_spec a b) end;
    cbn; try lia; reflexivity.
Qed.

(** Decoding the bytes of an ID of class form, whatever follows them. *)
Lemma id_decode_encode i tail :
  0 < i < 2 ^ 32 -> id_class i = true ->
  ebml_id_decode (id_bytes i ++ tail) = Ok (i, ebml_id_size i).
Proof.
  intros H C. unfold id_bytes.
  destruct (id_first_byte i H) as (b0 & rest & E & L & V & B).
  rewrite (id_class_length i H) in C. apply Z.eqb_eq in C. rewrite <- V in C.
  rewrite <- vint_length_by_range in C by lia.
  assert (Hn : 1 <= ebml_id_size i <= 4) by (apply ebml_id_size_range).
  pose proof (store_be_length (Z.to_nat (ebml_id_size i)) i) as SL.
  rewrite E. rewrite <- app_comm_cons. unfold ebml_id_decode. rewrite C.
  destruct (Z.eqb_spec (ebml_id_size i) 0); [lia|].
  destruct (Z.ltb_spec 4 (ebml_id_size i)); [lia|].
  match goal with |- context [zlen ?l <? ?n] => destruct (Z.ltb_spec (zlen l) n) as [Hl|Hl] end.
  { rewrite zlen_cons, zlen_app in Hl. pose proof (zlen_nonneg tail). lia. }
  rewrite app_comm_cons, <- E.
  rewrite firstn_app, SL, Nat.sub_diag, firstn_O, app_nil_r.
  rewrite firstn_all2 by lia.
  pose proof (fold_raw_store_be (Z.to_nat (ebml_id_size i)) i ltac:(lia)) as F.
  rewrite Z2Nat.id in F by lia.
  rewrite shiftr_small in F; [rewrite F; reflexivity| |lia].
  split; [lia|]. unfold ebml_id_size.
  repeat match goal with |- context [?a <=? ?b] => destruct (Z.leb_spec a b) end; cbn; lia.
Qed.

Lemma id_class_ok i : 0 < i < 2 ^ 32 -> id_class i = true -> id_ok i = true.
Proof.
  intros H C. unfold id_ok.
  pose proof (id_decode_encode i [] H C) as D. rewrite app_nil_r in D. rewrite D.
  rewrite !Z.eqb_refl. rewrite andb_true_r.
  unfold id_bytes. destruct (id_first_byte i H) as (b0 & rest & E & L & V & B).
  rewrite E. cbn [hd].
  rewrite (id_class_length i H) in C. apply Z.eqb_eq in C. rewrite <- V in C.
  rewrite vint_length_by_range by lia. rewrite C. apply Z.eqb_refl.
Qed.

(** [ebml_id_encode] writes every ID from 1 to 2^32 - 1 on
    [ebml_id_size] bytes.  [ebml_id_decode] reads the ID back from these
    bytes, whatever follows them, exactly when the ID lies in one of the four
    ranges whose leading bits tell its length (0x80..0xFF, 0x4000..0x7FFF,
    0x200000..0x3FFFFF, 0x10000000..0x1FFFFFFF); for any other ID it never
    gives an ID of that length. *)
Theorem id_roundtrip (i : Z) :
  0 < i < 2 ^ 32 ->
  exists bs,
    ebml_id_encode i = Ok bs /\ zlen bs = ebml_id_size i
    /\ (id_class i = true ->
        forall tail, ebml_id_decode (bs ++ tail) = Ok (i, ebml_id_size i))
    /\ (id_class i = false ->
        forall tail v, ebml_id_decode (bs ++ tail) <> Ok (v, ebml_id_size i)).
Proof.
  intros H. exists (id_bytes i). split.
  { unfold ebml_id_encode. destruct (Z.eqb_spec i 0); [lia|]. reflexivity. }
  split; [apply id_bytes_length|]. split.
  - intros C tail. apply id_decode_encode; assumption.
  - intros C tail v. unfold id_bytes.
    destruct (id_first_byte i H) as (b0 & rest & E & L & V & B).
    rewrite (id_class_length i H) in C. apply Z.eqb_neq in C. rewrite <- V in C.
    rewrite <- vint_length_by_range in C by lia.
    rewrite E, <- app_comm_cons. unfold ebml_id_decode.
    destruct (ebml_vint_length b0 =? 0); [discriminate|].
    destruct (4 <? ebml_vint_length b0); [discriminate|].
    match goal with |- context [zlen ?l <? ?n] => destruct (zlen l <? n) end;
      [discriminate|].
    intros D. inversion D. contradiction.
Qed.

Lemma id_roundtrip_witness :
  exists bs,
    ebml_id_encode MKV_ID_TAGS = Ok bs /\ zlen bs = ebml_id_size MKV_ID_TAGS
    /\ (id_class MKV_ID_TAGS = true ->
        forall tail, ebml_id_decode (bs ++ tail) = Ok (MKV_ID_TAGS, ebml_id_size MKV_ID_TAGS))
    /\ (id_class MKV_ID_TAGS = false ->
        forall tail v, ebml_id_decode (bs ++ tail) <> Ok (v, ebml_id_size MKV_ID_TAGS)).
Proof. apply (id_roundtrip MKV_ID_TAGS). vm_compute. split; reflexivity. Defined.


Lemma unknown_closed v n : 1 <= n <= 8 -> ebml_vint_is_unknown v n = (v =? 2 ^ (7 * n) - 1).
Proof.
  intros Hn.
  assert (n = 1 \/ n = 2 \/ n = 3 \/ n = 4 \/ n = 5 \/ n = 6 \/ n = 7 \/ n = 8) as H by lia.
  repeat destruct H as [H|H]; subst n; reflexivity.
Qed.

(** [ebml_vint_encode_fixed] on a length [n] from 1 to 8 writes every value
    up to 2^(7n) - 2 on [n] bytes, from which [ebml_vint_decode] reads the
    value and the length back, whatever follows, and the value is not the
    unknown size; a larger value is refused with MKVTAG_ERR_VINT_OVERFLOW. *)
Theorem vint_fixed_roundtrip (v n : Z) :
  1 <= n <= 8 -> 0 <= v ->
  (v <= 2 ^ (7 * n) - 2 ->
   exists bs, ebml_vint_encode_fixed v n = Ok bs /\ zlen bs = n
              /\ (forall tail, ebml_vint_decode (bs ++ tail) = Ok (v, n))
              /\ ebml_vint_is_unknown v n = false)
  /\ (2 ^ (7 * n) - 2 < v -> ebml_vint_encode_fixed v n = Err MKVTAG_ERR_VINT_OVERFLOW).
Proof.
  intros Hn Hv. pose proof (vint_max_closed n Hn) as M. split.
  - intros Hle.
    destruct (decode_encode_fixed v n Hn ltac:(lia)) as (bs & E & L & D).
    exists bs. split; [exact E|]. split; [exact L|]. split; [exact D|].
    apply vint_not_unknown; lia.
  - intros Hgt. unfold ebml_vint_encode_fixed.
    destruct (Z.ltb_spec n 1); [lia|]. destruct (Z.ltb_spec 8 n); [lia|]. cbn [orb].
    destruct (Z.ltb_spec (vint_max n) v); [reflexivity|lia].
Qed.

Lemma vint_fixed_roundtrip_witness :
  (300 <= 2 ^ (7 * 4) - 2 ->
   exists bs, ebml_vint_encode_fixed 300 4 = Ok bs /\ zlen bs = 4
              /\ (forall tail, ebml_vint_decode (bs ++ tail) = Ok (300, 4))
              /\ ebml_vint_is_unknown 300 4 = false)
  /\ (2 ^ (7 * 4) - 2 < 300 -> ebml_vint_encode_fixed 300 4 = Err MKVTAG_ERR_VINT_OVERFLOW).
Proof. apply (vint_fixed_roundtrip 300 4); lia. Defined.

(** Storing back, byte by byte, what was read. *)
Lemma store_be_fold l :
  Forall (fun b => 0 <= b < 256) l ->
  forall r, 0 <= r < 2 ^ (64 - 8 * zlen l) -> 8 * zlen l <= 64 ->
    store_be (length l) (fold_left shift_in l r) = l
    /\ Z.shiftr (fold_left shift_in l r) (8 * zlen l) = r.
Proof.
  induction 1 as [|b l Hb Hl IH]; intros r Hr Hk.
  - cbn. split; [reflexivity|]. apply Z.shiftr_0_r.
  - rewrite zlen_cons in Hr, Hk. pose proof (zlen_nonneg l) as Hz.
    cbn [fold_left].
    assert (Hs : shift_in r b = r * 256 + b).
    { unfold shift_in. rewrite lor_shift_byte by lia. apply wrap64_small.
      assert (2 ^ (64 - 8 * (1 + zlen l)) <= 2 ^ 56) by (apply Z.pow_le_mono_r; lia).
      lia. }
    rewrite Hs.
    assert (Hr' : 0 <= r * 256 + b < 2 ^ (64 - 8 * zlen l)).
    { split; [lia|].
      replace (64 - 8 * zlen l) with ((64 - 8 * (1 + zlen l)) + 8) by lia.
      rewrite Z.pow_add_r by lia. change (2 ^ 8) with 256. lia. }
    destruct (IH (r * 256 + b) Hr' ltac:(lia)) as [S1 S2].
    split.
    + cbn [length]. rewrite store_be_cons. fold (zlen l). rewrite S2, S1.
      f_equal. rewrite land_255. rewrite Z.add_comm, Z.mod_add by lia.
      apply Z.mod_small. lia.
    + rewrite zlen_cons. replace (8 * (1 + zlen l)) with (8 * zlen l + 8) by lia.
      rewrite <- Z.shiftr_shiftr by lia. rewrite S2. rewrite shiftr_8.
      rewrite Z.add_comm, Z.div_add by lia. rewrite Z.div_small by lia. lia.
Qed.

Lemma data_bits_table : forallb data_bits_ok (zrange 256) = true.
Proof. vm_compute. reflexivity. Qed.

Lemma data_bits_spec b :
  0 <= b < 256 ->
  0 <= Z.land b (Z.shiftr 0xFF (ebml_vint_length b)) < 2 ^ (8 - ebml_vint_length b).
Proof.
  intros H. pose proof data_bits_table as T. rewrite forallb_forall in T.
  specialize (T b (zrange_in 256 b ltac:(lia))). unfold data_bits_ok in T.
  apply andb_true_iff in T. destruct T as [T1 T2]. lia.
Qed.

Lemma firstn_keeps_forall {A} (P : A -> Prop) n (l : list A) : Forall P l -> Forall P (firstn n l).
Proof.
  intros H. revert n. induction H; intros [|n]; cbn; constructor; auto.
Qed.

(** What [ebml_vint_decode] gives on bytes: a length [n] from 1 to 8 within
    the data, a value below 2^(7n), which depend on the first [n] bytes only.
    Encoding the value back on [n] bytes gives these bytes again, except for
    the value of all ones, which is the unknown size and which
    [ebml_vint_encode_fixed] refuses. *)
Theorem vint_decode_canonical (data : list Z) (v n : Z) :
  Forall (fun b => 0 <= b < 256) data ->
  ebml_vint_decode data = Ok (v, n) ->
  1 <= n <= 8 /\ n <= zlen data /\ 0 <= v < 2 ^ (7 * n)
  /\ (forall tail, ebml_vint_decode (firstn (Z.to_nat n) data ++ tail) = Ok (v, n))
  /\ (v < 2 ^ (7 * n) - 1 -> ebml_vint_encode_fixed v n = Ok (firstn (Z.to_nat n) data))
  /\ (v = 2 ^ (7 * n) - 1 ->
      ebml_vint_is_unknown v n = true
      /\ ebml_vint_encode_fixed v n = Err MKVTAG_ERR_VINT_OVERFLOW).
Proof.
  intros B D. destruct data as [|b0 rest]; [discriminate|].
  inversion B as [|? ? Hb0 Hrest]; subst.
  unfold ebml_vint_decode in D.
  pose proof (vint_length_range b0) as R.
  destruct (Z.eqb_spec (ebml_vint_length b0) 0) as [Z0|Z0]; [discriminate|].
  destruct (Z.ltb_spec (zlen (b0 :: rest)) (ebml_vint_length b0)) as [Hl|Hl]; [discriminate|].
  inversion D as [[Dv Dn]]. clear D. subst v n.
  set (n := ebml_vint_length b0) in *.
  set (l := firstn (Z.to_nat (n - 1)) rest) in *.
  set (r0 := Z.land b0 (Z.shiftr 255 n)) in *.
  rewrite zlen_cons in Hl.
  assert (Ll : zlen l = n - 1).
  { unfold l, zlen. rewrite length_firstn. unfold zlen in Hl. lia. }
  assert (Bl : Forall (fun b => 0 <= b < 256) l) by (apply firstn_keeps_forall; exact Hrest).
  pose proof (data_bits_spec b0 Hb0) as Hr0. fold n in Hr0. fold r0 in Hr0.
  assert (P8 : 2 ^ (8 - n) <= 2 ^ (64 - 8 * zlen l)) by (apply Z.pow_le_mono_r; lia).
  destruct (store_be_fold l Bl r0 ltac:(lia) ltac:(lia)) as [S1 S2].
  set (V := fold_left shift_in l r0) in *.
  assert (HV : 0 <= V < 2 ^ (7 * n)).
  { rewrite Ll in S2. rewrite Z.shiftr_div_pow2 in S2 by lia.
    assert (0 < 2 ^ (8 * (n - 1))) by (apply Z.pow_pos_nonneg; lia).
    assert (0 <= V).
    { destruct (Z.lt_ge_cases V 0) as [N|N]; [|exact N].
      assert (V / 2 ^ (8 * (n - 1)) < 0) by (apply Z.div_lt_upper_bound; lia). lia. }
    split; [assumption|].
    replace (7 * n) with (8 * (n - 1) + (8 - n)) by lia. rewrite Z.pow_add_r by lia.
    pose proof (Z.div_mod V (2 ^ (8 * (n - 1))) ltac:(lia)) as DM.
    pose proof (Z.mod_pos_bound V (2 ^ (8 * (n - 1))) ltac:(lia)) as MB.
    rewrite S2 in DM. nia. }
  assert (F : firstn (Z.to_nat n) (b0 :: rest) = b0 :: l).
  { replace (Z.to_nat n) with (S (Z.to_nat (n - 1))) by lia. reflexivity. }
  assert (E : 0 <= V <= vint_max n ->
              ebml_vint_encode_fixed V n = Ok (firstn (Z.to_nat n) (b0 :: rest))).
  { intros HVm. rewrite F. rewrite encode_fixed_ok by lia.
    replace (Z.to_nat n) with (S (length l)) by (unfold zlen in Ll; lia).
    rewrite store_be_cons. fold (zlen l). rewrite S2, S1. cbn [or_first].
    unfold r0, n. rewrite first_byte_back_spec by assumption. reflexivity. }
  split; [lia|]. split; [rewrite zlen_cons; lia|]. split; [exact HV|].
  split.
  { intros tail. rewrite F. rewrite <- app_comm_cons. unfold ebml_vint_decode.
    fold n. destruct (Z.eqb_spec n 0); [lia|].
    match goal with |- context [zlen ?x <? n] => destruct (Z.ltb_spec (zlen x) n) as [Hx|Hx] end.
    { rewrite zlen_cons, zlen_app in Hx. pose proof (zlen_nonneg tail). lia. }
    rewrite firstn_app.
    replace (Z.to_nat (n - 1) - length l)%nat with 0%nat by (unfold zlen in Ll; lia).
    rewrite firstn_O, app_nil_r.
    fold l. rewrite firstn_all2 by (unfold zlen in Ll; lia). reflexivity. }
  pose proof (vint_max_closed n ltac:(lia)) as M.
  split.
  { intros Hlt. apply E. lia. }
  intros Heq. split.
  - rewrite unknown_closed by lia. apply Z.eqb_eq. exact Heq.
  - unfold ebml_vint_encode_fixed.
    destruct (Z.ltb_spec n 1); [lia|]. destruct (Z.ltb_spec 8 n); [lia|]. cbn [orb].
    destruct (Z.ltb_spec (vint_max n) V); [reflexivity|lia].
Qed.

Lemma vint_decode_canonical_witness :
  1 <= 2 <= 8 /\ 2 <= zlen [0x41; 0x2C; 7] /\ 0 <= 300 < 2 ^ (7 * 2)
  /\ (forall tail, ebml_vint_decode (firstn (Z.to_nat 2) [0x41; 0x2C; 7] ++ tail) = Ok (300, 2))
  /\ (300 < 2 ^ (7 * 2) - 1 ->
      ebml_vint_encode_fixed 300 2 = Ok (firstn (Z.to_nat 2) [0x41; 0x2C; 7]))
  /\ (300 = 2 ^ (7 * 2) - 1 ->
      ebml_vint_is_unknown 300 2 = true
      /\ ebml_vint_encode_fixed 300 2 = Err MKVTAG_ERR_VINT_OVERFLOW).
Proof.
  apply (vint_decode_canonical [0x41; 0x2C; 7] 300 2).
  - repeat constructor; lia.
  - vm_compute. reflexivity.
Defined.


Lemma int_data_size_range v : 1 <= int_data_size v <= 8.
Proof.
  unfold int_data_size. destruct (v =? 0); [lia|].
  repeat match goal with |- context [if ?c then _ else _] => destruct c end; lia.
Qed.

Lemma int_data_size_holds v :
  - 2 ^ 63 <= v < 2 ^ 63 ->
  - 2 ^ (8 * int_data_size v - 1) <= v < 2 ^ (8 * int_data_size v - 1).
Proof.
  intros H. unfold int_data_size.
  destruct (Z.eqb_spec v 0); [subst; cbn; lia|].
  repeat match goal with
         | |- context [(?a <=? ?b) && (?c <=? ?d)] =>
             destruct (Z.leb_spec a b), (Z.leb_spec c d); cbn [andb]
         end; cbn; lia.
Qed.

Lemma int_bytes_length v : zlen (int_bytes v) = int_data_size v.
Proof.
  unfold int_bytes, zlen. rewrite store_be_length.
  pose proof (int_data_size_range v). lia.
Qed.

Lemma int_element_closed buf i v :
  i <> 0 ->
  ebml_write_int_element buf i v = Ok (buf ++ element_bytes i (int_bytes v)).
Proof.
  intros Hi. unfold ebml_write_int_element. cbv zeta.
  pose proof (int_data_size_range v) as Hr.
  rewrite write_id_ok by assumption. cbn [rbind].
  rewrite write_size_closed by lia. rewrite small_fits by lia. cbn [rbind].
  unfold element_bytes. rewrite int_bytes_length. rewrite <- !app_assoc. reflexivity.
Qed.

Lemma to_int64_small z : - 2 ^ 63 <= z < 2 ^ 63 -> to_int64 z = z.
Proof. intros H. unfold to_int64. rewrite Z.mod_small by lia. lia. Qed.

(** Reading back the [n] low bytes of [u], from [r] on: the value so far
    stays an [int64_t] when [r] is 0 or -1 and at most 8 bytes are read. *)
Lemma fold_signed_store_be n u r :
  (n <= 8)%nat -> -1 <= r <= 0 ->
  (n = 8%nat -> - 2 ^ 63 <= r * 2 ^ 64 + u mod 2 ^ 64 < 2 ^ 63) ->
  fold_left shift_in_signed (store_be n u) r
  = r * 2 ^ (8 * Z.of_nat n) + u mod 2 ^ (8 * Z.of_nat n).
Proof.
  revert u. induction n; intros u Hn Hr H8.
  - cbn. rewrite Z.mod_1_r. lia.
  - change (store_be (S n) u) with (store_be n (Z.shiftr u 8) ++ [Z.land u 0xFF]).
    rewrite fold_left_app. cbn [fold_left].
    rewrite IHn; [|lia|lia|lia].
    unfold shift_in_signed.
    rewrite lor_shift_byte_any by (rewrite land_255; apply Z.mod_pos_bound; lia).
    rewrite shiftr_8, land_255.
    assert (P : 0 < 2 ^ (8 * Z.of_nat n)) by (apply Z.pow_pos_nonneg; lia).
    assert (E : 2 ^ (8 * Z.of_nat (S n)) = 2 ^ (8 * Z.of_nat n) * 256).
    { replace (8 * Z.of_nat (S n)) with (8 * Z.of_nat n + 8) by lia.
      rewrite Z.pow_add_r by lia. reflexivity. }
    assert (M : u mod 2 ^ (8 * Z.of_nat (S n))
                = (u / 256) mod 2 ^ (8 * Z.of_nat n) * 256 + u mod 256).
    { rewrite E. rewrite (Z.mul_comm _ 256). rewrite Z.rem_mul_r by lia. lia. }
    assert (V : (r * 2 ^ (8 * Z.of_nat n) + (u / 256) mod 2 ^ (8 * Z.of_nat n)) * 256
                + u mod 256
                = r * 2 ^ (8 * Z.of_nat (S n)) + u mod 2 ^ (8 * Z.of_nat (S n))).
    { rewrite M, E. ring. }
    rewrite V. apply to_int64_small.
    destruct (Nat.eq_dec (S n) 8) as [N8|N8].
    + rewrite N8. change (8 * Z.of_nat 8) with 64. apply H8. exact N8.
    + assert (B : 2 ^ (8 * Z.of_nat (S n)) <= 2 ^ 56) by (apply Z.pow_le_mono_r; lia).
      pose proof (Z.mod_pos_bound u (2 ^ (8 * Z.of_nat (S n))) ltac:(lia)).
      assert (0 < 2 ^ (8 * Z.of_nat (S n))) by (apply Z.pow_pos_nonneg; lia).
      nia.
Qed.

(** The sign bit of the first byte stored. *)
Lemma store_be_sign n v :
  (1 <= n <= 8)%nat ->
  - 2 ^ (8 * Z.of_nat n - 1) <= v < 2 ^ (8 * Z.of_nat n - 1) ->
  bit_set (hd 0 (store_be n (wrap64 v))) 0x80 = (v <? 0).
Proof.
  intros Hn Hv. destruct n as [|k]; [lia|].
  rewrite store_be_cons. cbn [hd]. unfold bit_set.
  rewrite Z.shiftr_div_pow2, land_255 by lia.
  assert (P : 0 < 2 ^ (8 * Z.of_nat k)) by (apply Z.pow_pos_nonneg; lia).
  assert (E : 2 ^ (8 * Z.of_nat (S k) - 1) = 2 ^ (8 * Z.of_nat k) * 128).
  { replace (8 * Z.of_nat (S k) - 1) with (8 * Z.of_nat k + 7) by lia.
    rewrite Z.pow_add_r by lia. reflexivity. }
  rewrite E in Hv.
  assert (E64 : 2 ^ 64 = 2 ^ (8 * Z.of_nat k) * 256 * 2 ^ (8 * (7 - Z.of_nat k))).
  { rewrite <- Z.mul_assoc. change 256 with (2 ^ 8).
    rewrite <- !Z.pow_add_r by lia. f_equal. lia. }
  assert (P7 : 0 < 2 ^ (8 * (7 - Z.of_nat k))) by (apply Z.pow_pos_nonneg; lia).
  (* the byte is (v / 2^(8k)) mod 256 *)
  assert (B : (wrap64 v / 2 ^ (8 * Z.of_nat k)) mod 256 = (v / 2 ^ (8 * Z.of_nat k)) mod 256).
  { unfold wrap64. rewrite (Z.mod_eq v (2 ^ 64)) by lia.
    set (t := v / 2 ^ 64). rewrite E64.
    replace (v - 2 ^ (8 * Z.of_nat k) * 256 * 2 ^ (8 * (7 - Z.of_nat k)) * t)
      with (v + (- t * 2 ^ (8 * (7 - Z.of_nat k)) * 256) * 2 ^ (8 * Z.of_nat k)) by ring.
    rewrite Z.div_add by lia. rewrite Z.mod_add by lia. reflexivity. }
  rewrite B.
  set (q := v / 2 ^ (8 * Z.of_nat k)).
  assert (Hq : -128 <= q < 128).
  { unfold q. split.
    - apply Z.div_le_lower_bound; lia.
    - apply Z.div_lt_upper_bound; lia. }
  assert (Sg : (v <? 0) = (q <? 0)).
  { unfold q. destruct (Z.ltb_spec v 0), (Z.ltb_spec (v / 2 ^ (8 * Z.of_nat k)) 0);
      try reflexivity.
    - exfalso. assert (v / 2 ^ (8 * Z.of_nat k) < 0) by (apply Z.div_lt_upper_bound; lia). lia.
    - exfalso. assert (0 <= v / 2 ^ (8 * Z.of_nat k)) by (apply Z.div_pos; lia). lia. }
  rewrite Sg.
  change 128 with (2 ^ 7). rewrite Z.land_comm.
  destruct (Z.ltb_spec q 0).
  - replace (q mod 256) with (q + 256) by (apply Z.mod_unique_pos with (q := -1); lia).
    assert (T : Z.testbit (q + 256) 7 = true).
    { rewrite Z.testbit_true by lia. change (2 ^ 7) with 128.
      assert ((q + 256) / 128 = 1) by (symmetry; apply Z.div_unique with (r := q + 128); lia).
      rewrite H0. reflexivity. }
    destruct (Z.eqb_spec (Z.land (2 ^ 7) (q + 256)) 0) as [L|L]; [|reflexivity].
    exfalso.
    assert (Z.testbit (Z.land (2 ^ 7) (q + 256)) 7 = true).
    { rewrite Z.land_spec, T, Z.pow2_bits_true by lia. reflexivity. }
    rewrite L in H0. rewrite Z.bits_0 in H0. discriminate.
  - rewrite Z.mod_small by lia.
    assert (T : Z.land (2 ^ 7) q = 0).
    { apply Z.bits_inj'. intros m Hm. rewrite Z.land_spec, Z.bits_0.
      destruct (Z.eq_dec m 7) as [->|N7].
      - replace (Z.testbit q 7) with false; [apply andb_false_r|].
        symmetry. destruct (Z.eq_dec q 0) as [->|]; [apply Z.bits_0|].
        apply Z.bits_above_log2; [lia|].
        assert (Z.log2 q < 7); [|lia]. apply Z.log2_lt_pow2; lia.
      - rewrite Z.pow2_bits_false by lia. reflexivity. }
    rewrite T. reflexivity.
Qed.

Lemma int_bytes_decode v :
  - 2 ^ 63 <= v < 2 ^ 63 ->
  fold_left shift_in_signed (int_bytes v)
            (if bit_set (hd 0 (int_bytes v)) 0x80 then -1 else 0) = v.
Proof.
  intros Hv. unfold int_bytes.
  pose proof (int_data_size_range v) as R.
  pose proof (int_data_size_holds v Hv) as Hh.
  set (n := int_data_size v) in *.
  rewrite store_be_sign by (rewrite ?Z2Nat.id; lia).
  assert (P : 0 < 2 ^ (8 * n - 1)) by (apply Z.pow_pos_nonneg; lia).
  assert (E : 2 ^ (8 * n) = 2 * 2 ^ (8 * n - 1)).
  { replace (8 * n) with (1 + (8 * n - 1)) at 1 by lia. rewrite Z.pow_add_r by lia.
    reflexivity. }
  assert (W : wrap64 v mod 2 ^ (8 * n) = v mod 2 ^ (8 * n)).
  { unfold wrap64. rewrite (Z.mod_eq v (2 ^ 64)) by lia.
    assert (E64 : 2 ^ 64 = 2 ^ (64 - 8 * n) * 2 ^ (8 * n))
      by (rewrite <- Z.pow_add_r by lia; f_equal; lia).
    set (t := v / 2 ^ 64). rewrite E64.
    replace (v - 2 ^ (64 - 8 * n) * 2 ^ (8 * n) * t)
      with (v + (- t * 2 ^ (64 - 8 * n)) * 2 ^ (8 * n)) by ring.
    apply Z.mod_add. lia. }
  rewrite fold_signed_store_be.
  - rewrite Z2Nat.id by lia. rewrite W.
    destruct (Z.ltb_spec v 0).
    + replace (v mod 2 ^ (8 * n)) with (v + 2 ^ (8 * n))
        by (apply Z.mod_unique_pos with (q := -1); lia).
      lia.
    + rewrite Z.mod_small by lia. lia.
  - lia.
  - destruct (v <? 0); lia.
  - intros N8. assert (n = 8) by lia.
    assert (W8 : wrap64 v mod 2 ^ 64 = v mod 2 ^ 64) by (unfold wrap64; apply Z.mod_mod; lia).
    rewrite W8.
    destruct (Z.ltb_spec v 0).
    + replace (v mod 2 ^ 64) with (v + 2 ^ 64)
        by (apply Z.mod_unique_pos with (q := -1); lia).
      lia.
    + rewrite Z.mod_small by lia. lia.
Qed.

Lemma read_int_holds d q w i v p :
  - 2 ^ 63 <= v < 2 ^ 63 ->
  holds d p (element_bytes i (int_bytes v)) ->
  ebml_read_int (mk_file d q w) (element_at i (int_bytes v) p)
  = (Ok v, mk_file d (p + zlen (element_bytes i (int_bytes v))) w).
Proof.
  intros Hv H.
  pose proof (int_bytes_length v) as L. pose proof (int_data_size_range v) as R.
  assert (Hf : fits_vint (zlen (int_bytes v)) = true) by (apply small_fits; lia).
  pose proof H as [Hp _].
  unfold ebml_read_int. cbn [size data_offset element_at].
  destruct (Z.ltb_spec 8 (zlen (int_bytes v))); [lia|].
  pose proof (header_size_pos i (int_bytes v) Hf) as Hh.
  rewrite holds_seek by lia. cbn [is_ok negb].
  destruct (Z.eqb_spec (zlen (int_bytes v)) 0); [lia|].
  unfold element_bytes in H. rewrite app_assoc in H.
  apply holds_app in H. destruct H as [_ H].
  rewrite zlen_app, id_bytes_length, vint_bytes_length in H
    by (apply fits_vint_true in Hf; pose proof (zlen_nonneg (int_bytes v)); lia).
  fold (header_size i (int_bytes v)) in H.
  rewrite (holds_read _ _ _ w H). cbn [is_ok negb].
  rewrite int_bytes_decode by exact Hv.
  rewrite (element_bytes_size _ _ Hf). do 2 f_equal. lia.
Qed.


Lemma element_header_middle i content pre post w :
  id_ok i = true -> fits_vint (zlen content) = true ->
  ebml_read_element_header
    (mk_file (pre ++ element_bytes i content ++ post) (zlen pre) w)
  = (Ok (element_at i content (zlen pre)),
     mk_file (pre ++ element_bytes i content ++ post)
             (data_offset (element_at i content (zlen pre))) w).
Proof.
  intros Hi Hf. apply read_header_holds; [exact Hi|exact Hf|apply holds_middle].
Qed.

Lemma element_at_end i content p :
  fits_vint (zlen content) = true ->
  end_offset (element_at i content p) = p + zlen (element_bytes i content).
Proof.
  intros Hf. cbn [end_offset element_at]. rewrite (element_bytes_size _ _ Hf). lia.
Qed.

Lemma zlen_le_0 {A} (l : list A) : zlen l <= 0 -> l = [].
Proof.
  destruct l as [|x l]; [reflexivity|]. rewrite zlen_cons. pose proof (zlen_nonneg l). lia.
Qed.

Lemma id_size_small i : wrap64 (ebml_id_size i) = ebml_id_size i.
Proof. pose proof (ebml_id_size_range i). apply wrap64_small. lia. Qed.

(** An unsigned integer element that was written is read back:
    [ebml_write_uint_element] appends to any buffer the same bytes, as many as
    [ebml_uint_element_size] tells; wherever they lie in a file,
    [ebml_read_element_header] reads the ID and the extent of the element and
    [ebml_read_uint] then gives the value written.  The ID is one that
    [ebml_id_decode] reads back. *)
Theorem uint_element_roundtrip (i v : Z) :
  0 < i < 2 ^ 32 -> id_class i = true -> 0 <= v < 2 ^ 64 ->
  exists bs,
    (forall buf, ebml_write_uint_element buf i v = Ok (buf ++ bs))
    /\ zlen bs = ebml_uint_element_size i v
    /\ forall pre post w,
       exists elem,
         ebml_read_element_header (mk_file (pre ++ bs ++ post) (zlen pre) w)
         = (Ok elem, mk_file (pre ++ bs ++ post) (data_offset elem) w)
         /\ id elem = i
         /\ end_offset elem = zlen pre + zlen bs
         /\ forall q, ebml_read_uint (mk_file (pre ++ bs ++ post) q w) elem
                      = (Ok v, mk_file (pre ++ bs ++ post) (zlen pre + zlen bs) w).
Proof.
  intros Hi Hc Hv.
  pose proof (id_class_ok i Hi Hc) as Hok.
  pose proof (uint_bytes_length v) as L. pose proof (uint_data_size_range v) as R.
  assert (Hf : fits_vint (zlen (uint_bytes v)) = true) by (apply small_fits; lia).
  exists (element_bytes i (uint_bytes v)).
  split; [intros buf; apply uint_element_closed; lia|].
  split.
  { rewrite (element_bytes_size _ _ Hf). unfold header_size, ebml_uint_element_size.
    cbv zeta. rewrite L. symmetry. apply wrap64_small.
    pose proof (ebml_id_size_range i).
    assert (1 <= ebml_vint_size (if uint_data_size v =? 0 then 1 else uint_data_size v) <= 8).
    { apply vint_size_spec. unfold EBML_VINT_MAX_8. lia. }
    lia. }
  intros pre post w. exists (element_at i (uint_bytes v) (zlen pre)).
  split; [apply element_header_middle; assumption|].
  split; [reflexivity|].
  split; [apply element_at_end; exact Hf|].
  intros q. apply read_uint_holds; [exact Hv|apply holds_middle|exact Hf].
Qed.

Lemma uint_element_roundtrip_witness :
  exists bs,
    (forall buf, ebml_write_uint_element buf MKV_ID_TAG_TRACK_UID 70000 = Ok (buf ++ bs))
    /\ zlen bs = ebml_uint_element_size MKV_ID_TAG_TRACK_UID 70000
    /\ forall pre post w,
       exists elem,
         ebml_read_element_header (mk_file (pre ++ bs ++ post) (zlen pre) w)
         = (Ok elem, mk_file (pre ++ bs ++ post) (data_offset elem) w)
         /\ id elem = MKV_ID_TAG_TRACK_UID
         /\ end_offset elem = zlen pre + zlen bs
         /\ forall q, ebml_read_uint (mk_file (pre ++ bs ++ post) q w) elem
                      = (Ok 70000, mk_file (pre ++ bs ++ post) (zlen pre + zlen bs) w).
Proof.
  apply (uint_element_roundtrip MKV_ID_TAG_TRACK_UID 70000).
  - vm_compute. split; reflexivity.
  - vm_compute. reflexivity.
  - lia.
Defined.

(** A signed integer element that was written is read back, whatever its
    sign and width: [ebml_write_int_element] appends to any buffer the same
    bytes, the ID, one byte of size and 1, 2, 3, 4 or 8 bytes of value;
    wherever they lie in a file, [ebml_read_element_header] reads the ID and
    the extent of the element and [ebml_read_int] then gives the value
    written, sign included. *)
Theorem int_element_roundtrip (i v : Z) :
  0 < i < 2 ^ 32 -> id_class i = true -> - 2 ^ 63 <= v < 2 ^ 63 ->
  exists bs,
    (forall buf, ebml_write_int_element buf i v = Ok (buf ++ bs))
    /\ zlen bs = ebml_id_size i + 1 + int_data_size v
    /\ forall pre post w,
       exists elem,
         ebml_read_element_header (mk_file (pre ++ bs ++ post) (zlen pre) w)
         = (Ok elem, mk_file (pre ++ bs ++ post) (data_offset elem) w)
         /\ id elem = i
         /\ end_offset elem = zlen pre + zlen bs
         /\ forall q, ebml_read_int (mk_file (pre ++ bs ++ post) q w) elem
                      = (Ok v, mk_file (pre ++ bs ++ post) (zlen pre + zlen bs) w).
Proof.
  intros Hi Hc Hv.
  pose proof (id_class_ok i Hi Hc) as Hok.
  pose proof (int_bytes_length v) as L. pose proof (int_data_size_range v) as R.
  assert (Hf : fits_vint (zlen (int_bytes v)) = true) by (apply small_fits; lia).
  exists (element_bytes i (int_bytes v)).
  split; [intros buf; apply int_element_closed; lia|].
  split.
  { rewrite (element_bytes_size _ _ Hf). unfold header_size. rewrite L.
    assert (ebml_vint_size (int_data_size v) = 1).
    { unfold ebml_vint_size, EBML_VINT_MAX_1.
      destruct (Z.leb_spec (int_data_size v) (2 ^ 7 - 2)); [reflexivity|lia]. }
    lia. }
  intros pre post w. exists (element_at i (int_bytes v) (zlen pre)).
  split; [apply element_header_middle; assumption|].
  split; [reflexivity|].
  split; [apply element_at_end; exact Hf|].
  intros q. apply read_int_holds; [exact Hv|apply holds_middle].
Qed.

Lemma int_element_roundtrip_witness :
  exists bs,
    (forall buf, ebml_write_int_element buf MKV_ID_TAG_TRACK_UID (-70000) = Ok (buf ++ bs))
    /\ zlen bs = ebml_id_size MKV_ID_TAG_TRACK_UID + 1 + int_data_size (-70000)
    /\ forall pre post w,
       exists elem,
         ebml_read_element_header (mk_file (pre ++ bs ++ post) (zlen pre) w)
         = (Ok elem, mk_file (pre ++ bs ++ post) (data_offset elem) w)
         /\ id elem = MKV_ID_TAG_TRACK_UID
         /\ end_offset elem = zlen pre + zlen bs
         /\ forall q, ebml_read_int (mk_file (pre ++ bs ++ post) q w) elem
                      = (Ok (-70000), mk_file (pre ++ bs ++ post) (zlen pre + zlen bs) w).
Proof.
  apply (int_element_roundtrip MKV_ID_TAG_TRACK_UID (-70000)).
  - vm_compute. split; reflexivity.
  - vm_compute. reflexivity.
  - lia.
Defined.

(** A string element that was written is read back:
    [ebml_write_string_element] appends to any buffer the same bytes, as many
    as [ebml_string_element_size] tells; wherever they lie in a file, the
    header reader reads the ID and the extent of the element and the string
    reader then gives the string written.  A string longer than 2^56 - 2 is
    refused with MKVTAG_ERR_VINT_OVERFLOW, and a NULL string with
    MKVTAG_ERR_INVALID_ARG, although [ebml_string_element_size] answers for
    NULL with the size of an empty element. *)
Theorem string_element_roundtrip (i : Z) (s : cstring) :
  0 < i < 2 ^ 32 -> id_class i = true -> string_ok s = true ->
  (zlen s <= 2 ^ 56 - 2 ->
   exists bs,
     (forall buf, ebml_write_string_element buf i (Some s) = Ok (buf ++ bs))
     /\ zlen bs = ebml_string_element_size i (Some s)
     /\ forall pre post w,
        exists elem,
          ebml_read_element_header (mk_file (pre ++ bs ++ post) (zlen pre) w)
          = (Ok elem, mk_file (pre ++ bs ++ post) (data_offset elem) w)
          /\ id elem = i
          /\ end_offset elem = zlen pre + zlen bs
          /\ forall q, ebml_read_string_alloc (mk_file (pre ++ bs ++ post) q w) elem
                       = (Ok s, mk_file (pre ++ bs ++ post) (zlen pre + zlen bs) w))
  /\ (2 ^ 56 - 2 < zlen s ->
      forall buf, ebml_write_string_element buf i (Some s) = Err MKVTAG_ERR_VINT_OVERFLOW)
  /\ (forall buf, ebml_write_string_element buf i None = Err MKVTAG_ERR_INVALID_ARG)
  /\ ebml_string_element_size i None = ebml_id_size i + 1.
Proof.
  intros Hi Hc Hs.
  pose proof (id_class_ok i Hi Hc) as Hok.
  pose proof (zlen_nonneg s) as Hn. pose proof (ebml_id_size_range i) as Ri.
  split.
  { intros Hle.
    assert (Hf : fits_vint (zlen s) = true) by (apply fits_vint_true; unfold EBML_VINT_MAX_8; lia).
    exists (element_bytes i s).
    split; [intros buf; rewrite string_element_closed by lia; rewrite Hf; reflexivity|].
    split.
    { rewrite (element_bytes_size _ _ Hf). unfold header_size, ebml_string_element_size, strlen.
      symmetry. apply wrap64_small.
      assert (1 <= ebml_vint_size (zlen s) <= 8)
        by (apply vint_size_spec; unfold EBML_VINT_MAX_8; lia).
      lia. }
    intros pre post w. exists (element_at i s (zlen pre)).
    split; [apply element_header_middle; assumption|].
    split; [reflexivity|].
    split; [apply element_at_end; exact Hf|].
    intros q. apply read_string_holds; [exact Hs|apply holds_middle|exact Hf]. }
  split.
  { intros Hgt buf. rewrite string_element_closed by lia.
    assert (Hf : fits_vint (zlen s) = false)
      by (apply fits_vint_false; unfold EBML_VINT_MAX_8; lia).
    rewrite Hf. reflexivity. }
  split; [reflexivity|].
  unfold ebml_string_element_size. change (ebml_vint_size 0) with 1.
  rewrite Z.add_0_r. apply wrap64_small. lia.
Qed.

Lemma string_element_roundtrip_witness :
  (zlen str_TITLE <= 2 ^ 56 - 2 ->
   exists bs,
     (forall buf, ebml_write_string_element buf MKV_ID_TAG_NAME (Some str_TITLE)
                  = Ok (buf ++ bs))
     /\ zlen bs = ebml_string_element_size MKV_ID_TAG_NAME (Some str_TITLE)
     /\ forall pre post w,
        exists elem,
          ebml_read_element_header (mk_file (pre ++ bs ++ post) (zlen pre) w)
          = (Ok elem, mk_file (pre ++ bs ++ post) (data_offset elem) w)
          /\ id elem = MKV_ID_TAG_NAME
          /\ end_offset elem = zlen pre + zlen bs
          /\ forall q, ebml_read_string_alloc (mk_file (pre ++ bs ++ post) q w) elem
                       = (Ok str_TITLE, mk_file (pre ++ bs ++ post) (zlen pre + zlen bs) w))
  /\ (2 ^ 56 - 2 < zlen str_TITLE ->
      forall buf, ebml_write_string_element buf MKV_ID_TAG_NAME (Some str_TITLE)
                  = Err MKVTAG_ERR_VINT_OVERFLOW)
  /\ (forall buf, ebml_write_string_element buf MKV_ID_TAG_NAME None
                  = Err MKVTAG_ERR_INVALID_ARG)
  /\ ebml_string_element_size MKV_ID_TAG_NAME None = ebml_id_size MKV_ID_TAG_NAME + 1.
Proof.
  apply (string_element_roundtrip MKV_ID_TAG_NAME str_TITLE).
  - vm_compute. split; reflexivity.
  - vm_compute. reflexivity.
  - vm_compute. reflexivity.
Defined.

(** A binary element that was written is read back:
    [ebml_write_binary_element] appends to any buffer the same bytes, as many
    as [ebml_binary_element_size] tells; wherever they lie in a file, the
    header reader reads the ID and the extent of the element and the binary
    reader then gives the bytes written.  An element written with no bytes
    is read back as no payload. *)
Theorem binary_element_roundtrip (i : Z) (b : list Z) :
  0 < i < 2 ^ 32 -> id_class i = true -> zlen b <= 2 ^ 56 - 2 ->
  exists bs,
    (forall buf, ebml_write_binary_element buf i (Some b) (zlen b) = Ok (buf ++ bs))
    /\ zlen bs = ebml_binary_element_size i (zlen b)
    /\ forall pre post w,
       exists elem,
         ebml_read_element_header (mk_file (pre ++ bs ++ post) (zlen pre) w)
         = (Ok elem, mk_file (pre ++ bs ++ post) (data_offset elem) w)
         /\ id elem = i
         /\ end_offset elem = zlen pre + zlen bs
         /\ ebml_read_binary_alloc (mk_file (pre ++ bs ++ post) (data_offset elem) w) elem
            = (Ok (if 0 <? zlen b then Some b else None),
               mk_file (pre ++ bs ++ post) (zlen pre + zlen bs) w).
Proof.
  intros Hi Hc Hle.
  pose proof (id_class_ok i Hi Hc) as Hok.
  pose proof (zlen_nonneg b) as Hn. pose proof (ebml_id_size_range i) as Ri.
  assert (Hf : fits_vint (zlen b) = true) by (apply fits_vint_true; unfold EBML_VINT_MAX_8; lia).
  exists (element_bytes i b).
  split.
  { intros buf. destruct (Z.ltb_spec 0 (zlen b)) as [Hpos|Hz].
    - rewrite binary_element_closed by lia. rewrite Hf. reflexivity.
    - assert (Hb : b = []) by (apply zlen_le_0; exact Hz).
      subst b. unfold ebml_write_binary_element.
      rewrite write_id_ok by lia. cbn [rbind].
      rewrite write_size_closed by (cbn; lia). rewrite Hf. cbn [rbind].
      change (0 <? zlen (@nil Z)) with false. cbv iota.
      unfold element_bytes. rewrite app_nil_r, <- app_assoc. reflexivity. }
  split.
  { rewrite (element_bytes_size _ _ Hf). unfold header_size, ebml_binary_element_size.
    symmetry. apply wrap64_small.
    assert (1 <= ebml_vint_size (zlen b) <= 8)
      by (apply vint_size_spec; unfold EBML_VINT_MAX_8; lia).
    lia. }
  intros pre post w. exists (element_at i b (zlen pre)).
  split; [apply element_header_middle; assumption|].
  split; [reflexivity|].
  split; [apply element_at_end; exact Hf|].
  destruct (Z.ltb_spec 0 (zlen b)) as [Hpos|Hz].
  - apply read_binary_holds; [exact Hpos|apply holds_middle|exact Hf].
  - assert (Hb : b = []) by (apply zlen_le_0; exact Hz).
    subst b. unfold ebml_read_binary_alloc. cbn [size element_at].
    change (zlen (@nil Z) =? 0) with true. cbv iota.
    rewrite (element_bytes_size _ _ Hf). cbn [data_offset element_at].
    do 2 f_equal. change (zlen (@nil Z)) with 0. lia.
Qed.

Lemma binary_element_roundtrip_witness :
  exists bs,
    (forall buf, ebml_write_binary_element buf MKV_ID_TAG_BINARY (Some [1; 0; 255]) (zlen [1; 0; 255])
                 = Ok (buf ++ bs))
    /\ zlen bs = ebml_binary_element_size MKV_ID_TAG_BINARY (zlen [1; 0; 255])
    /\ forall pre post w,
       exists elem,
         ebml_read_element_header (mk_file (pre ++ bs ++ post) (zlen pre) w)
         = (Ok elem, mk_file (pre ++ bs ++ post) (data_offset elem) w)
         /\ id elem = MKV_ID_TAG_BINARY
         /\ end_offset elem = zlen pre + zlen bs
         /\ ebml_read_binary_alloc (mk_file (pre ++ bs ++ post) (data_offset elem) w) elem
            = (Ok (if 0 <? zlen [1; 0; 255] then Some [1; 0; 255] else None),
               mk_file (pre ++ bs ++ post) (zlen pre + zlen bs) w).
Proof.
  apply (binary_element_roundtrip MKV_ID_TAG_BINARY [1; 0; 255]).
  - vm_compute. split; reflexivity.
  - vm_compute. reflexivity.
  - vm_compute. intros H. discriminate H.
Defined.


Lemma tolower_zero c : tolower c = 0 <-> c = 0.
Proof.
  unfold tolower. destruct (Z.leb_spec 65 c), (Z.leb_spec c 90); cbn [andb]; lia.
Qed.

Lemma str_casecmp_antisym a b : str_casecmp b a = - str_casecmp a b.
Proof.
  revert b. induction a as [|x a IH]; intros [|y b]; cbn [str_casecmp hd]; try lia.
  destruct (Z.eqb_spec (tolower x - tolower y) 0) as [E|E],
           (Z.eqb_spec (tolower y - tolower x) 0) as [E'|E']; cbn [negb]; try lia.
  apply IH.
Qed.

Lemma str_casecmp_zero a b :
  string_ok a = true -> string_ok b = true ->
  (str_casecmp a b = 0 <-> map tolower a = map tolower b).
Proof.
  revert b. induction a as [|x a IH]; intros [|y b] Ha Hb; cbn [str_casecmp hd map].
  - split; reflexivity.
  - cbn [string_ok forallb] in Hb. apply andb_true_iff in Hb. destruct Hb as [Hy _].
    apply negb_true_iff, Z.eqb_neq in Hy. pose proof (tolower_zero y).
    change (tolower 0) with 0. split; [lia|discriminate].
  - cbn [string_ok forallb] in Ha. apply andb_true_iff in Ha. destruct Ha as [Hx _].
    apply negb_true_iff, Z.eqb_neq in Hx. pose proof (tolower_zero x).
    change (tolower 0) with 0. split; [lia|discriminate].
  - cbn [string_ok forallb] in Ha, Hb.
    apply andb_true_iff in Ha. destruct Ha as [_ Ha].
    apply andb_true_iff in Hb. destruct Hb as [_ Hb].
    destruct (Z.eqb_spec (tolower x - tolower y) 0) as [E|E]; cbn [negb].
    + rewrite (IH b Ha Hb). split.
      * intros M. f_equal; [lia|exact M].
      * intros M. inversion M. reflexivity.
    + split; [lia|]. intros M. inversion M. lia.
Qed.

(** [str_casecmp] orders strings by their lower-case forms: it gives 0
    exactly on strings that differ by the case of ASCII letters only, and
    swapping the arguments changes the sign. *)
Theorem str_casecmp_spec (a b : cstring) :
  string_ok a = true -> string_ok b = true ->
  (str_casecmp a b = 0 <-> map tolower a = map tolower b)
  /\ str_casecmp b a = - str_casecmp a b
  /\ str_casecmp a a = 0.
Proof.
  intros Ha Hb. split; [apply str_casecmp_zero; assumption|].
  split; [apply str_casecmp_antisym|].
  apply str_casecmp_zero; [assumption|assumption|reflexivity].
Qed.

Lemma str_casecmp_spec_witness :
  (str_casecmp str_TITLE str_title = 0 <-> map tolower str_TITLE = map tolower str_title)
  /\ str_casecmp str_title str_TITLE = - str_casecmp str_TITLE str_title
  /\ str_casecmp str_TITLE str_TITLE = 0.
Proof. apply (str_casecmp_spec str_TITLE str_title); vm_compute; reflexivity. Defined.


Lemma copy_simple_tag_eq album name value t s :
  copy_simple_tag album name value t s
  = set_simple_tags t (simple_tags t ++ copy_one album name value s).
Proof.
  unfold copy_simple_tag, copy_one.
  destruct (album && name_matches s name).
  - destruct value; cbn [mkvtag_tag_add_simple]; [reflexivity|].
    rewrite app_nil_r. destruct t; reflexivity.
  - unfold plain_copy. cbv zeta. destruct (st_language s); reflexivity.
Qed.

Lemma fold_copy_eq album name value l t :
  fold_left (copy_simple_tag album name value) l t
  = set_simple_tags t (simple_tags t ++ flat_map (copy_one album name value) l).
Proof.
  revert t. induction l as [|s l IH]; intros t; cbn [fold_left flat_map].
  - rewrite app_nil_r. destruct t; reflexivity.
  - rewrite IH, copy_simple_tag_eq. cbn [set_simple_tags simple_tags target_type
      target_type_str track_uids edition_uids chapter_uids attachment_uids].
    rewrite <- app_assoc. reflexivity.
Qed.

Lemma copy_tag_eq name value t :
  copy_tag name value t
  = mk_tag (target_type t) (target_type_str t) (track_uids t) [] [] []
           (flat_map (copy_one (target_type t =? MKVTAG_TARGET_ALBUM) name value)
                     (simple_tags t)).
Proof.
  unfold copy_tag. cbv zeta. rewrite fold_copy_eq.
  destruct (target_type_str t) eqn:Es, (Z.ltb_spec 0 (zlen (track_uids t))) as [Hu|Hu];
    cbn; try reflexivity.
  - apply zlen_le_0 in Hu. rewrite Hu. reflexivity.
  - apply zlen_le_0 in Hu. rewrite Hu. reflexivity.
Qed.

Lemma fold_copy_tags name value l c :
  fold_left (fun working src_tag =>
               mk_collection (tags working ++ [copy_tag name value src_tag])
                             (count working + 1)) l c
  = mk_collection (tags c ++ map (copy_tag name value) l) (count c + zlen l).
Proof.
  revert c. induction l as [|t l IH]; intros c; cbn [fold_left map].
  - rewrite app_nil_r. change (zlen (@nil mkvtag_tag)) with 0. rewrite Z.add_0_r.
    destruct c; reflexivity.
  - rewrite IH. cbn [tags count]. rewrite <- app_assoc, zlen_cons. f_equal. lia.
Qed.

Lemma name_matches_new name v :
  string_ok name = true -> name_matches (new_simple_tag name v) name = true.
Proof.
  intros H. unfold name_matches. cbn [st_name new_simple_tag].
  apply Z.eqb_eq. apply str_casecmp_zero; [assumption|assumption|reflexivity].
Qed.

Lemma name_matches_plain_copy name s :
  string_ok name = true -> name <> [] ->
  name_matches (plain_copy s) name = name_matches s name.
Proof.
  intros Hs Hn. unfold name_matches.
  assert (E : st_name (plain_copy s) = Some (name_or_empty s)).
  { unfold plain_copy. cbv zeta. destruct (st_language s); reflexivity. }
  rewrite E. unfold name_or_empty. destruct (st_name s) as [m|]; [reflexivity|].
  destruct name as [|c name]; [contradiction|].
  cbn [str_casecmp hd]. cbn [string_ok forallb] in Hs.
  apply andb_true_iff in Hs. destruct Hs as [Hc _].
  apply negb_true_iff, Z.eqb_neq in Hc. pose proof (tolower_zero c).
  change (tolower 0) with 0. apply Z.eqb_neq. lia.
Qed.

Lemma kept_plain_copy s : kept (plain_copy s) = kept s.
Proof.
  unfold kept, plain_copy. cbv zeta. destruct (st_language s) eqn:E; cbn; rewrite ?E; reflexivity.
Qed.

Lemma find_simple_value_app l1 l2 name :
  find_simple_value (l1 ++ l2) name
  = match find_simple_value l1 name with
    | Some v => Some v
    | None => find_simple_value l2 name
    end.
Proof.
  induction l1 as [|s l1 IH]; cbn [app find_simple_value]; [reflexivity|].
  destruct (name_matches s name); [destruct (st_value s)|]; auto.
Qed.

Lemma find_none l name :
  Forall (fun s => name_matches s name = false) l -> find_simple_value l name = None.
Proof.
  induction 1 as [|s l Hs _ IH]; cbn [find_simple_value]; [reflexivity|].
  rewrite Hs. exact IH.
Qed.

Lemma find_some l name v :
  Forall (fun s => name_matches s name = true -> st_value s = Some v) l ->
  Exists (fun s => name_matches s name = true) l ->
  find_simple_value l name = Some v.
Proof.
  induction 1 as [|s l Hs Hl IH]; intros Ex; [inversion Ex|].
  cbn [find_simple_value]. destruct (name_matches s name) eqn:M.
  - rewrite (Hs eq_refl). reflexivity.
  - apply IH. inversion Ex; subst; [congruence|assumption].
Qed.

Lemma album_simple_tags_app l1 l2 :
  album_simple_tags (l1 ++ l2) = album_simple_tags l1 ++ album_simple_tags l2.
Proof. unfold album_simple_tags. rewrite filter_app, flat_map_app. reflexivity. Qed.

Lemma album_simple_tags_cons t l :
  album_simple_tags (t :: l)
  = (if target_type t =? MKVTAG_TARGET_ALBUM then simple_tags t else [])
    ++ album_simple_tags l.
Proof.
  unfold album_simple_tags. cbn [filter].
  destruct (target_type t =? MKVTAG_TARGET_ALBUM); reflexivity.
Qed.

Section ByName.

Variable name : cstring.

Hypothesis name_ok : string_ok name = true.

Hypothesis name_not_empty : name <> [].

(** The copies of the simple tags of one album-level tag. *)
Lemma copy_one_album_none l :
  Forall (fun s => name_matches s name = false) (flat_map (copy_one true name None) l).
Proof.
  induction l as [|s l IH]; cbn [flat_map]; [constructor|].
  apply Forall_app. split; [|exact IH]. unfold copy_one. cbn [andb].
  destruct (name_matches s name) eqn:M; [constructor|].
  constructor; [|constructor]. rewrite name_matches_plain_copy; assumption.
Qed.

Lemma copy_one_album_some v l :
  Forall (fun s => name_matches s name = true -> st_value s = Some v)
         (flat_map (copy_one true name (Some v)) l).
Proof.
  induction l as [|s l IH]; cbn [flat_map]; [constructor|].
  apply Forall_app. split; [|exact IH]. unfold copy_one. cbn [andb].
  destruct (name_matches s name) eqn:M.
  - constructor; [reflexivity|constructor].
  - constructor; [|constructor]. rewrite name_matches_plain_copy by assumption. congruence.
Qed.

Lemma copies_album_none l :
  Forall (fun s => name_matches s name = false)
         (album_simple_tags (map (copy_tag name None) l)).
Proof.
  induction l as [|t l IH]; cbn [map]; [constructor|].
  rewrite album_simple_tags_cons. apply Forall_app. split; [|exact IH].
  rewrite copy_tag_eq. cbn [target_type simple_tags].
  destruct (target_type t =? MKVTAG_TARGET_ALBUM); [|constructor].
  apply copy_one_album_none.
Qed.

Lemma copies_album_some v l :
  Forall (fun s => name_matches s name = true -> st_value s = Some v)
         (album_simple_tags (map (copy_tag name (Some v)) l)).
Proof.
  induction l as [|t l IH]; cbn [map]; [constructor|].
  rewrite album_simple_tags_cons. apply Forall_app. split; [|exact IH].
  rewrite copy_tag_eq. cbn [target_type simple_tags].
  destruct (target_type t =? MKVTAG_TARGET_ALBUM); [|constructor].
  apply copy_one_album_some.
Qed.

Lemma copies_album_found v l :
  existsb (fun check =>
             (target_type check =? MKVTAG_TARGET_ALBUM)
             && existsb (fun s => name_matches s name) (simple_tags check)) l = true ->
  Exists (fun s => name_matches s name = true)
         (album_simple_tags (map (copy_tag name (Some v)) l)).
Proof.
  induction l as [|t l IH]; cbn [existsb map]; [discriminate|].
  rewrite album_simple_tags_cons, Exists_app. intros H.
  apply orb_true_iff in H. destruct H as [H|H]; [left|right; apply IH; exact H].
  apply andb_true_iff in H. destruct H as [Ha Hs].
  rewrite copy_tag_eq. cbn [target_type simple_tags]. rewrite Ha.
  induction (simple_tags t) as [|s ss IHs]; cbn [existsb] in Hs; [discriminate|].
  cbn [flat_map]. rewrite Exists_app.
  destruct (name_matches s name) eqn:M.
  - left. unfold copy_one. cbn [andb]. rewrite M. constructor.
    apply name_matches_new. exact name_ok.
  - right. apply IHs. exact Hs.
Qed.

Lemma add_to_first_album_spec v l l' (Q : mkvtag_simple_tag -> Prop) :
  add_to_first_album l name (Some v) = Some l' ->
  Forall Q (album_simple_tags l) -> Q (new_simple_tag name (Some v)) ->
  Forall Q (album_simple_tags l')
  /\ In (new_simple_tag name (Some v)) (album_simple_tags l').
Proof.
  revert l'. induction l as [|t l IH]; intros l'; cbn [add_to_first_album]; [discriminate|].
  rewrite album_simple_tags_cons.
  destruct (target_type t =? MKVTAG_TARGET_ALBUM) eqn:A.
  - intros E. injection E as <-. intros F Hq.
    rewrite album_simple_tags_cons.
    cbn [mkvtag_tag_add_simple set_simple_tags target_type simple_tags]. rewrite A.
    apply Forall_app in F. destruct F as [F1 F2]. split.
    + apply Forall_app. split; [|exact F2]. apply Forall_app. split; [exact F1|].
      constructor; [exact Hq|constructor].
    + apply in_or_app. left. apply in_or_app. right. left. reflexivity.
  - destruct (add_to_first_album l name (Some v)) as [r|]; cbn [option_map]; [|discriminate].
    intros E. injection E as <-. intros F Hq. cbn [app] in F.
    rewrite album_simple_tags_cons, A. cbn [app]. apply IH; auto.
Qed.

Lemma add_to_first_album_none v l :
  add_to_first_album l name (Some v) = None -> album_simple_tags l = [].
Proof.
  induction l as [|t l IH]; cbn [add_to_first_album]; [reflexivity|].
  rewrite album_simple_tags_cons.
  destruct (target_type t =? MKVTAG_TARGET_ALBUM); [discriminate|].
  destruct (add_to_first_album l name (Some v)); cbn [option_map]; [discriminate|].
  intros _. apply IH. reflexivity.
Qed.

(** The tags of the working collection. *)
Lemma working_tags_none e :
  working_collection (Ok e) name None
  = mk_collection (map (copy_tag name None) (tags e)) (zlen (tags e)).
Proof.
  unfold working_collection. cbv zeta. rewrite fold_copy_tags. reflexivity.
Qed.

Lemma by_name_album_forall existing value :
  match value with
  | None => Forall (fun s => name_matches s name = false)
                   (album_simple_tags (tags (working_collection existing name None)))
  | Some v =>
      Forall (fun s => name_matches s name = true -> st_value s = Some v)
             (album_simple_tags (tags (working_collection existing name (Some v))))
      /\ Exists (fun s => name_matches s name = true)
                (album_simple_tags (tags (working_collection existing name (Some v))))
  end.
Proof.
  destruct existing as [e|err]; destruct value as [v|].
  - unfold working_collection. cbv zeta. rewrite fold_copy_tags. cbn [tags app count].
    destruct (found_anywhere e name) eqn:Fa.
    + cbn [tags]. split; [apply copies_album_some|]. apply copies_album_found. exact Fa.
    + destruct (add_to_first_album _ name (Some v)) as [l|] eqn:Ad; cbn [tags].
      * destruct (add_to_first_album_spec v _ l
                    (fun s => name_matches s name = true -> st_value s = Some v) Ad)
          as [F I]; [apply copies_album_some|reflexivity|].
        split; [exact F|]. apply Exists_exists.
        exists (new_simple_tag name (Some v)). split; [exact I|].
        apply name_matches_new. exact name_ok.
      * apply add_to_first_album_none in Ad.
        rewrite album_simple_tags_app, Ad. cbn [app].
        unfold album_simple_tags. cbn. split.
        -- constructor; [reflexivity|constructor].
        -- constructor. apply name_matches_new. exact name_ok.
  - rewrite working_tags_none. cbn [tags]. apply copies_album_none.
  - unfold working_collection, album_simple_tags. cbn. split.
    + constructor; [reflexivity|constructor].
    + constructor. apply name_matches_new. exact name_ok.
  - unfold working_collection, album_simple_tags. cbn. constructor.
Qed.

End ByName.

(** After [mkvtag_set_tag_string] or [mkvtag_remove_tag] built its
    collection, looking [name] up among the simple tags of the album-level
    tags gives the value that was set, and nothing after a removal, when no
    simple tag of that name is left at that level. *)
Theorem by_name_album_lookup (existing : result mkvtag_collection) (name : cstring)
    (value : option cstring) :
  string_ok name = true -> name <> [] ->
  find_simple_value (album_simple_tags (tags (working_collection existing name value))) name
  = value
  /\ (value = None ->
      Forall (fun s => name_matches s name = false)
             (album_simple_tags (tags (working_collection existing name value))))
  /\ count (working_collection existing name value)
     = zlen (tags (working_collection existing name value)).
Proof.
  intros Hs Hn. pose proof (by_name_album_forall name Hs Hn existing value) as H.
  split; [|split].
  - destruct value as [v|].
    + destruct H as [F E]. apply find_some; assumption.
    + apply find_none. exact H.
  - intros ->. exact H.
  - unfold working_collection. destruct existing as [e|err].
    + cbv zeta. rewrite fold_copy_tags.
      assert (B : count (mk_collection
                           (tags mkvtag_collection_create ++ map (copy_tag name value) (tags e))
                           (count mkvtag_collection_create + zlen (tags e)))
                  = zlen (tags mkvtag_collection_create ++ map (copy_tag name value) (tags e))).
      { cbn [count tags mkvtag_collection_create app]. unfold zlen. rewrite length_map. lia. }
      destruct value as [v|]; [|exact B].
      destruct (found_anywhere e name); [exact B|].
      destruct (add_to_first_album _ name (Some v)) as [l|] eqn:Ad.
      * assert (L : forall a b, add_to_first_album a name (Some v) = Some b ->
                                length b = length a).
        { induction a as [|t a IH]; intros b; cbn [add_to_first_album]; [discriminate|].
          destruct (target_type t =? MKVTAG_TARGET_ALBUM).
          - intros E. injection E as <-. reflexivity.
          - destruct (add_to_first_album a name (Some v)); cbn [option_map]; [|discriminate].
            intros E. injection E as <-. cbn [length]. f_equal. apply IH. reflexivity. }
        apply L in Ad. cbn [count tags] in *. rewrite B. unfold zlen. rewrite Ad. reflexivity.
      * cbn [count tags] in *. rewrite B, (zlen_app (_ ++ _)). reflexivity.
    + destruct value; reflexivity.
Qed.

Lemma by_name_album_lookup_witness :
  find_simple_value
    (album_simple_tags (tags (working_collection (Ok rich_collection) str_TITLE (Some str_new))))
    str_TITLE = Some str_new
  /\ (Some str_new = None ->
      Forall (fun s => name_matches s str_TITLE = false)
             (album_simple_tags
                (tags (working_collection (Ok rich_collection) str_TITLE (Some str_new)))))
  /\ count (working_collection (Ok rich_collection) str_TITLE (Some str_new))
     = zlen (tags (working_collection (Ok rich_collection) str_TITLE (Some str_new))).
Proof.
  apply (by_name_album_lookup (Ok rich_collection) str_TITLE (Some str_new)).
  - vm_compute. reflexivity.
  - intros H. discriminate H.
Defined.


Section Keeps.

Variable name : cstring.

Hypothesis name_ok : string_ok name = true.

Hypothesis name_not_empty : name <> [].

Lemma copy_one_keeps t value l :
  map kept (filter (other_than name t)
                   (flat_map (copy_one (target_type t =? MKVTAG_TARGET_ALBUM) name value) l))
  = map kept (filter (other_than name t) l).
Proof.
  induction l as [|s l IH]; cbn [flat_map filter map]; [reflexivity|].
  rewrite filter_app, map_app, IH. unfold copy_one, other_than at 1 3.
  destruct ((target_type t =? MKVTAG_TARGET_ALBUM) && name_matches s name) eqn:M.
  - cbn [negb]. destruct value as [v|]; [|reflexivity].
    cbn [filter]. unfold other_than.
    apply andb_true_iff in M. destruct M as [Ma _]. rewrite Ma.
    rewrite name_matches_new by exact name_ok. reflexivity.
  - cbn [negb filter]. unfold other_than.
    rewrite name_matches_plain_copy by assumption. rewrite M. cbn [negb map app].
    rewrite kept_plain_copy. reflexivity.
Qed.

Lemma copy_tag_keeps value t : copy_keeps name t (copy_tag name value t).
Proof.
  rewrite copy_tag_eq. unfold copy_keeps. cbn [target_type target_type_str track_uids simple_tags].
  repeat split. apply copy_one_keeps.
Qed.

Lemma copies_keep value l : Forall2 (copy_keeps name) l (map (copy_tag name value) l).
Proof.
  induction l as [|t l IH]; cbn [map]; constructor; [apply copy_tag_keeps|exact IH].
Qed.

Lemma add_to_first_album_keeps v l0 l l' :
  Forall2 (copy_keeps name) l0 l ->
  add_to_first_album l name (Some v) = Some l' ->
  Forall2 (copy_keeps name) l0 l'.
Proof.
  intros F. revert l'. induction F as [|t t' l0 l R F IH]; intros l';
    cbn [add_to_first_album]; [discriminate|].
  destruct (target_type t' =? MKVTAG_TARGET_ALBUM) eqn:A.
  - intros E. injection E as <-. constructor; [|exact F].
    destruct R as (R1 & R2 & R3 & R4). unfold copy_keeps.
    cbn [mkvtag_tag_add_simple set_simple_tags target_type target_type_str track_uids
         simple_tags].
    repeat split; try assumption.
    rewrite filter_app, map_app, R4. cbn [filter]. unfold other_than at 2.
    rewrite <- R1, A. rewrite name_matches_new by exact name_ok.
    cbn [andb negb map]. apply app_nil_r.
  - destruct (add_to_first_album l name (Some v)) as [r|]; cbn [option_map]; [|discriminate].
    intros E. injection E as <-. constructor; [exact R|]. apply IH. reflexivity.
Qed.

End Keeps.

(** Setting or removing [name] keeps every tag of the collection it read,
    in order, with its target type, target type string and track UIDs, and
    in every tag the name, value and language of every simple tag other than
    those named [name] at the album level, in order; at most one tag is
    added, an album-level tag that holds the new simple tag only. *)
Theorem by_name_keeps_others (e : mkvtag_collection) (name : cstring)
    (value : option cstring) :
  string_ok name = true -> name <> [] ->
  exists copies added,
    tags (working_collection (Ok e) name value) = copies ++ added
    /\ Forall2 (copy_keeps name) (tags e) copies
    /\ (added = []
        \/ added = [mkvtag_tag_add_simple (set_target_type zero_tag MKVTAG_TARGET_ALBUM)
                                          (Some name) value]).
Proof.
  intros Hs Hn. unfold working_collection. cbv zeta. rewrite fold_copy_tags.
  cbn [tags mkvtag_collection_create app count].
  pose proof (copies_keep name Hs Hn value (tags e)) as K.
  destruct value as [v|].
  - destruct (found_anywhere e name).
    + exists (map (copy_tag name (Some v)) (tags e)), []. rewrite app_nil_r. auto.
    + destruct (add_to_first_album _ name (Some v)) as [l|] eqn:Ad; cbn [tags].
      * exists l, []. rewrite app_nil_r. split; [reflexivity|]. split; [|auto].
        eapply add_to_first_album_keeps; eauto.
      * eexists. eexists. split; [reflexivity|]. split; [exact K|]. right. reflexivity.
  - exists (map (copy_tag name None) (tags e)), []. rewrite app_nil_r. auto.
Qed.

Lemma by_name_keeps_others_witness :
  exists copies added,
    tags (working_collection (Ok rich_collection) str_TITLE None) = copies ++ added
    /\ Forall2 (copy_keeps str_TITLE) (tags rich_collection) copies
    /\ (added = []
        \/ added = [mkvtag_tag_add_simple (set_target_type zero_tag MKVTAG_TARGET_ALBUM)
                                          (Some str_TITLE) None]).
Proof.
  apply (by_name_keeps_others rich_collection str_TITLE None).
  - vm_compute. reflexivity.
  - intros H. discriminate H.
Defined.


Lemma holds_nil d p : 0 <= p -> holds d p [].
Proof. intros H. split; [exact H|reflexivity]. Qed.

(** A write stores its bytes at the position of the handle and leaves the
    bytes before that position. *)
Lemma file_write_holds h bs e h' :
  file_write h bs = (e, h') ->
  (e = MKVTAG_ERR_READ_ONLY /\ h' = h /\ fh_writable h = false)
  \/ (e = MKVTAG_OK /\ fh_writable h = true /\ fh_writable h' = true
      /\ fh_pos h' = fh_pos h + zlen bs
      /\ (0 <= fh_pos h -> holds (fh_data h') (fh_pos h) bs)
      /\ forall q cs, holds (fh_data h) q cs -> q + zlen cs <= fh_pos h ->
                      holds (fh_data h') q cs).
Proof.
  unfold file_write. destruct (fh_writable h) eqn:W; cbn [negb].
  2:{ intros E. inversion E. left. auto. }
  intros E. inversion E. clear E. right. cbn [fh_writable fh_pos fh_data].
  split; [reflexivity|]. split; [reflexivity|]. split; [reflexivity|]. split; [reflexivity|].
  set (p := Z.to_nat (fh_pos h)).
  set (X := firstn p (fh_data h ++ repeat 0 (p - length (fh_data h))%nat)).
  assert (LX : length X = p).
  { unfold X. rewrite length_firstn, length_app, repeat_length. lia. }
  split.
  - intros Hp. split; [exact Hp|]. fold p.
    rewrite skipn_app, LX, Nat.sub_diag. cbn [skipn].
    rewrite skipn_all2 by lia. cbn [app].
    rewrite firstn_app, Nat.sub_diag, firstn_O, app_nil_r. apply firstn_all.
  - intros q cs [Hq Hc] Hle. split; [exact Hq|].
    destruct cs as [|c0 cs']; [reflexivity|].
    assert (Hl : q + zlen (c0 :: cs') <= zlen (fh_data h)).
    { apply holds_length; [split; assumption|]. rewrite zlen_cons.
      pose proof (zlen_nonneg cs'). lia. }
    set (cs := c0 :: cs') in *. unfold zlen in Hl, Hle.
    assert (Hqp : (Z.to_nat q + length cs <= p)%nat) by (unfold p; lia).
    rewrite skipn_app. 
    replace (Z.to_nat q - length X)%nat with 0%nat by lia. cbn [skipn].
    rewrite firstn_app.
    replace (length cs - length (skipn (Z.to_nat q) X))%nat with 0%nat
      by (rewrite length_skipn; lia).
    rewrite firstn_O, app_nil_r.
    unfold X. rewrite skipn_firstn_comm, firstn_firstn.
    replace (Nat.min (length cs) (p - Z.to_nat q)) with (length cs) by lia.
    rewrite skipn_app, firstn_app.
    replace (length cs - length (skipn (Z.to_nat q) (fh_data h)))%nat with 0%nat
      by (rewrite length_skipn; lia).
    rewrite firstn_O, app_nil_r. exact Hc.
Qed.

Lemma set_file_same ctx : set_file ctx (file ctx) = ctx.
Proof. destruct ctx; reflexivity. Qed.

(** What [write_tags_at] leaves of the context, and where the element is
    when it succeeds. *)
Lemma write_tags_at_frame ctx off avail c e ctx' :
  write_tags_at ctx off avail c = (e, ctx') ->
  mkv ctx' = mkv ctx /\ is_open ctx' = is_open ctx /\ is_writable ctx' = is_writable ctx
  /\ cached_tags ctx' = cached_tags ctx.
Proof.
  unfold write_tags_at.
  destruct (build_tags_element c) as [b|]; [|intros E; inversion E; auto].
  destruct (avail <? zlen b); [intros E; inversion E; auto|].
  destruct (file_seek (file ctx) off) as [e0 h1].
  destruct (negb (is_ok e0)); [intros E; inversion E; auto|].
  destruct (file_write h1 b) as [e1 h2].
  destruct (negb (is_ok e1)); [intros E; inversion E; auto|].
  cbv zeta. destruct (2 <=? wrap64 (avail - zlen b)).
  - destruct (ebml_write_void_element [] _) as [vb|]; [|intros E; inversion E; auto].
    destruct (file_write h2 vb). intros E; inversion E; auto.
  - destruct (wrap64 (avail - zlen b) =? 1).
    + destruct (file_write h2 [0]). intros E; inversion E; auto.
    + intros E; inversion E; auto.
Qed.

Lemma build_tags_err c e : build_tags_element c = Err e -> e = MKVTAG_ERR_VINT_OVERFLOW.
Proof.
  unfold build_tags_element, mkv_tags_serialize. rewrite serialize_tag_list_closed.
  destruct (forallb _ _); cbn [rbind].
  - rewrite master_header_closed by (try discriminate; apply zlen_nonneg).
    destruct (fits_vint _); cbn [rbind]; intros E; inversion E; reflexivity.
  - intros E; inversion E; reflexivity.
Qed.

Lemma write_tags_at_ok ctx off avail c ctx' :
  write_tags_at ctx off avail c = (MKVTAG_OK, ctx') ->
  exists bytes,
    build_tags_element c = Ok bytes /\ 0 <= off
    /\ holds (fh_data (file ctx')) off bytes
    /\ fh_writable (file ctx') = true.
Proof.
  unfold write_tags_at.
  destruct (build_tags_element c) as [b|e0] eqn:B.
  2:{ apply build_tags_err in B. subst e0. intros E; inversion E. }
  destruct (avail <? zlen b); [intros E; inversion E|].
  destruct (file_seek (file ctx) off) as [e0 h1] eqn:Sk.
  apply file_seek_spec in Sk. destruct Sk as (S1 & [(-> & Ho & P1)|(-> & _ & _)]);
    cbn [is_ok negb]; [|intros E; inversion E].
  destruct (file_write h1 b) as [e1 h2] eqn:W1.
  apply file_write_holds in W1.
  destruct W1 as [(-> & _ & _)|(-> & Hw1 & Hw2 & P2 & H2 & _)];
    cbn [is_ok negb]; [intros E; inversion E|].
  rewrite P1 in H2, P2. specialize (H2 Ho).
  cbv zeta. intros E. exists b. split; [reflexivity|]. split; [exact Ho|].
  destruct (2 <=? wrap64 (avail - zlen b)).
  - destruct (ebml_write_void_element [] _) as [vb|];
      [|inversion E; subst; cbn [file set_file]; split; assumption].
    destruct (file_write h2 vb) as [e3 h3] eqn:W3. inversion E; subst.
    apply file_write_holds in W3.
    destruct W3 as [(D & _ & _)|(_ & _ & Hw3 & _ & _ & K)]; [discriminate|].
    cbn [file set_file]. split; [|exact Hw3]. apply K; [exact H2|lia].
  - destruct (wrap64 (avail - zlen b) =? 1).
    + destruct (file_write h2 [0]) as [e3 h3] eqn:W3. inversion E; subst.
      apply file_write_holds in W3.
      destruct W3 as [(D & _ & _)|(_ & _ & Hw3 & _ & _ & K)]; [discriminate|].
      cbn [file set_file]. split; [|exact Hw3]. apply K; [exact H2|lia].
    + inversion E; subst. cbn [file set_file]. split; assumption.
Qed.

(** Without a SeekHead the update does nothing. *)
Lemma update_seekhead_none fuel ctx off :
  seekhead_offset (mkv ctx) < 0 -> update_seekhead fuel ctx off = Done ctx.
Proof.
  intros H. unfold update_seekhead, mkv_seekhead_update_tags.
  destruct (Z.ltb_spec (seekhead_offset (mkv ctx)) 0); [|lia].
  cbn [obind]. rewrite set_file_same. reflexivity.
Qed.

(** [mkvtag_read_tags] on a context whose file holds, at the tags offset,
    the Tags element written for a valid collection. *)
Lemma read_tags_holds fuel ctx c bytes :
  is_open ctx = true -> cached_tags ctx = None ->
  collection_valid c = true -> build_tags_element c = Ok bytes ->
  holds (fh_data (file ctx)) (tags_offset (mkv ctx)) bytes ->
  zlen bytes <= Z.of_nat fuel ->
  mkvtag_read_tags fuel ctx
  = Done (Ok (mirror_collection c),
          set_cached_tags
            (set_file ctx (mk_file (fh_data (file ctx))
                                   (tags_offset (mkv ctx) + zlen bytes)
                                   (fh_writable (file ctx))))
            (Some (mirror_collection c))).
Proof.
  intros Ho Hc Hv B H Hf. destruct (build_tags_closed c bytes B) as (_ & Hfit & ->).
  pose proof H as [Hp _].
  unfold mkvtag_read_tags. rewrite Ho, Hc. cbn [negb].
  destruct (Z.ltb_spec (tags_offset (mkv ctx)) 0); [lia|].
  destruct (file ctx) as [d p w] eqn:Ef. cbn [fh_data fh_writable] in *.
  rewrite holds_seek by exact Hp. cbn [is_ok negb].
  rewrite (read_header_holds d _ w MKV_ID_TAGS (collection_bytes c));
    [|vm_compute; reflexivity|exact Hfit|exact H].
  cbn [id element_at]. change (MKV_ID_TAGS =? MKV_ID_TAGS) with true. cbn [negb].
  fold (element_at MKV_ID_TAGS (collection_bytes c) (tags_offset (mkv ctx))).
  rewrite mkv_tags_parse_holds; [reflexivity|exact Hv|exact Hfit| |exact H].
  pose proof (element_bytes_size MKV_ID_TAGS _ Hfit).
  pose proof (header_size_pos MKV_ID_TAGS _ Hfit). lia.
Qed.


Lemma is_ok_true e : is_ok e = true -> e = MKVTAG_OK.
Proof. destruct e; cbn; intros H; try discriminate; reflexivity. Qed.

Lemma is_ok_false e : is_ok e = false -> e <> MKVTAG_OK.
Proof. intros H ->. discriminate. Qed.

(** Strategy 2 on a file without a SeekHead. *)
Lemma try_replace_void_spec fuel ctx c e ctx' :
  seekhead_offset (mkv ctx) < 0 ->
  try_replace_void fuel ctx c = Done (e, ctx') ->
  is_open ctx' = is_open ctx /\ is_writable ctx' = is_writable ctx
  /\ cached_tags ctx' = cached_tags ctx
  /\ (e = MKVTAG_OK ->
      exists bytes,
        build_tags_element c = Ok bytes /\ 0 <= tags_offset (mkv ctx')
        /\ holds (fh_data (file ctx')) (tags_offset (mkv ctx')) bytes)
  /\ (e <> MKVTAG_OK -> mkv ctx' = mkv ctx).
Proof.
  intros Hs. unfold try_replace_void.
  destruct (Z.ltb_spec (void_offset (mkv ctx)) 0) as [Hv|Hv]; cbn [orb].
  { intros E. inversion E; subst. repeat split; auto. intros D; discriminate. }
  destruct (void_size (mkv ctx) =? 0).
  { intros E. inversion E; subst. repeat split; auto. intros D; discriminate. }
  destruct (write_tags_at ctx (void_offset (mkv ctx)) (void_size (mkv ctx)) c)
    as [err ctx1] eqn:W.
  pose proof (write_tags_at_frame _ _ _ _ _ _ W) as (Fm & Fo & Fw & Fc).
  destruct (is_ok err) eqn:K.
  - apply is_ok_true in K. subst err.
    rewrite update_seekhead_none
      by (cbn [mkv set_mkv]; rewrite Fm; destruct (mkv ctx); exact Hs).
    cbn [obind]. intros E. inversion E; subst.
    cbn [is_open is_writable cached_tags set_mkv mkv file].
    split; [exact Fo|]. split; [exact Fw|]. split; [exact Fc|].
    split; [|intros D; contradiction].
    intros _. destruct (write_tags_at_ok _ _ _ _ _ W) as (bytes & B & Ho & H & _).
    exists bytes. split; [exact B|].
    assert (T : tags_offset (set_tags_offset (mkv ctx1) (void_offset (mkv ctx1)))
                = void_offset (mkv ctx)) by (rewrite Fm; reflexivity).
    rewrite T. split; [exact Ho|exact H].
  - apply is_ok_false in K. intros E. inversion E; subst.
    split; [exact Fo|]. split; [exact Fw|]. split; [exact Fc|].
    split; [intros D; contradiction|]. intros _. exact Fm.
Qed.

Lemma patch_segment_size_frame ctx buf e ctx' :
  patch_segment_size ctx buf = (e, ctx') ->
  is_open ctx' = is_open ctx /\ is_writable ctx' = is_writable ctx
  /\ cached_tags ctx' = cached_tags ctx
  /\ tags_offset (mkv ctx') = tags_offset (mkv ctx)
  /\ seekhead_offset (mkv ctx') = seekhead_offset (mkv ctx).
Proof.
  unfold patch_segment_size. cbv zeta.
  destruct (file_seek _ _) as [e1 h1].
  destruct (negb (is_ok e1)); [intros E; inversion E; auto|].
  destruct (file_read h1 1) as [[e2 fb] h2].
  destruct (negb (is_ok e2)); [intros E; inversion E; auto|].
  destruct (ebml_vint_encode_fixed _ _); [|intros E; inversion E; auto].
  destruct (file_seek h2 _) as [e3 h3].
  destruct (negb (is_ok e3)); [intros E; inversion E; auto|].
  destruct (file_write h3 _) as [e4 h4].
  destruct (negb (is_ok e4)); intros E; inversion E; auto.
Qed.

(** Strategy 3 on a file without a SeekHead and without a Tags element. *)
Lemma try_append_fresh fuel ctx c ctx' :
  seekhead_offset (mkv ctx) < 0 -> tags_offset (mkv ctx) < 0 ->
  try_append_tags fuel ctx c = Done (MKVTAG_OK, ctx') ->
  is_open ctx' = is_open ctx /\ cached_tags ctx' = cached_tags ctx
  /\ exists bytes,
       build_tags_element c = Ok bytes /\ 0 <= tags_offset (mkv ctx')
       /\ holds (fh_data (file ctx')) (tags_offset (mkv ctx')) bytes.
Proof.
  intros Hs Ht. unfold try_append_tags. cbv zeta.
  destruct (build_tags_element c) as [b|e0] eqn:B.
  2:{ apply build_tags_err in B. subst e0. intros E; inversion E. }
  set (sce := if segment_unknown_size (mkv ctx) then file_size (file ctx)
              else segment_data_offset (mkv ctx) + to_int64 (segment_size (mkv ctx))).
  destruct (if negb (segment_unknown_size (mkv ctx)) then patch_segment_size ctx b
            else (MKVTAG_OK, ctx)) as [err ctx1] eqn:P.
  assert (F : is_open ctx1 = is_open ctx /\ is_writable ctx1 = is_writable ctx
              /\ cached_tags ctx1 = cached_tags ctx
              /\ tags_offset (mkv ctx1) = tags_offset (mkv ctx)
              /\ seekhead_offset (mkv ctx1) = seekhead_offset (mkv ctx)).
  { destruct (negb (segment_unknown_size (mkv ctx))).
    - eapply patch_segment_size_frame; eauto.
    - inversion P; subst. auto. }
  destruct F as (Fo & Fw & Fc & Ft & Fs).
  destruct (is_ok err) eqn:K; cbn [negb].
  2:{ apply is_ok_false in K. intros E; inversion E; subst. contradiction. }
  destruct (file_seek (file ctx1) sce) as [e1 h1] eqn:Sk.
  apply file_seek_spec in Sk. destruct Sk as (S1 & [(-> & Ho & P1)|(-> & _ & _)]);
    cbn [is_ok negb]; [|intros E; inversion E].
  destruct (file_write h1 b) as [e2 h2] eqn:W.
  apply file_write_holds in W.
  destruct W as [(-> & _ & _)|(-> & _ & Hw2 & P2 & H2 & _)];
    cbn [is_ok negb]; [intros E; inversion E|].
  unfold file_sync at 1. cbn [is_ok negb].
  assert (V : void_out_old_tags (set_file ctx1 h2) = set_file ctx1 h2).
  { unfold void_out_old_tags. cbn [mkv set_file].
    destruct (Z.leb_spec 0 (tags_offset (mkv ctx1))); [lia|reflexivity]. }
  rewrite V.
  rewrite update_seekhead_none
    by (cbn [mkv set_mkv set_file]; destruct (mkv ctx1); exact (eq_ind_r (fun z => z < 0) Hs Fs)).
  cbn [obind]. unfold file_sync. intros E. inversion E; subst.
  cbn [is_open cached_tags set_mkv set_file mkv file].
  split; [exact Fo|]. split; [exact Fc|].
  exists b. split; [reflexivity|].
  assert (T : tags_offset (set_tags_offset (mkv ctx1) sce) = sce) by reflexivity.
  rewrite T. split; [exact Ho|]. rewrite P1 in H2. apply H2. exact Ho.
Qed.

(** Where the element is after [mkvtag_write_tags] succeeded on a file
    without a Tags element and without a SeekHead. *)
Lemma fresh_write_lands fuel ctx c ctx1 :
  seekhead_offset (mkv ctx) < 0 ->
  tags_offset (mkv ctx) < 0 ->
  mkvtag_write_tags fuel ctx (Some (Built c)) = Done (MKVTAG_OK, ctx1) ->
  is_open ctx1 = true /\ cached_tags ctx1 = None
  /\ exists bytes,
       build_tags_element c = Ok bytes
       /\ holds (fh_data (file ctx1)) (tags_offset (mkv ctx1)) bytes.
Proof.
  intros Hs Ht. unfold mkvtag_write_tags.
  destruct (is_open ctx) eqn:Ho; cbn [negb]; [|intros E; inversion E].
  destruct (is_writable ctx) eqn:Hw; cbn [negb]; [|intros E; inversion E].
  cbn [mkv set_cached_tags].
  destruct (Z.leb_spec 0 (tags_offset (mkv ctx))); [lia|]. cbn [obind].
  destruct (try_replace_void fuel (set_cached_tags ctx None) c) as [[e2 ctx2]| |] eqn:S2;
    cbn [obind]; try discriminate.
  apply try_replace_void_spec in S2; [|exact Hs].
  cbn [is_open is_writable cached_tags set_cached_tags mkv] in S2.
  destruct S2 as (Fo & Fw & Fc & Kok & Kerr).
  destruct (is_ok e2) eqn:K2.
  - apply is_ok_true in K2. subst e2. unfold file_sync. intros E. inversion E; subst.
    destruct (Kok eq_refl) as (bytes & B & _ & Hh).
    split; [congruence|]. split; [congruence|]. exists bytes. auto.
  - apply is_ok_false in K2. specialize (Kerr K2).
    intros E. apply try_append_fresh in E; [|rewrite Kerr; assumption..].
    destruct E as (Eo & Ec & bytes & B & _ & Hh).
    split; [congruence|]. split; [congruence|]. exists bytes. auto.
Qed.

(** On a file that has no Tags element and no SeekHead, whatever
    [mkvtag_write_tags] wrote with success is what [mkvtag_read_tags] reads
    next, mirrored. *)
Theorem fresh_write_then_read (ctx ctx1 : mkvtag_context) (c : mkvtag_collection)
    (fuel : nat) :
  collection_valid c = true ->
  seekhead_offset (mkv ctx) < 0 ->
  tags_offset (mkv ctx) < 0 ->
  mkvtag_write_tags fuel ctx (Some (Built c)) = Done (MKVTAG_OK, ctx1) ->
  exists bytes ctx2,
    build_tags_element c = Ok bytes
    /\ holds (fh_data (file ctx1)) (tags_offset (mkv ctx1)) bytes
    /\ cached_tags ctx2 = Some (mirror_collection c)
    /\ forall m, zlen bytes <= Z.of_nat m ->
                 mkvtag_read_tags m ctx1 = Done (Ok (mirror_collection c), ctx2).
Proof.
  intros Hv Hs Ht E.
  destruct (fresh_write_lands fuel ctx c ctx1 Hs Ht E) as (Ho & Hc & bytes & B & Hh).
  exists bytes. eexists.
  split; [exact B|]. split; [exact Hh|]. split; [|intros m Hm].
  2:{ apply read_tags_holds; eassumption. }
  reflexivity.
Qed.


Lemma fresh_write_then_read_witness :
  exists bytes ctx2,
    build_tags_element (one_tag_collection str_TITLE str_new) = Ok bytes
    /\ holds (fh_data (file fresh_after_write)) (tags_offset (mkv fresh_after_write)) bytes
    /\ cached_tags ctx2 = Some (mirror_collection (one_tag_collection str_TITLE str_new))
    /\ forall m, zlen bytes <= Z.of_nat m ->
                 mkvtag_read_tags m fresh_after_write
                 = Done (Ok (mirror_collection (one_tag_collection str_TITLE str_new)), ctx2).
Proof.
  apply (fresh_write_then_read fresh_ctx fresh_after_write
           (one_tag_collection str_TITLE str_new) 200).
  - vm_compute. reflexivity.
  - vm_compute. reflexivity.
  - vm_compute. reflexivity.
  - vm_compute. reflexivity.
Defined.

Lemma patch_holds data p a b :
  0 <= p <= zlen data -> holds (patch data p (a ++ b)) p a.
Proof.
  intros Hp. unfold patch. rewrite <- app_assoc.
  assert (L : zlen (firstn (Z.to_nat p) data) = p).
  { unfold zlen in *. rewrite length_firstn. lia. }
  pose proof (holds_middle (firstn (Z.to_nat p) data) a
                (b ++ skipn (Z.to_nat p + length (a ++ b)) data)) as H.
  rewrite L in H. exact H.
Qed.

(** When the new Tags element fits the slot of the one the file has, on a
    file without a SeekHead, [mkvtag_write_tags] rewrites the slot, and
    [mkvtag_read_tags] then reads the collection that was written,
    mirrored. *)
Theorem replace_then_read (ctx : mkvtag_context) (c : mkvtag_collection)
    (existing_tags : ebml_element) (h2 h4 : file_handle) (S : Z) (bytes : list Z)
    (fuel : nat) :
  is_open ctx = true -> is_writable ctx = true -> fh_writable (file ctx) = true ->
  seekhead_offset (mkv ctx) < 0 ->
  0 <= tags_offset (mkv ctx) ->
  ebml_read_element_header (set_pos (file ctx) (tags_offset (mkv ctx)))
  = (Ok existing_tags, h2) ->
  existing_slot h2 (tags_offset (mkv ctx)) existing_tags = (S, h4) ->
  tags_offset (mkv ctx) + S <= file_size (file ctx) ->
  file_size (file ctx) < 2 ^ 56 ->
  collection_valid c = true ->
  build_tags_element c = Ok bytes ->
  zlen bytes <= S ->
  exists ctx1 ctx2,
    mkvtag_write_tags fuel ctx (Some (Built c)) = Done (MKVTAG_OK, ctx1)
    /\ mkv ctx1 = mkv ctx
    /\ file_size (file ctx1) = file_size (file ctx)
    /\ holds (fh_data (file ctx1)) (tags_offset (mkv ctx)) bytes
    /\ cached_tags ctx2 = Some (mirror_collection c)
    /\ forall m, zlen bytes <= Z.of_nat m ->
                 mkvtag_read_tags m ctx1 = Done (Ok (mirror_collection c), ctx2).
Proof.
  intros Ho Hw Hfw Hs Ht R Sl Hin Hsz Hv B Hfit.
  set (off := tags_offset (mkv ctx)) in *.
  pose proof (zlen_nonneg bytes) as Hn.
  assert (S02 : same_file (file ctx) h2).
  { apply read_header_spec in R; [|exact Ht]. destruct R as (S2 & _).
    eapply same_file_trans; [|exact S2]. split; reflexivity. }
  assert (S04 : same_file (file ctx) h4).
  { eapply same_file_trans; [exact S02|]. eapply existing_slot_same; eauto. }
  destruct S04 as [D4 W4].
  destruct (write_tags_at_fits (set_file (set_cached_tags ctx None) h4) off S c bytes)
    as (padding & Lp & Kp & Wr); cbn [file set_file]; try assumption.
  { congruence. }
  { unfold file_size in *. rewrite D4. exact Hin. }
  { unfold file_size, EBML_VINT_MAX_8 in *. lia. }
  cbn [file set_file] in Wr. rewrite D4 in Wr.
  set (data1 := patch (fh_data (file ctx)) off (bytes ++ padding)) in *.
  set (ctx1 := set_file (set_file (set_cached_tags ctx None) h4) (mk_file data1 (off + S) true)).
  assert (H1 : holds data1 off bytes).
  { apply patch_holds. unfold file_size in Hin.
    destruct (existing_slot h2 off existing_tags) eqn:X. inversion Sl; subst.
    assert (0 <= S) by lia. lia. }
  exists ctx1. eexists.
  assert (Wt : mkvtag_write_tags fuel ctx (Some (Built c)) = Done (MKVTAG_OK, ctx1)).
  { unfold mkvtag_write_tags. rewrite Ho, Hw. cbn [negb mkv set_cached_tags].
    fold off. destruct (Z.leb_spec 0 off); [|lia].
    unfold try_replace_existing_tags. cbn [mkv set_cached_tags file]. fold off.
    destruct (Z.ltb_spec off 0); [lia|].
    rewrite file_seek_ok by exact Ht. cbn [is_ok negb].
    rewrite R, Sl.
    change (set_file (mk_context (file ctx) (mkv ctx) (is_open ctx) (is_writable ctx) None) h4)
      with (set_file (set_cached_tags ctx None) h4).
    rewrite Wr. cbn [is_ok].
    rewrite update_seekhead_none by exact Hs.
    cbn [obind is_ok]. reflexivity. }
  split; [exact Wt|]. split; [reflexivity|].
  split.
  { cbn [file ctx1 set_file]. unfold file_size. cbn [fh_data]. unfold data1.
    apply patch_length; [exact Ht|]. rewrite zlen_app. unfold file_size in Hin. lia. }
  split; [exact H1|].
  split; [|intros m Hm].
  2:{ apply (read_tags_holds m ctx1 c bytes); try assumption; try reflexivity. }
  reflexivity.
Qed.

(* ------------------------------------------------------------------ *)
(** * Strategy 1: the slot of the existing Tags element *)

Section ChildrenKeeps.
Context {St : Type}.
Variable body : ebml_element -> St -> file_handle -> outcome (loop_ctl St * file_handle).
Variable h0 : file_handle.
Variable I : St -> Prop.

End ChildrenKeeps.











Lemma to_int32_small z : - 2 ^ 31 <= z < 2 ^ 31 -> to_int32 z = z.
Proof. intros H. unfold to_int32. rewrite Z.mod_small by lia. lia. Qed.

(** On an open file that has no Tags element and no SeekHead, a tag that
    [mkvtag_set_tag_string] set with success is the tag
    [mkvtag_read_tag_string] reads next, in a buffer that has room for it. *)
Theorem set_then_get_fresh (ctx ctx1 : mkvtag_context) (name value : cstring)
    (size_ : Z) (fuel : nat) :
  string_ok name = true -> string_ok value = true ->
  zlen value < size_ <= 2 ^ 31 ->
  cached_tags ctx = None ->
  seekhead_offset (mkv ctx) < 0 ->
  tags_offset (mkv ctx) < 0 ->
  mkvtag_set_tag_string fuel ctx (Some name) (Some value) = Done (MKVTAG_OK, ctx1) ->
  exists n ctx2,
    forall m, (n <= m)%nat ->
      mkvtag_read_tag_string m ctx1 (Some name) size_ = Done (MKVTAG_OK, Some value, ctx2).
Proof.
  intros Hn Hvl Hsz Hc Hs Ht. unfold mkvtag_set_tag_string.
  destruct (is_open ctx) eqn:Ho; cbn [negb]; [|intros E; inversion E].
  destruct (is_writable ctx) eqn:Hw; cbn [negb]; [|intros E; inversion E].
  assert (R : mkvtag_read_tags fuel ctx = Done (Err MKVTAG_ERR_NO_TAGS, ctx)).
  { unfold mkvtag_read_tags. rewrite Ho, Hc. cbn [negb].
    destruct (Z.ltb_spec (tags_offset (mkv ctx)) 0); [reflexivity|lia]. }
  rewrite R. cbn [obind].
  set (working := working_collection (Err MKVTAG_ERR_NO_TAGS) name (Some value)).
  intros E.
  destruct (fresh_write_lands fuel ctx working ctx1 Hs Ht E) as (Ho1 & Hc1 & bytes & B & Hh).
  assert (Hv : collection_valid working = true).
  { destruct (build_tags_closed working bytes B) as (Hf & _ & _).
    unfold collection_valid. rewrite Hf.
    cbn. unfold opt_string_ok. cbn. rewrite Hn, Hvl. reflexivity. }
  assert (M : mirror_collection working = working) by reflexivity.
  exists (Z.to_nat (zlen bytes)). eexists. intros m Hm.
  unfold mkvtag_read_tag_string.
  destruct (Z.eqb_spec size_ 0); [pose proof (zlen_nonneg value); lia|].
  rewrite (read_tags_holds m ctx1 working bytes Ho1 Hc1 Hv B Hh) by lia.
  cbn [obind]. rewrite M.
  assert (F : find_tag_value (tags working) name = Some value).
  { cbn [working working_collection tags mkvtag_collection_create app find_tag_value
         mkvtag_tag_add_simple set_simple_tags simple_tags set_target_type zero_tag
         find_simple_value].
    rewrite name_matches_new by exact Hn. reflexivity. }
  rewrite F. unfold str_copy, strlen.
  destruct (Z.eqb_spec size_ 0); [contradiction|].
  destruct (Z.leb_spec size_ (zlen value)); [lia|].
  pose proof (zlen_nonneg value).
  rewrite to_int32_small by lia.
  destruct (Z.ltb_spec (zlen value) 0); [lia|]. reflexivity.
Qed.

Lemma set_then_get_fresh_witness :
  exists n ctx2,
    forall m, (n <= m)%nat ->
      mkvtag_read_tag_string m fresh_after_set (Some str_TITLE) 16
      = Done (MKVTAG_OK, Some str_new, ctx2).
Proof.
  apply (set_then_get_fresh fresh_ctx fresh_after_set str_TITLE str_new 16 200).
  - vm_compute. reflexivity.
  - vm_compute. reflexivity.
  - vm_compute. split; [reflexivity|intros H; discriminate H].
  - vm_compute. reflexivity.
  - vm_compute. reflexivity.
  - vm_compute. reflexivity.
  - vm_compute. reflexivity.
Defined.

Lemma replace_then_read_witness :
  exists ctx1 ctx2,
    mkvtag_write_tags 0 artist_ctx (Some (Built ordered_collection)) = Done (MKVTAG_OK, ctx1)
    /\ mkv ctx1 = mkv artist_ctx
    /\ file_size (file ctx1) = file_size (file artist_ctx)
    /\ holds (fh_data (file ctx1)) (tags_offset (mkv artist_ctx))
             (sample_tags ordered_collection)
    /\ cached_tags ctx2 = Some (mirror_collection ordered_collection)
    /\ forall m, zlen (sample_tags ordered_collection) <= Z.of_nat m ->
                 mkvtag_read_tags m ctx1
                 = Done (Ok (mirror_collection ordered_collection), ctx2).
Proof.
  apply (replace_then_read artist_ctx ordered_collection
           (mk_element MKV_ID_TAGS 28 76 104 1 4 false)
           (mk_file (fh_data (file artist_ctx)) 76 true)
           (mk_file (fh_data (file artist_ctx)) 104 true)
           97 (sample_tags ordered_collection) 0).
  - vm_compute. reflexivity.
  - vm_compute. reflexivity.
  - vm_compute. reflexivity.
  - vm_compute. reflexivity.
  - vm_compute. intros H. discriminate H.
  - vm_compute. reflexivity.
  - vm_compute. reflexivity.
  - vm_compute. intros H. discriminate H.
  - vm_compute. reflexivity.
  - vm_compute. reflexivity.
  - vm_compute. reflexivity.
  - vm_compute. intros H. discriminate H.
Defined.


(** ** Opening a file *)
(** What every turn of a loop keeps, the loop keeps. *)
Lemma children_inv {St} (body : ebml_element -> St -> file_handle
                                -> outcome (loop_ctl St * file_handle))
      (I : St -> Prop) :
  (forall child s h s' h', I s ->
     (body child s h = Done (Continue s', h') \/ body child s h = Done (Break s', h')) ->
     I s') ->
  forall fuel end_off s h s' h',
    I s -> ebml_children body fuel end_off s h = Done (s', h') -> I s'.
Proof.
  intros Hb. induction fuel as [|fuel IH]; intros end_off s h s' h' Hi;
    cbn [ebml_children]; destruct (end_off <=? file_tell h);
    try (intros E; inversion E; subst; exact Hi); try discriminate.
  destruct (ebml_read_element_header h) as [[child|e] h1];
    [|intros E; inversion E; subst; exact Hi].
  destruct (body child s h1) as [[[s1|s1] h2]| |] eqn:B; try discriminate.
  - apply IH. eapply Hb; eauto.
  - intros E; inversion E; subst. eapply Hb; eauto.
Qed.

(** *** The EBML header *)
Lemma parse_header_child_lands h0 child st h :
  child_shape h0 child ->
  exists c h', parse_header_child child st h = Done (c, h') /\ lands child h h'.
Proof.
  intros C. unfold parse_header_child. cbv zeta.
  repeat match goal with
         | |- context [if id child =? ?k then _ else _] => destruct (id child =? k)
         end;
    repeat match goal with
           | |- context [ebml_read_uint ?h ?c] =>
               let E := fresh "E" in
               destruct (ebml_read_uint h c) as [[?|?] ?] eqn:E;
               apply read_uint_lands in E
           | |- context [ebml_read_string ?h ?c ?n] =>
               let E := fresh "E" in
               destruct (ebml_read_string h c n) as [[? ?] ?] eqn:E;
               apply read_string_lands in E
           end;
    match goal with
    | |- context [ebml_skip_element ?h ?c] =>
        let E := fresh "K" in
        destruct (ebml_skip_element h c) as [? ?] eqn:E;
        apply (skip_lands' h0) in E; [|exact C]
    end;
    match goal with
    | |- context [negb (is_ok ?e)] => destruct (negb (is_ok e))
    end;
    do 2 eexists; (split; [reflexivity|]);
    first [assumption | eapply lands_trans; eassumption].
Qed.

Lemma mkv_parse_header_total fuel m h :
  (Z.to_nat (file_size h) < fuel)%nat ->
  exists e m' h', mkv_parse_header fuel m h = Done (e, m', h')
                  /\ same_file h h' /\ 0 <= fh_pos h'.
Proof.
  intros Hf. unfold mkv_parse_header.
  rewrite file_seek_ok by lia. cbn [is_ok negb].
  assert (S0 : same_file h (set_pos h 0)) by (split; reflexivity).
  destruct (ebml_read_element_header (set_pos h 0)) as [[header|e] h1] eqn:R.
  2:{ apply read_header_spec in R; [|cbn [fh_pos set_pos]; lia]. destruct R as (S1 & P1 & _).
      do 3 eexists. split; [reflexivity|]. split; [exact (same_file_trans _ _ _ S0 S1)|].
      cbn [fh_pos set_pos] in P1. lia. }
  apply read_header_spec in R; [|cbn [fh_pos set_pos]; lia].
  destruct R as (S1 & P1 & Pd & Rg & Sz & En & _). cbn [fh_pos set_pos] in *.
  assert (S01 : same_file h h1) by exact (same_file_trans _ _ _ S0 S1).
  destruct (negb (id header =? EBML_ID_EBML)).
  { do 3 eexists. split; [reflexivity|]. split; [exact S01|lia]. }
  destruct (children_total parse_header_child h fuel (end_offset header)
              (MKVTAG_OK, set_ebml_header m 1 1 (0 :: skipn 1 (doctype m)) 1 1) h1)
    as (st & h2 & E & S2 & P2).
  - exact S01.
  - lia.
  - lia.
  - apply body_lands_of. intros child t h3 S3 P3 R3 C3.
    apply (parse_header_child_lands h); exact C3.
  - rewrite E. cbn [obind]. destruct st as [err m1].
    destruct (negb (is_ok err));
      [do 3 eexists; split; [reflexivity|]; split; [exact S2|lia]|].
    destruct (_ && _); do 3 eexists; (split; [reflexivity|]); (split; [exact S2|lia]).
Qed.

Lemma mkv_parse_header_mono m h : monotone (fun fuel => mkv_parse_header fuel m h).
Proof.
  intros n k Hnk He. unfold mkv_parse_header in *.
  destruct (file_seek h 0) as [e0 h0].
  destruct (negb (is_ok e0)); [reflexivity|].
  destruct (ebml_read_element_header h0) as [[header|e] h1]; [|reflexivity].
  destruct (negb (id header =? EBML_ID_EBML)); [reflexivity|].
  apply obind_ended in He.
  rewrite (children_mono parse_header_child parse_header_child
             (fun _ _ _ _ => eq_refl) n k _ _ _ Hnk He).
  reflexivity.
Qed.

(** *** The scan of the Segment *)
Lemma scan_structure_child_lands h0 elem m h :
  child_shape h0 elem ->
  exists c h', scan_structure_child elem m h = Done (c, h') /\ lands elem h h'.
Proof.
  intros C. unfold scan_structure_child. cbv zeta.
  destruct (id elem =? MKV_ID_CLUSTER).
  { do 2 eexists. split; [reflexivity|apply lands_refl]. }
  destruct (ebml_skip_element h elem) as [e h1] eqn:K.
  apply (skip_lands' h0) in K; [|exact C].
  destruct (negb (is_ok e)); do 2 eexists; (split; [reflexivity|exact K]).
Qed.

Lemma mkv_scan_structure_total fuel m h :
  (Z.to_nat (file_size h) < fuel)%nat ->
  exists e m' h', mkv_scan_structure fuel m h = Done (e, m', h') /\ same_file h h'.
Proof.
  intros Hf. unfold mkv_scan_structure.
  destruct (file_seek h (segment_data_offset m)) as [e0 h0] eqn:Sk.
  apply file_seek_spec in Sk. destruct Sk as (S0 & [(-> & Ho & P0)|(-> & _ & _)]);
    cbn [is_ok negb]; [|do 3 eexists; split; [reflexivity|exact S0]].
  cbv zeta.
  match goal with
  | |- context [ebml_children _ _ ?e _ _] =>
      destruct (children_total scan_structure_child h fuel e m h0)
        as (st & h2 & E & S2 & P2)
  end.
  - exact S0.
  - lia.
  - lia.
  - apply body_lands_of. intros child t h3 S3 P3 R3 C3.
    apply (scan_structure_child_lands h); exact C3.
  - rewrite E. cbn [obind]. do 3 eexists. split; [reflexivity|exact S2].
Qed.

Lemma mkv_scan_structure_mono m h : monotone (fun fuel => mkv_scan_structure fuel m h).
Proof.
  intros n k Hnk He. unfold mkv_scan_structure in *.
  destruct (file_seek h (segment_data_offset m)) as [e0 h0].
  destruct (negb (is_ok e0)); [reflexivity|]. cbv zeta in *.
  apply obind_ended in He.
  rewrite (children_mono scan_structure_child scan_structure_child
             (fun _ _ _ _ => eq_refl) n k _ _ _ Hnk He).
  reflexivity.
Qed.

(** *** The SeekHead *)
Lemma parse_seek_child_lands h0 child st h :
  child_shape h0 child ->
  exists st' h', parse_seek_child child st h = Done (Continue st', h') /\ lands child h h'.
Proof.
  intros C. unfold parse_seek_child. destruct st as [a b].
  destruct (id child =? MKV_ID_SEEK_ID).
  - destruct (ebml_read_binary h child 4) as [[buf|e] h1] eqn:E;
      apply read_binary_lands in E;
      [destruct (_ && _)|];
      do 2 eexists; (split; [reflexivity|]);
      (eapply lands_trans; [exact E|]); apply (snd_skip_lands h0); exact C.
  - destruct (id child =? MKV_ID_SEEK_POSITION).
    + destruct (ebml_read_uint h child) as [[v|e] h1] eqn:E;
        apply read_uint_lands in E;
        do 2 eexists; (split; [reflexivity|]);
        (eapply lands_trans; [exact E|]); apply (snd_skip_lands h0); exact C.
    + do 2 eexists. split; [reflexivity|]. apply (snd_skip_lands h0); exact C.
Qed.

Lemma parse_seekhead_child_lands fuel h0 seek_elem m h :
  child_shape h0 seek_elem -> same_file h0 h -> fh_pos h = data_offset seek_elem ->
  0 <= data_offset seek_elem ->
  (rest_from h0 (data_offset seek_elem) < fuel)%nat ->
  exists c h', parse_seekhead_child fuel seek_elem m h = Done (c, h')
               /\ lands seek_elem h h'.
Proof.
  intros C S P Hd Hf. unfold parse_seekhead_child.
  destruct (negb (id seek_elem =? MKV_ID_SEEK)).
  { do 2 eexists. split; [reflexivity|]. apply (snd_skip_lands h0); exact C. }
  destruct (children_total parse_seek_child h0 fuel (end_offset seek_elem) (0, 0) h)
    as (st & h1 & E & S1 & P1); try assumption; try lia.
  { rewrite P. exact Hf. }
  { apply body_lands_of. intros child t h2 S2 _ _ C2.
    destruct (parse_seek_child_lands h0 child t h2 C2) as (t' & h3 & E3 & L3). eauto. }
  rewrite E. cbn [obind]. destruct st as [a b].
  destruct (negb (a =? 0)); do 2 eexists; (split; [reflexivity|]);
    (split; [destruct S as [A B]; destruct S1 as [A1 B1]; split; congruence|]);
    intros _; unfold past; lia.
Qed.

Lemma parse_seekhead_child_mono seek_elem m h :
  monotone (fun fuel => parse_seekhead_child fuel seek_elem m h).
Proof.
  intros n k Hnk He. unfold parse_seekhead_child in *.
  destruct (negb (id seek_elem =? MKV_ID_SEEK)); [reflexivity|].
  apply obind_ended in He.
  rewrite (children_mono parse_seek_child parse_seek_child
             (fun _ _ _ _ => eq_refl) n k _ _ _ Hnk He).
  reflexivity.
Qed.

Lemma mkv_parse_seekhead_total fuel m h seekhead :
  (S (Z.to_nat (file_size h)) < fuel)%nat ->
  exists e m' h', mkv_parse_seekhead fuel m h seekhead = Done (e, m', h')
                  /\ same_file h h'.
Proof.
  intros Hf. unfold mkv_parse_seekhead.
  destruct (file_seek h (data_offset seekhead)) as [e0 h0] eqn:Sk.
  apply file_seek_spec in Sk. destruct Sk as (S0 & [(-> & Ho & P0)|(-> & _ & _)]);
    cbn [is_ok negb]; [|do 3 eexists; split; [reflexivity|exact S0]].
  destruct (children_total (parse_seekhead_child fuel) h fuel (end_offset seekhead) m h0)
    as (st & h2 & E & S2 & P2).
  - exact S0.
  - lia.
  - lia.
  - apply body_lands_of. intros child t h3 S3 P3 R3 C3.
    apply (parse_seekhead_child_lands fuel h); try assumption; try lia.
    unfold rest_from. lia.
  - rewrite E. cbn [obind]. do 3 eexists. split; [reflexivity|exact S2].
Qed.

Lemma mkv_parse_seekhead_mono m h seekhead :
  monotone (fun fuel => mkv_parse_seekhead fuel m h seekhead).
Proof.
  intros n k Hnk He. unfold mkv_parse_seekhead in *.
  destruct (file_seek h (data_offset seekhead)) as [e0 h0].
  destruct (negb (is_ok e0)); [reflexivity|].
  apply obind_ended in He.
  rewrite (children_mono (parse_seekhead_child n) (parse_seekhead_child k)) with (n := n);
    [reflexivity| |lia|exact He].
  intros child s h2 Hb. apply (parse_seekhead_child_mono child s h2 n k Hnk Hb).
Qed.

(** *** The structure *)
Lemma mkv_parse_structure_total fuel m h :
  0 <= fh_pos h ->
  (S (Z.to_nat (file_size h)) < fuel)%nat ->
  exists e m' h', mkv_parse_structure fuel m h = Done (e, m', h') /\ same_file h h'.
Proof.
  intros Hp Hf. unfold mkv_parse_structure.
  destruct (ebml_read_element_header h) as [[segment|e] h1] eqn:R.
  2:{ apply read_header_spec in R; [|exact Hp]. destruct R as (S1 & _).
      do 3 eexists. split; [reflexivity|exact S1]. }
  apply read_header_spec in R; [|exact Hp]. destruct R as (S1 & _).
  destruct (negb (id segment =? MKV_ID_SEGMENT));
    [do 3 eexists; split; [reflexivity|exact S1]|].
  pose proof (same_file_size _ _ S1) as Z1.
  match goal with
  | |- context [mkv_scan_structure fuel ?m0 h1] =>
      destruct (mkv_scan_structure_total fuel m0 h1) as (e2 & m1 & h2 & E2 & S2)
  end; [lia|].
  rewrite E2. cbn [obind].
  assert (S02 : same_file h h2) by (eapply same_file_trans; eauto).
  destruct (negb (is_ok e2)); [do 3 eexists; split; [reflexivity|exact S02]|].
  destruct (0 <=? seekhead_offset m1); [|do 3 eexists; split; [reflexivity|exact S02]].
  destruct (file_seek h2 (seekhead_offset m1)) as [e3 h3] eqn:Sk.
  apply file_seek_spec in Sk. destruct Sk as (S3 & [(-> & Ho & P3)|(-> & _ & _)]);
    cbn [is_ok negb].
  2:{ do 3 eexists. split; [reflexivity|]. eapply same_file_trans; eauto. }
  assert (S03 : same_file h h3) by (eapply same_file_trans; eauto).
  destruct (ebml_read_element_header h3) as [[seekhead|e] h4] eqn:R4.
  2:{ apply read_header_spec in R4; [|lia]. destruct R4 as (S4 & _).
      do 3 eexists. split; [reflexivity|]. eapply same_file_trans; eauto. }
  apply read_header_spec in R4; [|lia]. destruct R4 as (S4 & _).
  assert (S04 : same_file h h4) by (eapply same_file_trans; eauto).
  destruct (id seekhead =? MKV_ID_SEEKHEAD);
    [|do 3 eexists; split; [reflexivity|exact S04]].
  destruct (mkv_parse_seekhead_total fuel m1 h4 seekhead) as (e5 & m2 & h5 & E5 & S5).
  { rewrite (same_file_size _ _ S04). exact Hf. }
  rewrite E5. cbn [obind]. do 3 eexists. split; [reflexivity|].
  eapply same_file_trans; eauto.
Qed.

Lemma mkv_parse_structure_mono m h : monotone (fun fuel => mkv_parse_structure fuel m h).
Proof.
  intros n k Hnk He. unfold mkv_parse_structure in *.
  destruct (ebml_read_element_header h) as [[segment|e] h1]; [|reflexivity].
  destruct (negb (id segment =? MKV_ID_SEGMENT)); [reflexivity|].
  pose proof (obind_ended _ _ He) as He1.
  rewrite (mkv_scan_structure_mono _ h1 n k Hnk He1).
  destruct (mkv_scan_structure n _ h1) as [[[e2 m1] h2]| |]; cbn [obind] in *;
    try reflexivity.
  destruct (negb (is_ok e2)); [reflexivity|].
  destruct (0 <=? seekhead_offset m1); [|reflexivity].
  destruct (file_seek h2 (seekhead_offset m1)) as [e3 h3].
  destruct (negb (is_ok e3)); [reflexivity|].
  destruct (ebml_read_element_header h3) as [[seekhead|e] h4]; [|reflexivity].
  destruct (id seekhead =? MKV_ID_SEEKHEAD); [|reflexivity].
  pose proof (obind_ended _ _ He) as He5.
  rewrite (mkv_parse_seekhead_mono m1 h4 seekhead n k Hnk He5). reflexivity.
Qed.

Lemma open_internal_mono ctx content writable :
  monotone (fun fuel => mkvtag_open_internal fuel ctx content writable).
Proof.
  intros n k Hnk He. unfold mkvtag_open_internal in *.
  destruct (is_open ctx); [reflexivity|].
  destruct content as [data|]; [|reflexivity].
  pose proof (obind_ended _ _ He) as He1.
  rewrite (mkv_parse_header_mono _ _ n k Hnk He1).
  destruct (mkv_parse_header n _ _) as [[[e1 m1] h1]| |]; cbn [obind] in *;
    try reflexivity.
  destruct (negb (is_ok e1)); [reflexivity|].
  pose proof (obind_ended _ _ He) as He2.
  rewrite (mkv_parse_structure_mono _ _ n k Hnk He2). reflexivity.
Qed.

Lemma open_internal_total fuel ctx content writable :
  (S (Z.to_nat (match content with Some d => zlen d | None => 0 end)) < fuel)%nat ->
  exists e ctx', mkvtag_open_internal fuel ctx content writable = Done (e, ctx').
Proof.
  intros Hf. unfold mkvtag_open_internal.
  destruct (is_open ctx); [eauto|].
  destruct content as [data|]; [|eauto].
  destruct (mkv_parse_header_total fuel mkv_file_init (mk_file data 0 writable))
    as (e1 & m1 & h1 & E1 & S1 & P1).
  { unfold file_size. cbn [fh_data]. lia. }
  rewrite E1. cbn [obind].
  destruct (negb (is_ok e1)); [eauto|].
  destruct (mkv_parse_structure_total fuel m1 h1 P1) as (e2 & m2 & h2 & E2 & S2).
  { rewrite (same_file_size _ _ S1). unfold file_size. cbn [fh_data]. exact Hf. }
  rewrite E2. cbn [obind]. destruct (negb (is_ok e2)); eauto.
Qed.

(** [mkvtag_open] and [mkvtag_open_rw] end, whatever the file holds: a fuel
    of two more than the size of the file is enough, and more fuel does not
    change the outcome. *)
Theorem open_terminates (ctx : mkvtag_context) (content : option (list Z)) :
  settles (fun fuel => mkvtag_open fuel ctx content)
  /\ settles (fun fuel => mkvtag_open_rw fuel ctx content)
  /\ forall data fuel,
       content = Some data -> (length data + 2 <= fuel)%nat ->
       (exists e ctx', mkvtag_open fuel ctx content = Done (e, ctx'))
       /\ (exists e ctx', mkvtag_open_rw fuel ctx content = Done (e, ctx')).
Proof.
  assert (T : forall w fuel,
             (S (Z.to_nat (match content with Some d => zlen d | None => 0 end)) < fuel)%nat ->
             exists e ctx', mkvtag_open_internal fuel ctx content w = Done (e, ctx')).
  { intros w fuel Hf. apply open_internal_total. exact Hf. }
  assert (St : forall w, settles (fun fuel => mkvtag_open_internal fuel ctx content w)).
  { intros w.
    set (n := S (S (Z.to_nat (match content with Some d => zlen d | None => 0 end)))).
    apply settles_of_mono with (n := n); [apply open_internal_mono|].
    destruct (T w n) as (e & c & E); [unfold n; lia|]. rewrite E. apply ended_done. }
  split; [apply St|]. split; [apply St|].
  intros data fuel -> Hf. split; apply T; unfold zlen; lia.
Qed.


Lemma structure_kept_refl m : structure_kept m m.
Proof. repeat split; auto. Qed.

Lemma structure_kept_trans m0 m1 m2 :
  structure_kept m0 m1 -> structure_kept m1 m2 -> structure_kept m0 m2.
Proof.
  intros (A1 & A2 & A3 & A4) (B1 & B2 & B3 & B4). repeat split; try congruence. auto.
Qed.

Lemma store_kept m i off : structure_kept m (mkv_store_element_offset m i off).
Proof. repeat split; auto. Qed.

Lemma set_void_kept m off sz : structure_kept m (set_void m off sz).
Proof. repeat split; auto. Qed.

Lemma cache_update_length l i off sz l' :
  cache_update l i off sz = Some l' -> length l' = length l.
Proof.
  revert l'. induction l as [|x l IH]; intros l'; cbn [cache_update]; [discriminate|].
  destruct (pos_id x =? i).
  - intros E. inversion E. reflexivity.
  - destruct (cache_update l i off sz); cbn [option_map]; [|discriminate].
    intros E. inversion E. cbn [length]. f_equal. apply IH. reflexivity.
Qed.

Lemma cache_kept m i off sz : structure_kept m (mkv_cache_element m i off sz).
Proof.
  unfold mkv_cache_element.
  destruct (Z.leb_spec MKV_MAX_CACHED_ELEMENTS (zlen (elements m)));
    [apply structure_kept_refl|].
  destruct (cache_update (elements m) i off sz) as [l|] eqn:U.
  - repeat split; auto. cbn [elements set_elements]. intros _.
    apply cache_update_length in U. unfold zlen in *. rewrite U. lia.
  - repeat split; auto. cbn [elements set_elements]. intros _.
    rewrite zlen_app. change (zlen [mk_element_pos i off sz]) with 1. lia.
Qed.

Lemma scan_child_kept elem m h c h' :
  scan_structure_child elem m h = Done (c, h') ->
  structure_kept m (match c with Continue s => s | Break s => s end).
Proof.
  unfold scan_structure_child. cbv zeta.
  set (m1 := mkv_store_element_offset m (id elem) _).
  assert (K1 : structure_kept m m1) by apply store_kept.
  match goal with
  | |- context [if id elem =? MKV_ID_CLUSTER then Done (Break ?x, h) else _] =>
      set (m2 := x); assert (K2 : structure_kept m m2)
  end.
  { unfold m2. destruct (id elem =? EBML_ID_VOID); [|exact K1].
    destruct (_ || _); [|exact K1].
    eapply structure_kept_trans; [exact K1|apply set_void_kept]. }
  destruct (id elem =? MKV_ID_CLUSTER); [intros E; inversion E; exact K2|].
  destruct (ebml_skip_element h elem) as [e h1].
  destruct (negb (is_ok e)); intros E; inversion E; exact K2.
Qed.

Lemma scan_structure_kept fuel m h e m' h' :
  mkv_scan_structure fuel m h = Done (e, m', h') -> structure_kept m m'.
Proof.
  unfold mkv_scan_structure.
  destruct (file_seek h (segment_data_offset m)) as [e0 h0].
  destruct (negb (is_ok e0)); [intros E; inversion E; apply structure_kept_refl|].
  cbv zeta.
  match goal with
  | |- context [ebml_children _ _ ?x _ _] =>
      destruct (ebml_children scan_structure_child fuel x m h0) as [[m1 h1]| |] eqn:C
  end; cbn [obind]; try discriminate.
  intros E; inversion E; subst.
  apply (children_inv scan_structure_child (structure_kept m)) in C;
    [exact C| |apply structure_kept_refl].
  intros child s hh s' hh' Hi [B|B]; apply scan_child_kept in B;
    eapply structure_kept_trans; eauto.
Qed.

Lemma parse_seekhead_child_kept fuel seek_elem m h c h' :
  parse_seekhead_child fuel seek_elem m h = Done (c, h') ->
  structure_kept m (match c with Continue s => s | Break s => s end).
Proof.
  unfold parse_seekhead_child.
  destruct (negb (id seek_elem =? MKV_ID_SEEK));
    [intros E; inversion E; apply structure_kept_refl|].
  destruct (ebml_children parse_seek_child fuel _ _ h) as [[[a b] h1]| |];
    cbn [obind]; try discriminate.
  destruct (negb (a =? 0)); intros E; inversion E; [|apply structure_kept_refl].
  eapply structure_kept_trans; [apply store_kept|apply cache_kept].
Qed.

Lemma parse_seekhead_kept fuel m h seekhead e m' h' :
  mkv_parse_seekhead fuel m h seekhead = Done (e, m', h') -> structure_kept m m'.
Proof.
  unfold mkv_parse_seekhead.
  destruct (file_seek h (data_offset seekhead)) as [e0 h0].
  destruct (negb (is_ok e0)); [intros E; inversion E; apply structure_kept_refl|].
  destruct (ebml_children (parse_seekhead_child fuel) fuel _ m h0) as [[m1 h1]| |] eqn:C;
    cbn [obind]; try discriminate.
  intros E; inversion E; subst.
  apply (children_inv (parse_seekhead_child fuel) (structure_kept m)) in C;
    [exact C| |apply structure_kept_refl].
  intros child s hh s' hh' Hi [B|B]; apply parse_seekhead_child_kept in B;
    eapply structure_kept_trans; eauto.
Qed.

(** The Segment [mkv_parse_structure] found, when it succeeds. *)
Lemma parse_structure_result fuel m h e m' h' :
  0 <= fh_pos h ->
  mkv_parse_structure fuel m h = Done (e, m', h') ->
  e = MKVTAG_OK ->
  doctype m' = doctype m
  /\ (zlen (elements m) <= MKV_MAX_CACHED_ELEMENTS ->
      zlen (elements m') <= MKV_MAX_CACHED_ELEMENTS)
  /\ fh_pos h = segment_offset m'
  /\ segment_offset m' + 2 <= segment_data_offset m' <= file_size h.
Proof.
  intros Hp. unfold mkv_parse_structure.
  destruct (ebml_read_element_header h) as [[segment|e0] h1] eqn:R;
    [|intros E; inversion E; discriminate].
  apply read_header_spec in R; [|exact Hp].
  destruct R as (S1 & P1 & Pd & Rg & Sz & En & St).
  destruct (negb (id segment =? MKV_ID_SEGMENT)); [intros E; inversion E; discriminate|].
  set (m0 := set_segment m _ _ _ _).
  assert (K0 : doctype m0 = doctype m /\ elements m0 = elements m
               /\ segment_offset m0 = fh_pos h
               /\ segment_data_offset m0 = data_offset segment).
  { unfold m0. cbn. auto. }
  destruct K0 as (D0 & E0 & O0 & DO0).
  assert (Fin : forall mm, structure_kept m0 mm ->
             doctype mm = doctype m
             /\ (zlen (elements m) <= MKV_MAX_CACHED_ELEMENTS ->
                 zlen (elements mm) <= MKV_MAX_CACHED_ELEMENTS)
             /\ fh_pos h = segment_offset mm
             /\ segment_offset mm + 2 <= segment_data_offset mm <= file_size h).
  { intros mm (K1 & K2 & K3 & K4). rewrite K1, K2, K3, D0, O0, DO0.
    split; [reflexivity|]. split; [rewrite <- E0; exact K4|]. split; [reflexivity|lia]. }
  destruct (mkv_scan_structure fuel m0 h1) as [[[e2 m1] h2]| |] eqn:Sc;
    cbn [obind]; try discriminate.
  apply scan_structure_kept in Sc.
  destruct (negb (is_ok e2)) eqn:K2.
  { intros E; inversion E; subst. intros ->. discriminate. }
  destruct (0 <=? seekhead_offset m1);
    [|intros E; inversion E; subst; intros _; apply Fin; exact Sc].
  destruct (file_seek h2 (seekhead_offset m1)) as [e3 h3].
  destruct (negb (is_ok e3)) eqn:K3.
  { intros E; inversion E; subst. intros ->. discriminate. }
  destruct (ebml_read_element_header h3) as [[seekhead|e4] h4];
    [|intros E; inversion E; subst; intros _; apply Fin; exact Sc].
  destruct (id seekhead =? MKV_ID_SEEKHEAD);
    [|intros E; inversion E; subst; intros _; apply Fin; exact Sc].
  destruct (mkv_parse_seekhead fuel m1 h4 seekhead) as [[[e5 m2] h5]| |] eqn:Ps;
    cbn [obind]; try discriminate.
  apply parse_seekhead_kept in Ps.
  intros E; inversion E; subst. intros _. apply Fin.
  eapply structure_kept_trans; eauto.
Qed.

Lemma str_differs_false a b : str_differs a b = false -> a = b.
Proof.
  unfold str_differs. destruct (list_eq_dec Z.eq_dec a b); [auto|discriminate].
Qed.

Lemma parse_header_child_elements child st h c h' :
  parse_header_child child st h = Done (c, h') ->
  elements (snd (match c with Continue s => s | Break s => s end)) = elements (snd st).
Proof.
  unfold parse_header_child. cbv zeta.
  repeat match goal with
         | |- context [if id child =? ?k then _ else _] => destruct (id child =? k)
         end;
    repeat match goal with
           | |- context [ebml_read_uint ?h ?c] =>
               destruct (ebml_read_uint h c) as [[?|?] ?]
           | |- context [ebml_read_string ?h ?c ?n] =>
               destruct (ebml_read_string h c n) as [[? ?] ?]
           end;
    match goal with
    | |- context [ebml_skip_element ?h ?c] => destruct (ebml_skip_element h c) as [? ?]
    end;
    match goal with
    | |- context [negb (is_ok ?e)] => destruct (negb (is_ok e))
    end;
    intros E; inversion E; reflexivity.
Qed.

(** The document type [mkv_parse_header] accepted, and the cache it left
    empty. *)
Lemma parse_header_result fuel h e m' h' :
  mkv_parse_header fuel mkv_file_init h = Done (e, m', h') ->
  e = MKVTAG_OK ->
  (c_str (doctype m') = str_matroska \/ c_str (doctype m') = str_webm)
  /\ elements m' = [].
Proof.
  unfold mkv_parse_header.
  destruct (file_seek h 0) as [e0 h0].
  destruct (negb (is_ok e0)) eqn:K0.
  { intros E; inversion E; subst. intros ->. discriminate. }
  destruct (ebml_read_element_header h0) as [[header|e1] h1];
    [|intros E; inversion E; discriminate].
  destruct (negb (id header =? EBML_ID_EBML)); [intros E; inversion E; discriminate|].
  match goal with
  | |- context [ebml_children _ _ ?x ?s h1] =>
      destruct (ebml_children parse_header_child fuel x s h1) as [[[err m1] h2]| |] eqn:C
  end; cbn [obind]; try discriminate.
  apply (children_inv parse_header_child (fun st => elements (snd st) = [])) in C;
    [| |reflexivity].
  2:{ intros child s hh s' hh' Hi [B|B]; apply parse_header_child_elements in B;
        cbn in B; congruence. }
  cbn [snd] in C.
  destruct (negb (is_ok err)) eqn:K1.
  { intros E; inversion E; subst. intros ->. discriminate. }
  destruct (str_differs (c_str (doctype m1)) str_matroska) eqn:D1;
    [destruct (str_differs (c_str (doctype m1)) str_webm) eqn:D2|]; cbn [andb];
    intros E; inversion E; subst; try discriminate; intros _; split; try exact C.
  - right. apply str_differs_false. exact D2.
  - left. apply str_differs_false. exact D1.
Qed.

(** What a call of [mkvtag_open] or [mkvtag_open_rw] returns: an open
    context is refused and left as it is; a file that cannot be opened gives
    the I/O code; any other failure leaves the context closed; and a success
    opens the context in the mode asked for, on a file whose document type is
    matroska or webm, whose bytes are those found at the path, with the
    Segment inside the file and at most [MKV_MAX_CACHED_ELEMENTS] cached
    positions. *)
Theorem open_result (ctx ctx' : mkvtag_context) (content : option (list Z))
    (writable : bool) (fuel : nat) (e : mkvtag_error) :
  mkvtag_open_internal fuel ctx content writable = Done (e, ctx') ->
  (is_open ctx = true -> e = MKVTAG_ERR_ALREADY_OPEN /\ ctx' = ctx)
  /\ (is_open ctx = false -> content = None -> e = MKVTAG_ERR_IO /\ ctx' = ctx)
  /\ (e <> MKVTAG_OK -> is_open ctx' = is_open ctx /\ is_writable ctx' = is_writable ctx)
  /\ (e = MKVTAG_OK ->
      is_open ctx = false /\ is_open ctx' = true /\ is_writable ctx' = writable
      /\ fh_writable (file ctx') = writable
      /\ content = Some (fh_data (file ctx'))
      /\ (c_str (doctype (mkv ctx')) = str_matroska
          \/ c_str (doctype (mkv ctx')) = str_webm)
      /\ zlen (elements (mkv ctx')) <= MKV_MAX_CACHED_ELEMENTS
      /\ 0 <= segment_offset (mkv ctx')
      /\ segment_offset (mkv ctx') + 2 <= segment_data_offset (mkv ctx')
         <= file_size (file ctx')).
Proof.
  unfold mkvtag_open_internal.
  destruct (is_open ctx) eqn:Ho.
  { intros E; inversion E; subst. repeat split; auto; try discriminate. }
  destruct content as [data|].
  2:{ intros E; inversion E; subst. repeat split; auto; try discriminate. }
  destruct (mkv_parse_header fuel mkv_file_init (mk_file data 0 writable))
    as [[[e1 m1] h1]| |] eqn:Ph; cbn [obind]; try discriminate.
  pose proof (mkv_parse_header_mono mkv_file_init (mk_file data 0 writable)) as Mono.
  assert (T1 : same_file (mk_file data 0 writable) h1 /\ 0 <= fh_pos h1).
  { set (big := Nat.max fuel (S (Z.to_nat (file_size (mk_file data 0 writable))))).
    destruct (mkv_parse_header_total big mkv_file_init (mk_file data 0 writable))
      as (e' & m'' & h'' & E' & S' & P'); [unfold big; lia|].
    assert (Eq : mkv_parse_header big mkv_file_init (mk_file data 0 writable)
                 = mkv_parse_header fuel mkv_file_init (mk_file data 0 writable)).
    { apply (Mono fuel big); [unfold big; lia|]. rewrite Ph. apply ended_done. }
    rewrite Ph in Eq. rewrite E' in Eq. inversion Eq; subst. auto. }
  destruct T1 as [S1 P1].
  destruct (negb (is_ok e1)) eqn:K1.
  { intros E; inversion E; subst. split; [discriminate|]. split; [discriminate|].
    split; [intros _; cbn; auto|]. intros ->. discriminate. }
  apply negb_false_iff, is_ok_true in K1. subst e1.
  destruct (parse_header_result fuel _ _ _ _ Ph eq_refl) as [Dt El].
  destruct (mkv_parse_structure fuel m1 h1) as [[[e2 m2] h2]| |] eqn:Ps;
    cbn [obind]; try discriminate.
  assert (S2 : same_file h1 h2).
  { pose proof (mkv_parse_structure_mono m1 h1) as Mono2.
    set (big := Nat.max fuel (S (S (Z.to_nat (file_size h1))))).
    destruct (mkv_parse_structure_total big m1 h1 P1) as (e' & m'' & h'' & E' & S');
      [unfold big; lia|].
    assert (Eq : mkv_parse_structure big m1 h1 = mkv_parse_structure fuel m1 h1).
    { apply (Mono2 fuel big); [unfold big; lia|]. rewrite Ps. apply ended_done. }
    rewrite Ps in Eq. rewrite E' in Eq. inversion Eq; subst. exact S'. }
  destruct (negb (is_ok e2)) eqn:K2.
  { intros E; inversion E; subst. split; [discriminate|]. split; [discriminate|].
    split; [intros _; cbn; auto|]. intros ->. discriminate. }
  apply negb_false_iff, is_ok_true in K2. subst e2.
  destruct (parse_structure_result fuel m1 h1 _ m2 h2 P1 Ps eq_refl) as (D2 & E2 & O2 & R2).
  intros E; inversion E; subst.
  split; [discriminate|]. split; [discriminate|]. split; [intros C; contradiction|].
  intros _. cbn [is_open is_writable file mkv].
  destruct S1 as [A1 B1]. destruct S2 as [A2 B2]. cbn [fh_data fh_writable] in A1, B1.
  split; [reflexivity|]. split; [reflexivity|]. split; [reflexivity|].
  split; [congruence|]. split; [f_equal; congruence|].
  split; [rewrite D2; exact Dt|].
  split; [apply E2; rewrite El; vm_compute; intros H; discriminate H|].
  split; [lia|].
  unfold file_size in *. rewrite A2. exact R2.
Qed.

Lemma open_result_witness :
  (is_open mkvtag_create = true ->
   MKVTAG_OK = MKVTAG_ERR_ALREADY_OPEN /\ artist_ctx = mkvtag_create)
  /\ (is_open mkvtag_create = false -> Some file_with_artist = None ->
      MKVTAG_OK = MKVTAG_ERR_IO /\ artist_ctx = mkvtag_create)
  /\ (MKVTAG_OK <> MKVTAG_OK ->
      is_open artist_ctx = is_open mkvtag_create
      /\ is_writable artist_ctx = is_writable mkvtag_create)
  /\ (MKVTAG_OK = MKVTAG_OK ->
      is_open mkvtag_create = false /\ is_open artist_ctx = true
      /\ is_writable artist_ctx = true
      /\ fh_writable (file artist_ctx) = true
      /\ Some file_with_artist = Some (fh_data (file artist_ctx))
      /\ (c_str (doctype (mkv artist_ctx)) = str_matroska
          \/ c_str (doctype (mkv artist_ctx)) = str_webm)
      /\ zlen (elements (mkv artist_ctx)) <= MKV_MAX_CACHED_ELEMENTS
      /\ 0 <= segment_offset (mkv artist_ctx)
      /\ segment_offset (mkv artist_ctx) + 2 <= segment_data_offset (mkv artist_ctx)
         <= file_size (file artist_ctx)).
Proof.
  apply (open_result mkvtag_create artist_ctx (Some file_with_artist) true
           (S (length file_with_artist)) MKVTAG_OK).
  vm_compute. reflexivity.
Defined.


Lemma cache_update_find l i off sz l' j :
  cache_update l i off sz = Some l' ->
  find (fun e => pos_id e =? j) l'
  = if j =? i then Some (mk_element_pos i off sz) else find (fun e => pos_id e =? j) l.
Proof.
  revert l'. induction l as [|x l IH]; intros l'; cbn [cache_update]; [discriminate|].
  destruct (Z.eqb_spec (pos_id x) i) as [Hx|Hx].
  - intros E. inversion E. cbn [find pos_id]. rewrite Hx.
    rewrite (Z.eqb_sym i j). destruct (j =? i); reflexivity.
  - destruct (cache_update l i off sz) as [r|]; cbn [option_map]; [|discriminate].
    intros E. inversion E. cbn [find]. rewrite (IH r eq_refl).
    destruct (Z.eqb_spec (pos_id x) j) as [Hj|Hj]; [|reflexivity].
    destruct (Z.eqb_spec j i); [congruence|reflexivity].
Qed.

Lemma cache_update_none l i off sz :
  cache_update l i off sz = None -> find (fun e => pos_id e =? i) l = None.
Proof.
  induction l as [|x l IH]; cbn [cache_update find]; [reflexivity|].
  destruct (pos_id x =? i); [discriminate|].
  destruct (cache_update l i off sz); cbn [option_map]; [discriminate|]. auto.
Qed.

Lemma find_app_none {A} (f : A -> bool) l1 l2 :
  find f (l1 ++ l2) = match find f l1 with Some x => Some x | None => find f l2 end.
Proof. induction l1 as [|x l1 IH]; cbn [app find]; [reflexivity|]. destruct (f x); auto. Qed.

(** What is cached is what a lookup gives, the other entries stay, and a
    full cache takes nothing, not even a new position for an ID it has. *)
Theorem cache_then_lookup (m : mkv_file) (i off sz j : Z) :
  (zlen (elements m) < MKV_MAX_CACHED_ELEMENTS ->
   mkv_lookup_element (mkv_cache_element m i off sz) i = Some (mk_element_pos i off sz)
   /\ (j <> i ->
       mkv_lookup_element (mkv_cache_element m i off sz) j = mkv_lookup_element m j)
   /\ zlen (elements (mkv_cache_element m i off sz)) <= MKV_MAX_CACHED_ELEMENTS)
  /\ (MKV_MAX_CACHED_ELEMENTS <= zlen (elements m) -> mkv_cache_element m i off sz = m).
Proof.
  unfold mkv_cache_element, mkv_lookup_element. split.
  - intros Hlt. destruct (Z.leb_spec MKV_MAX_CACHED_ELEMENTS (zlen (elements m))); [lia|].
    destruct (cache_update (elements m) i off sz) as [l|] eqn:U; cbn [elements set_elements].
    + split; [|split].
      * rewrite (cache_update_find _ _ _ _ _ i U), Z.eqb_refl. reflexivity.
      * intros Hj. rewrite (cache_update_find _ _ _ _ _ j U).
        destruct (Z.eqb_spec j i); [contradiction|reflexivity].
      * apply cache_update_length in U. unfold zlen in *. rewrite U. lia.
    + split; [|split].
      * rewrite find_app_none, (cache_update_none _ _ _ _ U). cbn [find pos_id].
        rewrite Z.eqb_refl. reflexivity.
      * intros Hj. rewrite find_app_none. cbn [find pos_id].
        destruct (Z.eqb_spec i j); [congruence|].
        destruct (find _ (elements m)); reflexivity.
      * rewrite zlen_app. change (zlen [mk_element_pos i off sz]) with 1. lia.
  - intros Hge. destruct (Z.leb_spec MKV_MAX_CACHED_ELEMENTS (zlen (elements m))); [|lia].
    reflexivity.
Qed.

Lemma cache_then_lookup_witness :
  (zlen (elements mkv_file_init) < MKV_MAX_CACHED_ELEMENTS ->
   mkv_lookup_element (mkv_cache_element mkv_file_init MKV_ID_TAGS 100 0) MKV_ID_TAGS
   = Some (mk_element_pos MKV_ID_TAGS 100 0)
   /\ (MKV_ID_INFO <> MKV_ID_TAGS ->
       mkv_lookup_element (mkv_cache_element mkv_file_init MKV_ID_TAGS 100 0) MKV_ID_INFO
       = mkv_lookup_element mkv_file_init MKV_ID_INFO)
   /\ zlen (elements (mkv_cache_element mkv_file_init MKV_ID_TAGS 100 0))
      <= MKV_MAX_CACHED_ELEMENTS)
  /\ (MKV_MAX_CACHED_ELEMENTS <= zlen (elements mkv_file_init) ->
      mkv_cache_element mkv_file_init MKV_ID_TAGS 100 0 = mkv_file_init).
Proof. exact (cache_then_lookup mkv_file_init MKV_ID_TAGS 100 0 MKV_ID_INFO). Defined.

Lemma element_ok_fits x : element_ok x -> fits_vint (zlen (snd x)) = true /\ id_ok (fst x) = true.
Proof.
  intros (H1 & H2 & H3). split.
  - apply fits_vint_true. unfold EBML_VINT_MAX_8. lia.
  - apply id_class_ok; assumption.
Qed.

Lemma elements_bytes_cons x l :
  elements_bytes (x :: l) = element_bytes (fst x) (snd x) ++ elements_bytes l.
Proof. reflexivity. Qed.

Lemma element_bytes_pos i content :
  fits_vint (zlen content) = true -> 2 <= zlen (element_bytes i content).
Proof.
  intros Hf. rewrite (element_bytes_size _ _ Hf).
  pose proof (header_size_pos i content Hf). pose proof (zlen_nonneg content). lia.
Qed.

Lemma find_element_holds l :
  Forall element_ok l ->
  forall fuel d p w parent target,
    (length l < fuel)%nat ->
    holds d p (elements_bytes l) ->
    end_offset parent = p + zlen (elements_bytes l) ->
    mkv_find_element fuel (mk_file d p w) parent target
    = match first_with target l with
      | Some (before, x) =>
          Done (Ok (element_at (fst x) (snd x) (p + zlen (elements_bytes before))),
                mk_file d (p + zlen (elements_bytes before) + header_size (fst x) (snd x)) w)
      | None =>
          Done (Err MKVTAG_ERR_TAG_NOT_FOUND, mk_file d (p + zlen (elements_bytes l)) w)
      end.
Proof.
  induction 1 as [|x l Hx Hl IH]; intros fuel d p w parent target Hf H He.
  - destruct fuel as [|fuel]; [cbn in Hf; lia|].
    cbn [first_with elements_bytes map concat] in *. change (zlen (@nil Z)) with 0 in *.
    cbn [mkv_find_element]. unfold ebml_at_element_end, file_tell. cbn [fh_pos].
    rewrite He. destruct (Z.leb_spec (p + 0) p); [|lia]. rewrite Z.add_0_r. reflexivity.
  - destruct fuel as [|fuel]; [cbn in Hf; lia|]. cbn [length] in Hf.
    destruct (element_ok_fits x Hx) as [Hfit Hid].
    rewrite elements_bytes_cons in H, He. rewrite zlen_app in He.
    apply holds_app in H. destruct H as [H1 H2].
    pose proof (element_bytes_pos (fst x) (snd x) Hfit) as Hpos.
    pose proof (zlen_nonneg (elements_bytes l)) as Hn.
    pose proof H1 as [Hp _].
    cbn [mkv_find_element]. unfold ebml_at_element_end, file_tell. cbn [fh_pos].
    destruct (Z.leb_spec (end_offset parent) p); [lia|].
    rewrite (read_header_holds d p w (fst x) (snd x) Hid Hfit H1).
    cbn [id element_at first_with].
    destruct (Z.eqb_spec (fst x) target) as [Ht|Ht].
    + cbn [elements_bytes map concat]. change (zlen (@nil Z)) with 0.
      rewrite Z.add_0_r. reflexivity.
    + cbn [is_unknown_size negb]. rewrite andb_true_r.
      fold (element_at (fst x) (snd x) p).
      assert (Sk : ebml_skip_element (mk_file d (p + header_size (fst x) (snd x)) w)
                                     (element_at (fst x) (snd x) p)
                   = (MKVTAG_OK, mk_file d (p + zlen (element_bytes (fst x) (snd x))) w)).
      { unfold ebml_skip_element. cbn [is_unknown_size element_at end_offset].
        rewrite holds_seek.
        - rewrite (element_bytes_size _ _ Hfit). do 2 f_equal. lia.
        - pose proof (header_size_pos (fst x) (snd x) Hfit).
          pose proof (zlen_nonneg (snd x)). lia. }
      assert (R : mkv_find_element fuel
                    (mk_file d (p + zlen (element_bytes (fst x) (snd x))) w) parent target
                  = match first_with target l with
                    | Some (before, y) =>
                        Done (Ok (element_at (fst y) (snd y)
                                    (p + zlen (elements_bytes (x :: before)))),
                              mk_file d (p + zlen (elements_bytes (x :: before))
                                         + header_size (fst y) (snd y)) w)
                    | None =>
                        Done (Err MKVTAG_ERR_TAG_NOT_FOUND,
                              mk_file d (p + zlen (elements_bytes (x :: l))) w)
                    end).
      { rewrite (IH fuel d _ w parent target); [|lia|exact H2|lia].
        destruct (first_with target l) as [[before y]|];
          rewrite elements_bytes_cons, zlen_app, !Z.add_assoc; reflexivity. }
      destruct (fst x =? MKV_ID_CLUSTER); rewrite Sk; cbn [is_ok negb]; rewrite R;
        destruct (first_with target l) as [[before y]|]; reflexivity.
Qed.

Lemma first_with_spec target l :
  match first_with target l with
  | Some (before, x) =>
      fst x = target /\ Forall (fun y => fst y <> target) before
      /\ (exists rest, l = before ++ x :: rest)
  | None => Forall (fun y => fst y <> target) l
  end.
Proof.
  induction l as [|x l IH]; cbn [first_with]; [constructor|].
  destruct (Z.eqb_spec (fst x) target) as [E|E].
  - split; [exact E|]. split; [constructor|]. exists l. reflexivity.
  - destruct (first_with target l) as [[before y]|].
    + destruct IH as (A & B & rest & C). split; [exact A|].
      split; [constructor; assumption|]. exists rest. rewrite C. reflexivity.
    + constructor; assumption.
Qed.

(** [mkv_find_element] on a parent whose content, from the position of the
    handle to the end of the parent, is a row of well-formed elements: it
    gives the first of them with the ID looked for, with the handle at the
    start of its content, whether or not Clusters come before it; and when
    none has that ID it gives MKVTAG_ERR_TAG_NOT_FOUND with the handle at
    the end of the parent.  One turn of the loop for each element is enough. *)
Theorem find_element_first (l : list (Z * list Z)) (fuel : nat) (d : list Z) (p : Z)
    (w : bool) (parent : ebml_element) (target : Z) :
  Forall element_ok l ->
  (length l < fuel)%nat ->
  holds d p (elements_bytes l) ->
  end_offset parent = p + zlen (elements_bytes l) ->
  match first_with target l with
  | Some (before, x) =>
      fst x = target
      /\ Forall (fun y => fst y <> target) before
      /\ (exists rest, l = before ++ x :: rest)
      /\ mkv_find_element fuel (mk_file d p w) parent target
         = Done (Ok (element_at (fst x) (snd x) (p + zlen (elements_bytes before))),
                 mk_file d (p + zlen (elements_bytes before) + header_size (fst x) (snd x)) w)
  | None =>
      Forall (fun y => fst y <> target) l
      /\ mkv_find_element fuel (mk_file d p w) parent target
         = Done (Err MKVTAG_ERR_TAG_NOT_FOUND, mk_file d (p + zlen (elements_bytes l)) w)
  end.
Proof.
  intros Hl Hf H He.
  pose proof (find_element_holds l Hl fuel d p w parent target Hf H He) as R.
  pose proof (first_with_spec target l) as S.
  destruct (first_with target l) as [[before x]|].
  - destruct S as (S1 & S2 & S3). repeat split; assumption.
  - split; assumption.
Qed.

Lemma find_element_first_witness :
  match first_with MKV_ID_TAGS
          [(MKV_ID_INFO, [1; 2]); (MKV_ID_CLUSTER, [9]); (MKV_ID_TAGS, [3]);
           (MKV_ID_TAGS, [4])] with
  | Some (before, x) =>
      fst x = MKV_ID_TAGS
      /\ Forall (fun y => fst y <> MKV_ID_TAGS) before
      /\ (exists rest,
             [(MKV_ID_INFO, [1; 2]); (MKV_ID_CLUSTER, [9]); (MKV_ID_TAGS, [3]);
              (MKV_ID_TAGS, [4])] = before ++ x :: rest)
      /\ mkv_find_element 5
           (mk_file (elements_bytes
                       [(MKV_ID_INFO, [1; 2]); (MKV_ID_CLUSTER, [9]); (MKV_ID_TAGS, [3]);
                        (MKV_ID_TAGS, [4])]) 0 false)
           (mk_element MKV_ID_SEGMENT 25 0 25 4 1 false) MKV_ID_TAGS
         = Done (Ok (element_at (fst x) (snd x) (0 + zlen (elements_bytes before))),
                 mk_file (elements_bytes
                            [(MKV_ID_INFO, [1; 2]); (MKV_ID_CLUSTER, [9]);
                             (MKV_ID_TAGS, [3]); (MKV_ID_TAGS, [4])])
                         (0 + zlen (elements_bytes before) + header_size (fst x) (snd x))
                         false)
  | None =>
      Forall (fun y => fst y <> MKV_ID_TAGS)
             [(MKV_ID_INFO, [1; 2]); (MKV_ID_CLUSTER, [9]); (MKV_ID_TAGS, [3]);
              (MKV_ID_TAGS, [4])]
      /\ mkv_find_element 5
           (mk_file (elements_bytes
                       [(MKV_ID_INFO, [1; 2]); (MKV_ID_CLUSTER, [9]); (MKV_ID_TAGS, [3]);
                        (MKV_ID_TAGS, [4])]) 0 false)
           (mk_element MKV_ID_SEGMENT 25 0 25 4 1 false) MKV_ID_TAGS
         = Done (Err MKVTAG_ERR_TAG_NOT_FOUND,
                 mk_file (elements_bytes
                            [(MKV_ID_INFO, [1; 2]); (MKV_ID_CLUSTER, [9]);
                             (MKV_ID_TAGS, [3]); (MKV_ID_TAGS, [4])])
                         (0 + zlen (elements_bytes
                                      [(MKV_ID_INFO, [1; 2]); (MKV_ID_CLUSTER, [9]);
                                       (MKV_ID_TAGS, [3]); (MKV_ID_TAGS, [4])])) false)
  end.
Proof.
  apply (find_element_first
           [(MKV_ID_INFO, [1; 2]); (MKV_ID_CLUSTER, [9]); (MKV_ID_TAGS, [3]);
            (MKV_ID_TAGS, [4])] 5
           (elements_bytes
              [(MKV_ID_INFO, [1; 2]); (MKV_ID_CLUSTER, [9]); (MKV_ID_TAGS, [3]);
               (MKV_ID_TAGS, [4])]) 0 false
           (mk_element MKV_ID_SEGMENT 25 0 25 4 1 false) MKV_ID_TAGS).
  - repeat constructor; vm_compute; try reflexivity; intros H; discriminate H.
  - cbn. lia.
  - exact (holds_middle []
             (elements_bytes
                [(MKV_ID_INFO, [1; 2]); (MKV_ID_CLUSTER, [9]); (MKV_ID_TAGS, [3]);
                 (MKV_ID_TAGS, [4])]) []).
  - vm_compute. reflexivity.
Defined.


Lemma raw_id_bytes i : 0 < i < 2 ^ 32 -> raw_id (id_bytes i) = i.
Proof.
  intros H. unfold raw_id, id_bytes.
  pose proof (ebml_id_size_range i) as R.
  pose proof (fold_raw_store_be (Z.to_nat (ebml_id_size i)) i ltac:(lia)) as F.
  rewrite Z2Nat.id in F by lia.
  rewrite shiftr_small in F; [exact F| |lia].
  split; [lia|]. unfold ebml_id_size.
  repeat match goal with |- context [?a <=? ?b] => destruct (Z.leb_spec a b) end; cbn; lia.
Qed.

Lemma seek_id_item_read d w i :
  item_read parse_seek_child seek_step d w (IBinary MKV_ID_SEEK_ID (id_bytes i)).
Proof.
  pose proof (ebml_id_size_range i) as R. pose proof (id_bytes_length i) as L.
  assert (Hfit : fits_vint (zlen (id_bytes i)) = true) by (apply small_fits; lia).
  split; [vm_compute; reflexivity|]. split; [exact Hfit|].
  intros p [a b] H. unfold item_bytes in *. cbn [item_id item_content] in *.
  destruct (holds_content _ _ _ _ H Hfit) as [Hp Hc].
  pose proof (header_size_pos MKV_ID_SEEK_ID (id_bytes i) Hfit) as Lh.
  unfold parse_seek_child. cbn [id element_at].
  change (MKV_ID_SEEK_ID =? MKV_ID_SEEK_ID) with true. cbv iota.
  fold (element_at MKV_ID_SEEK_ID (id_bytes i) p).
  unfold ebml_read_binary. cbn [data_offset size element_at].
  rewrite holds_seek by lia. cbn [is_ok negb].
  assert (T : (if zlen (id_bytes i) <? 4 then zlen (id_bytes i) else 4) = zlen (id_bytes i)).
  { destruct (Z.ltb_spec (zlen (id_bytes i)) 4); lia. }
  rewrite T. rewrite (holds_read _ _ _ w Hc). cbn [is_ok negb].
  destruct (Z.ltb_spec 0 (zlen (id_bytes i))); [|lia].
  destruct (Z.leb_spec (zlen (id_bytes i)) 4); [|lia]. cbn [andb].
  fold (element_at MKV_ID_SEEK_ID (id_bytes i) p).
  rewrite skip_holds by assumption.
  cbn [seek_step snd]. change (MKV_ID_SEEK_ID =? MKV_ID_SEEK_ID) with true. cbv iota.
  destruct (Z.ltb_spec 0 (zlen (id_bytes i))); [|lia].
  destruct (Z.leb_spec (zlen (id_bytes i)) 4); [|lia]. reflexivity.
Qed.

Lemma seek_position_item_read d w pos :
  0 <= pos < 2 ^ 64 ->
  item_read parse_seek_child seek_step d w (IUint MKV_ID_SEEK_POSITION pos).
Proof.
  intros Hpos.
  pose proof (uint_bytes_length pos) as L. pose proof (uint_data_size_range pos) as R.
  assert (Hfit : fits_vint (zlen (uint_bytes pos)) = true) by (apply small_fits; lia).
  split; [vm_compute; reflexivity|]. split; [exact Hfit|].
  intros p [a b] H. unfold item_bytes in *. cbn [item_id item_content] in *.
  pose proof H as [Hp _].
  unfold parse_seek_child. cbn [id element_at].
  change (MKV_ID_SEEK_POSITION =? MKV_ID_SEEK_ID) with false.
  change (MKV_ID_SEEK_POSITION =? MKV_ID_SEEK_POSITION) with true. cbv iota.
  fold (element_at MKV_ID_SEEK_POSITION (uint_bytes pos) p).
  rewrite (read_uint_holds d _ w MKV_ID_SEEK_POSITION pos p Hpos H Hfit).
  rewrite skip_holds by assumption.
  cbn [seek_step fst]. change (MKV_ID_SEEK_POSITION =? MKV_ID_SEEK_POSITION) with true.
  reflexivity.
Qed.

(** An [int64_t] cast gives a value of the type that differs from its
    argument by a multiple of 2^64. *)
Lemma to_int64_spec z :
  - 2 ^ 63 <= to_int64 z < 2 ^ 63 /\ exists k, to_int64 z = z + k * 2 ^ 64.
Proof.
  unfold to_int64.
  pose proof (Z.mod_pos_bound (z + 2 ^ 63) (2 ^ 64) ltac:(lia)) as B.
  split; [lia|].
  exists (- ((z + 2 ^ 63) / 2 ^ 64)).
  rewrite (Z.mod_eq (z + 2 ^ 63) (2 ^ 64)) by lia. ring.
Qed.

Lemma to_int64_add_period z k : to_int64 (z + k * 2 ^ 64) = to_int64 z.
Proof.
  unfold to_int64.
  replace (z + k * 2 ^ 64 + 2 ^ 63) with (z + 2 ^ 63 + k * 2 ^ 64) by ring.
  rewrite Z.mod_add by lia. reflexivity.
Qed.

(** A Seek entry that [mkv_seekhead_build_entry] wrote is, for
    [mkv_parse_seekhead], an entry for that ID at that position: the offset
    recorded for the element is the one [mkv_segment_to_absolute] gives, the
    [int64_t] that differs by a multiple of 2^64 from the start of the
    Segment data plus the position of the entry: that sum itself when it is
    an [int64_t] and the position is below 2^63, and that sum less 2^64 when
    it passes 2^63. *)
Theorem seek_entry_roundtrip (i pos : Z) (m : mkv_file) :
  0 < i < 2 ^ 32 -> id_class i = true -> 0 <= pos < 2 ^ 64 ->
  (pos < 2 ^ 63 -> - 2 ^ 63 <= segment_data_offset m + pos < 2 ^ 63 ->
   mkv_segment_to_absolute m pos = segment_data_offset m + pos)
  /\ (pos < 2 ^ 63 -> 2 ^ 63 <= segment_data_offset m + pos < 2 ^ 63 + 2 ^ 64 ->
      mkv_segment_to_absolute m pos = segment_data_offset m + pos - 2 ^ 64)
  /\ (- 2 ^ 63 <= mkv_segment_to_absolute m pos < 2 ^ 63
      /\ (mkv_segment_to_absolute m pos - (segment_data_offset m + pos)) mod 2 ^ 64 = 0)
  /\ exists bs,
    (forall buf, mkv_seekhead_build_entry buf i pos = Ok (buf ++ bs))
    /\ forall pre post w fuel,
         (2 < fuel)%nat ->
         exists seek,
           ebml_read_element_header (mk_file (pre ++ bs ++ post) (zlen pre) w)
           = (Ok seek, mk_file (pre ++ bs ++ post) (data_offset seek) w)
           /\ id seek = MKV_ID_SEEK
           /\ parse_seekhead_child fuel seek m
                (mk_file (pre ++ bs ++ post) (data_offset seek) w)
              = Done (Continue
                        (mkv_cache_element
                           (mkv_store_element_offset m i (mkv_segment_to_absolute m pos))
                           i (mkv_segment_to_absolute m pos) 0),
                      mk_file (pre ++ bs ++ post) (zlen pre + zlen bs) w).
Proof.
  intros Hi Hc Hpos.
  split.
  { intros Hp Hr. unfold mkv_segment_to_absolute.
    rewrite (to_int64_small pos) by lia. apply to_int64_small. exact Hr. }
  split.
  { intros Hp Hr. unfold mkv_segment_to_absolute.
    rewrite (to_int64_small pos) by lia.
    replace (segment_data_offset m + pos)
      with ((segment_data_offset m + pos - 2 ^ 64) + 1 * 2 ^ 64) at 1 by ring.
    rewrite to_int64_add_period. apply to_int64_small. lia. }
  split.
  { unfold mkv_segment_to_absolute.
    destruct (to_int64_spec pos) as (_ & k1 & E1).
    destruct (to_int64_spec (segment_data_offset m + to_int64 pos)) as (Rg & k2 & E2).
    split; [exact Rg|].
    rewrite E2, E1.
    replace (segment_data_offset m + (pos + k1 * 2 ^ 64) + k2 * 2 ^ 64
             - (segment_data_offset m + pos))
      with ((k1 + k2) * 2 ^ 64) by ring.
    apply Z.mod_mul. lia. }
  pose proof (ebml_id_size_range i) as R. pose proof (id_bytes_length i) as L.
  pose proof (uint_bytes_length pos) as Lu. pose proof (uint_data_size_range pos) as Ru.
  set (inner := items_bytes (seek_entry_items i pos)).
  assert (Ei : inner = element_bytes MKV_ID_SEEK_ID (id_bytes i)
                       ++ element_bytes MKV_ID_SEEK_POSITION (uint_bytes pos)).
  { unfold inner, items_bytes, seek_entry_items. cbn [map concat item_bytes item_id item_content].
    rewrite app_nil_r. reflexivity. }
  assert (Fb : fits_vint (zlen (id_bytes i)) = true) by (apply small_fits; lia).
  assert (Fu : fits_vint (zlen (uint_bytes pos)) = true) by (apply small_fits; lia).
  assert (Li : zlen inner <= 2 * (2 + 1 + 8)).
  { rewrite Ei, zlen_app, !element_bytes_size by assumption. unfold header_size.
    change (ebml_id_size MKV_ID_SEEK_ID) with 2.
    change (ebml_id_size MKV_ID_SEEK_POSITION) with 2.
    assert (ebml_vint_size (zlen (id_bytes i)) = 1).
    { unfold ebml_vint_size, EBML_VINT_MAX_1.
      destruct (Z.leb_spec (zlen (id_bytes i)) (2 ^ 7 - 2)); [reflexivity|lia]. }
    assert (ebml_vint_size (zlen (uint_bytes pos)) = 1).
    { unfold ebml_vint_size, EBML_VINT_MAX_1.
      destruct (Z.leb_spec (zlen (uint_bytes pos)) (2 ^ 7 - 2)); [reflexivity|lia]. }
    lia. }
  assert (Fi : fits_vint (zlen inner) = true).
  { apply fits_vint_true. unfold EBML_VINT_MAX_8. lia. }
  exists (element_bytes MKV_ID_SEEK inner). split.
  { intros buf. unfold mkv_seekhead_build_entry, ebml_id_encode.
    destruct (Z.eqb_spec i 0); [lia|]. cbn [rbind]. fold (id_bytes i).
    rewrite binary_element_closed by (try discriminate; lia). rewrite Fb. cbn [rbind app].
    rewrite uint_element_closed by discriminate. cbn [rbind].
    rewrite <- Ei.
    rewrite master_header_closed by (try discriminate; apply zlen_nonneg).
    rewrite Fi. cbn [rbind]. unfold element_bytes. rewrite <- !app_assoc. reflexivity. }
  intros pre post w fuel Hf.
  set (d := pre ++ element_bytes MKV_ID_SEEK inner ++ post).
  pose proof (holds_middle pre (element_bytes MKV_ID_SEEK inner) post) as H. fold d in H.
  exists (element_at MKV_ID_SEEK inner (zlen pre)).
  split; [apply element_header_middle; [vm_compute; reflexivity|exact Fi]|].
  split; [reflexivity|].
  destruct (holds_content _ _ _ _ H Fi) as [Hp Hcn].
  unfold parse_seekhead_child. cbn [id element_at].
  change (MKV_ID_SEEK =? MKV_ID_SEEK) with true. cbn [negb].
  cbn [end_offset data_offset].
  pose proof (children_items parse_seek_child seek_step d w (seek_entry_items i pos)) as C.
  fold inner in C.
  change (end_offset (element_at MKV_ID_SEEK inner (zlen pre)))
    with (zlen pre + header_size MKV_ID_SEEK inner + zlen inner).
  change (data_offset (element_at MKV_ID_SEEK inner (zlen pre)))
    with (zlen pre + header_size MKV_ID_SEEK inner).
  rewrite C; [| |cbn [length seek_entry_items]; lia|exact Hcn].
  2:{ constructor; [apply seek_id_item_read|].
      constructor; [apply seek_position_item_read; exact Hpos|constructor]. }
  cbn [obind fold_left seek_entry_items seek_step fst snd].
  change (MKV_ID_SEEK_ID =? MKV_ID_SEEK_ID) with true.
  change (MKV_ID_SEEK_POSITION =? MKV_ID_SEEK_POSITION) with true. cbv iota.
  destruct (Z.ltb_spec 0 (zlen (id_bytes i))); [|lia].
  destruct (Z.leb_spec (zlen (id_bytes i)) 4); [|lia]. cbn [andb fst].
  rewrite raw_id_bytes by exact Hi.
  destruct (Z.eqb_spec i 0); [lia|]. cbn [negb].
  rewrite (element_bytes_size _ _ Fi). do 3 f_equal. lia.
Qed.

Lemma seek_entry_roundtrip_witness :
  (60 < 2 ^ 63 -> - 2 ^ 63 <= segment_data_offset mkv_file_init + 60 < 2 ^ 63 ->
   mkv_segment_to_absolute mkv_file_init 60 = segment_data_offset mkv_file_init + 60)
  /\ (60 < 2 ^ 63 ->
      2 ^ 63 <= segment_data_offset mkv_file_init + 60 < 2 ^ 63 + 2 ^ 64 ->
      mkv_segment_to_absolute mkv_file_init 60
      = segment_data_offset mkv_file_init + 60 - 2 ^ 64)
  /\ (- 2 ^ 63 <= mkv_segment_to_absolute mkv_file_init 60 < 2 ^ 63
      /\ (mkv_segment_to_absolute mkv_file_init 60
          - (segment_data_offset mkv_file_init + 60)) mod 2 ^ 64 = 0)
  /\ exists bs,
    (forall buf, mkv_seekhead_build_entry buf MKV_ID_TAGS 60 = Ok (buf ++ bs))
    /\ forall pre post w fuel,
         (2 < fuel)%nat ->
         exists seek,
           ebml_read_element_header (mk_file (pre ++ bs ++ post) (zlen pre) w)
           = (Ok seek, mk_file (pre ++ bs ++ post) (data_offset seek) w)
           /\ id seek = MKV_ID_SEEK
           /\ parse_seekhead_child fuel seek mkv_file_init
                (mk_file (pre ++ bs ++ post) (data_offset seek) w)
              = Done (Continue
                        (mkv_cache_element
                           (mkv_store_element_offset mkv_file_init MKV_ID_TAGS
                              (mkv_segment_to_absolute mkv_file_init 60))
                           MKV_ID_TAGS (mkv_segment_to_absolute mkv_file_init 60) 0),
                      mk_file (pre ++ bs ++ post) (zlen pre + zlen bs) w).
Proof.
  apply (seek_entry_roundtrip MKV_ID_TAGS 60 mkv_file_init).
  - vm_compute. split; reflexivity.
  - vm_compute. reflexivity.
  - lia.
Defined.


Lemma firstn_exact {A} (l : list A) n : zlen l = n -> firstn (Z.to_nat n) l = l.
Proof. intros <-. apply firstn_zlen. Qed.

Lemma id_decode_exact data :
  1 <= ebml_vint_length (hd 0 data) <= 4 ->
  zlen data = ebml_vint_length (hd 0 data) ->
  exists v, ebml_id_decode data = Ok (v, ebml_vint_length (hd 0 data)).
Proof.
  intros R L. destruct data as [|b0 rest]; [cbn in L; cbn in R; lia|].
  cbn [hd] in *. unfold ebml_id_decode.
  destruct (Z.eqb_spec (ebml_vint_length b0) 0); [lia|].
  destruct (Z.ltb_spec 4 (ebml_vint_length b0)); [lia|].
  destruct (Z.ltb_spec (zlen (b0 :: rest)) (ebml_vint_length b0)); [lia|].
  eexists. reflexivity.
Qed.

Lemma vint_decode_exact data :
  1 <= ebml_vint_length (hd 0 data) <= 8 ->
  zlen data = ebml_vint_length (hd 0 data) ->
  exists v, ebml_vint_decode data = Ok (v, ebml_vint_length (hd 0 data)).
Proof.
  intros R L. destruct data as [|b0 rest]; [cbn in L; cbn in R; lia|].
  cbn [hd] in *. unfold ebml_vint_decode.
  destruct (Z.eqb_spec (ebml_vint_length b0) 0); [lia|].
  destruct (Z.ltb_spec (zlen (b0 :: rest)) (ebml_vint_length b0)); [lia|].
  eexists. reflexivity.
Qed.

(** The rest of a VINT, read after its first byte. *)
Lemma read_rest h n e rest h' :
  1 <= n ->
  (if 1 <? n then file_read h (n - 1) else (MKVTAG_OK, [], h)) = (e, rest, h') ->
  (e = MKVTAG_OK /\ zlen rest = n - 1) \/ e = MKVTAG_ERR_TRUNCATED.
Proof.
  intros Hn. destruct (Z.ltb_spec 1 n).
  - intros E. apply file_read_spec in E. destruct E as (_ & _ & _ & [[-> L]|[-> _]]); auto.
  - intros E. inversion E; subst. left. split; [reflexivity|]. rewrite zlen_nil. lia.
Qed.

Lemma one_byte (b : list Z) : zlen b = 1 -> exists x, b = [x].
Proof.
  destruct b as [|x [|y b]]; intros H; try (cbn in H; discriminate).
  - exists x. reflexivity.
  - rewrite !zlen_cons in H. pose proof (zlen_nonneg b). lia.
Qed.

(** The lengths in a header that was read, and the codes of a header that
    was not. *)
Lemma read_header_lengths h r h' :
  ebml_read_element_header h = (r, h') ->
  match r with
  | Ok e =>
      1 <= id_length e <= 4 /\ 1 <= size_length e <= 8
      /\ (is_unknown_size e = true -> size e = EBML_SIZE_UNKNOWN)
  | Err c => c = MKVTAG_ERR_TRUNCATED \/ c = MKVTAG_ERR_INVALID_VINT
  end.
Proof.
  unfold ebml_read_element_header.
  destruct (file_read h 1) as [[e1 b] h1] eqn:R1.
  apply file_read_spec in R1. destruct R1 as (_ & _ & _ & C1).
  destruct C1 as [[-> L1]|[-> L1]]; cbn [is_ok negb]; [|intros E; inversion E; auto].
  destruct (one_byte b L1) as [b0 ->]. cbn [hd].
  pose proof (vint_length_range b0) as Rid.
  destruct (Z.eqb_spec (ebml_vint_length b0) 0) as [Z0|Z0]; cbn [orb];
    [intros E; inversion E; auto|].
  destruct (Z.ltb_spec 4 (ebml_vint_length b0)) as [Z4|Z4]; [intros E; inversion E; auto|].
  destruct (if 1 <? ebml_vint_length b0 then file_read h1 (ebml_vint_length b0 - 1)
            else (MKVTAG_OK, [], h1)) as [[e2 rest] h2] eqn:R2.
  apply read_rest in R2; [|lia].
  destruct R2 as [[-> L2]| ->]; cbn [is_ok negb]; [|intros E; inversion E; auto].
  rewrite firstn_exact by (rewrite zlen_app, L2; change (zlen [b0]) with 1; lia).
  destruct (id_decode_exact ([b0] ++ rest)) as [v Dv]; cbn [app hd]; try lia.
  { rewrite zlen_cons, L2. lia. }
  cbn [app] in Dv. cbn [app]. rewrite Dv.
  destruct (file_read h2 1) as [[e3 sb] h3] eqn:R3.
  apply file_read_spec in R3. destruct R3 as (_ & _ & _ & C3).
  destruct C3 as [[-> L3]|[-> L3]]; cbn [is_ok negb]; [|intros E; inversion E; auto].
  destruct (one_byte sb L3) as [s0 ->]. cbn [hd].
  pose proof (vint_length_range s0) as Rsz.
  destruct (Z.eqb_spec (ebml_vint_length s0) 0) as [Y0|Y0]; cbn [orb];
    [intros E; inversion E; auto|].
  destruct (Z.ltb_spec 8 (ebml_vint_length s0)) as [Y8|Y8]; [intros E; inversion E; auto|].
  destruct (if 1 <? ebml_vint_length s0 then file_read h3 (ebml_vint_length s0 - 1)
            else (MKVTAG_OK, [], h3)) as [[e4 srest] h4] eqn:R4.
  apply read_rest in R4; [|lia].
  destruct R4 as [[-> L4]| ->]; cbn [is_ok negb]; [|intros E; inversion E; auto].
  rewrite firstn_exact by (rewrite zlen_app, L4; change (zlen [s0]) with 1; lia).
  destruct (vint_decode_exact ([s0] ++ srest)) as [sz Ds]; cbn [app hd]; try lia.
  { rewrite zlen_cons, L4. lia. }
  cbn [app] in Ds. cbn [app]. rewrite Ds.
  intros E. inversion E; subst. cbn [id_length size_length is_unknown_size size].
  split; [lia|]. split; [lia|]. intros ->. reflexivity.
Qed.

(** The header reader, on any file: it leaves the file as it is and never
    moves back; a header that was read has an ID of 1 to 4 bytes and a size
    of 1 to 8 bytes, its content starts right after them, inside the file,
    where the handle is left, and an unknown size ends at the end of the
    file; a header that cannot be read gives MKVTAG_ERR_TRUNCATED or
    MKVTAG_ERR_INVALID_VINT; and [ebml_peek_element_header] gives the same
    result with the handle where it was. *)
Theorem header_reader_bounds (h h' : file_handle) (r : result ebml_element) :
  0 <= fh_pos h ->
  ebml_read_element_header h = (r, h') ->
  fh_data h' = fh_data h /\ fh_writable h' = fh_writable h /\ fh_pos h <= fh_pos h'
  /\ ebml_peek_element_header h = (r, mk_file (fh_data h) (fh_pos h) (fh_writable h))
  /\ match r with
     | Ok e =>
         1 <= id_length e <= 4 /\ 1 <= size_length e <= 8
         /\ data_offset e = fh_pos h + id_length e + size_length e
         /\ fh_pos h' = data_offset e
         /\ data_offset e <= file_size h
         /\ 0 <= size e
         /\ end_offset e = (if is_unknown_size e then file_size h
                            else data_offset e + size e)
         /\ (is_unknown_size e = true -> size e = EBML_SIZE_UNKNOWN)
     | Err c => c = MKVTAG_ERR_TRUNCATED \/ c = MKVTAG_ERR_INVALID_VINT
     end.
Proof.
  intros Hp E.
  pose proof (read_header_lengths h r h' E) as Hl.
  pose proof (read_header_spec h r h' E Hp) as ([D W] & P & Hs).
  split; [exact D|]. split; [exact W|]. split; [exact P|].
  split.
  { unfold ebml_peek_element_header, file_tell. rewrite E.
    rewrite file_seek_ok by exact Hp. cbn [snd]. unfold set_pos. rewrite D, W. reflexivity. }
  destruct r as [e|c]; [|exact Hl].
  destruct Hl as (L1 & L2 & L3). destruct Hs as (H1 & H2 & H3 & H4 & H5).
  repeat split; try lia; try assumption.
Qed.

Lemma header_reader_bounds_witness :
  fh_data (snd two_entries_header) = fh_data (set_pos (file two_entries_ctx) 106)
  /\ fh_writable (snd two_entries_header) = fh_writable (set_pos (file two_entries_ctx) 106)
  /\ fh_pos (set_pos (file two_entries_ctx) 106) <= fh_pos (snd two_entries_header)
  /\ ebml_peek_element_header (set_pos (file two_entries_ctx) 106)
     = (Ok two_entries_element,
        mk_file (fh_data (set_pos (file two_entries_ctx) 106))
                (fh_pos (set_pos (file two_entries_ctx) 106))
                (fh_writable (set_pos (file two_entries_ctx) 106)))
  /\ (1 <= id_length two_entries_element <= 4 /\ 1 <= size_length two_entries_element <= 8
      /\ data_offset two_entries_element
         = fh_pos (set_pos (file two_entries_ctx) 106) + id_length two_entries_element
           + size_length two_entries_element
      /\ fh_pos (snd two_entries_header) = data_offset two_entries_element
      /\ data_offset two_entries_element <= file_size (set_pos (file two_entries_ctx) 106)
      /\ 0 <= size two_entries_element
      /\ end_offset two_entries_element
         = (if is_unknown_size two_entries_element
            then file_size (set_pos (file two_entries_ctx) 106)
            else data_offset two_entries_element + size two_entries_element)
      /\ (is_unknown_size two_entries_element = true ->
          size two_entries_element = EBML_SIZE_UNKNOWN)).
Proof.
  apply (header_reader_bounds (set_pos (file two_entries_ctx) 106)
           (snd two_entries_header) (Ok two_entries_element)).
  - vm_compute. intros H. discriminate H.
  - vm_compute. reflexivity.
Defined.


Lemma same_flags_refl ctx : same_flags ctx ctx.
Proof. repeat split. Qed.

Lemma same_flags_trans a b c : same_flags a b -> same_flags b c -> same_flags a c.
Proof. intros (A1 & A2 & A3) (B1 & B2 & B3). repeat split; congruence. Qed.

Lemma same_flags_file ctx h : same_flags ctx (set_file ctx h).
Proof. repeat split. Qed.

Lemma same_flags_mkv ctx m : same_flags ctx (set_mkv ctx m).
Proof. repeat split. Qed.

Lemma write_tags_at_flags ctx off av c e ctx' :
  write_tags_at ctx off av c = (e, ctx') -> same_flags ctx ctx'.
Proof.
  intros W. destruct (write_tags_at_frame _ _ _ _ _ _ W) as (_ & A & B & C).
  repeat split; assumption.
Qed.

Lemma update_seekhead_flags fuel ctx off ctx' :
  update_seekhead fuel ctx off = Done ctx' -> same_flags ctx ctx'.
Proof.
  unfold update_seekhead.
  destruct (mkv_seekhead_update_tags fuel (mkv ctx) (file ctx) off) as [[e h]| |];
    cbn [obind]; try discriminate.
  intros E; inversion E. apply same_flags_file.
Qed.

Lemma try_replace_existing_flags fuel ctx c e ctx' :
  try_replace_existing_tags fuel ctx c = Done (e, ctx') -> same_flags ctx ctx'.
Proof.
  unfold try_replace_existing_tags.
  destruct (_ <? 0); [intros E; inversion E; apply same_flags_refl|].
  destruct (file_seek _ _) as [e1 h1].
  destruct (negb (is_ok e1)); [intros E; inversion E; apply same_flags_file|].
  destruct (ebml_read_element_header h1) as [[ex|e2] h2];
    [|intros E; inversion E; apply same_flags_file].
  destruct (existing_slot h2 _ ex) as [av h4].
  destruct (write_tags_at (set_file ctx h4) _ av c) as [err ctx1] eqn:W.
  apply write_tags_at_flags in W.
  assert (F1 : same_flags ctx ctx1)
    by (eapply same_flags_trans; [apply same_flags_file|exact W]).
  destruct (is_ok err); [|intros E; inversion E; subst; exact F1].
  destruct (update_seekhead fuel ctx1 _) as [ctx2| |] eqn:U; cbn [obind]; try discriminate.
  apply update_seekhead_flags in U. intros E; inversion E; subst.
  eapply same_flags_trans; eauto.
Qed.

Lemma try_replace_void_flags fuel ctx c e ctx' :
  try_replace_void fuel ctx c = Done (e, ctx') -> same_flags ctx ctx'.
Proof.
  unfold try_replace_void.
  destruct (_ || _); [intros E; inversion E; apply same_flags_refl|].
  destruct (write_tags_at ctx _ _ c) as [err ctx1] eqn:W.
  apply write_tags_at_flags in W.
  destruct (is_ok err); [|intros E; inversion E; subst; exact W].
  destruct (update_seekhead fuel _ _) as [ctx2| |] eqn:U; cbn [obind]; try discriminate.
  apply update_seekhead_flags in U. intros E; inversion E; subst.
  eapply same_flags_trans; [exact W|].
  eapply same_flags_trans; [apply same_flags_mkv|exact U].
Qed.

Lemma void_out_flags ctx : same_flags ctx (void_out_old_tags ctx).
Proof.
  unfold void_out_old_tags.
  destruct (0 <=? _); [|apply same_flags_refl].
  destruct (file_seek _ _) as [e h1].
  destruct (is_ok e); [|apply same_flags_file].
  destruct (ebml_read_element_header h1) as [[old|e2] h2]; [|apply same_flags_file].
  destruct (2 <=? _); [|apply same_flags_file].
  destruct (ebml_write_void_element [] _); apply same_flags_file.
Qed.

Lemma try_append_flags fuel ctx c e ctx' :
  try_append_tags fuel ctx c = Done (e, ctx') -> same_flags ctx ctx'.
Proof.
  unfold try_append_tags. cbv zeta.
  destruct (build_tags_element c) as [b|e0]; [|intros E; inversion E; apply same_flags_refl].
  destruct (if negb (segment_unknown_size (mkv ctx)) then patch_segment_size ctx b
            else (MKVTAG_OK, ctx)) as [err ctx1] eqn:P.
  assert (F1 : same_flags ctx ctx1).
  { destruct (negb (segment_unknown_size (mkv ctx))).
    - destruct (patch_segment_size_frame _ _ _ _ P) as (A & B & C & _).
      repeat split; assumption.
    - inversion P; subst. apply same_flags_refl. }
  destruct (negb (is_ok err)); [intros E; inversion E; subst; exact F1|].
  destruct (file_seek (file ctx1) _) as [e1 h1].
  destruct (negb (is_ok e1));
    [intros E; inversion E; subst;
     eapply same_flags_trans; [exact F1|apply same_flags_file]|].
  destruct (file_write h1 b) as [e2 h2].
  destruct (negb (is_ok e2));
    [intros E; inversion E; subst;
     eapply same_flags_trans; [exact F1|apply same_flags_file]|].
  destruct (negb (is_ok (file_sync h2)));
    [intros E; inversion E; subst;
     eapply same_flags_trans; [exact F1|apply same_flags_file]|].
  destruct (update_seekhead fuel _ _) as [ctx4| |] eqn:U; cbn [obind]; try discriminate.
  apply update_seekhead_flags in U. intros E; inversion E; subst.
  eapply same_flags_trans; [exact F1|].
  eapply same_flags_trans; [apply same_flags_file|].
  eapply same_flags_trans; [apply void_out_flags|].
  eapply same_flags_trans; [apply same_flags_mkv|exact U].
Qed.

(** The cache of the context follows the file: a collection that
    [mkvtag_read_tags] gave is in the cache and is what every later read
    gives, without a look at the file; [mkvtag_write_tags] given a collection
    the caller built, once it is past its checks, leaves the cache empty,
    whatever it returns, so that the next read parses the file; given the
    collection of the context, the one [mkvtag_read_tags] returned, it has
    no result past its checks, since it frees that collection before it
    serializes it; and [mkvtag_close] empties the cache. *)
Theorem tags_cache_follows_file (ctx : mkvtag_context) (fuel : nat) :
  (forall c ctx1,
     mkvtag_read_tags fuel ctx = Done (Ok c, ctx1) ->
     cached_tags ctx1 = Some c
     /\ forall m, mkvtag_read_tags m ctx1 = Done (Ok c, ctx1))
  /\ (forall c e ctx1,
        mkvtag_write_tags fuel ctx (Some (Built c)) = Done (e, ctx1) ->
        (is_open ctx = true /\ is_writable ctx = true ->
         cached_tags ctx1 = None /\ is_open ctx1 = true /\ is_writable ctx1 = true)
        /\ (is_open ctx = false \/ is_writable ctx = false -> ctx1 = ctx /\ e <> MKVTAG_OK))
  /\ (is_open ctx = true -> is_writable ctx = true ->
      mkvtag_write_tags fuel ctx (Some Cached) = Undefined)
  /\ cached_tags (mkvtag_close ctx) = None
  /\ is_open (mkvtag_close ctx) = false.
Proof.
  split; [|split; [|split; [|split; reflexivity]]].
  3:{ intros Ho Hw. unfold mkvtag_write_tags. rewrite Ho, Hw. reflexivity. }
  - intros c ctx1. unfold mkvtag_read_tags.
    destruct (is_open ctx) eqn:Ho; cbn [negb]; [|discriminate].
    assert (Hit : forall cx cc, is_open cx = true -> cached_tags cx = Some cc ->
                    forall m, mkvtag_read_tags m cx = Done (Ok cc, cx)).
    { intros cx cc Hx Hc m. unfold mkvtag_read_tags. rewrite Hx, Hc. reflexivity. }
    destruct (cached_tags ctx) as [c0|] eqn:Hc.
    { intros E; inversion E; subst. split; [exact Hc|]. apply Hit; assumption. }
    destruct (_ <? 0); [discriminate|].
    destruct (file_seek _ _) as [e1 h1].
    destruct (negb (is_ok e1)); [discriminate|].
    destruct (ebml_read_element_header h1) as [[el|e2] h2]; [|discriminate].
    destruct (negb (id el =? MKV_ID_TAGS)); [discriminate|].
    destruct (mkv_tags_parse fuel h2 el) as [[[cc|e3] h3]| |]; cbn [obind]; try discriminate.
    intros E; inversion E; subst. split; [reflexivity|]. apply Hit; [exact Ho|reflexivity].
  - intros c e ctx1. unfold mkvtag_write_tags.
    destruct (is_open ctx) eqn:Ho; cbn [negb].
    2:{ intros E; inversion E; subst. split; [intros [? ?]; discriminate|].
        intros _. split; [reflexivity|discriminate]. }
    destruct (is_writable ctx) eqn:Hw; cbn [negb].
    2:{ intros E; inversion E; subst. split; [intros [? ?]; discriminate|].
        intros _. split; [reflexivity|discriminate]. }
    intros E. split; [|intros [?|?]; discriminate]. intros _.
    set (ctx0 := set_cached_tags ctx None) in *.
    assert (F0 : is_open ctx0 = true /\ is_writable ctx0 = true /\ cached_tags ctx0 = None)
      by (cbn; auto).
    assert (Fin : forall cx, same_flags ctx0 cx ->
                    cached_tags cx = None /\ is_open cx = true /\ is_writable cx = true).
    { intros cx (A & B & C). destruct F0 as (F1 & F2 & F3). repeat split; congruence. }
    destruct (0 <=? tags_offset (mkv ctx0)).
    + destruct (try_replace_existing_tags fuel ctx0 c) as [[e1 c1]| |] eqn:S1;
        cbn [obind] in E; try discriminate.
      apply try_replace_existing_flags in S1.
      destruct (is_ok e1); [inversion E; subst; apply Fin; exact S1|].
      destruct (try_replace_void fuel c1 c) as [[e2 c2]| |] eqn:S2;
        cbn [obind] in E; try discriminate.
      apply try_replace_void_flags in S2.
      destruct (is_ok e2);
        [inversion E; subst; apply Fin; eapply same_flags_trans; eauto|].
      apply try_append_flags in E. apply Fin.
      eapply same_flags_trans; [exact S1|]. eapply same_flags_trans; eauto.
    + cbn [obind] in E.
      destruct (try_replace_void fuel ctx0 c) as [[e2 c2]| |] eqn:S2;
        cbn [obind] in E; try discriminate.
      apply try_replace_void_flags in S2.
      destruct (is_ok e2); [inversion E; subst; apply Fin; exact S2|].
      apply try_append_flags in E. apply Fin. eapply same_flags_trans; eauto.
Qed.

Lemma str_casecmp_lower a b b' :
  map tolower b = map tolower b' -> str_casecmp a b = str_casecmp a b'.
Proof.
  revert b b'. induction a as [|x a IH]; intros [|y b] [|y' b'] M; cbn [map] in M;
    try discriminate; cbn [str_casecmp hd]; try reflexivity.
  - inversion M as [[My Mb]]. rewrite My. reflexivity.
  - inversion M as [[My Mb]]. rewrite My.
    destruct (negb (tolower x - tolower y' =? 0)); [reflexivity|]. apply IH. exact Mb.
Qed.

Lemma find_simple_value_lower l name name' :
  map tolower name = map tolower name' ->
  find_simple_value l name = find_simple_value l name'.
Proof.
  intros M. induction l as [|s l IH]; cbn [find_simple_value]; [reflexivity|].
  assert (N : name_matches s name = name_matches s name').
  { unfold name_matches. destruct (st_name s); [|reflexivity].
    rewrite (str_casecmp_lower _ _ _ M). reflexivity. }
  rewrite N, IH. reflexivity.
Qed.

Lemma find_tag_value_lower l name name' :
  map tolower name = map tolower name' ->
  find_tag_value l name = find_tag_value l name'.
Proof.
  intros M. induction l as [|t l IH]; cbn [find_tag_value]; [reflexivity|].
  rewrite (find_simple_value_lower _ _ _ M), IH. reflexivity.
Qed.

Lemma find_tag_value_flat l name :
  find_tag_value l name = find_simple_value (flat_map simple_tags l) name.
Proof.
  induction l as [|t l IH]; cbn [find_tag_value flat_map]; [reflexivity|].
  rewrite find_simple_value_app, IH. reflexivity.
Qed.

(** [mkvtag_read_tag_string] on a collection that is in the cache: the
    value is that of the first simple tag, over the tags in order, whose
    name is [name] but for the case of its letters and whose value is not
    NULL; nested simple tags are not searched.  The value is copied when the
    buffer has room for it and its terminator; otherwise the buffer takes its
    first [size - 1] characters and the call gives MKVTAG_ERR_TAG_TOO_LARGE.
    The case of the letters of [name] does not matter. *)
Theorem read_tag_string_cached (ctx : mkvtag_context) (c : mkvtag_collection)
    (name name' : cstring) (size_ : Z) (fuel : nat) :
  is_open ctx = true -> cached_tags ctx = Some c -> 0 < size_ ->
  (map tolower name = map tolower name' ->
   mkvtag_read_tag_string fuel ctx (Some name') size_
   = mkvtag_read_tag_string fuel ctx (Some name) size_)
  /\ match find_simple_value (flat_map simple_tags (tags c)) name with
     | None =>
         mkvtag_read_tag_string fuel ctx (Some name) size_
         = Done (MKVTAG_ERR_TAG_NOT_FOUND, None, ctx)
     | Some v =>
         zlen v < 2 ^ 31 ->
         mkvtag_read_tag_string fuel ctx (Some name) size_
         = Done (if zlen v <? size_ then MKVTAG_OK else MKVTAG_ERR_TAG_TOO_LARGE,
                 Some (firstn (Z.to_nat (size_ - 1)) v), ctx)
     end.
Proof.
  intros Ho Hc Hs.
  assert (R : mkvtag_read_tags fuel ctx = Done (Ok c, ctx)).
  { unfold mkvtag_read_tags. rewrite Ho, Hc. reflexivity. }
  split.
  - intros M. unfold mkvtag_read_tag_string.
    destruct (size_ =? 0); [reflexivity|]. rewrite R. cbn [obind].
    rewrite (find_tag_value_lower _ _ _ M). reflexivity.
  - rewrite <- find_tag_value_flat. unfold mkvtag_read_tag_string.
    destruct (Z.eqb_spec size_ 0); [lia|]. rewrite R. cbn [obind].
    destruct (find_tag_value (tags c) name) as [v|]; [|reflexivity].
    intros Hv. unfold str_copy, strlen.
    destruct (Z.eqb_spec size_ 0); [lia|].
    pose proof (zlen_nonneg v) as Hn.
    destruct (Z.leb_spec size_ (zlen v)), (Z.ltb_spec (zlen v) size_); try lia.
    + cbn. reflexivity.
    + rewrite to_int32_small by lia.
      destruct (Z.ltb_spec (zlen v) 0); [lia|].
      rewrite firstn_all2 by (unfold zlen in *; lia). reflexivity.
Qed.

Lemma read_tag_string_cached_witness :
  (map tolower str_ARTIST = map tolower [97; 114; 116; 105; 115; 116] ->
   mkvtag_read_tag_string 0 (set_cached_tags artist_ctx (Some ordered_collection))
     (Some [97; 114; 116; 105; 115; 116]) 3
   = mkvtag_read_tag_string 0 (set_cached_tags artist_ctx (Some ordered_collection))
       (Some str_ARTIST) 3)
  /\ match find_simple_value (flat_map simple_tags (tags ordered_collection)) str_ARTIST with
     | None =>
         mkvtag_read_tag_string 0 (set_cached_tags artist_ctx (Some ordered_collection))
           (Some str_ARTIST) 3
         = Done (MKVTAG_ERR_TAG_NOT_FOUND, None,
                 set_cached_tags artist_ctx (Some ordered_collection))
     | Some v =>
         zlen v < 2 ^ 31 ->
         mkvtag_read_tag_string 0 (set_cached_tags artist_ctx (Some ordered_collection))
           (Some str_ARTIST) 3
         = Done (if zlen v <? 3 then MKVTAG_OK else MKVTAG_ERR_TAG_TOO_LARGE,
                 Some (firstn (Z.to_nat (3 - 1)) v),
                 set_cached_tags artist_ctx (Some ordered_collection))
     end.
Proof.
  apply (read_tag_string_cached (set_cached_tags artist_ctx (Some ordered_collection))
           ordered_collection str_ARTIST [97; 114; 116; 105; 115; 116] 3 0).
  - vm_compute. reflexivity.
  - reflexivity.
  - lia.
Defined.


Lemma void_size_loop_shape k n total :
  Z.of_nat k + n = 9 -> 1 <= n <= 8 ->
  0 <= total - 1 - n <= EBML_VINT_MAX_8 ->
  exists m sb,
    n <= m <= 8 /\ 0 <= total - 1 - m <= vint_max m
    /\ ebml_vint_encode_fixed (total - 1 - m) m = Ok sb
    /\ forall buf, void_size_loop k n buf total
                   = Ok (buf ++ sb ++ repeat 0 (Z.to_nat (total - 1 - m))).
Proof.
  revert n. induction k as [|k IH]; intros n Hk Hn Hc; [lia|].
  cbn [void_size_loop]. cbv zeta.
  assert (W : wrap64 (total - 1 - n) = total - 1 - n).
  { apply wrap64_small. unfold EBML_VINT_MAX_8 in Hc. lia. }
  rewrite W. rewrite vint_size_le by assumption.
  destruct (Z.leb_spec (total - 1 - n) (vint_max n)) as [Hle|Hgt].
  - rewrite encode_fixed_ok by lia. cbn [rbind].
    exists n. eexists. split; [lia|]. split; [lia|].
    split; [apply encode_fixed_ok; lia|]. reflexivity.
  - pose proof (vint_max_range n Hn) as R.
    assert (n <> 8).
    { intros ->. change (vint_max 8) with EBML_VINT_MAX_8 in Hgt. lia. }
    destruct (IH (n + 1)) as (m & sb & Hm & Hcm & E & L); try lia.
    exists m, sb. split; [lia|]. split; [exact Hcm|]. split; [exact E|exact L].
Qed.

(** The reader on a header whose size has the width [n]. *)
Lemma read_header_fixed d p w i c n sb :
  id_ok i = true -> 1 <= n <= 8 -> 0 <= c <= vint_max n ->
  ebml_vint_encode_fixed c n = Ok sb ->
  holds d p (id_bytes i ++ sb) ->
  ebml_read_element_header (mk_file d p w)
  = (Ok (mk_element i c (p + ebml_id_size i + n) (p + ebml_id_size i + n + c) n
                    (ebml_id_size i) false),
     mk_file d (p + ebml_id_size i + n) w).
Proof.
  intros Hid Hn Hc En H.
  unfold id_ok in Hid. apply andb_prop in Hid. destruct Hid as [Hl Hd].
  apply Z.eqb_eq in Hl.
  destruct (ebml_id_decode (id_bytes i)) as [[v k]|] eqn:D; [|discriminate].
  apply andb_prop in Hd. destruct Hd as [Hv Hk].
  apply Z.eqb_eq in Hv. apply Z.eqb_eq in Hk. subst v k.
  pose proof (ebml_id_size_range i) as Hr.
  pose proof (id_bytes_length i) as Li.
  destruct (decode_encode_fixed c n Hn Hc) as (sb' & En' & Ls & Dc).
  rewrite En in En'. inversion En'; subst sb'. clear En'.
  specialize (Dc []). rewrite app_nil_r in Dc.
  destruct sb as [|s0 srest]; [cbn in Ls; lia|].
  assert (Vl : ebml_vint_length s0 = n).
  { unfold ebml_vint_decode in Dc.
    destruct (ebml_vint_length s0 =? 0); [discriminate|].
    destruct (zlen (s0 :: srest) <? ebml_vint_length s0); [discriminate|].
    inversion Dc. reflexivity. }
  rewrite zlen_cons in Ls.
  destruct (id_bytes i) as [|b0 irest] eqn:I; [unfold zlen in Li; cbn in Li; lia|].
  cbn [hd] in Hl. rewrite zlen_cons in Li.
  change (b0 :: irest) with ([b0] ++ irest) in H. rewrite <- app_assoc in H.
  apply holds_app in H. destruct H as [H0 H]. change (zlen [b0]) with 1 in H.
  apply holds_app in H. destruct H as [H1 H].
  change (s0 :: srest) with ([s0] ++ srest) in H.
  apply holds_app in H. destruct H as [H2 H3]. change (zlen [s0]) with 1 in H3.
  unfold ebml_read_element_header.
  change 1 with (zlen [b0]) at 1. rewrite (holds_read _ _ _ _ H0). cbn [is_ok negb hd].
  change (zlen [b0]) with 1. rewrite Hl.
  destruct (Z.eqb_spec (ebml_id_size i) 0); [lia|].
  destruct (Z.ltb_spec 4 (ebml_id_size i)); [lia|]. cbn [orb].
  assert (R1 : (if 1 <? ebml_id_size i
                then file_read (mk_file d (p + 1) w) (ebml_id_size i - 1)
                else (MKVTAG_OK, [], mk_file d (p + 1) w))
               = (MKVTAG_OK, irest, mk_file d (p + ebml_id_size i) w)).
  { destruct (Z.ltb_spec 1 (ebml_id_size i)).
    - replace (ebml_id_size i - 1) with (zlen irest) by lia.
      rewrite (holds_read _ _ _ _ H1). do 2 f_equal. lia.
    - assert (zlen irest = 0) by lia. destruct irest; [|rewrite zlen_cons in *;
        pose proof (zlen_nonneg irest); lia].
      do 2 f_equal. lia. }
  rewrite R1. cbn [is_ok negb].
  replace (firstn (Z.to_nat (ebml_id_size i)) ([b0] ++ irest)) with (b0 :: irest).
  2:{ cbn [app]. replace (ebml_id_size i) with (zlen (b0 :: irest))
        by (rewrite zlen_cons; lia).
      symmetry. apply firstn_zlen. }
  rewrite D.
  replace (p + ebml_id_size i) with (p + 1 + zlen irest) by lia.
  change 1 with (zlen [s0]) at 2. rewrite (holds_read _ _ _ _ H2). cbn [is_ok negb hd].
  change (zlen [s0]) with 1. rewrite Vl.
  destruct (Z.eqb_spec n 0); [lia|].
  destruct (Z.ltb_spec 8 n); [lia|]. cbn [orb].
  set (q := p + 1 + zlen irest + 1) in *.
  assert (R2 : (if 1 <? n then file_read (mk_file d q w) (n - 1)
                else (MKVTAG_OK, [], mk_file d q w))
               = (MKVTAG_OK, srest, mk_file d (p + ebml_id_size i + n) w)).
  { unfold q. destruct (Z.ltb_spec 1 n).
    - replace (n - 1) with (zlen srest) by lia.
      rewrite (holds_read _ _ _ _ H3). do 2 f_equal. lia.
    - assert (zlen srest = 0) by lia. destruct srest; [|rewrite zlen_cons in *;
        pose proof (zlen_nonneg srest); lia].
      do 2 f_equal. lia. }
  rewrite R2. cbn [is_ok negb].
  replace (firstn (Z.to_nat n) ([s0] ++ srest)) with (s0 :: srest).
  2:{ cbn [app]. replace n with (zlen (s0 :: srest)) at 1 by (rewrite zlen_cons; lia).
      symmetry. apply firstn_zlen. }
  rewrite Dc.
  rewrite vint_not_unknown by lia.
  unfold file_tell. cbn [fh_pos].
  replace (p + 1 + zlen irest) with (p + ebml_id_size i) by lia. reflexivity.
Qed.

(** The padding [write_tags_at] leaves after the Tags element: a Void that
    [ebml_write_void_element] wrote is read as an element of ID 0xEC that
    ends where its bytes end, so that a reader skips it; the single zero
    byte written when one byte is left is not the start of an element. *)
Theorem padding_reads_back (total : Z) :
  2 <= total <= 2 ^ 56 ->
  exists bs,
    (forall buf, ebml_write_void_element buf total = Ok (buf ++ bs))
    /\ zlen bs = total
    /\ (forall pre post w,
        exists void,
          ebml_read_element_header (mk_file (pre ++ bs ++ post) (zlen pre) w)
          = (Ok void, mk_file (pre ++ bs ++ post) (data_offset void) w)
          /\ id void = EBML_ID_VOID
          /\ is_unknown_size void = false
          /\ end_offset void = zlen pre + total
          /\ ebml_skip_element (mk_file (pre ++ bs ++ post) (data_offset void) w) void
             = (MKVTAG_OK, mk_file (pre ++ bs ++ post) (zlen pre + total) w))
    /\ (forall pre post w,
          ebml_read_element_header (mk_file (pre ++ [0] ++ post) (zlen pre) w)
          = (Err MKVTAG_ERR_INVALID_VINT, mk_file (pre ++ [0] ++ post) (zlen pre + 1) w)).
Proof.
  intros Ht.
  destruct (void_size_loop_shape 8 1 total) as (m & sb & Hm & Hc & E & L);
    [reflexivity|lia|unfold EBML_VINT_MAX_8; lia|].
  set (c := total - 1 - m) in *.
  destruct (decode_encode_fixed c m ltac:(lia) Hc) as (sb' & E' & Ls & _).
  rewrite E in E'. inversion E'; subst sb'. clear E'.
  pose proof (zlen_nonneg sb) as Nsb.
  set (bs := EBML_ID_VOID :: sb ++ repeat 0 (Z.to_nat c)).
  assert (Lb : zlen bs = total).
  { unfold bs. rewrite zlen_cons, zlen_app. unfold zlen at 2. rewrite repeat_length.
    unfold c in *. lia. }
  exists bs. split.
  { intros buf. unfold ebml_write_void_element.
    destruct (Z.ltb_spec total 2); [lia|].
    rewrite L. rewrite <- app_assoc. reflexivity. }
  split; [exact Lb|]. split.
  - intros pre post w.
    pose proof (holds_middle pre bs post) as H.
    assert (Hh : holds (pre ++ bs ++ post) (zlen pre) (id_bytes EBML_ID_VOID ++ sb)).
    { unfold bs in H. change (EBML_ID_VOID :: sb ++ repeat 0 (Z.to_nat c))
        with ((id_bytes EBML_ID_VOID ++ sb) ++ repeat 0 (Z.to_nat c)) in H.
      apply holds_app in H. apply H. }
    pose proof (read_header_fixed _ _ w EBML_ID_VOID c m sb eq_refl ltac:(lia) Hc E Hh) as R.
    change (ebml_id_size EBML_ID_VOID) with 1 in R.
    eexists. split; [exact R|]. cbn [id is_unknown_size end_offset data_offset].
    split; [reflexivity|]. split; [reflexivity|].
    split; [unfold c; lia|].
    unfold ebml_skip_element. cbn [is_unknown_size end_offset].
    rewrite holds_seek by (pose proof (zlen_nonneg pre); unfold c in *; lia).
    do 2 f_equal. unfold c. lia.
  - intros pre post w.
    pose proof (holds_middle pre [0] post) as H.
    unfold ebml_read_element_header.
    change 1 with (zlen [0]) at 1. rewrite (holds_read _ _ _ w H). cbn [is_ok negb hd].
    reflexivity.
Qed.

Lemma padding_reads_back_witness :
  exists bs,
    (forall buf, ebml_write_void_element buf 129 = Ok (buf ++ bs))
    /\ zlen bs = 129
    /\ (forall pre post w,
        exists void,
          ebml_read_element_header (mk_file (pre ++ bs ++ post) (zlen pre) w)
          = (Ok void, mk_file (pre ++ bs ++ post) (data_offset void) w)
          /\ id void = EBML_ID_VOID
          /\ is_unknown_size void = false
          /\ end_offset void = zlen pre + 129
          /\ ebml_skip_element (mk_file (pre ++ bs ++ post) (data_offset void) w) void
             = (MKVTAG_OK, mk_file (pre ++ bs ++ post) (zlen pre + 129) w))
    /\ (forall pre post w,
          ebml_read_element_header (mk_file (pre ++ [0] ++ post) (zlen pre) w)
          = (Err MKVTAG_ERR_INVALID_VINT, mk_file (pre ++ [0] ++ post) (zlen pre + 1) w)).
Proof. apply (padding_reads_back 129). lia. Defined.


(** [buffer_append] is the append of lists the writers are modelled with:
    on a buffer whose bytes fit its capacity, with the bytes to add and
    those it has below 2^64 together, it adds exactly the bytes given, keeps
    the bytes it had, leaves the bytes within a capacity that did not
    shrink, and writes nothing past it; when no memory is given and the
    bytes do not fit, the buffer is left as it was. *)
Theorem buffer_append_is_app (buf : dyn_buffer) (d : list Z) (alloc_ok : bool) :
  buf_size buf <= buf_capacity buf < 2 ^ 64 ->
  0 < zlen d -> buf_size buf + zlen d < 2 ^ 64 ->
  (alloc_ok = true \/ buf_size buf + zlen d <= buf_capacity buf ->
   exists buf',
     buffer_append buf (Some d) (zlen d) alloc_ok = Done (MKVTAG_OK, buf')
     /\ buf_data buf' = buf_data buf ++ d
     /\ buf_size buf' <= buf_capacity buf' < 2 ^ 64
     /\ buf_capacity buf <= buf_capacity buf'
     /\ (buf_size buf + zlen d <= buf_capacity buf -> buf_capacity buf' = buf_capacity buf))
  /\ (alloc_ok = false -> buf_capacity buf < buf_size buf + zlen d ->
      buffer_append buf (Some d) (zlen d) alloc_ok = Done (MKVTAG_ERR_NO_MEMORY, buf)).
Proof.
  intros Hc Hd Ho.
  pose proof (zlen_nonneg (buf_data buf)) as Hn. unfold buf_size in *.
  assert (W : wrap64 (zlen (buf_data buf) + zlen d) = zlen (buf_data buf) + zlen d)
    by (apply wrap64_small; lia).
  unfold buffer_append, buffer_reserve, buf_size. cbv zeta.
  destruct (Z.eqb_spec (zlen d) 0); [lia|]. rewrite W.
  destruct (Z.leb_spec (zlen (buf_data buf) + zlen d) (buf_capacity buf)) as [Hfit|Hno].
  - split; [|lia]. intros _. cbn [is_ok negb].
    destruct (Z.ltb_spec (buf_capacity buf) (zlen (buf_data buf) + zlen d)); [lia|].
    eexists. split; [reflexivity|]. cbn [buf_data buf_capacity].
    rewrite firstn_zlen, zlen_app. repeat split; try lia.
  - split.
    + intros [-> |Hle]; [|lia]. cbn [is_ok negb buf_data buf_capacity].
      set (nc := if wrap64 (buf_capacity buf * BUFFER_GROWTH_FACTOR)
                      <? zlen (buf_data buf) + zlen d
                 then zlen (buf_data buf) + zlen d
                 else wrap64 (buf_capacity buf * BUFFER_GROWTH_FACTOR)).
      assert (Hnc : zlen (buf_data buf) + zlen d <= nc < 2 ^ 64).
      { unfold nc.
        pose proof (Z.mod_pos_bound (buf_capacity buf * BUFFER_GROWTH_FACTOR) (2 ^ 64)
                      ltac:(lia)) as B.
        fold (wrap64 (buf_capacity buf * BUFFER_GROWTH_FACTOR)) in B.
        destruct (Z.ltb_spec (wrap64 (buf_capacity buf * BUFFER_GROWTH_FACTOR))
                             (zlen (buf_data buf) + zlen d)); lia. }
      destruct (Z.ltb_spec nc (zlen (buf_data buf) + zlen d)); [lia|].
      eexists. split; [reflexivity|]. cbn [buf_data buf_capacity].
      rewrite firstn_zlen, zlen_app. repeat split; try lia.
    + intros -> _. reflexivity.
Qed.

Lemma buffer_append_is_app_witness :
  (true = true \/ buf_size (mk_buffer [1; 2] 2) + zlen [3; 4; 5] <= buf_capacity (mk_buffer [1; 2] 2) ->
   exists buf',
     buffer_append (mk_buffer [1; 2] 2) (Some [3; 4; 5]) (zlen [3; 4; 5]) true
     = Done (MKVTAG_OK, buf')
     /\ buf_data buf' = buf_data (mk_buffer [1; 2] 2) ++ [3; 4; 5]
     /\ buf_size buf' <= buf_capacity buf' < 2 ^ 64
     /\ buf_capacity (mk_buffer [1; 2] 2) <= buf_capacity buf'
     /\ (buf_size (mk_buffer [1; 2] 2) + zlen [3; 4; 5] <= buf_capacity (mk_buffer [1; 2] 2) ->
         buf_capacity buf' = buf_capacity (mk_buffer [1; 2] 2)))
  /\ (true = false ->
      buf_capacity (mk_buffer [1; 2] 2) < buf_size (mk_buffer [1; 2] 2) + zlen [3; 4; 5] ->
      buffer_append (mk_buffer [1; 2] 2) (Some [3; 4; 5]) (zlen [3; 4; 5]) true
      = Done (MKVTAG_ERR_NO_MEMORY, mk_buffer [1; 2] 2)).
Proof.
  apply (buffer_append_is_app (mk_buffer [1; 2] 2) [3; 4; 5] true).
  - vm_compute. split; [intros H; discriminate H|reflexivity].
  - vm_compute. reflexivity.
  - vm_compute. reflexivity.
Defined.

